(* ===== verification/_CoqProject ===== *)
-Q . S2P
Prelude.v
Bytes.v
Bitmap.v
Replacer.v
Disk.v
Log.v
BufferPool.v
Record.v
PoolRun.v
Rows.v
RowWrite.v
Scan.v
RowScan.v
Recovery.v
Restart.v
Streams.v
Meta.v
Keys.v
IxNode.v
IxOrder.v
IxPage.v
IxNodeSpec.v
Index.v
IxPool.v
IxTree.v
IxSearch.v
IxGrow.v
IxSplit.v
IxLeaf.v
IxInsert.v
IxRange.v
Txn.v
Lock.v
LockSafety.v
LockRelease.v
LockWanted.v
LockGaps.v
System.v
TxnManager.v
Rollback.v
Exec.v
ExecLaws.v
ExecTypes.v
ExecScan.v
ExecPlan.v
Dml.v
Tuples.v
DmlRows.v
Statements.v
Atomic.v
