(* ===== verification/Prelude.v ===== *)
(** * RMDB: a verification development

    RMDB is a small relational database in C++ (src/src/).  This library models its storage,
    logging, recovery, indexing, catalogue, locking, queries and changes of rows, and proves what
    makes them correct.

    ** How the program is put together

    The disk manager (storage/disk_manager.cpp) keeps the tables of open files and reads and
    writes pages of 4096 bytes.  The buffer pool (storage/buffer_pool_manager.cpp) keeps pages in
    frames, finds victims with a replacer (replacer/) and, before it writes a dirty page, flushes
    the log manager (recovery/log_manager.cpp) if the page is too new.  Record files (record/) and
    B+ trees (index/) are clients of the buffer pool: both change the bytes of pinned pages in
    place.  After a crash log_recovery.cpp reads the log and redoes and undoes changes of record
    files.  Transactions lock tables, records and gaps of keys in the lock manager
    (transaction/concurrency/).  The catalogue (system/sm_meta.h) describes tables, columns and
    indexes and is kept in a text file.  Above all of these a query runs as a tree of executors
    (execution/), which the portal (portal.h) makes from a plan: scans lock and read rows through
    the record files, joins and projections work on the tuples of their children.  INSERT, DELETE
    and UPDATE are executors as well: the portal first runs a scan to its end for the places of
    the rows, then the executor changes them, with their index entries, and adds each change to
    the transaction's write set and to the log.  The server (rmdb.cpp) rolls the transaction back
    when a statement aborts it, and commits behind a statement outside of a transaction.

    ** How it is modelled

    A call of the code is a function [M S A], from a state to an outcome and a state: [Ok] with a
    value, [Throw] with an exception, or [Stuck] for undefined behaviour and failing asserts.  The
    state is kept when a call throws, so that what an error leaves behind is visible.  Integers are
    [Z] with 32-bit wrap-around written out where the code can overflow; memory is a list of bytes,
    and structs in pages are read and written at the offsets of their fields.  Pointers into the
    buffer pool are frame numbers, so stale pointers are modelled too.  The operating system is a
    model of the POSIX calls the disk manager makes (Disk.v), short reads and writes included.
    Loops whose end is not structural have fuel: page slots and bitmap positions bound the loops in
    pages, a proof bounds the rounds of undo, the height of the tree bounds the walks in it, and
    the number of rows, or of pairs of tuples, the loops of the executors.

    ** The files

    - Prelude.v: outcomes, the monad, weakest preconditions [wp], relations every step stays in
      ([within]), 32-bit integers, lists.  Bytes.v: little-endian fields in byte lists.
    - Bitmap.v (record/bitmap.h), Replacer.v (replacer/: the class [Replacer] with its laws, which
      the buffer pool is proved against, and the LRU replacer as an instance), Disk.v
      (storage/disk_manager.cpp), Log.v (recovery/log_manager.h, .cpp), BufferPool.v and PoolRun.v
      (storage/buffer_pool_manager.cpp), Record.v (record/rm_file_handle.cpp, rm_manager.h), Scan.v
      (record/rm_scan.cpp).
    - Recovery.v (recovery/log_recovery.cpp) with Restart.v, its theorems on redo and undo.
    - Streams.v (the stream operators of the standard library), Meta.v (system/sm_meta.h and the
      values of common/common.h), Keys.v (the comparison of keys in index/ix_index_handle.h).
    - IxNode.v and Index.v (index/): nodes, tree, manager and scan as written.  IxOrder.v, IxPage.v
      and IxNodeSpec.v: sorted keys, the contents of a node's page, what the methods of a node do.
      IxTree.v: the tree as levels of nodes.  IxPool.v: the nodes of an index in the pool, with the
      handles a call holds.  IxSearch.v: from the root to a leaf.  IxGrow.v and IxLeaf.v: levels
      that grow; IxSplit.v and IxInsert.v: splits and insertion.  IxRange.v: scans over leaves.
    - Txn.v (transaction/), Lock.v (the lock manager; threads interleave where they wait) with
      LockSafety.v, LockRelease.v and LockGaps.v.  LockWanted.v: no lock call takes the last
      request out of a queue, which the release at the end of a transaction needs.
    - System.v: the state of the whole engine, with the index files as an instance of the class
      [IndexOps] of Lock.v.  TxnManager.v (transaction/transaction_manager.cpp); Rows.v (the rows
      of open tables) and Rollback.v, for its rollback.
    - Exec.v (execution/executor_abstract.h with the sequential scan, the projection, the nested
      loop join and the list of values, portal.h and the loop of execution_manager.cpp), an
      executor being an instance of the class [Executor].  ExecLaws.v: the class [Enumerates] of
      what executors promise to each other, and the joins and projections proved against it.
      ExecTypes.v: types of conditions.  RowScan.v and ExecScan.v: scans over open tables.
      ExecPlan.v: the meaning of a plan.
    - Dml.v (executor_insert.h, executor_delete.h, executor_update.h, with their part of portal.h,
      execution_manager.cpp and rmdb.cpp).  Tuples.v: the tuples INSERT and UPDATE make.
      RowWrite.v: operations on a record file with other open files around it.  DmlRows.v: what
      the steps of a statement leave to a rollback, with the class [LockFact] of what may be
      known of a transaction's locks all the while.  Statements.v: what a statement does.
      Atomic.v: transactions of several statements.

    ** What is proved

    - Record files refine a finite map of records, pages of the pool refine a store of pages
      without frames, the LRU list refines a queue, a bitmap is a set.
    - The open tables of the disk manager stay consistent; log file and buffer hold exactly the
      records added; records of the log and the catalogue survive their round trip.
    - The analysis pass builds the tables it should from any well-formed log; redo replays exactly
      the changes the pages miss, rebuilds the rows, and can be repeated after a crash; undo ends.
    - The searches, insertions and deletions in an index node, on its sorted pairs; insertion into
      the B+ tree refines insertion into the sorted list of its entries, and a scan between two
      keys, of an index with entries and with a free frame for each page, gives that part of the
      list.  The tree has at most 2^19
      pages (the offsets of a file are an [int]), so twenty levels, and fuel of twenty is enough.
    - Without gap locks, locks exclude each other in every interleaving, a lock call always
      answers, waits or aborts its transaction, and the release of a transaction returns if every
      table in its lock set is requested, by it or by another.  Lock calls and wake-ups keep that
      so, whatever way they end, but the release of another transaction may not: a transaction
      that dies as it asks for a table it has already keeps the table in its lock set without a
      request for it (LockGaps.v follows the null pointer its release comes to then).
    - The rollback of a transaction gives all tables without indexes the rows they had before
      its changes, releases its locks and logs its end, if its locks can be released.
    - Conditions and plans that pass a type check have a value, and the executors of such a plan
      deliver the answer of relational algebra, whatever instances of the laws their children are.
    - An INSERT, DELETE or UPDATE has the effect of its text on the rows, and after any statements
      of a transaction, however they ended, an abort gives back the rows there were at its
      beginning, when no other thread steps between the exception and the end of the abort.
      These theorems are on tables without indexes, whose rows no other transaction
      changes while a lock call waits, and with room for the pages of the new rows (2^19 pages
      are the most a file can have; [cap] bounds them, [fuel] the rows of so many pages).
    - Theorems of kind error, and the findings of the manifest, say what goes wrong where: pages
      that reach the disk before their log records, pages served after their file was closed, a
      restart that loses a committed record, deadlocks in spite of wait-die, and more.

    ** Where the model is coarser than the code

    The pin count of a page is a number without bound, where the code has an [int].  Recovery
    reads every record of the log into a buffer of zeroes, where the code uses one buffer again:
    the two differ on a log that ends inside a record.  A file that the code creates without a
    mode can be opened again.  The release of all locks of a transaction is one step, where other
    threads can come in between two locks.

    ** Not modelled

    mkdir and rm through system(), sockets, terminal output and the debugging prints (pure I/O); the
    generated parser and the analyzer, planner and optimizer above it; the executors of index scans,
    sorting, aggregation, subqueries and the loading of files; the system manager's commands;
    temporary files of the sort executors; data races inside of one call. *)
From stdpp Require Export base gmap list strings fin_maps numbers sets.
From Stdlib Require Export ZArith Lia.

Create HintDb rmdb.
Declare Scope rmdb_scope.
Delimit Scope rmdb_scope with rmdb.
#[global] Open Scope Z_scope.

(** ** Outcomes and the state monad of the C++ code *)

(** Why a transaction is rolled back (src/src/transaction/txn_defs.h). *)
Inductive AbortReason : Type :=
  LOCK_ON_SHIRINKING | UPGRADE_CONFLICT | DEADLOCK_PREVENTION | CONSTRAINT_VIOLATION.

(** The exceptions the modelled code throws (src/src/errors.h and the standard
    library's [std::runtime_error] and [std::out_of_range]). *)
Inductive exn : Type :=
  | InternalError (msg : string)
  | RuntimeError (msg : string)
  | UnixError
  | FileExistsError (msg : string)
  | FileNotFoundError (msg : string)
  | FileNotClosedError (msg : string)
  | FileNotOpenError (fd : Z)
  | InvalidRecordSizeError (size : Z)
  | OutOfRange
  | StringOverflowError
  | IncompatibleTypeError
  | TableNotFoundError (tab_name : list Z)
  | ColumnNotFoundError (col_name : list Z)
  | IndexNotFoundError (tab_name : list Z) (col_names : list (list Z))
  | IndexEntryExistsError
  | IndexEntryNotFoundError
  | InvalidColLengthError (col_len : Z)
  | InvalidValueCountError
  | TableExistsError (tab_name : list Z)
  | IndexExistsError (tab_name : list Z) (col_names : list (list Z))
  | TransactionAbortException (txn_id : Z) (reason : AbortReason).

(** [Ok]: the call returned; [Throw]: it threw; [Stuck]: it ran into undefined
    behaviour (a null or out-of-page access, a signed overflow) or a failing
    [assert]. *)
Inductive outcome (A : Type) : Type :=
  | Ok (a : A)
  | Throw (e : exn)
  | Stuck.
Arguments Ok {A} a.
Arguments Throw {A} e.
Arguments Stuck {A}.

#[export] Instance outcome_bind : MBind outcome := λ A B k o,
  match o with Ok a => k a | Throw e => Throw e | Stuck => Stuck end.
(** [None] is undefined behaviour. *)
Definition or_stuck {A} (o : option A) : outcome A := match o with Some a => Ok a | None => Stuck end.

(** A call of the C++ code: it takes the state and gives its outcome with the
    state it leaves, also when it throws. *)
Definition M (S A : Type) : Type := S → outcome A * S.

Definition ret {S A} (a : A) : M S A := λ s, (Ok a, s).
Definition throw {S A} (e : exn) : M S A := λ s, (Throw e, s).
Definition stuck {S A} : M S A := λ s, (Stuck, s).
Definition bind {S A B} (m : M S A) (k : A → M S B) : M S B := λ s,
  match m s with
  | (Ok a, s') => k a s'
  | (Throw e, s') => (Throw e, s')
  | (Stuck, s') => (Stuck, s')
  end.
Definition gets {S A} (f : S → A) : M S A := λ s, (Ok (f s), s).
Definition modify {S} (f : S → S) : M S unit := λ s, (Ok tt, f s).
Definition of_option {S A} (o : option A) : M S A :=
  match o with Some a => ret a | None => stuck end.
(** A pure function's answer as the answer of a call. *)
Definition of_outcome {S A} (o : outcome A) : M S A :=
  match o with Ok a => ret a | Throw e => throw e | Stuck => stuck end.
Definition massert {S} (b : bool) : M S unit := if b then ret tt else stuck.

(** Runs a call of a component on its part of a larger state. *)
Definition zoom {S T A} (prj : T → S) (upd : S → T → T) (m : M S A) : M T A := λ t,
  let '(o, s) := m (prj t) in (o, upd s t).

Notation "'let!' x ':=' m 'in' k" := (bind m (λ x, k))
  (at level 10, x pattern, m at level 100, k at level 200) : rmdb_scope.
Notation "'do!' m 'in' k" := (bind m (λ _, k))
  (at level 10, m at level 100, k at level 200) : rmdb_scope.
#[global] Open Scope rmdb_scope.

Section monad.
Context {S A B : Type}.
Implicit Types (m : M S A) (k : A → M S B) (s : S).

Lemma bind_Ok m k s b s' :
  bind m k s = (Ok b, s') ↔ ∃ a s1, m s = (Ok a, s1) ∧ k a s1 = (Ok b, s').
Proof.
  unfold bind. destruct (m s) as [[a|e|] s1] eqn:E; split.
  - eauto.
  - intros (a' & s1' & Heq & Hk). by simplify_eq.
  - done.
  - intros (a' & s1' & Heq & Hk). done.
  - done.
  - intros (a' & s1' & Heq & Hk). done.
Qed.

Lemma bind_run m k s a s1 : m s = (Ok a, s1) → bind m k s = k a s1.
Proof. unfold bind. by intros ->. Qed.

Lemma bind_gets (f : S → A) k s : bind (gets f) k s = k (f s) s.
Proof. done. Qed.

(** A run on a concrete state: its outcome, by evaluation. *)
Lemma run_outcome m s o s' : s' = (m s).2 → (m s).1 = o → m s = (o, s').
Proof. intros -> <-. by destruct (m s). Qed.

Lemma bind_throw m k s e s1 : m s = (Throw e, s1) → bind m k s = (Throw e, s1).
Proof. unfold bind. by intros ->. Qed.

Lemma bind_stuck m k s s1 : m s = (Stuck, s1) → bind m k s = (Stuck, s1).
Proof. unfold bind. by intros ->. Qed.

Lemma ret_Ok (a b : A) s s' : ret a s = (Ok b, s') ↔ b = a ∧ s' = s.
Proof. unfold ret. naive_solver. Qed.

Lemma gets_Ok (f : S → A) b s s' : gets f s = (Ok b, s') ↔ b = f s ∧ s' = s.
Proof. unfold gets. naive_solver. Qed.

Lemma modify_Ok (f : S → S) b s s' : modify f s = (Ok b, s') ↔ s' = f s.
Proof. unfold modify. destruct b. naive_solver. Qed.

Lemma of_option_Ok (o : option A) b s s' :
  of_option o s = (Ok b, s') ↔ o = Some b ∧ s' = s.
Proof. unfold of_option, ret, stuck. destruct o; naive_solver. Qed.

Lemma massert_Ok (p : bool) u s s' :
  massert p s = (Ok u, s') ↔ p = true ∧ s' = s.
Proof. unfold massert, ret, stuck. destruct p, u; naive_solver. Qed.
End monad.

(** [minv] takes a hypothesis [m s = (Ok a, s')] apart into the steps of [m]. *)
Ltac minv1 :=
  match goal with
  | H : bind _ _ _ = (Ok _, _) |- _ =>
      apply bind_Ok in H; let a := fresh "a" in let s1 := fresh "s" in
      let H1 := fresh "Hm" in destruct H as (a & s1 & H1 & H)
  | H : ret _ _ = (Ok _, _) |- _ => apply ret_Ok in H as [? ?]
  | H : gets _ _ = (Ok _, _) |- _ => apply gets_Ok in H as [? ?]
  | H : modify _ _ = (Ok _, _) |- _ => apply modify_Ok in H
  | H : of_option _ _ = (Ok _, _) |- _ => apply of_option_Ok in H as [? ?]
  | H : massert _ _ = (Ok _, _) |- _ => apply massert_Ok in H as [? ?]
  | H : throw _ _ = (Ok _, _) |- _ => discriminate H
  | H : stuck _ = (Ok _, _) |- _ => discriminate H
  end.
Ltac minv := repeat (minv1; simplify_eq/=).

(** ** Weakest preconditions

    [wp m Q E s]: the call [m] in the state [s] does not run into undefined behaviour; what
    it returns and the state it leaves satisfy [Q], what it throws and the state [E]. *)

Definition wp {S A} (m : M S A) (Q : A → S → Prop) (E : exn → S → Prop) (s : S) : Prop :=
  match m s with
  | (Ok a, s') => Q a s'
  | (Throw e, s') => E e s'
  | (Stuck, _) => False
  end.

Section wp.
Context {S : Type} (E : exn → S → Prop).
Implicit Types (s : S).

Lemma wp_bind {A B} (m : M S B) (k : B → M S A) Q s :
  wp m (λ b s', wp (k b) Q E s') E s → wp (bind m k) Q E s.
Proof. unfold wp, bind. by destruct (m s) as [[b|e|] s1]. Qed.

Lemma wp_bind_inv {A B} (m : M S B) (k : B → M S A) Q s :
  wp (bind m k) Q E s → wp m (λ b s', wp (k b) Q E s') E s.
Proof. unfold wp, bind. by destruct (m s) as [[b|e|] s1]. Qed.

Lemma wp_assoc {A B C} (m : M S A) (f : A → M S B) (g : B → M S C) Q s :
  wp (bind (bind m f) g) Q E s → wp (bind m (λ a, bind (f a) g)) Q E s.
Proof. unfold wp, bind. by destruct (m s) as [[a|e|] s1]. Qed.

Lemma wp_ret {A} (a : A) (Q : A → S → Prop) s : Q a s → wp (ret a) Q E s.
Proof. done. Qed.

Lemma wp_gets {A} (f : S → A) (Q : A → S → Prop) s : Q (f s) s → wp (gets f) Q E s.
Proof. done. Qed.

Lemma wp_modify (f : S → S) (Q : unit → _) s : Q tt (f s) → wp (modify f) Q E s.
Proof. done. Qed.

Lemma wp_of_option {A} (o : option A) (Q : A → S → Prop) s :
  is_Some o → (∀ a, o = Some a → Q a s) → wp (of_option o) Q E s.
Proof. intros [a ->] H. by apply H. Qed.

Lemma wp_massert b (Q : unit → _) s : b = true → Q tt s → wp (massert b) Q E s.
Proof. by intros ->. Qed.

Lemma wp_throw {A} e (Q : A → S → Prop) s : E e s → wp (throw e) Q E s.
Proof. done. Qed.

Lemma wp_mono {A} (m : M S A) Q Q' s : wp m Q E s → (∀ a s', Q a s' → Q' a s') → wp m Q' E s.
Proof. unfold wp. destruct (m s) as [[b|e|] s1]; auto. Qed.

(** The postcondition may use that the call returned. *)
Lemma wp_Ok {A} (m : M S A) Q s :
  wp m (λ _ _, True) E s → (∀ a s', m s = (Ok a, s') → Q a s') → wp m Q E s.
Proof. unfold wp. destruct (m s) as [[b|e|] s1]; auto. Qed.
(** So may a weaker one that is known. *)
Lemma wp_run {A} (m : M S A) Q Q' s :
  wp m Q' E s → (∀ a s', m s = (Ok a, s') → Q' a s' → Q a s') → wp m Q E s.
Proof. unfold wp. destruct (m s) as [[b|e|] s1]; auto. Qed.
End wp.

(** A call on a part of the state. *)
Lemma wp_zoom {S T A} (prj : T → S) (upd : S → T → T) (m : M S A) Q (E : exn → T → Prop) t :
  wp m (λ a s, Q a (upd s t)) (λ e s, E e (upd s t)) (prj t) → wp (zoom prj upd m) Q E t.
Proof. unfold wp, zoom. by destruct (m (prj t)) as [[b|e|] s1]. Qed.

Lemma wp_weaken {S A} (m : M S A) Q (E E' : exn → S → Prop) s :
  wp m Q E s → (∀ e s', E e s' → E' e s') → wp m Q E' s.
Proof. unfold wp. destruct (m s) as [[a|e|] s1]; auto. Qed.

(** ** Machine integers *)

Definition INT_MIN : Z := -2147483648.
Definition INT_MAX : Z := 2147483647.
Definition i32_ok (z : Z) : bool := (INT_MIN <=? z) && (z <=? INT_MAX).
(** the value of a 32-bit two's complement pattern *)
Definition wrap32 (z : Z) : Z := (z + 2 ^ 31) mod 2 ^ 32 - 2 ^ 31.

Lemma i32_ok_range z : i32_ok z = true ↔ - 2 ^ 31 ≤ z < 2 ^ 31.
Proof. unfold i32_ok, INT_MIN, INT_MAX. rewrite andb_true_iff. lia. Qed.

Lemma wrap32_id z : i32_ok z = true → wrap32 z = z.
Proof. rewrite i32_ok_range. intros ?. unfold wrap32. rewrite Z.mod_small; lia. Qed.

Lemma wrap32_range z : i32_ok (wrap32 z) = true.
Proof.
  apply i32_ok_range. unfold wrap32.
  pose proof (Z.mod_pos_bound (z + 2 ^ 31) (2 ^ 32)). lia.
Qed.

(** ** Lists *)

Lemma take_app_exact {A} (n : nat) (l k : list A) : length l = n → take n (l ++ k) = l.
Proof. intros <-. apply take_app_length. Qed.

Lemma drop_app_exact {A} (n : nat) (l k : list A) : length l = n → drop n (l ++ k) = k.
Proof. intros <-. apply drop_app_length. Qed.

Lemma NoDup_fmap_filter {A B} (f : A → B) (P : A → Prop) `{!∀ x, Decision (P x)} (l : list A) :
  NoDup (f <$> l) → NoDup (f <$> filter P l).
Proof.
  induction l as [|x l IH]; [done|]. rewrite fmap_cons, NoDup_cons, filter_cons.
  intros [Hx Hl]. case_decide; [|by apply IH]. rewrite fmap_cons, NoDup_cons.
  split; [|by apply IH]. intros (y & Heq & Hy)%list_elem_of_fmap.
  apply Hx, list_elem_of_fmap. exists y. split; [done|]. by apply list_elem_of_filter in Hy as [_ ?].
Qed.

Lemma filter_none {A} (P : A → Prop) `{!∀ x, Decision (P x)} (k : list A) :
  (∀ x, x ∈ k → ¬ P x) → filter P k = [].
Proof.
  induction k as [|x k IH]; intros Hk; [done|].
  rewrite filter_cons_False by (apply Hk; left). apply IH. intros y Hy. apply Hk. by right.
Qed.

Lemma filter_all {A} (P : A → Prop) `{!∀ x, Decision (P x)} (k : list A) :
  (∀ x, x ∈ k → P x) → filter P k = k.
Proof.
  induction k as [|x k IH]; intros Hk; [done|].
  rewrite filter_cons_True by (apply Hk; left). f_equal. apply IH. intros y Hy. apply Hk. by right.
Qed.

Lemma filter_ext_elem {A} (P Q : A → Prop) `{!∀ x, Decision (P x), !∀ x, Decision (Q x)} (k : list A) :
  (∀ x, x ∈ k → P x ↔ Q x) → filter P k = filter Q k.
Proof.
  induction k as [|x k IH]; intros Hk; [done|]. rewrite !filter_cons, IH by (intros y Hy; apply Hk; by right).
  apply decide_ext, Hk. by left.
Qed.

(** ** Relations every step of a call stays in

    [within R m]: whatever the outcome of [m], the state it leaves is in relation
    [R] to the one it was called in.  For an invariant [I], [within (keeps I) m]. *)

Definition within {S A} (R : relation S) (m : M S A) : Prop := ∀ s, R s (m s).2.
Definition keeps {S} (I : S → Prop) : relation S := λ s s', I s → I s'.

#[export] Instance keeps_preorder {S} (I : S → Prop) : PreOrder (keeps I).
Proof. split; unfold keeps; [intros ?; tauto|intros ???; tauto]. Qed.

Section within.
Context {S : Type} (R : relation S) `{!PreOrder R}.

Lemma within_bind {A B} (m : M S A) (k : A → M S B) :
  within R m → (∀ a, within R (k a)) → within R (bind m k).
Proof.
  intros Hm Hk s. unfold bind. specialize (Hm s).
  destruct (m s) as [[a|e|] s1]; simpl in *; [|done..]. etrans; [exact Hm|]. apply Hk.
Qed.

(** The continuation may use what a call that returned established. *)
Lemma within_bind_Ok {A B} (m : M S A) (k : A → M S B) s :
  R s (m s).2 → (∀ a s1, m s = (Ok a, s1) → R s1 (k a s1).2) → R s (bind m k s).2.
Proof.
  intros Hm Hk. unfold bind. destruct (m s) as [[a|e|] s1] eqn:E; simpl in *; [|done..].
  etrans; [exact Hm|]. by apply Hk.
Qed.

Lemma within_ret {A} (a : A) : within R (ret a).
Proof. intros s. simpl. reflexivity. Qed.
Lemma within_throw {A} e : within R (throw (A := A) e).
Proof. intros s. simpl. reflexivity. Qed.
Lemma within_stuck {A} : within R (stuck (A := A)).
Proof. intros s. simpl. reflexivity. Qed.
Lemma within_gets {A} (f : S → A) : within R (gets f).
Proof. intros s. simpl. reflexivity. Qed.
Lemma within_of_option {A} (o : option A) : within R (of_option o).
Proof. intros s. destruct o; simpl; reflexivity. Qed.
Lemma within_massert b : within R (massert b).
Proof. intros s. destruct b; simpl; reflexivity. Qed.
Lemma within_modify (f : S → S) : (∀ s, R s (f s)) → within R (modify f).
Proof. intros H s. simpl. apply H. Qed.
End within.

(** What every step keeps holds of the state a call ends in. *)
Lemma wp_within_both {S A} (Rel : relation S) (m : M S A) (Q : A → S → Prop) E s :
  wp m Q E s → within Rel m → wp m (λ a s', Q a s' ∧ Rel s s') (λ e s', E e s' ∧ Rel s s') s.
Proof. unfold wp. intros H Hw. specialize (Hw s). by destruct (m s) as [[a|e|] s1]. Qed.

#[export] Hint Resolve within_bind within_ret within_throw within_stuck within_gets
  within_of_option within_massert within_modify : rmdb.

(** [within_steps] leaves the calls and updates of a body to prove. *)
Ltac within_steps :=
  repeat match goal with
    | |- within _ (ret _) => apply within_ret; typeclasses eauto
    | |- within _ (throw _) => apply within_throw; typeclasses eauto
    | |- within _ stuck => apply within_stuck; typeclasses eauto
    | |- within _ (gets _) => apply within_gets; typeclasses eauto
    | |- within _ (of_option _) => apply within_of_option; typeclasses eauto
    | |- within _ (massert _) => apply within_massert; typeclasses eauto
    | |- within _ (bind _ _) => apply within_bind; [typeclasses eauto| |intros ?]
    | |- within _ (match ?x with _ => _ end) => destruct x
    | |- within _ (let _ := _ in _) => progress cbv zeta
    end.
