(* ===== verification/Bytes.v ===== *)
(** * Byte memory and the integer encodings of the x86-64 target

    A block of [char] memory is a list of bytes held by their unsigned values.
    [rd] and [wr] are the bounded reads and writes of the C++ pointers into such
    a block: [None] is an access outside of the block.  Integers are stored in
    little-endian two's complement, as the C++ [memcpy]s and
    [reinterpret_cast]s of [int], [uint32_t] and [size_t] lay them out. *)
From S2P Require Import Prelude.

Abbreviation bytes := (list Z).
Abbreviation len l := (Z.of_nat (length l)).

Definition rd (mem : bytes) (off n : Z) : option bytes :=
  if (0 <=? off) && (0 <=? n) && (off + n <=? len mem)
  then Some (take (Z.to_nat n) (drop (Z.to_nat off) mem)) else None.

Definition wr (mem : bytes) (off : Z) (bs : bytes) : option bytes :=
  if (0 <=? off) && (off + len bs <=? len mem)
  then Some (take (Z.to_nat off) mem ++ bs ++ drop (Z.to_nat off + length bs) mem)
  else None.

(** ** Integers in memory *)

Fixpoint le_bytes (n : nat) (z : Z) : bytes :=
  match n with
  | O => []
  | S n => z mod 256 :: le_bytes n (z / 256)
  end.
Fixpoint le_uint (bs : bytes) : Z :=
  match bs with
  | [] => 0
  | b :: bs => b + 256 * le_uint bs
  end.

Definition rd_i32 (mem : bytes) (off : Z) : option Z :=
  bs ← rd mem off 4; Some (wrap32 (le_uint bs)).
Definition rd_u32 (mem : bytes) (off : Z) : option Z :=
  bs ← rd mem off 4; Some (le_uint bs).
Definition rd_u64 (mem : bytes) (off : Z) : option Z :=
  bs ← rd mem off 8; Some (le_uint bs).
Definition i32 (z : Z) : bytes := le_bytes 4 z.
Definition u32 (z : Z) : bytes := le_bytes 4 z.
Definition u64 (z : Z) : bytes := le_bytes 8 z.

Definition byte_ok (b : Z) : Prop := 0 ≤ b < 256.

(** ** Laws of [rd] and [wr] *)

Lemma rd_Some mem off n bs :
  rd mem off n = Some bs ↔
  0 ≤ off ∧ 0 ≤ n ∧ off + n ≤ len mem ∧
  bs = take (Z.to_nat n) (drop (Z.to_nat off) mem).
Proof.
  unfold rd. destruct (_ && _) eqn:E.
  - rewrite !andb_true_iff in E. naive_solver lia.
  - rewrite !andb_false_iff in E. naive_solver lia.
Qed.

Lemma wr_Some mem off bs mem' :
  wr mem off bs = Some mem' ↔
  0 ≤ off ∧ off + len bs ≤ len mem ∧
  mem' = take (Z.to_nat off) mem ++ bs ++ drop (Z.to_nat off + length bs) mem.
Proof.
  unfold wr. destruct (_ && _) eqn:E.
  - rewrite !andb_true_iff in E. naive_solver lia.
  - rewrite !andb_false_iff in E. naive_solver lia.
Qed.

Lemma rd_is_Some mem off n :
  0 ≤ off → 0 ≤ n → off + n ≤ len mem → is_Some (rd mem off n).
Proof. intros. eexists. apply rd_Some. eauto. Qed.

Lemma wr_is_Some mem off bs :
  0 ≤ off → off + len bs ≤ len mem → is_Some (wr mem off bs).
Proof. intros. eexists. apply wr_Some. eauto. Qed.

Lemma rd_length mem off n bs : rd mem off n = Some bs → len bs = n.
Proof. rewrite rd_Some. intros (? & ? & ? & ->). rewrite length_take, length_drop. lia. Qed.

Lemma wr_length mem off bs mem' : wr mem off bs = Some mem' → length mem' = length mem.
Proof.
  rewrite wr_Some. intros (? & ? & ->).
  rewrite !length_app, length_take, length_drop. lia.
Qed.

Lemma rd_lookup mem off n bs i :
  rd mem off n = Some bs → 0 ≤ i < n → bs !! Z.to_nat i = mem !! Z.to_nat (off + i).
Proof.
  rewrite rd_Some. intros (? & ? & ? & ->) ?.
  rewrite lookup_take_lt by lia. rewrite lookup_drop. f_equal. lia.
Qed.

Lemma wr_lookup mem off bs mem' i :
  wr mem off bs = Some mem' → 0 ≤ i →
  mem' !! Z.to_nat i =
    if decide (off ≤ i < off + len bs) then bs !! Z.to_nat (i - off) else mem !! Z.to_nat i.
Proof.
  rewrite wr_Some. intros (? & ? & ->) ?. case_decide as D.
  - rewrite lookup_app_r; rewrite length_take; [|lia].
    rewrite lookup_app_l by lia. f_equal. lia.
  - destruct (decide (i < off)).
    + rewrite lookup_app_l by (rewrite length_take; lia). apply lookup_take_lt. lia.
    + rewrite lookup_app_r; rewrite length_take; [|lia].
      rewrite lookup_app_r by lia. rewrite lookup_drop. f_equal. lia.
Qed.

Lemma rd_wr_same mem off bs mem' n :
  wr mem off bs = Some mem' → n = len bs → rd mem' off n = Some bs.
Proof.
  intros Hw ->. pose proof (wr_length _ _ _ _ Hw). apply wr_Some in Hw as (? & ? & ->).
  apply rd_Some. split_and!; [lia|lia|lia|].
  rewrite drop_app_exact by (rewrite length_take; lia).
  symmetry. apply take_app_exact. lia.
Qed.

Lemma rd_wr_disjoint mem off bs mem' off2 n2 :
  wr mem off bs = Some mem' → off2 + n2 ≤ off ∨ off + len bs ≤ off2 →
  rd mem' off2 n2 = rd mem off2 n2.
Proof.
  intros Hw Hd. pose proof (wr_length _ _ _ _ Hw) as HL.
  unfold rd. rewrite HL. destruct (_ && _) eqn:E; [|done].
  rewrite !andb_true_iff in E. f_equal. apply list_eq. intros i.
  destruct (decide (i < Z.to_nat n2)%nat).
  - rewrite !lookup_take_lt, !lookup_drop by lia.
    pose proof (wr_lookup _ _ _ _ (off2 + Z.of_nat i) Hw) as Hi.
    rewrite decide_False in Hi by lia.
    replace (Z.to_nat (off2 + Z.of_nat i)) with (Z.to_nat off2 + i)%nat in Hi by lia.
    apply Hi. lia.
  - rewrite !lookup_take_ge by lia. done.
Qed.

Lemma wr_rd_id mem off n bs : rd mem off n = Some bs → wr mem off bs = Some mem.
Proof.
  intros Hr. pose proof (rd_length _ _ _ _ Hr). apply rd_Some in Hr as (? & ? & ? & ->).
  apply wr_Some. split_and!; [lia|lia|].
  rewrite length_take, length_drop.
  replace (Z.to_nat off + _)%nat with (Z.to_nat off + Z.to_nat n)%nat by lia.
  rewrite <- drop_drop, take_drop, take_drop. done.
Qed.

Lemma wr_wr_same mem off bs mem1 bs2 :
  wr mem off bs = Some mem1 → length bs2 = length bs → wr mem1 off bs2 = wr mem off bs2.
Proof.
  intros Hw Hl. pose proof (wr_length _ _ _ _ Hw) as HL.
  unfold wr. rewrite HL. destruct (_ && _) eqn:E; [|done].
  rewrite !andb_true_iff in E. apply wr_Some in Hw as (? & ? & ->). f_equal.
  rewrite take_app_exact by (rewrite length_take; lia). f_equal. f_equal.
  rewrite (assoc_L (++)), Hl. apply drop_app_exact. rewrite length_app, length_take. lia.
Qed.

Lemma wr_forall (P : Z → Prop) mem off bs mem' :
  wr mem off bs = Some mem' → Forall P mem → Forall P bs → Forall P mem'.
Proof.
  rewrite wr_Some. intros (? & ? & ->) ??.
  repeat apply Forall_app_2; [by apply Forall_take|done|by apply Forall_drop].
Qed.

(** ** Laws of the encodings *)

Lemma le_bytes_length n z : length (le_bytes n z) = n.
Proof. revert z. induction n; intros; simpl; congruence. Qed.

Lemma le_bytes_ok n z : Forall byte_ok (le_bytes n z).
Proof.
  revert z. induction n; intros z; simpl; constructor; [|done].
  apply Z.mod_pos_bound. lia.
Qed.

Lemma le_uint_bytes n z : le_uint (le_bytes n z) = z mod 256 ^ Z.of_nat n.
Proof.
  revert z. induction n as [|n IH]; intros z; simpl.
  - by rewrite Z.mod_1_r.
  - rewrite IH. rewrite Nat2Z.inj_succ, Z.pow_succ_r by lia.
    rewrite Z.rem_mul_r by lia. lia.
Qed.

Lemma le_uint_range bs : Forall byte_ok bs → 0 ≤ le_uint bs < 256 ^ len bs.
Proof.
  induction 1 as [|b bs Hb _ IH]; simpl; [lia|].
  rewrite Nat2Z.inj_succ, Z.pow_succ_r by lia. unfold byte_ok in Hb. lia.
Qed.

#[global] Arguments le_bytes : simpl never.
#[global] Arguments le_uint : simpl never.
#[global] Arguments i32 : simpl never.
#[global] Arguments u32 : simpl never.
#[global] Arguments u64 : simpl never.

Lemma wrap32_le_uint_i32 z : i32_ok z = true → wrap32 (le_uint (i32 z)) = z.
Proof.
  intros Hz. unfold i32. rewrite le_uint_bytes.
  change (256 ^ Z.of_nat 4) with (2 ^ 32). unfold wrap32.
  rewrite Z.add_mod_idemp_l by lia. by apply wrap32_id in Hz.
Qed.

Lemma rd_i32_wr mem off z mem' :
  wr mem off (i32 z) = Some mem' → i32_ok z = true → rd_i32 mem' off = Some z.
Proof.
  intros Hw Hz. unfold rd_i32. rewrite (rd_wr_same _ _ _ _ 4 Hw) by done. simpl.
  by rewrite wrap32_le_uint_i32.
Qed.

Lemma rd_i32_disjoint mem off bs mem' off2 :
  wr mem off bs = Some mem' → off2 + 4 ≤ off ∨ off + len bs ≤ off2 →
  rd_i32 mem' off2 = rd_i32 mem off2.
Proof. intros. unfold rd_i32. by erewrite rd_wr_disjoint. Qed.

Lemma rd_i32_range mem off z : rd_i32 mem off = Some z → i32_ok z = true.
Proof. unfold rd_i32. destruct (rd mem off 4); intros ?; simplify_eq/=. apply wrap32_range. Qed.

Lemma rd_i32_is_Some mem off : 0 ≤ off → off + 4 ≤ len mem → is_Some (rd_i32 mem off).
Proof.
  intros. unfold rd_i32. destruct (rd_is_Some mem off 4) as [bs ->]; [lia..|]. simpl. eauto.
Qed.

(** Consecutive fields: a field is read back from where the fields before it end. *)
Lemma rd_app_l bs1 bs2 off n :
  0 ≤ off → 0 ≤ n → off + n ≤ len bs1 → rd (bs1 ++ bs2) off n = rd bs1 off n.
Proof.
  intros. destruct (rd_is_Some bs1 off n) as [x Hx]; [lia..|]. rewrite Hx.
  apply rd_Some in Hx as (? & ? & ? & ->). apply rd_Some. rewrite length_app.
  split_and!; [lia..|]. rewrite drop_app_le by lia. symmetry. apply take_app_le.
  rewrite length_drop. lia.
Qed.

Lemma rd_field pre bs post off n :
  off = len pre → n = len bs → rd (pre ++ bs ++ post) off n = Some bs.
Proof.
  intros -> ->. apply rd_Some. rewrite !length_app. split_and!; [lia..|].
  rewrite drop_app_exact by lia. symmetry. apply take_app_exact. lia.
Qed.

#[export] Hint Resolve le_bytes_ok : rmdb.
#[export] Hint Rewrite le_bytes_length : rmdb.
