(* ===== verification/Bitmap.v ===== *)
(** * Bitmap (src/src/record/bitmap.h)

    The class [Bitmap] works on a [char *bm] inside of a page: here the page is
    the byte block [mem] and [bm] the offset of the bitmap in it, so that a
    position past the bitmap touches the bytes that follow it, as in the code,
    and a position past the page is [None]. *)
From S2P Require Import Prelude Bytes.

Module Bitmap.

Definition BITMAP_WIDTH : Z := 8.
Definition BITMAP_HIGHEST_BIT : Z := 128.

Definition get_bucket (pos : Z) : Z := Z.quot pos BITMAP_WIDTH.
Definition get_bit (pos : Z) : Z := Z.shiftr BITMAP_HIGHEST_BIT (Z.rem pos BITMAP_WIDTH).

Definition rd_char (mem : bytes) (off : Z) : option Z :=
  if 0 <=? off then mem !! Z.to_nat off else None.

Definition init (mem : bytes) (bm size : Z) : option bytes :=
  wr mem bm (replicate (Z.to_nat size) 0).

Definition set (mem : bytes) (bm pos : Z) : option bytes :=
  b ← rd_char mem (bm + get_bucket pos);
  wr mem (bm + get_bucket pos) [Z.lor b (get_bit pos)].

(** [static_cast<char>(~get_bit(pos))] keeps the low eight bits of the complement. *)
Definition reset (mem : bytes) (bm pos : Z) : option bytes :=
  b ← rd_char mem (bm + get_bucket pos);
  wr mem (bm + get_bucket pos) [Z.land b (Z.land (Z.lnot (get_bit pos)) 255)].

Definition is_set (mem : bytes) (bm pos : Z) : option bool :=
  b ← rd_char mem (bm + get_bucket pos);
  Some (negb (Z.land b (get_bit pos) =? 0)).

(** The loop of [next_bit] from [i], [fuel] iterations before [max_n]. *)
Fixpoint next_bit_loop (fuel : nat) (bit : bool) (mem : bytes) (bm max_n i : Z) : option Z :=
  match fuel with
  | O => Some max_n
  | S fuel =>
      b ← is_set mem bm i;
      if Bool.eqb b bit then Some i else next_bit_loop fuel bit mem bm max_n (i + 1)
  end.

Definition next_bit (bit : bool) (mem : bytes) (bm max_n curr : Z) : option Z :=
  next_bit_loop (Z.to_nat (max_n - (curr + 1))) bit mem bm max_n (curr + 1).

Definition first_bit (bit : bool) (mem : bytes) (bm max_n : Z) : option Z :=
  next_bit bit mem bm max_n (-1).

(** ** The bits as a predicate on positions *)

Lemma get_bucket_div pos : 0 ≤ pos → get_bucket pos = pos / 8.
Proof. intros. unfold get_bucket, BITMAP_WIDTH. apply Z.quot_div_nonneg; lia. Qed.

Lemma get_bit_pow2 pos : 0 ≤ pos → get_bit pos = 2 ^ (7 - pos mod 8).
Proof.
  intros. unfold get_bit, BITMAP_WIDTH, BITMAP_HIGHEST_BIT.
  rewrite Z.rem_mod_nonneg by lia. pose proof (Z.mod_pos_bound pos 8).
  change 128 with (2 ^ 7). rewrite Z.shiftr_div_pow2 by lia.
  symmetry. apply Z.pow_sub_r; lia.
Qed.

Lemma land_pow2_testbit b k : 0 ≤ k → negb (Z.land b (2 ^ k) =? 0) = Z.testbit b k.
Proof.
  intros. destruct (Z.land b (2 ^ k) =? 0) eqn:E; simpl.
  - apply Z.eqb_eq in E. apply (f_equal (λ x, Z.testbit x k)) in E.
    rewrite Z.land_spec, Z.pow2_bits_true, Z.bits_0, andb_true_r in E by done. done.
  - apply Z.eqb_neq in E. destruct (Z.testbit b k) eqn:T; [done|]. exfalso. apply E.
    apply Z.bits_inj_0. intros n. rewrite Z.land_spec.
    destruct (decide (n = k)) as [->|]; [by rewrite T|].
    rewrite Z.pow2_bits_false by done. apply andb_false_r.
Qed.

Lemma rd_char_wr mem off b mem' off2 :
  wr mem off [b] = Some mem' →
  rd_char mem' off2 = if decide (off2 = off) then Some b else rd_char mem off2.
Proof.
  intros Hw. pose proof Hw as (? & ? & _)%wr_Some. unfold rd_char.
  destruct (Z.leb_spec 0 off2); [|by case_decide; [lia|]].
  rewrite (wr_lookup _ _ _ _ off2 Hw) by lia. simpl.
  repeat case_decide; try lia; [|done]. by replace (off2 - off) with 0 by lia.
Qed.

Lemma is_set_testbit mem bm pos : 0 ≤ pos →
  is_set mem bm pos = (λ b, Z.testbit b (7 - pos mod 8)) <$> rd_char mem (bm + pos / 8).
Proof.
  intros. unfold is_set. rewrite get_bucket_div, get_bit_pow2 by done.
  destruct (rd_char _ _); [|done]. simpl. f_equal. apply land_pow2_testbit.
  pose proof (Z.mod_pos_bound pos 8). lia.
Qed.

Lemma is_set_update mem bm pos b c mem' q (v : bool) :
  0 ≤ pos → 0 ≤ q →
  rd_char mem (bm + pos / 8) = Some b → wr mem (bm + pos / 8) [c] = Some mem' →
  (∀ k, 0 ≤ k < 8 → Z.testbit c k = if decide (k = 7 - pos mod 8) then v else Z.testbit b k) →
  is_set mem' bm q = if decide (q = pos) then Some v else is_set mem bm q.
Proof.
  intros Hpos Hq Hb Hw Hc. rewrite !is_set_testbit by done.
  rewrite (rd_char_wr _ _ _ _ _ Hw).
  pose proof (Z.mod_pos_bound q 8). pose proof (Z.mod_pos_bound pos 8).
  destruct (decide (bm + q / 8 = bm + pos / 8)) as [He|He]; simpl.
  - rewrite Hc by lia. case_decide as E1; case_decide as E2; simplify_eq.
    + done.
    + exfalso. apply E2. pose proof (Z.div_mod q 8). pose proof (Z.div_mod pos 8). lia.
    + by rewrite He, Hb.
  - rewrite decide_False by congruence. done.
Qed.

(** ** What [set], [reset] and [is_set] do *)

Lemma rd_char_is_Some mem off : 0 ≤ off < len mem → is_Some (rd_char mem off).
Proof.
  intros. unfold rd_char. destruct (Z.leb_spec 0 off); [|lia]. apply lookup_lt_is_Some. lia.
Qed.

Lemma set_is_Some mem bm pos :
  0 ≤ bm → 0 ≤ pos → bm + pos / 8 < len mem → is_Some (set mem bm pos).
Proof.
  intros. pose proof (Z.div_pos pos 8). unfold set. rewrite get_bucket_div by done.
  destruct (rd_char_is_Some mem (bm + pos / 8)) as [b ->]; [lia|]. simpl.
  apply wr_is_Some; simpl; lia.
Qed.

Lemma reset_is_Some mem bm pos :
  0 ≤ bm → 0 ≤ pos → bm + pos / 8 < len mem → is_Some (reset mem bm pos).
Proof.
  intros. pose proof (Z.div_pos pos 8). unfold reset. rewrite get_bucket_div by done.
  destruct (rd_char_is_Some mem (bm + pos / 8)) as [b ->]; [lia|]. simpl.
  apply wr_is_Some; simpl; lia.
Qed.

Lemma is_set_is_Some mem bm pos :
  0 ≤ bm → 0 ≤ pos → bm + pos / 8 < len mem → is_Some (is_set mem bm pos).
Proof.
  intros. pose proof (Z.div_pos pos 8). rewrite is_set_testbit by done.
  destruct (rd_char_is_Some mem (bm + pos / 8)) as [b ->]; [lia|]. simpl. eauto.
Qed.

Lemma is_set_set mem bm pos mem' q :
  set mem bm pos = Some mem' → 0 ≤ pos → 0 ≤ q →
  is_set mem' bm q = if decide (q = pos) then Some true else is_set mem bm q.
Proof.
  intros Hs Hpos Hq. unfold set in Hs. rewrite get_bucket_div, get_bit_pow2 in Hs by done.
  destruct (rd_char mem (bm + pos / 8)) as [b|] eqn:Hb; [|done]. simpl in Hs.
  eapply is_set_update; [done..|]. intros k Hk.
  pose proof (Z.mod_pos_bound pos 8). rewrite Z.lor_spec, Z.pow2_bits_eqb by lia.
  case_decide; subst; [by rewrite Z.eqb_refl, orb_true_r|].
  rewrite (proj2 (Z.eqb_neq _ _)) by lia. apply orb_false_r.
Qed.

Lemma is_set_reset mem bm pos mem' q :
  reset mem bm pos = Some mem' → 0 ≤ pos → 0 ≤ q →
  is_set mem' bm q = if decide (q = pos) then Some false else is_set mem bm q.
Proof.
  intros Hs Hpos Hq. unfold reset in Hs. rewrite get_bucket_div, get_bit_pow2 in Hs by done.
  destruct (rd_char mem (bm + pos / 8)) as [b|] eqn:Hb; [|done]. simpl in Hs.
  eapply is_set_update; [done..|]. intros k Hk.
  pose proof (Z.mod_pos_bound pos 8).
  rewrite !Z.land_spec, Z.lnot_spec, Z.pow2_bits_eqb by lia.
  change 255 with (Z.ones 8). rewrite Z.ones_spec_low, andb_true_r by lia.
  case_decide; subst; [by rewrite Z.eqb_refl, andb_false_r|].
  rewrite (proj2 (Z.eqb_neq _ _)) by lia. apply andb_true_r.
Qed.

(** [set] and [reset] write one byte of the bitmap. *)
Lemma set_wr mem bm pos mem' :
  set mem bm pos = Some mem' → 0 ≤ pos → ∃ b, wr mem (bm + pos / 8) [b] = Some mem'.
Proof.
  intros Hs Hp. unfold set in Hs. rewrite get_bucket_div in Hs by done.
  destruct (rd_char _ _); [|done]. simpl in Hs. eauto.
Qed.

Lemma reset_wr mem bm pos mem' :
  reset mem bm pos = Some mem' → 0 ≤ pos → ∃ b, wr mem (bm + pos / 8) [b] = Some mem'.
Proof.
  intros Hs Hp. unfold reset in Hs. rewrite get_bucket_div in Hs by done.
  destruct (rd_char _ _); [|done]. simpl in Hs. eauto.
Qed.

Lemma rd_char_rd mem off : rd_char mem off = (rd mem off 1 ≫= head).
Proof.
  unfold rd_char, rd. destruct (Z.leb_spec 0 off); simpl; [|done].
  destruct (Z.leb_spec (off + 1) (len mem)); simpl.
  - rewrite head_lookup, lookup_take_lt, lookup_drop by lia. f_equal. lia.
  - apply lookup_ge_None_2. lia.
Qed.

(** A write outside of the bitmap leaves its bits alone. *)
Lemma is_set_wr_disjoint mem off bs mem' bm n q :
  wr mem off bs = Some mem' → 0 ≤ q < n →
  bm + (n + 7) / 8 ≤ off ∨ off + len bs ≤ bm →
  is_set mem' bm q = is_set mem bm q.
Proof.
  intros Hw Hq Hd. rewrite !is_set_testbit by lia. f_equal. rewrite !rd_char_rd.
  erewrite rd_wr_disjoint; [done|exact Hw|].
  assert (q / 8 < (n + 7) / 8). { apply Z.div_lt_upper_bound; [lia|].
    pose proof (Z.mul_div_le (n + 7) 8). pose proof (Z.mod_pos_bound (n + 7) 8).
    pose proof (Z.div_mod (n + 7) 8). lia. }
  pose proof (Z.div_pos q 8). lia.
Qed.

Lemma is_set_init mem bm size mem' n q :
  init mem bm size = Some mem' → 0 ≤ q < n → (n + 7) / 8 ≤ size →
  is_set mem' bm q = Some false.
Proof.
  intros Hw Hq Hn. unfold init in Hw. rewrite is_set_testbit by lia.
  pose proof Hw as (? & ? & _)%wr_Some.
  assert (q / 8 < (n + 7) / 8). { apply Z.div_lt_upper_bound; [lia|].
    pose proof (Z.mod_pos_bound (n + 7) 8). pose proof (Z.div_mod (n + 7) 8). lia. }
  pose proof (Z.div_pos q 8). rewrite length_replicate in *.
  unfold rd_char. destruct (Z.leb_spec 0 (bm + q / 8)); [|lia].
  rewrite (wr_lookup _ _ _ _ _ Hw), length_replicate by lia.
  rewrite decide_True by lia. rewrite lookup_replicate_2 by lia. simpl. by rewrite Z.bits_0.
Qed.

(** ** [next_bit] *)

Lemma next_bit_loop_spec fuel bit mem bm max_n i r :
  next_bit_loop fuel bit mem bm max_n i = Some r → Z.of_nat fuel = Z.max 0 (max_n - i) →
  (∀ j, i ≤ j < max_n → j < r → is_set mem bm j = Some (negb bit)) ∧
  (r = max_n ∨ i ≤ r < max_n ∧ is_set mem bm r = Some bit).
Proof.
  revert i. induction fuel as [|fuel IH]; intros i Hr Hf; simpl in Hr.
  - simplify_eq. split; [intros; lia|by left].
  - destruct (is_set mem bm i) as [b|] eqn:Hb; [|done]. simpl in Hr.
    destruct (Bool.eqb b bit) eqn:E.
    + apply Bool.eqb_prop in E as ->. simplify_eq. split; [intros; lia|right; split; [lia|done]].
    + destruct (IH _ Hr) as [H1 H2]; [lia|]. split.
      * intros j ??. destruct (decide (j = i)) as [->|]; [|apply H1; lia].
        rewrite Hb. destruct b, bit; done.
      * destruct H2 as [?|[??]]; [by left|right; split; [lia|done]].
Qed.

Lemma next_bit_loop_is_Some fuel bit mem bm max_n i :
  (∀ j, i ≤ j < i + Z.of_nat fuel → is_Some (is_set mem bm j)) →
  is_Some (next_bit_loop fuel bit mem bm max_n i).
Proof.
  revert i. induction fuel as [|fuel IH]; intros i Hi; simpl; [eauto|].
  destruct (Hi i) as [b ->]; [lia|]. simpl. destruct (Bool.eqb b bit); [eauto|].
  apply IH. intros. apply Hi. lia.
Qed.

Lemma next_bit_total bit mem bm max_n curr :
  -1 ≤ curr → 0 ≤ bm → bm + (max_n + 7) / 8 ≤ len mem →
  is_Some (next_bit bit mem bm max_n curr).
Proof.
  intros ? ? ?. apply next_bit_loop_is_Some. intros j Hj. apply is_set_is_Some; [done|lia|].
  assert (j / 8 < (max_n + 7) / 8); [|lia]. apply Z.div_lt_upper_bound; [lia|].
  pose proof (Z.mod_pos_bound (max_n + 7) 8). pose proof (Z.div_mod (max_n + 7) 8). lia.
Qed.

Lemma next_bit_run bit mem bm max_n curr r :
  next_bit bit mem bm max_n curr = Some r → curr < max_n →
  curr < r ≤ max_n ∧
  (∀ j, curr < j < r → is_set mem bm j = Some (negb bit)) ∧
  (r < max_n → is_set mem bm r = Some bit).
Proof.
  intros Hr Hc. apply next_bit_loop_spec in Hr as [H1 H2]; [|lia].
  destruct H2 as [->|[??]].
  - split_and!; [lia|lia|intros; apply H1; lia|lia].
  - split_and!; [lia|lia|intros; apply H1; lia|done].
Qed.

(** ** The set of the positions whose bit is on *)

Definition occupied (mem : bytes) (bm n : Z) : gset Z :=
  list_to_set (filter (λ p, is_set mem bm p = Some true) (seqZ 0 n)).

Lemma elem_of_occupied mem bm n p :
  p ∈ occupied mem bm n ↔ 0 ≤ p < n ∧ is_set mem bm p = Some true.
Proof.
  unfold occupied. rewrite elem_of_list_to_set, list_elem_of_filter, elem_of_seqZ.
  naive_solver lia.
Qed.

Lemma occupied_set mem bm n pos mem' :
  set mem bm pos = Some mem' → 0 ≤ pos < n →
  occupied mem' bm n = {[pos]} ∪ occupied mem bm n.
Proof.
  intros Hs Hp. apply set_eq. intros q. rewrite elem_of_union, elem_of_singleton.
  rewrite !elem_of_occupied. destruct (decide (0 ≤ q < n)).
  - erewrite is_set_set by (done || lia). case_decide; naive_solver lia.
  - naive_solver lia.
Qed.

Lemma occupied_reset mem bm n pos mem' :
  reset mem bm pos = Some mem' → 0 ≤ pos < n →
  occupied mem' bm n = occupied mem bm n ∖ {[pos]}.
Proof.
  intros Hs Hp. apply set_eq. intros q. rewrite elem_of_difference, elem_of_singleton.
  rewrite !elem_of_occupied. destruct (decide (0 ≤ q < n)).
  - erewrite is_set_reset by (done || lia). case_decide; naive_solver lia.
  - naive_solver lia.
Qed.

Lemma occupied_wr_disjoint mem off bs mem' bm n :
  wr mem off bs = Some mem' →
  bm + (n + 7) / 8 ≤ off ∨ off + len bs ≤ bm →
  occupied mem' bm n = occupied mem bm n.
Proof.
  intros Hw Hd. apply set_eq. intros q. rewrite !elem_of_occupied.
  destruct (decide (0 ≤ q < n)); [|naive_solver lia].
  by erewrite is_set_wr_disjoint by done.
Qed.

Lemma occupied_init mem bm size mem' n :
  init mem bm size = Some mem' → (n + 7) / 8 ≤ size → occupied mem' bm n = ∅.
Proof.
  intros Hw Hn. apply set_eq. intros q. rewrite elem_of_occupied.
  split; [|set_solver]. intros [Hq E]. erewrite is_set_init in E by done. done.
Qed.

Lemma occupied_subset mem bm n : occupied mem bm n ⊆ list_to_set (seqZ 0 n).
Proof.
  intros q. rewrite elem_of_occupied, elem_of_list_to_set, elem_of_seqZ. lia.
Qed.

Lemma occupied_size mem bm n : 0 ≤ n → Z.of_nat (size (occupied mem bm n)) ≤ n.
Proof.
  intros Hn. pose proof (subseteq_size _ _ (occupied_subset mem bm n)) as Hs.
  rewrite size_list_to_set in Hs by apply NoDup_seqZ. rewrite length_seqZ in Hs. lia.
Qed.

(** A bitmap with fewer than [n] bits on has one that is off. *)
Lemma occupied_free mem bm n :
  Z.of_nat (size (occupied mem bm n)) < n → ∃ p, 0 ≤ p < n ∧ p ∉ occupied mem bm n.
Proof.
  intros Hs. destruct (set_choose_or_empty (list_to_set (seqZ 0 n) ∖ occupied mem bm n))
    as [[p Hp]|He].
  - exists p. rewrite elem_of_difference, elem_of_list_to_set, elem_of_seqZ in Hp. lia || naive_solver lia.
  - exfalso. assert ((list_to_set (seqZ 0 n) : gset Z) ⊆ occupied mem bm n) as Hsub by set_solver.
    apply subseteq_size in Hsub. rewrite size_list_to_set in Hsub by apply NoDup_seqZ.
    rewrite length_seqZ in Hsub. lia.
Qed.

(** ** Properties *)

(** C22: [Bitmap] implements a finite set of positions: on a bitmap of [n] bits
    that lies inside of the page, [init] gives the empty set, [set] adds the
    position, [reset] removes it, [is_set] is membership, and none of them leaves
    the page ([Some]). *)
Theorem bitmap_is_set_of_positions mem bm n pos :
  0 ≤ bm → 0 ≤ pos < n → bm + (n + 7) / 8 ≤ len mem →
  (∃ m0, init mem bm ((n + 7) / 8) = Some m0 ∧ occupied m0 bm n = ∅) ∧
  (∃ m1, set mem bm pos = Some m1 ∧ occupied m1 bm n = {[pos]} ∪ occupied mem bm n) ∧
  (∃ m2, reset mem bm pos = Some m2 ∧ occupied m2 bm n = occupied mem bm n ∖ {[pos]}) ∧
  is_set mem bm pos = Some (bool_decide (pos ∈ occupied mem bm n)).
Proof.
  intros Hbm Hpos Hn.
  assert (bm + pos / 8 < len mem) as Hb.
  { assert (pos / 8 < (n + 7) / 8); [|lia]. apply Z.div_lt_upper_bound; [lia|].
    pose proof (Z.mod_pos_bound (n + 7) 8). pose proof (Z.div_mod (n + 7) 8). lia. }
  pose proof (Z.div_pos (n + 7) 8). split_and!.
  - destruct (wr_is_Some mem bm (replicate (Z.to_nat ((n + 7) / 8)) 0)) as [m0 E];
      [done|rewrite length_replicate; lia|]. exists m0. split; [exact E|].
    by eapply occupied_init.
  - destruct (set_is_Some mem bm pos) as [m1 E]; [lia..|]. eauto using occupied_set.
  - destruct (reset_is_Some mem bm pos) as [m2 E]; [lia..|]. eauto using occupied_reset.
  - destruct (is_set_is_Some mem bm pos) as [b E]; [lia..|]. rewrite E. f_equal.
    destruct b; symmetry.
    + apply bool_decide_eq_true_2. by apply elem_of_occupied.
    + apply bool_decide_eq_false_2. rewrite elem_of_occupied. naive_solver.
Qed.

(** C23: [next_bit] looks at [(curr, max_n)] in order and returns the first position
    whose bit is [bit], or [max_n] when there is none; it always returns. *)
Theorem next_bit_finds_first bit mem bm max_n curr :
  -1 ≤ curr < max_n → 0 ≤ bm → bm + (max_n + 7) / 8 ≤ len mem →
  ∃ r, next_bit bit mem bm max_n curr = Some r ∧ curr < r ≤ max_n ∧
    (∀ j, curr < j < r → is_set mem bm j = Some (negb bit)) ∧
    (r < max_n → is_set mem bm r = Some bit).
Proof.
  intros ???. destruct (next_bit_total bit mem bm max_n curr) as [r Hr]; [lia..|].
  exists r. split; [done|]. apply next_bit_run; [done|lia].
Qed.

Lemma bitmap_is_set_of_positions_witness :
  ∃ m1, set [7; 0; 0; 9] 1 10 = Some m1 ∧ occupied m1 1 16 = {[10]} ∪ occupied [7; 0; 0; 9] 1 16.
Proof. apply (bitmap_is_set_of_positions [7; 0; 0; 9] 1 16 10); vm_compute; done || (split; done). Defined.

Lemma next_bit_finds_first_witness :
  ∃ r, next_bit true [7; 0; 4; 9] 1 16 3 = Some r ∧ 3 < r ≤ 16 ∧
    (∀ j, 3 < j < r → is_set [7; 0; 4; 9] 1 j = Some (negb true)) ∧
    (r < 16 → is_set [7; 0; 4; 9] 1 r = Some true).
Proof. apply (next_bit_finds_first true [7; 0; 4; 9] 1 16 3); vm_compute; done || (split; done). Defined.

End Bitmap.
