(* ===== verification/Replacer.v ===== *)
(** * The replacer interface and its LRU implementation

    [Replacer] is the abstract class of src/src/replacer/replacer.h, with
    [ReplacerLaws] what the buffer pool relies on: which frames may be
    victimised.  [LRUReplacer] is the implementation of
    src/src/replacer/lru_replacer.cpp: a [std::list] of frames and a hash map from
    a frame to its list node.  A [std::list] iterator is the identity of a node,
    so a node is a number that the list and the hash map share.  The [latch_] is
    held for the whole of each operation, which makes each of them one step. *)
From S2P Require Import Prelude.

Class Replacer (R : Type) := {
  (** [Some f]: returned true with [*frame_id = f]; [None]: returned false. *)
  victim : R → option Z * R;
  pin : Z → R → R;
  unpin : Z → R → R;
  Size : R → Z;
}.

(** What an implementation promises: the frames that can be victimised are
    exactly those unpinned since they were last pinned or victimised. *)
Class ReplacerLaws (R : Type) `{Replacer R} := {
  rep_inv : R → Prop;
  evictable : R → gset Z;
  victim_Some r f r' : rep_inv r → victim r = (Some f, r') →
    rep_inv r' ∧ f ∈ evictable r ∧ evictable r' = evictable r ∖ {[f]};
  victim_None r r' : rep_inv r → victim r = (None, r') → r' = r ∧ evictable r = ∅;
  pin_spec r f : rep_inv r → rep_inv (pin f r) ∧ evictable (pin f r) = evictable r ∖ {[f]};
  unpin_spec r f : rep_inv r →
    rep_inv (unpin f r) ∧ evictable (unpin f r) = {[f]} ∪ evictable r;
  Size_spec r : rep_inv r → Size r = Z.of_nat (size (evictable r));
}.

Module LRU.

Record LRUReplacer := mkLRU {
  LRUlist : list (nat * Z);      (* node identity and frame id, head first *)
  LRUhash : gmap Z nat;          (* frame id to its node *)
  next_node : nat;               (* the identity of the next allocated node *)
  max_size : Z;
}.

Definition LRUReplacer_new (num_pages : Z) : LRUReplacer := mkLRU [] ∅ 0 num_pages.

Definition lru_victim (r : LRUReplacer) : option Z * LRUReplacer :=
  match last (LRUlist r) with
  | None => (None, r)
  | Some (_, f) =>
      (Some f, mkLRU (removelast (LRUlist r)) (delete f (LRUhash r)) (next_node r) (max_size r))
  end.

Definition lru_pin (frame_id : Z) (r : LRUReplacer) : LRUReplacer :=
  match LRUhash r !! frame_id with
  | None => r
  | Some it =>
      mkLRU (filter (λ e, e.1 ≠ it) (LRUlist r)) (delete frame_id (LRUhash r))
        (next_node r) (max_size r)
  end.

Definition lru_unpin (frame_id : Z) (r : LRUReplacer) : LRUReplacer :=
  match LRUhash r !! frame_id with
  | None =>
      mkLRU ((next_node r, frame_id) :: LRUlist r) (<[frame_id := next_node r]> (LRUhash r))
        (S (next_node r)) (max_size r)
  | Some _ => r
  end.

Definition lru_Size (r : LRUReplacer) : Z := Z.of_nat (length (LRUlist r)).

#[export] Instance lru_replacer : Replacer LRUReplacer := {
  victim := lru_victim; pin := lru_pin; unpin := lru_unpin; Size := lru_Size;
}.

(** The frames of the list, most recently unpinned first. *)
Definition queue (r : LRUReplacer) : list Z := (LRUlist r).*2.

Record lru_inv (r : LRUReplacer) : Prop := {
  lru_hash n f : LRUhash r !! f = Some n ↔ (n, f) ∈ LRUlist r;
  lru_nodes : NoDup (LRUlist r).*1;
  lru_frames : NoDup (queue r);
  lru_fresh n f : (n, f) ∈ LRUlist r → (n < next_node r)%nat;
}.

Lemma lru_new_inv n : lru_inv (LRUReplacer_new n).
Proof.
  split; simpl.
  - intros. rewrite lookup_empty, elem_of_nil. naive_solver.
  - constructor.
  - constructor.
  - intros ?? H. by apply elem_of_nil in H.
Qed.

Lemma node_unique (l : list (nat * Z)) n f g :
  NoDup l.*1 → (n, f) ∈ l → (n, g) ∈ l → f = g.
Proof.
  induction l as [|[m h] l IH]; simpl; intros Hnd Hf Hg; [by apply elem_of_nil in Hf|].
  apply NoDup_cons in Hnd as [Hm Hnd]. rewrite elem_of_cons in Hf, Hg.
  destruct Hf as [Hf|Hf], Hg as [Hg|Hg]; simplify_eq; auto.
  - destruct Hm. apply list_elem_of_fmap. by exists (m, g).
  - destruct Hm. apply list_elem_of_fmap. by exists (m, f).
Qed.

Lemma frame_unique (l : list (nat * Z)) n m f :
  NoDup l.*2 → (n, f) ∈ l → (m, f) ∈ l → n = m.
Proof.
  induction l as [|[k h] l IH]; simpl; intros Hnd Hf Hg; [by apply elem_of_nil in Hf|].
  apply NoDup_cons in Hnd as [Hm Hnd]. rewrite elem_of_cons in Hf, Hg.
  destruct Hf as [Hf|Hf], Hg as [Hg|Hg]; simplify_eq; auto.
  - destruct Hm. apply list_elem_of_fmap. by exists (m, h).
  - destruct Hm. apply list_elem_of_fmap. by exists (n, h).
Qed.

Lemma elem_of_queue r f : f ∈ queue r ↔ ∃ n, (n, f) ∈ LRUlist r.
Proof.
  unfold queue. rewrite list_elem_of_fmap. split.
  - intros ([n g] & -> & ?). eauto.
  - intros [n ?]. by exists (n, f).
Qed.

Lemma hash_queue r f : lru_inv r → is_Some (LRUhash r !! f) ↔ f ∈ queue r.
Proof.
  intros Hr. rewrite elem_of_queue. split.
  - intros [n Hn]. exists n. by apply (lru_hash r Hr).
  - intros [n Hn]. exists n. by apply (lru_hash r Hr).
Qed.

Lemma fmap_filter_pairs (l : list (nat * Z)) n f :
  (∀ m g, (m, g) ∈ l → m = n ↔ g = f) →
  (filter (λ e, e.1 ≠ n) l).*2 = filter (λ g, g ≠ f) l.*2.
Proof.
  induction l as [|[m g] l IH]; intros Hl; [done|].
  rewrite fmap_cons, !filter_cons. simpl.
  assert (m = n ↔ g = f) as Hmg by (apply Hl; left).
  specialize (IH (λ m g Hin, Hl m g (list_elem_of_further _ _ _ Hin))).
  repeat case_decide; rewrite ?fmap_cons, ?IH; naive_solver.
Qed.

(** A node holds one frame and a frame has one node. *)
Lemma node_frame r n f m g :
  lru_inv r → (n, f) ∈ LRUlist r → (m, g) ∈ LRUlist r → m = n ↔ g = f.
Proof.
  intros Hr Hf Hg. split; intros ->.
  - by eapply node_unique; [apply Hr|..].
  - by eapply frame_unique; [apply Hr|..].
Qed.

(** ** The operations on the queue of frames *)

Definition q_victim (q : list Z) : option Z * list Z :=
  match last q with None => (None, q) | Some f => (Some f, removelast q) end.
Definition q_pin (f : Z) (q : list Z) : list Z := filter (λ g, g ≠ f) q.
Definition q_unpin (f : Z) (q : list Z) : list Z := if decide (f ∈ q) then q else f :: q.

Lemma lru_pin_sim r f : lru_inv r → lru_inv (lru_pin f r) ∧ queue (lru_pin f r) = q_pin f (queue r).
Proof.
  intros Hr. unfold lru_pin. destruct (LRUhash r !! f) as [n|] eqn:E.
  - pose proof E as Hn. apply (lru_hash r Hr) in Hn.
    assert (∀ m g, (m, g) ∈ LRUlist r → m = n ↔ g = f) as Hl
      by (intros; by eapply node_frame).
    split; [split|]; simpl.
    + intros m g. rewrite list_elem_of_filter, lookup_delete_Some, (lru_hash r Hr). simpl.
      naive_solver.
    + apply NoDup_fmap_filter, Hr.
    + apply NoDup_fmap_filter, Hr.
    + intros m g [_ ?]%list_elem_of_filter. by eapply lru_fresh.
    + unfold queue, q_pin. simpl. by apply fmap_filter_pairs.
  - split; [done|]. unfold q_pin. symmetry.
    assert (f ∉ queue r) as Hf. { rewrite <- hash_queue by done. rewrite E. by intros [??]. }
    induction (queue r) as [|g q IH]; [done|].
    rewrite elem_of_cons in Hf. rewrite filter_cons_True by naive_solver.
    f_equal. apply IH. naive_solver.
Qed.

Lemma lru_unpin_sim r f :
  lru_inv r → lru_inv (lru_unpin f r) ∧ queue (lru_unpin f r) = q_unpin f (queue r).
Proof.
  intros Hr. unfold lru_unpin, q_unpin. pose proof (hash_queue r f Hr) as Hq.
  destruct (LRUhash r !! f) as [n|] eqn:E.
  - rewrite decide_True by (apply Hq; eauto). done.
  - assert (f ∉ queue r) as Hf by (rewrite <- Hq; by intros [??]).
    rewrite decide_False by done.
    split; [split|]; simpl.
    + intros m g. rewrite elem_of_cons, lookup_insert_Some, (lru_hash r Hr).
      split; [naive_solver|]. intros [?|Hm]; simplify_eq; [by left|]. right. split; [|done].
      intros <-. apply Hf, elem_of_queue. eauto.
    + constructor; [|apply Hr]. intros ([m g] & Hm & Hin)%list_elem_of_fmap. simpl in *. subst m.
      pose proof (lru_fresh r Hr _ _ Hin). lia.
    + constructor; [done|apply Hr].
    + intros m g. rewrite elem_of_cons. intros [?|Hin]; simplify_eq; [lia|].
      pose proof (lru_fresh r Hr _ _ Hin). lia.
    + done.
Qed.

Lemma lru_victim_sim r o r' :
  lru_inv r → lru_victim r = (o, r') → lru_inv r' ∧ q_victim (queue r) = (o, queue r').
Proof.
  intros Hr Hv. unfold lru_victim, q_victim, queue in *. rewrite fmap_last.
  destruct (last (LRUlist r)) as [[n f]|] eqn:E; simplify_eq/=; [|done].
  apply last_Some in E as [l El].
  assert (NoDup (l ++ [(n, f)]).*1 ∧ NoDup (l ++ [(n, f)]).*2) as [N1 N2]
    by (rewrite <- El; split; apply Hr).
  rewrite El, fmap_app, removelast_last. simpl. rewrite removelast_last.
  split; [|done]. rewrite fmap_app in N1. rewrite fmap_app in N2. simpl in N1, N2.
  apply NoDup_app in N1 as (N1 & D1 & _), N2 as (N2 & D2 & _).
  split; simpl; [|done..|].
  - intros m g. rewrite lookup_delete_Some, (lru_hash r Hr), El, elem_of_app, list_elem_of_singleton.
    split; [naive_solver|]. intros Hm. split; [|by left]. intros <-.
    apply (D2 f); [|by left]. apply list_elem_of_fmap. by exists (m, f).
  - intros m g Hm. apply (lru_fresh r Hr m g). rewrite El, elem_of_app. by left.
Qed.

(** ** [LRUReplacer] keeps the promises of [Replacer] *)

Lemma queue_set_pin (q : list Z) f :
  (list_to_set (q_pin f q) : gset Z) = list_to_set q ∖ {[f]}.
Proof.
  apply set_eq. intros g. unfold q_pin.
  rewrite elem_of_difference, !elem_of_list_to_set, list_elem_of_filter. set_solver.
Qed.

#[export] Program Instance lru_laws : ReplacerLaws LRUReplacer := {
  rep_inv := lru_inv;
  evictable r := list_to_set (queue r);
}.
Next Obligation.
  intros r f r' Hr Hv. pose proof (lru_frames r Hr) as Hnd.
  apply lru_victim_sim in Hv as [Hr' Hq]; [|done].
  unfold q_victim in Hq. destruct (last (queue r)) as [g|] eqn:E; simplify_eq.
  apply last_Some in E as [l El]. rewrite El, removelast_last in *.
  apply NoDup_app in Hnd as (_ & Hd & _).
  split_and!; [done|set_solver|]. apply set_eq. intros h.
  rewrite elem_of_difference, !elem_of_list_to_set, elem_of_app, elem_of_singleton, list_elem_of_singleton.
  subst l. split; [|naive_solver]. intros Hh. split; [by left|]. intros ->. apply (Hd f); [done|by left].
Qed.
Next Obligation.
  intros r r' Hr Hv. unfold victim in Hv. simpl in Hv. unfold lru_victim in Hv.
  destruct (last (LRUlist r)) as [[n f]|] eqn:E; simplify_eq.
  apply last_None in E. split; [done|]. simpl. unfold queue. by rewrite E.
Qed.
Next Obligation.
  intros r f Hr. apply (lru_pin_sim r f) in Hr as [? Hq]. split; [done|].
  simpl. rewrite Hq. apply queue_set_pin.
Qed.
Next Obligation.
  intros r f Hr. apply (lru_unpin_sim r f) in Hr as [? Hq]. split; [done|].
  simpl. rewrite Hq. unfold q_unpin. case_decide; set_solver.
Qed.
Next Obligation.
  intros r Hr. simpl. rewrite size_list_to_set by apply Hr.
  unfold lru_Size, queue. by rewrite length_fmap.
Qed.

(** ** Runs *)

Inductive op := Victim | Pin (f : Z) | Unpin (f : Z).

Fixpoint run (ops : list op) (r : LRUReplacer) : list (option Z) * LRUReplacer :=
  match ops with
  | [] => ([], r)
  | Victim :: ops =>
      let '(o, r) := lru_victim r in let '(os, r) := run ops r in (o :: os, r)
  | Pin f :: ops => run ops (lru_pin f r)
  | Unpin f :: ops => run ops (lru_unpin f r)
  end.

Fixpoint q_run (ops : list op) (q : list Z) : list (option Z) * list Z :=
  match ops with
  | [] => ([], q)
  | Victim :: ops =>
      let '(o, q) := q_victim q in let '(os, q) := q_run ops q in (o :: os, q)
  | Pin f :: ops => q_run ops (q_pin f q)
  | Unpin f :: ops => q_run ops (q_unpin f q)
  end.

Lemma run_sim ops r : lru_inv r →
  lru_inv (run ops r).2 ∧ q_run ops (queue r) = ((run ops r).1, queue (run ops r).2).
Proof.
  revert r. induction ops as [|[|f|f] ops IH]; intros r Hr; simpl; [done|..].
  - destruct (lru_victim r) as [o r'] eqn:E. apply lru_victim_sim in E as [Hr' ->]; [|done].
    destruct (IH r' Hr') as [? ->]. destruct (run ops r'). done.
  - destruct (lru_pin_sim r f Hr) as [Hr' <-]. apply IH, Hr'.
  - destruct (lru_unpin_sim r f Hr) as [Hr' <-]. apply IH, Hr'.
Qed.

(** C21: for any sequence of calls from a new replacer, the list with its hash
    table of iterators gives the victims a plain queue of the unpinned frames
    gives (victimise the oldest, pin removes, unpin of an absent frame enqueues
    it), and every entry of the hash table points at the list node of its frame. *)
Theorem lru_refines_queue n ops :
  q_run ops [] = ((run ops (LRUReplacer_new n)).1, queue (run ops (LRUReplacer_new n)).2) ∧
  lru_inv (run ops (LRUReplacer_new n)).2.
Proof. destruct (run_sim ops (LRUReplacer_new n)); [apply lru_new_inv|done]. Qed.

End LRU.
