(* ===== verification/Disk.v ===== *)
(** * The disk manager (src/src/storage/disk_manager.h and disk_manager.cpp)

    The POSIX calls the disk manager makes ([open], [close], [lseek], [read],
    [write], [unlink], [stat]) act on a [Kernel]: the contents of the regular
    files by path and the open descriptions by descriptor.  [open] gives the
    lowest free descriptor from 3 on, and fails when none is left; [write] fills a
    gap behind the end of the file with zeros and writes fewer bytes than asked
    when the file would outgrow [k_quota] (a full disk).  A path names one file
    for as long as it is open: the disk manager never unlinks an open file
    ([destroy_file]). *)
From S2P Require Import Prelude Bytes.

Definition PAGE_SIZE : Z := 4096.
Definition LOG_FILE_NAME : string := "db.log".
Definition MAX_FD : Z := 8192.

(** ** The kernel *)

Record Kernel := mkKernel {
  k_files : gmap string bytes;
  k_fds : gmap Z (string * Z);    (* descriptor to path and file offset *)
  k_limit : Z;                    (* descriptors are below it *)
  k_quota : Z;                    (* the largest size a file can have *)
}.

Definition k_set_file (path : string) (f : bytes) (k : Kernel) : Kernel :=
  mkKernel (<[path := f]> (k_files k)) (k_fds k) (k_limit k) (k_quota k).
Definition k_set_fd (fd : Z) (o : string * Z) (k : Kernel) : Kernel :=
  mkKernel (k_files k) (<[fd := o]> (k_fds k)) (k_limit k) (k_quota k).

Definition free_fd (k : Kernel) : option Z :=
  head (filter (λ fd, k_fds k !! fd = None) (seqZ 3 (k_limit k - 3))).

(** [open] with [O_CREAT] ([creat]) or without; -1 is an error. *)
Definition k_open (path : string) (creat : bool) (k : Kernel) : Z * Kernel :=
  match k_files k !! path, free_fd k with
  | Some _, Some fd => (fd, k_set_fd fd (path, 0) k)
  | None, Some fd =>
      if creat then (fd, k_set_fd fd (path, 0) (k_set_file path [] k)) else (-1, k)
  | _, None => (-1, k)
  end.

Definition k_close (fd : Z) (k : Kernel) : Z * Kernel :=
  match k_fds k !! fd with
  | Some _ => (0, mkKernel (k_files k) (delete fd (k_fds k)) (k_limit k) (k_quota k))
  | None => (-1, k)
  end.

Definition k_unlink (path : string) (k : Kernel) : Z * Kernel :=
  match k_files k !! path with
  | Some _ => (0, mkKernel (delete path (k_files k)) (k_fds k) (k_limit k) (k_quota k))
  | None => (-1, k)
  end.

(** The size [stat] reports of a regular file. *)
Definition k_stat (path : string) (k : Kernel) : option Z :=
  f ← k_files k !! path; Some (len f).

(** [lseek(fd, off, SEEK_SET)] *)
Definition k_seek (fd off : Z) (k : Kernel) : Z * Kernel :=
  match k_fds k !! fd with
  | Some (path, _) => if off <? 0 then (-1, k) else (off, k_set_fd fd (path, off) k)
  | None => (-1, k)
  end.

(** [lseek(fd, 0, SEEK_END)] *)
Definition k_seek_end (fd : Z) (k : Kernel) : Z * Kernel :=
  match k_fds k !! fd with
  | Some (path, _) =>
      match k_files k !! path with
      | Some f => (len f, k_set_fd fd (path, len f) k)
      | None => (-1, k)
      end
  | None => (-1, k)
  end.

(** [read] of [n] bytes: [None] is -1, otherwise the bytes read, which are fewer
    than [n] at the end of the file. *)
Definition k_read (fd n : Z) (k : Kernel) : option bytes * Kernel :=
  match k_fds k !! fd with
  | Some (path, off) =>
      match k_files k !! path with
      | Some f =>
          let bs := take (Z.to_nat n) (drop (Z.to_nat off) f) in
          (Some bs, k_set_fd fd (path, off + len bs) k)
      | None => (None, k)
      end
  | None => (None, k)
  end.

(** The file [f] after [data] is written at [off]. *)
Definition overwrite (f : bytes) (off : nat) (data : bytes) : bytes :=
  take off (f ++ replicate (off - length f) 0) ++ data ++ drop (off + length data) f.

(** [write]: -1 or the number of bytes written. *)
Definition k_write (fd : Z) (data : bytes) (k : Kernel) : Z * Kernel :=
  match k_fds k !! fd with
  | Some (path, off) =>
      match k_files k !! path with
      | Some f =>
          let data' := take (Z.to_nat (k_quota k - off)) data in
          if bool_decide (data' = []) && negb (bool_decide (data = [])) then (-1, k)
          else (len data', k_set_fd fd (path, off + len data')
                             (k_set_file path (overwrite f (Z.to_nat off) data') k))
      | None => (-1, k)
      end
  | None => (-1, k)
  end.

(** ** The disk manager's state *)

Record DiskManager := mkDM {
  kernel : Kernel;
  path2fd_ : gmap string Z;
  fd2path_ : gmap Z string;
  log_fd_ : Z;
  fd2pageno_ : gmap Z Z;          (* an absent descriptor holds 0 *)
}.

Definition DiskManager_new (k : Kernel) : DiskManager := mkDM k ∅ ∅ (-1) ∅.

Definition set_kernel (k : Kernel) (d : DiskManager) : DiskManager :=
  mkDM k (path2fd_ d) (fd2path_ d) (log_fd_ d) (fd2pageno_ d).
Definition set_tables (pf : gmap string Z) (fp : gmap Z string) (d : DiskManager) : DiskManager :=
  mkDM (kernel d) pf fp (log_fd_ d) (fd2pageno_ d).
Definition SetLogFd (fd : Z) (d : DiskManager) : DiskManager :=
  mkDM (kernel d) (path2fd_ d) (fd2path_ d) fd (fd2pageno_ d).
Definition set_pageno (m : gmap Z Z) (d : DiskManager) : DiskManager :=
  mkDM (kernel d) (path2fd_ d) (fd2path_ d) (log_fd_ d) m.

(** A system call from the disk manager. *)
Definition syscall {A} (f : Kernel → A * Kernel) : M DiskManager A := λ d,
  let '(a, k) := f (kernel d) in (Ok a, set_kernel k d).

(** ** Pages *)

Definition write_page (fd page_no : Z) (data : bytes) : M DiskManager unit :=
  do! massert (i32_ok (page_no * PAGE_SIZE)) in
  let! r := syscall (k_seek fd (page_no * PAGE_SIZE)) in
  if r =? -1 then throw (RuntimeError "DiskManager::write_page Error: lseek failed") else
  let! bytes_written := syscall (k_write fd data) in
  if bytes_written =? len data then ret tt
  else throw (InternalError "DiskManager::write_page Error").

(** The call's state is the destination buffer with the disk manager: a short
    read leaves what it read in the buffer. *)
Definition read_page (fd page_no num_bytes : Z) : M (bytes * DiskManager) unit :=
  let disk {A} := zoom (A := A) snd (λ d t, (t.1, d)) in
  do! massert (i32_ok (page_no * PAGE_SIZE) && (0 <=? num_bytes)) in
  let! r := disk (syscall (k_seek fd (page_no * PAGE_SIZE))) in
  if r =? -1 then throw (InternalError "DiskManager::read_page Error: lseek failed") else
  let! o := disk (syscall (k_read fd num_bytes)) in
  match o with
  | None => throw (InternalError "DiskManager::read_page Error")
  | Some bs =>
      let! offset := gets fst in
      let! offset' := of_option (wr offset 0 bs) in
      do! modify (λ t, (offset', t.2)) in
      if len bs =? num_bytes then ret tt
      else throw (InternalError "DiskManager::read_page Error")
  end.

Definition get_fd2pageno (d : DiskManager) (fd : Z) : Z := default 0 (fd2pageno_ d !! fd).

(** The constructor's [std::atomic<int>] increments wrap around. *)
Definition allocate_page (fd : Z) : M DiskManager Z :=
  do! massert ((0 <=? fd) && (fd <? MAX_FD)) in
  let! n := gets (λ d, get_fd2pageno d fd) in
  do! modify (λ d, set_pageno (<[fd := wrap32 (n + 1)]> (fd2pageno_ d)) d) in
  ret n.

Definition set_fd2pageno (fd start_page_no : Z) : M DiskManager unit :=
  do! massert ((0 <=? fd) && (fd <? MAX_FD)) in
  modify (λ d, set_pageno (<[fd := start_page_no]> (fd2pageno_ d)) d).

(** ** Files *)

Definition is_file (path : string) (d : DiskManager) : bool :=
  bool_decide (is_Some (k_stat path (kernel d))).

Definition create_file (path : string) : M DiskManager unit :=
  let! ex := gets (is_file path) in
  if ex : bool
  then throw (FileExistsError "DiskManager::create_file Error: file already exists") else
  let! fd := syscall (k_open path true) in
  if fd =? -1 then throw (InternalError "DiskManager::create_file Error: open failed") else
  do! syscall (k_close fd) in ret tt.

Definition destroy_file (path : string) : M DiskManager unit :=
  let! open := gets (λ d, path2fd_ d !! path) in
  match open with
  | Some _ => throw (FileNotClosedError "DiskManager::destroy_file Error: file is open")
  | None =>
      let! r := syscall (k_unlink path) in
      if r =? -1 then throw (FileNotFoundError "DiskManager::destroy_file Error: unlink failed")
      else ret tt
  end.

Definition open_file (path : string) : M DiskManager Z :=
  let! open := gets (λ d, path2fd_ d !! path) in
  match open with
  | Some _ => throw (FileNotClosedError "DiskManager::open_file Error: file already open")
  | None =>
      let! fd := syscall (k_open path false) in
      if fd =? -1 then throw (FileNotFoundError "DiskManager::open_file Error: open failed") else
      do! modify (λ d, set_tables (<[path := fd]> (path2fd_ d)) (<[fd := path]> (fd2path_ d)) d) in
      ret fd
  end.

Definition close_file (fd : Z) : M DiskManager unit :=
  let! it := gets (λ d, fd2path_ d !! fd) in
  match it with
  | None => throw (FileNotOpenError fd)
  | Some path =>
      let! r := syscall (k_close fd) in
      if r =? -1 then throw (FileExistsError "DiskManager::close_file Error: close failed") else
      modify (λ d, set_tables (delete path (path2fd_ d)) (delete fd (fd2path_ d)) d)
  end.

Definition get_file_size (file_name : string) (d : DiskManager) : Z :=
  match k_stat file_name (kernel d) with Some n => wrap32 n | None => -1 end.

Definition get_file_name (fd : Z) : M DiskManager string :=
  let! o := gets (λ d, fd2path_ d !! fd) in
  match o with None => throw (FileNotOpenError fd) | Some path => ret path end.

Definition get_file_fd (file_name : string) : M DiskManager Z :=
  let! o := gets (λ d, path2fd_ d !! file_name) in
  match o with None => open_file file_name | Some fd => ret fd end.

(** ** The log file *)

(** The first access to the log opens it. *)
Definition open_log : M DiskManager unit :=
  let! fd := gets log_fd_ in
  if fd =? -1 then
    let! fd := open_file LOG_FILE_NAME in modify (SetLogFd fd)
  else ret tt.

Definition read_log (size offset : Z) : M (bytes * DiskManager) Z :=
  let disk {A} := zoom (A := A) snd (λ d t, (t.1, d)) in
  do! disk open_log in
  let! file_size := gets (λ t, get_file_size LOG_FILE_NAME t.2) in
  if offset >? file_size then ret (-1) else
  do! massert (i32_ok (file_size - offset)) in
  let size := Z.min size (file_size - offset) in
  if size =? 0 then ret 0 else
  let! fd := gets (λ t, log_fd_ t.2) in
  do! disk (syscall (k_seek fd offset)) in
  do! massert (0 <=? size) in
  let! o := disk (syscall (k_read fd size)) in
  let! bs := of_option o in
  let! log_data := gets fst in
  let! log_data' := of_option (wr log_data 0 bs) in
  do! modify (λ t, (log_data', t.2)) in
  do! massert (len bs =? size) in
  ret (len bs).

Definition write_log (log_data : bytes) : M DiskManager unit :=
  do! open_log in
  let! fd := gets log_fd_ in
  do! syscall (k_seek_end fd) in
  let! bytes_write := syscall (k_write fd log_data) in
  if bytes_write =? len log_data then ret tt else throw UnixError.

(** ** Well-formedness: the open-file tables *)

Record dm_inv (d : DiskManager) : Prop := {
  dm_maps path fd : path2fd_ d !! path = Some fd ↔ fd2path_ d !! fd = Some path;
  dm_fds path fd : fd2path_ d !! fd = Some path ↔ ∃ off, k_fds (kernel d) !! fd = Some (path, off);
  dm_open path fd off : k_fds (kernel d) !! fd = Some (path, off) →
    3 ≤ fd ∧ 0 ≤ off ∧ is_Some (k_files (kernel d) !! path);
}.

(** The contents of the file open under [fd]. *)
Definition file_of (d : DiskManager) (fd : Z) : option bytes :=
  o ← k_fds (kernel d) !! fd; k_files (kernel d) !! o.1.

(** A whole page of an open file. *)
Definition page_at (d : DiskManager) (fd page_no : Z) : option bytes :=
  f ← file_of d fd; rd f (page_no * PAGE_SIZE) PAGE_SIZE.

Lemma dm_inv_path_inj d fd1 fd2 path o1 o2 : dm_inv d →
  k_fds (kernel d) !! fd1 = Some (path, o1) → k_fds (kernel d) !! fd2 = Some (path, o2) → fd1 = fd2.
Proof.
  intros Hd H1 H2.
  assert (path2fd_ d !! path = Some fd1) by (apply dm_maps, dm_fds; eauto).
  assert (path2fd_ d !! path = Some fd2) by (apply dm_maps, dm_fds; eauto). congruence.
Qed.

Lemma DiskManager_new_inv k : k_fds k = ∅ → dm_inv (DiskManager_new k).
Proof.
  intros Hk. split; simpl; intros *; rewrite ?Hk, ?lookup_empty; [done| |done].
  split; [done|]. by intros [??].
Qed.

Lemma free_fd_Some k fd : free_fd k = Some fd → 3 ≤ fd ∧ k_fds k !! fd = None.
Proof.
  unfold free_fd. intros H.
  assert (Hin : fd ∈ filter (λ fd, k_fds k !! fd = None) (seqZ 3 (k_limit k - 3))).
  { destruct (filter _ _); simplify_eq/=. by left. }
  apply list_elem_of_filter in Hin as [? Hin]. apply elem_of_seqZ in Hin. split; [lia|done].
Qed.

Lemma files_insert_is_Some (m : gmap string bytes) p q f :
  is_Some (m !! p) → is_Some (<[q := f]> m !! p).
Proof. intros H. destruct (decide (q = p)) as [->|]; [rewrite lookup_insert_eq; eauto|by rewrite lookup_insert_ne]. Qed.

Lemma set_fd_inv d fd path o off files' :
  dm_inv d → k_fds (kernel d) !! fd = Some (path, o) → 0 ≤ off →
  (∀ p, is_Some (k_files (kernel d) !! p) → is_Some (files' !! p)) →
  dm_inv (set_kernel (mkKernel files' (<[fd := (path, off)]> (k_fds (kernel d)))
    (k_limit (kernel d)) (k_quota (kernel d))) d).
Proof.
  intros Hd E Hoff Hf. split; simpl.
  - apply Hd.
  - intros p fd'. rewrite (dm_fds _ Hd). destruct (decide (fd = fd')) as [<-|].
    + rewrite lookup_insert_eq, E. naive_solver.
    + by rewrite lookup_insert_ne.
  - intros p fd' o'. destruct (decide (fd = fd')) as [<-|].
    + rewrite lookup_insert_eq. intros; simplify_eq. eapply dm_open in E as (?&?&?); eauto.
    + rewrite lookup_insert_ne by done. intros H. apply (dm_open _ Hd) in H as (?&?&?). eauto.
Qed.

(** The calls that move offsets and write into open files keep the invariant. *)
Lemma seek_inv d fd off : dm_inv d → dm_inv (set_kernel (k_seek fd off (kernel d)).2 d).
Proof.
  intros Hd. unfold k_seek. destruct (k_fds (kernel d) !! fd) as [[path o]|] eqn:E.
  2: by destruct d.
  destruct (Z.ltb_spec off 0); [by destruct d|]. by eapply set_fd_inv.
Qed.

Lemma seek_end_inv d fd : dm_inv d → dm_inv (set_kernel (k_seek_end fd (kernel d)).2 d).
Proof.
  intros Hd. unfold k_seek_end. destruct (k_fds (kernel d) !! fd) as [[path o]|] eqn:E.
  2: by destruct d.
  destruct (k_files (kernel d) !! path); [|by destruct d]. eapply set_fd_inv; eauto; lia.
Qed.

Lemma read_inv d fd n : dm_inv d → dm_inv (set_kernel (k_read fd n (kernel d)).2 d).
Proof.
  intros Hd. unfold k_read. destruct (k_fds (kernel d) !! fd) as [[path o]|] eqn:E.
  2: by destruct d.
  destruct (k_files (kernel d) !! path); [|by destruct d].
  eapply set_fd_inv; eauto. eapply dm_open in E as (?&?&?); eauto. lia.
Qed.

Lemma write_inv d fd data : dm_inv d → dm_inv (set_kernel (k_write fd data (kernel d)).2 d).
Proof.
  intros Hd. unfold k_write. destruct (k_fds (kernel d) !! fd) as [[path o]|] eqn:E.
  2: by destruct d.
  destruct (k_files (kernel d) !! path); [|by destruct d].
  destruct (_ && _); [by destruct d|].
  eapply set_fd_inv; [done|done| |by intros; apply files_insert_is_Some].
  eapply dm_open in E as (?&?&?); eauto. lia.
Qed.

(** Opening, closing, creating and removing files. *)
Lemma k_open_spec path creat k :
  (k_open path creat k).1 = -1 ∧ (k_open path creat k).2 = k ∨
  ∃ fd files, 3 ≤ fd ∧ k_fds k !! fd = None ∧
    k_open path creat k = (fd, mkKernel files (<[fd := (path, 0)]> (k_fds k)) (k_limit k) (k_quota k)) ∧
    is_Some (files !! path) ∧ (∀ p, is_Some (k_files k !! p) → is_Some (files !! p)) ∧
    (creat = false → files = k_files k).
Proof.
  unfold k_open. destruct (k_files k !! path) eqn:E.
  - destruct (free_fd k) as [fd|] eqn:F; [|by left]. right.
    apply free_fd_Some in F as [??]. exists fd, (k_files k). split_and!; eauto.
  - destruct (free_fd k) as [fd|] eqn:F; [|by left]. destruct creat; [|by left]. right.
    apply free_fd_Some in F as [??]. exists fd, (<[path := []]> (k_files k)).
    split_and!; eauto using files_insert_is_Some; [|done]. rewrite lookup_insert_eq. eauto.
Qed.

Lemma open_file_inv path : within (keeps dm_inv) (open_file path).
Proof.
  intros d Hd. unfold open_file, bind, gets. simpl.
  destruct (path2fd_ d !! path) as [?|] eqn:Hp; [done|].
  destruct (k_open_spec path false (kernel d)) as [[E1 E2]|(fd & files & ? & Hfree & E & ? & ? & Hf)].
  - unfold syscall. destruct (k_open path false (kernel d)); simplify_eq/=. by destruct d.
  - specialize (Hf eq_refl). subst files.
    unfold syscall. rewrite E. simpl. destruct (Z.eqb_spec fd (-1)); [lia|]. simpl.
    assert (Hfd : ∀ p, fd2path_ d !! fd ≠ Some p).
    { intros p Hc. apply (dm_fds _ Hd) in Hc as [??]. congruence. }
    split; simpl.
    + intros p fd'. destruct (decide (path = p)) as [<-|], (decide (fd = fd')) as [<-|].
      * rewrite !lookup_insert_eq. done.
      * rewrite lookup_insert_eq, lookup_insert_ne by done. rewrite <- (dm_maps _ Hd), Hp. naive_solver.
      * rewrite lookup_insert_eq, lookup_insert_ne by done. rewrite (dm_maps _ Hd).
        split; [intros Hc; by destruct (Hfd p)|naive_solver].
      * rewrite !lookup_insert_ne by done. apply Hd.
    + intros p fd'. destruct (decide (fd = fd')) as [<-|].
      * rewrite !lookup_insert_eq. naive_solver.
      * rewrite !lookup_insert_ne by done. apply Hd.
    + intros p fd' off. destruct (decide (fd = fd')) as [<-|].
      * rewrite lookup_insert_eq. intros; simplify_eq. eauto with lia.
      * rewrite lookup_insert_ne by done. apply Hd.
Qed.

Lemma close_file_inv fd : within (keeps dm_inv) (close_file fd).
Proof.
  intros d Hd. unfold close_file, bind, gets. simpl.
  destruct (fd2path_ d !! fd) as [path|] eqn:Hp; [|done].
  assert (Hm := proj2 (dm_maps _ Hd _ _) Hp).
  apply (dm_fds _ Hd) in Hp as Hk. destruct Hk as [off Hk].
  unfold syscall, k_close. rewrite Hk. simpl. split; simpl.
  - intros p fd'. destruct (decide (path = p)) as [<-|], (decide (fd = fd')) as [<-|].
    + rewrite !lookup_delete_eq. naive_solver.
    + rewrite lookup_delete_eq, lookup_delete_ne by done. rewrite <- (dm_maps _ Hd). naive_solver.
    + rewrite lookup_delete_eq, lookup_delete_ne by done. rewrite (dm_maps _ Hd). naive_solver.
    + rewrite !lookup_delete_ne by done. apply Hd.
  - intros p fd'. destruct (decide (fd = fd')) as [<-|].
    + rewrite !lookup_delete_eq. naive_solver.
    + rewrite !lookup_delete_ne by done. apply Hd.
  - intros p fd' o. destruct (decide (fd = fd')) as [<-|].
    + by rewrite lookup_delete_eq.
    + rewrite lookup_delete_ne by done. apply Hd.
Qed.

Lemma create_file_inv path : within (keeps dm_inv) (create_file path).
Proof.
  intros d Hd. unfold create_file, bind, gets. simpl.
  destruct (is_file path d); [done|].
  destruct (k_open_spec path true (kernel d)) as [[E1 E2]|(fd & files & ? & Hfree & E & ? & Hsub & _)].
  - unfold syscall. destruct (k_open path true (kernel d)); simplify_eq/=. by destruct d.
  - unfold syscall. rewrite E. simpl. destruct (Z.eqb_spec fd (-1)); [lia|]. simpl.
    unfold k_close. simpl. rewrite lookup_insert_eq. simpl. rewrite delete_insert_id by done.
    split; simpl; [apply Hd|apply Hd|]. intros p fd' o Ho.
    apply (dm_open _ Hd) in Ho as (?&?&?). eauto.
Qed.

Lemma destroy_file_inv path : within (keeps dm_inv) (destroy_file path).
Proof.
  intros d Hd. unfold destroy_file, bind, gets. simpl.
  destruct (path2fd_ d !! path) as [?|] eqn:Hp; [done|].
  unfold syscall, k_unlink. destruct (k_files (kernel d) !! path); [|by destruct d].
  simpl. split; simpl; [apply Hd|apply Hd|]. intros p fd off Ho.
  pose proof Ho as Hk. apply (dm_open _ Hd) in Ho as (?&?&?). split_and!; [done..|].
  rewrite lookup_delete_ne; [done|]. intros <-.
  assert (path2fd_ d !! path = Some fd) by (apply dm_maps, dm_fds; eauto). congruence.
Qed.

Lemma syscall_inv {A} (f : Kernel → A * Kernel) :
  (∀ d, dm_inv d → dm_inv (set_kernel (f (kernel d)).2 d)) → within (keeps dm_inv) (syscall f).
Proof. intros H d Hd. specialize (H d Hd). unfold syscall. by destruct (f (kernel d)). Qed.

Lemma modify_inv (f : DiskManager → DiskManager) :
  (∀ d, dm_inv d → dm_inv (f d)) → within (keeps dm_inv) (modify f).
Proof. intros H d Hd. by apply H. Qed.

Lemma zoom_within {S T A} (prj : T → S) (upd : S → T → T) (I : S → Prop) (m : M S A) :
  (∀ s t, prj (upd s t) = s) →
  within (keeps I) m → within (keeps (I ∘ prj)) (zoom prj upd m).
Proof.
  intros Hpu Hm t Ht. unfold zoom. specialize (Hm (prj t) Ht).
  destruct (m (prj t)) as [o s]. simpl in *. by rewrite Hpu.
Qed.

Lemma set_pageno_inv m d : dm_inv d → dm_inv (set_pageno m d).
Proof. intros [H1 H2 H3]. by split. Qed.

Lemma SetLogFd_inv fd d : dm_inv d → dm_inv (SetLogFd fd d).
Proof. intros [H1 H2 H3]. by split. Qed.

#[export] Hint Resolve seek_inv seek_end_inv read_inv write_inv open_file_inv close_file_inv
  create_file_inv destroy_file_inv set_pageno_inv SetLogFd_inv : rmdb.

(** [dm_step]: a body all of whose calls keep the invariant keeps it. *)
Ltac dm_call :=
  match goal with
  | |- within _ (syscall _) => apply syscall_inv
  | |- within _ (modify _) => apply modify_inv
  | |- _ => idtac
  end.
Ltac dm_step := within_steps; dm_call; auto with rmdb.
Ltac dm_zoom :=
  within_steps;
  match goal with
  | |- within _ (zoom _ _ _) => apply zoom_within; [done|dm_step]
  | |- within _ (modify _) => apply within_modify; intros ??; done
  | |- _ => idtac
  end.

Lemma write_page_inv fd page_no data : within (keeps dm_inv) (write_page fd page_no data).
Proof. unfold write_page. dm_step. Qed.

Lemma open_log_inv : within (keeps dm_inv) open_log.
Proof. unfold open_log. dm_step. Qed.
#[export] Hint Resolve write_page_inv open_log_inv : rmdb.

Lemma write_log_inv log_data : within (keeps dm_inv) (write_log log_data).
Proof. unfold write_log. dm_step. Qed.

Lemma read_page_inv fd page_no n :
  within (keeps (dm_inv ∘ snd)) (read_page fd page_no n).
Proof. unfold read_page. dm_zoom. Qed.

Lemma read_log_inv size offset : within (keeps (dm_inv ∘ snd)) (read_log size offset).
Proof. unfold read_log. dm_zoom. Qed.

#[export] Hint Resolve write_log_inv read_page_inv read_log_inv : rmdb.

(** Every call a client can make of the disk manager; a read brings its own buffer. *)
Inductive dm_op : Type :=
  | OpWritePage (fd page_no : Z) (data : bytes)
  | OpReadPage (fd page_no num_bytes : Z) (offset : bytes)
  | OpAllocatePage (fd : Z)
  | OpSetPageno (fd start_page_no : Z)
  | OpCreateFile (path : string)
  | OpDestroyFile (path : string)
  | OpOpenFile (path : string)
  | OpCloseFile (fd : Z)
  | OpGetFileFd (path : string)
  | OpSetLogFd (fd : Z)
  | OpReadLog (size offset : Z) (log_data : bytes)
  | OpWriteLog (log_data : bytes).

(** The state a call leaves, however it ends. *)
Definition dm_exec (op : dm_op) (d : DiskManager) : DiskManager :=
  match op with
  | OpWritePage fd p data => (write_page fd p data d).2
  | OpReadPage fd p n buf => (read_page fd p n (buf, d)).2.2
  | OpAllocatePage fd => (allocate_page fd d).2
  | OpSetPageno fd n => (set_fd2pageno fd n d).2
  | OpCreateFile path => (create_file path d).2
  | OpDestroyFile path => (destroy_file path d).2
  | OpOpenFile path => (open_file path d).2
  | OpCloseFile fd => (close_file fd d).2
  | OpGetFileFd path => (get_file_fd path d).2
  | OpSetLogFd fd => SetLogFd fd d
  | OpReadLog n off buf => (read_log n off (buf, d)).2.2
  | OpWriteLog data => (write_log data d).2
  end.

Lemma dm_exec_inv op d : dm_inv d → dm_inv (dm_exec op d).
Proof.
  intros Hd. destruct op; simpl; auto with rmdb.
  - by apply write_page_inv.
  - by apply (read_page_inv fd page_no num_bytes (offset, d)).
  - revert d Hd. change (within (keeps dm_inv) (allocate_page fd)). unfold allocate_page. dm_step.
  - revert d Hd. change (within (keeps dm_inv) (set_fd2pageno fd start_page_no)).
    unfold set_fd2pageno. dm_step.
  - by apply create_file_inv.
  - by apply destroy_file_inv.
  - by apply open_file_inv.
  - by apply close_file_inv.
  - revert d Hd. change (within (keeps dm_inv) (get_file_fd path)). unfold get_file_fd. dm_step.
  - by apply (read_log_inv size offset (log_data, d)).
  - by apply write_log_inv.
Qed.

(** ** The contents of the pages *)

(** States that differ in nothing but file offsets. *)
Definition fd_path (d : DiskManager) (fd : Z) : option string := fst <$> k_fds (kernel d) !! fd.
Definition same_disk (d d' : DiskManager) : Prop :=
  k_files (kernel d') = k_files (kernel d) ∧ (∀ fd, fd_path d' fd = fd_path d fd) ∧
  k_quota (kernel d') = k_quota (kernel d) ∧ log_fd_ d' = log_fd_ d ∧
  fd2pageno_ d' = fd2pageno_ d.

#[export] Instance same_disk_equiv : Equivalence same_disk.
Proof.
  split.
  - intros d. done.
  - intros d d' (?&Hp&?&?&?). split_and!; done.
  - intros d1 d2 d3 (?&Hp1&?&?&?) (?&Hp2&?&?&?). split_and!; congruence.
Qed.

Lemma file_of_path d fd : file_of d fd = (p ← fd_path d fd; k_files (kernel d) !! p).
Proof. unfold file_of, fd_path. by destruct (k_fds (kernel d) !! fd). Qed.

#[export] Instance file_of_proper : Proper (same_disk ==> eq ==> eq) file_of.
Proof. intros d d' (H1&H2&_) fd ? <-. rewrite !file_of_path, H1, H2. done. Qed.

#[export] Instance page_at_proper : Proper (same_disk ==> eq ==> eq ==> eq) page_at.
Proof. intros d d' H fd ? <- p ? <-. unfold page_at. by rewrite H. Qed.

Lemma set_offset_same d path o off fd :
  k_fds (kernel d) !! fd = Some (path, o) →
  same_disk d (set_kernel (k_set_fd fd (path, off) (kernel d)) d).
Proof.
  intros E. split_and!; try done. intros fd'. unfold fd_path. simpl.
  destruct (decide (fd = fd')) as [<-|]; [by rewrite lookup_insert_eq, E|by rewrite lookup_insert_ne].
Qed.

Lemma overwrite_length f off data :
  length (overwrite f off data) = (length f `max` (off + length data))%nat.
Proof.
  unfold overwrite. rewrite !length_app, length_take, length_drop, length_app, length_replicate. lia.
Qed.

Lemma overwrite_rd_same f off data :
  0 ≤ off → rd (overwrite f (Z.to_nat off) data) off (len data) = Some data.
Proof.
  intros. unfold overwrite. apply rd_field; [|done].
  rewrite length_take, length_app, length_replicate. lia.
Qed.

Lemma overwrite_rd_other f off data o n bs :
  rd f o n = Some bs → 0 ≤ off → o + n ≤ off ∨ off + len data ≤ o →
  rd (overwrite f (Z.to_nat off) data) o n = Some bs.
Proof.
  intros (?&?&?&->)%rd_Some ??. apply rd_Some. rewrite overwrite_length.
  split_and!; [lia..|]. unfold overwrite. destruct (decide (o + n ≤ off)).
  - apply list_eq. intros i. destruct (decide (i < Z.to_nat n)%nat).
    + rewrite !lookup_take_lt, !lookup_drop by done.
      rewrite lookup_app_l by (rewrite length_take, length_app, length_replicate; lia).
      rewrite lookup_take_lt by lia. rewrite lookup_app_l by lia. done.
    + rewrite !lookup_take_ge by lia. done.
  - rewrite (assoc_L (++)), drop_app_ge.
    2: { rewrite !length_app, length_take, length_app, length_replicate. lia. }
    rewrite drop_drop. do 2 f_equal.
    rewrite !length_app, length_take, length_app, length_replicate. lia.
Qed.

(** What a call that returned did, and when a call returns. *)
Lemma seek_Ok fd off r d d' :
  syscall (k_seek fd off) d = (Ok r, d') → r ≠ -1 →
  ∃ path o, k_fds (kernel d) !! fd = Some (path, o) ∧ 0 ≤ off ∧
    d' = set_kernel (k_set_fd fd (path, off) (kernel d)) d.
Proof.
  unfold syscall, k_seek. destruct (k_fds (kernel d) !! fd) as [[path o]|]; [|naive_solver].
  destruct (Z.ltb_spec off 0); naive_solver.
Qed.

Lemma write_page_Ok fd page_no data d d' :
  write_page fd page_no data d = (Ok tt, d') →
  ∃ path o f, k_fds (kernel d) !! fd = Some (path, o) ∧ k_files (kernel d) !! path = Some f ∧
    0 ≤ page_no ∧
    d' = set_kernel (k_set_fd fd (path, page_no * PAGE_SIZE + len data)
      (k_set_file path (overwrite f (Z.to_nat (page_no * PAGE_SIZE)) data) (kernel d))) d.
Proof.
  unfold write_page. intros H. apply bind_Ok in H as (? & ? & [_ ->]%massert_Ok & H).
  apply bind_Ok in H as (r & d1 & Hsk & H).
  destruct (Z.eqb_spec r (-1)) as [->|Hr]; [minv|].
  apply seek_Ok in Hsk as (path & o & E & ? & ->); [|done].
  apply bind_Ok in H as (n & d1 & Hw & H). unfold syscall, k_write in Hw. simpl in Hw.
  rewrite lookup_insert_eq in Hw. destruct (Z.eqb_spec n (len data)) as [->|]; [|minv]. minv.
  destruct (k_files (kernel d) !! path) as [f|] eqn:F; simplify_eq/=; [|lia].
  destruct (_ && _) eqn:Hs; simplify_eq/=; [lia|].
  assert (Hall : take (Z.to_nat (k_quota (kernel d) - page_no * PAGE_SIZE)) data = data).
  { apply take_ge. rewrite length_take in *. lia. }
  rewrite Hall in *. exists path, o, f. unfold PAGE_SIZE in *. split_and!; [done..|lia|].
  unfold set_kernel, k_set_fd, k_set_file. simpl. by rewrite insert_insert_eq.
Qed.

Lemma read_page_Ok fd page_no n buf d buf' d' :
  0 < n → read_page fd page_no n (buf, d) = (Ok tt, (buf', d')) →
  ∃ f bs, file_of d fd = Some f ∧ 0 ≤ page_no ∧ rd f (page_no * PAGE_SIZE) n = Some bs ∧
    wr buf 0 bs = Some buf' ∧ same_disk d d'.
Proof.
  unfold read_page. intros Hn H.
  apply bind_Ok in H as (? & ? & [_ ->]%massert_Ok & H).
  apply bind_Ok in H as (r & t1 & Hsk & H). unfold zoom in Hsk. simpl in Hsk.
  destruct (syscall _ d) as [r' d1] eqn:Hs. simplify_eq/=.
  destruct (Z.eqb_spec r (-1)) as [->|Hr]; [minv|].
  apply seek_Ok in Hs as (path & o & E & Hoff & ->); [|done].
  apply bind_Ok in H as (rr & t1 & Hrd & H). unfold zoom, syscall, k_read in Hrd. simpl in Hrd.
  rewrite lookup_insert_eq in Hrd.
  destruct (k_files (kernel d) !! path) as [f|] eqn:F; simpl in Hrd;
    injection Hrd as <- <-; [|minv].
  apply bind_Ok in H as (? & ? & [-> ->]%gets_Ok & H). simpl in H.
  apply bind_Ok in H as (? & ? & [Hwr ->]%of_option_Ok & H).
  apply bind_Ok in H as ([] & ? & ->%modify_Ok & H). simpl in H.
  destruct (Z.eqb_spec (len (take (Z.to_nat n) (drop (Z.to_nat (page_no * PAGE_SIZE)) f))) n)
    as [Hl|]; [|minv]. minv.
  exists f. eexists. split_and!; [| | |exact Hwr|].
  - unfold file_of. by rewrite E.
  - unfold PAGE_SIZE in *. lia.
  - apply rd_Some. rewrite length_take, length_drop in Hl. split_and!; [lia..|done].
  - unfold set_kernel, k_set_fd. simpl. rewrite insert_insert_eq. by eapply set_offset_same.
Qed.

Lemma read_page_run fd page_no n buf d f bs :
  file_of d fd = Some f → 0 ≤ page_no → i32_ok (page_no * PAGE_SIZE) = true →
  rd f (page_no * PAGE_SIZE) n = Some bs → n ≤ len buf →
  ∃ buf' d', read_page fd page_no n (buf, d) = (Ok tt, (buf', d')) ∧
    wr buf 0 bs = Some buf' ∧ same_disk d d'.
Proof.
  intros Hf Hp Hi Hrd Hn.
  unfold file_of in Hf. destruct (k_fds (kernel d) !! fd) as [[path o]|] eqn:E; simplify_eq/=.
  pose proof (rd_length _ _ _ _ Hrd) as Hl.
  destruct (wr_is_Some buf 0 bs) as [buf' Hwr]; [lia..|].
  apply rd_Some in Hrd as (?&?&?&Hbs).
  unfold read_page. rewrite Hi, (proj2 (Z.leb_le 0 _)) by done. simpl.
  unfold bind, massert, ret, zoom, syscall, k_seek at 1. simpl. rewrite E.
  destruct (Z.ltb_spec (page_no * PAGE_SIZE) 0); [lia|]. simpl.
  destruct (Z.eqb_spec (page_no * PAGE_SIZE) (-1)); [lia|].
  unfold k_read. simpl. rewrite lookup_insert_eq, Hf. simpl. rewrite <- Hbs. unfold gets. simpl. rewrite Hwr. simpl.
  rewrite Hl, Z.eqb_refl. eexists _, _. split_and!; [done|done|].
  unfold set_kernel, k_set_fd. simpl. rewrite insert_insert_eq. by eapply set_offset_same.
Qed.

Lemma write_page_run fd page_no data d f :
  dm_inv d → file_of d fd = Some f → 0 ≤ page_no → i32_ok (page_no * PAGE_SIZE) = true →
  page_no * PAGE_SIZE + len data ≤ k_quota (kernel d) →
  ∃ d', write_page fd page_no data d = (Ok tt, d').
Proof.
  intros Hd Hf Hp Hi Hq.
  unfold file_of in Hf. destruct (k_fds (kernel d) !! fd) as [[path o]|] eqn:E; simplify_eq/=.
  unfold write_page. rewrite Hi. unfold bind, massert, ret, syscall, k_seek at 1. rewrite E.
  destruct (Z.ltb_spec (page_no * PAGE_SIZE) 0); [unfold PAGE_SIZE in *; lia|]. simpl.
  destruct (Z.eqb_spec (page_no * PAGE_SIZE) (-1)); [lia|].
  unfold k_write. simpl. rewrite lookup_insert_eq, Hf.
  rewrite (take_ge data) by lia. rewrite andb_negb_r, Z.eqb_refl. eauto.
Qed.

(** After [write_page]: every whole page of every open file. *)
Lemma write_page_file_of fd page_no data d d' fd2 :
  dm_inv d → write_page fd page_no data d = (Ok tt, d') →
  file_of d' fd2 = if decide (fd2 = fd)
                   then (λ f, overwrite f (Z.to_nat (page_no * PAGE_SIZE)) data) <$> file_of d fd
                   else file_of d fd2.
Proof.
  intros Hd (path & o & f & E & F & _ & ->)%write_page_Ok.
  unfold file_of. simpl. case_decide as D; [subst fd2|].
  - rewrite lookup_insert_eq, E. simpl. by rewrite lookup_insert_eq, F.
  - rewrite lookup_insert_ne by done.
    destruct (k_fds (kernel d) !! fd2) as [[path2 o2]|] eqn:E2; [|done]. simpl.
    rewrite lookup_insert_ne; [done|]. intros ->. by eapply dm_inv_path_inj in E2; eauto.
Qed.

Lemma write_page_page_at fd page_no data d d' :
  dm_inv d → write_page fd page_no data d = (Ok tt, d') → len data = PAGE_SIZE →
  page_at d' fd page_no = Some data.
Proof.
  intros Hd Hw Hl. unfold page_at. rewrite (write_page_file_of _ _ _ _ _ fd Hd Hw).
  rewrite decide_True by done.
  apply write_page_Ok in Hw as (path & o & f & E & F & ? & _).
  unfold file_of. rewrite E. simpl. rewrite F. simpl. rewrite <- Hl.
  apply overwrite_rd_same. unfold PAGE_SIZE. lia.
Qed.

Lemma write_page_other fd page_no data d d' fd2 page_no2 bs :
  dm_inv d → write_page fd page_no data d = (Ok tt, d') → len data ≤ PAGE_SIZE →
  (fd2, page_no2) ≠ (fd, page_no) → page_at d fd2 page_no2 = Some bs →
  page_at d' fd2 page_no2 = Some bs.
Proof.
  intros Hd Hw Hl Hne. unfold page_at. rewrite (write_page_file_of _ _ _ _ _ fd2 Hd Hw).
  case_decide as D; [subst fd2|done].
  apply write_page_Ok in Hw as (path & o & f & E & F & ? & _).
  unfold file_of. rewrite E. simpl. rewrite F. simpl. intros Hr.
  eapply overwrite_rd_other; [exact Hr|unfold PAGE_SIZE; lia|].
  assert (page_no ≠ page_no2) by congruence. unfold PAGE_SIZE in *. lia.
Qed.

(** [write_log] appends to the log file and leaves every other open file alone. *)
Definition log_fd_ok (d : DiskManager) : Prop :=
  log_fd_ d = -1 ∨ fd2path_ d !! log_fd_ d = Some LOG_FILE_NAME.

Definition log_file (d : DiskManager) : option bytes := k_files (kernel d) !! LOG_FILE_NAME.

(** The files other than the log that are open before a call are open under the
    same descriptors, with the same contents, after it. *)
Definition data_kept (d d' : DiskManager) : Prop :=
  ∀ fd path, fd_path d fd = Some path → path ≠ LOG_FILE_NAME →
    fd_path d' fd = Some path ∧ file_of d' fd = file_of d fd.

#[export] Instance data_kept_preorder : PreOrder data_kept.
Proof.
  split.
  - intros d fd path H _. done.
  - intros d1 d2 d3 H12 H23 fd path Hp Hne.
    destruct (H12 _ _ Hp Hne) as [Hp2 Hf2]. destruct (H23 _ _ Hp2 Hne) as [Hp3 Hf3].
    split; congruence.
Qed.

Lemma open_file_Ok path d fd d' :
  dm_inv d → open_file path d = (Ok fd, d') →
  path2fd_ d !! path = None ∧ k_fds (kernel d) !! fd = None ∧ fd ≠ -1 ∧
  d' = set_tables (<[path := fd]> (path2fd_ d)) (<[fd := path]> (fd2path_ d))
         (set_kernel (k_set_fd fd (path, 0) (kernel d)) d).
Proof.
  intros Hd. unfold open_file, bind, gets. simpl.
  destruct (path2fd_ d !! path) as [?|] eqn:Hp; [done|].
  destruct (k_open_spec path false (kernel d)) as [[E1 E2]|(fd' & files & ? & Hfree & E & ? & ? & Hf)].
  - unfold syscall. by destruct (k_open path false (kernel d)); simplify_eq/=.
  - specialize (Hf eq_refl). subst files. unfold syscall. rewrite E. simpl.
    destruct (Z.eqb_spec fd' (-1)); [lia|]. unfold modify, ret. intros. simplify_eq/=.
    split_and!; done.
Qed.

Lemma open_log_Ok d d' :
  dm_inv d → log_fd_ok d → open_log d = (Ok tt, d') →
  dm_inv d' ∧ log_fd_ok d' ∧ (∃ o, k_fds (kernel d') !! log_fd_ d' = Some (LOG_FILE_NAME, o)) ∧
  k_files (kernel d') = k_files (kernel d) ∧
  (∀ fd o, k_fds (kernel d) !! fd = Some o → k_fds (kernel d') !! fd = Some o) ∧
  fd2pageno_ d' = fd2pageno_ d.
Proof.
  intros Hd Hl H. assert (Hd' : dm_inv d').
  { pose proof (open_log_inv d Hd) as Hi. by rewrite H in Hi. }
  split; [done|]. unfold open_log in H. apply bind_Ok in H as (? & ? & [-> ->]%gets_Ok & H).
  destruct (Z.eqb_spec (log_fd_ d) (-1)) as [El|El].
  - apply bind_Ok in H as (fd & d1 & Ho & ->%modify_Ok).
    apply open_file_Ok in Ho as (? & Hfree & ? & ->); [|done]. simpl. split_and!; [|eauto|done| |done].
    + right. simpl. by rewrite lookup_insert_eq.
    + eexists. by rewrite lookup_insert_eq.
    + intros fd' o Ho. rewrite lookup_insert_ne; [done|]. congruence.
  - apply ret_Ok in H as [_ ->]. destruct Hl as [?|Hl]; [done|].
    split_and!; [by right| |done..]. by apply (dm_fds _ Hd) in Hl.
Qed.

Lemma write_log_Ok log_data d d' :
  dm_inv d → log_fd_ok d → write_log log_data d = (Ok tt, d') →
  log_fd_ok d' ∧ data_kept d d' ∧ fd2pageno_ d' = fd2pageno_ d ∧
  ∃ f, log_file d = Some f ∧ log_file d' = Some (f ++ log_data).
Proof.
  intros Hd Hl H. unfold write_log in H. apply bind_Ok in H as ([] & d1 & Ho & H).
  destruct (open_log_Ok _ _ Hd Hl Ho) as (Hd1 & Hl1 & (o & E) & Hfiles & Hfds & Hpg).
  apply bind_Ok in H as (? & ? & [-> ->]%gets_Ok & H).
  apply bind_Ok in H as (r & d2 & Hs & H). unfold syscall, k_seek_end in Hs.
  rewrite E in Hs. destruct (dm_open _ Hd1 _ _ _ E) as (_ & _ & [f F]).
  rewrite F in Hs. simplify_eq/=. apply bind_Ok in H as (n & d2 & Hw & H).
  unfold syscall, k_write in Hw. simpl in Hw. rewrite lookup_insert_eq, F in Hw.
  destruct (Z.eqb_spec n (len log_data)) as [->|]; [|minv]. minv.
  destruct (_ && _) eqn:Hs; simplify_eq/=; [lia|].
  assert (Hall : take (Z.to_nat (k_quota (kernel d1) - len f)) log_data = log_data).
  { apply take_ge. rewrite length_take in *. lia. }
  rewrite Hall in *. split_and!.
  - destruct Hl1 as [?|?]; [by left|by right].
  - intros fd path Hp Hne. unfold fd_path, file_of in *. simpl.
    destruct (k_fds (kernel d) !! fd) as [[p o']|] eqn:E2; simplify_eq/=.
    apply Hfds in E2 as E3. rewrite !lookup_insert_ne by naive_solver. rewrite E3. simpl.
    by rewrite lookup_insert_ne, Hfiles by done.
  - done.
  - exists f. unfold log_file. simpl. rewrite lookup_insert_eq, <- Hfiles. split; [done|].
    f_equal. unfold overwrite. rewrite Nat2Z.id, Nat.sub_diag, app_nil_r.
    rewrite firstn_all, drop_ge by lia. by rewrite app_nil_r.
Qed.

(** Reading the log: the log is opened if it is not, and no file changes. *)
Record log_step (d d' : DiskManager) : Prop := {
  ls_inv : dm_inv d';
  ls_fd : log_fd_ok d';
  ls_files : k_files (kernel d') = k_files (kernel d);
  ls_paths fd path : fd_path d fd = Some path → fd_path d' fd = Some path;
  ls_pageno : fd2pageno_ d' = fd2pageno_ d;
  ls_open : open_log d' = (Ok tt, d');
}.

Lemma log_step_file d d' : log_step d d' → log_file d' = log_file d.
Proof. intros Hs. unfold log_file. by rewrite (ls_files _ _ Hs). Qed.

Lemma log_step_trans d1 d2 d3 : log_step d1 d2 → log_step d2 d3 → log_step d1 d3.
Proof.
  intros [????? ?] [? ? E ? E2 ?]. split; try done; [congruence|eauto|congruence].
Qed.

Lemma log_step_data_kept d d' : log_step d d' → data_kept d d'.
Proof.
  intros Hs fd path Hp Hne. pose proof (ls_paths _ _ Hs _ _ Hp) as Hp'. split; [done|].
  rewrite !file_of_path, Hp, Hp'. simpl. by rewrite (ls_files _ _ Hs).
Qed.

Lemma same_disk_log_fd_ok d d' : same_disk d d' → dm_inv d → dm_inv d' → log_fd_ok d → log_fd_ok d'.
Proof.
  intros (_ & Hp & _ & Hl & _) Hd Hd' [H|H]; [left; congruence|]. right. rewrite Hl.
  apply (dm_fds _ Hd) in H as [o H]. apply (dm_fds _ Hd').
  specialize (Hp (log_fd_ d)). unfold fd_path in Hp. rewrite H in Hp. simpl in Hp.
  destruct (k_fds (kernel d') !! log_fd_ d) as [[? ?]|]; simplify_eq/=. eauto.
Qed.

Lemma open_log_step d d' :
  dm_inv d → log_fd_ok d → open_log d = (Ok tt, d') → log_step d d'.
Proof.
  intros Hd Hl Ho. destruct (open_log_Ok _ _ Hd Hl Ho) as (Hd1 & Hl1 & (o & E) & Hf & Hfds & Hpg).
  split; try done.
  - intros fd path. unfold fd_path. destruct (k_fds (kernel d) !! fd) eqn:E2; [|done].
    by rewrite (Hfds _ _ E2).
  - unfold open_log. rewrite bind_gets. destruct (Z.eqb_spec (log_fd_ d') (-1)) as [E2|]; [|done].
    rewrite E2 in E. apply (dm_open _ Hd1) in E as (? & _). lia.
Qed.

Lemma read_log_run n off buf d d1 f :
  dm_inv d → log_fd_ok d → open_log d = (Ok tt, d1) → log_file d = Some f → len f ≤ INT_MAX →
  0 ≤ off ≤ len f → 0 ≤ n ≤ len buf →
  ∃ r buf' d', read_log n off (buf, d) = (Ok r, (buf', d')) ∧ log_step d d' ∧
    wr buf 0 (take (Z.to_nat n) (drop (Z.to_nat off) f)) = Some buf'.
Proof.
  intros Hd Hl Ho Hf Hlen Hoff Hn. pose proof (open_log_step _ _ Hd Hl Ho) as Hs.
  destruct (open_log_Ok _ _ Hd Hl Ho) as (Hd1 & Hl1 & (o & E) & Hfiles & _).
  unfold log_file in Hf. rewrite <- Hfiles in Hf.
  assert (Hsz : get_file_size LOG_FILE_NAME d1 = len f).
  { unfold get_file_size, k_stat. rewrite Hf. simpl. apply wrap32_id, i32_ok_range. unfold INT_MAX in *. lia. }
  assert (Hi : i32_ok (len f - off) = true) by (apply i32_ok_range; unfold INT_MAX in *; lia).
  destruct (off >? len f) eqn:Hgt; [rewrite Z.gtb_lt in Hgt; lia|].
  set (m := Z.min n (len f - off)). assert (Hm : 0 ≤ m ≤ n) by lia.
  assert (Htake : take (Z.to_nat n) (drop (Z.to_nat off) f) = take (Z.to_nat m) (drop (Z.to_nat off) f)).
  { destruct (decide (n ≤ len f - off)); [by replace m with n by lia|].
    rewrite !take_ge; rewrite ?length_drop; lia || done. }
  assert (Hl2 : len (take (Z.to_nat m) (drop (Z.to_nat off) f)) = m).
  { rewrite length_take, length_drop. lia. }
  rewrite Htake. destruct (Z.eqb_spec m 0) as [Hz|Hz].
  { exists 0, buf, d1. split_and!; [|done|].
    { unfold read_log. erewrite bind_run by (unfold zoom; simpl; by rewrite Ho).
      rewrite bind_gets. simpl. rewrite Hsz, Hgt, Hi. erewrite bind_run by reflexivity. fold m.
      by rewrite Hz. }
    rewrite Hz. apply wr_Some. simpl. split_and!; [lia..|done]. }
  destruct (wr_is_Some buf 0 (take (Z.to_nat m) (drop (Z.to_nat off) f))) as [buf' Hwr]; [lia..|].
  pose proof (set_offset_same d1 LOG_FILE_NAME o (off + m) (log_fd_ d1) E) as Hsame.
  set (d2 := set_kernel _ _) in Hsame.
  assert (Hrun : read_log n off (buf, d) = (Ok m, (buf', d2))).
  { unfold read_log. erewrite bind_run by (unfold zoom; simpl; by rewrite Ho).
    rewrite bind_gets. simpl. rewrite Hsz, Hgt, Hi. erewrite bind_run by reflexivity. fold m.
    destruct (Z.eqb_spec m 0); [done|]. rewrite bind_gets. simpl.
    unfold bind at 1, zoom at 1, syscall at 1, k_seek. simpl. rewrite E.
    destruct (Z.ltb_spec off 0); [lia|]. simpl. rewrite (proj2 (Z.leb_le 0 m)) by lia.
    erewrite bind_run by reflexivity.
    unfold bind at 1, zoom at 1, syscall at 1, k_read. simpl. rewrite lookup_insert_eq, Hf.
    unfold bind, of_option, ret, gets, modify, massert. simpl. rewrite Hwr. simpl.
    rewrite Hl2, Z.eqb_refl. unfold d2, set_kernel, k_set_fd. simpl. by rewrite insert_insert_eq. }
  assert (Hd2 : dm_inv d2).
  { pose proof (read_log_inv n off (buf, d) Hd) as Hi2. unfold compose in Hi2. by rewrite Hrun in Hi2. }
  exists m, buf', d2. split_and!; [done| |done].
  eapply log_step_trans; [exact Hs|]. split; try done.
  - intros fd path. by rewrite (proj1 (proj2 Hsame)).
  - unfold open_log. rewrite bind_gets. simpl. destruct (Z.eqb_spec (log_fd_ d1) (-1)) as [E2|]; [|done].
    rewrite E2 in E. apply (dm_open _ Hd1) in E as (? & _). lia.
Qed.

(** ** Properties *)

(** C20: whatever calls are made of a fresh disk manager, in whatever order and
    however each ends, the open-file tables [path2fd_] and [fd2path_] stay inverse to
    each other and list exactly the descriptors the kernel has open, each of an
    existing file: no file is open twice, and no descriptor leaks. *)
Theorem open_tables_consistent (k : Kernel) (ops : list dm_op) :
  k_fds k = ∅ → dm_inv (foldl (λ d op, dm_exec op d) (DiskManager_new k) ops).
Proof.
  intros Hk. assert (Hd := DiskManager_new_inv k Hk). revert Hd.
  generalize (DiskManager_new k) as d. induction ops as [|op ops IH]; intros d Hd; [done|].
  simpl. apply IH. by apply dm_exec_inv.
Qed.

Definition demo_kernel : Kernel := mkKernel ∅ ∅ 100 (10 * PAGE_SIZE).
Definition demo_ops : list dm_op :=
  [OpCreateFile "t"; OpOpenFile "t"; OpOpenFile "t"; OpWritePage 3 0 (replicate 4096 7);
   OpDestroyFile "t"; OpCreateFile LOG_FILE_NAME; OpWriteLog [1; 2; 3]; OpCloseFile 3].

Lemma open_tables_consistent_witness :
  k_fds demo_kernel = ∅ ∧
  dm_inv (foldl (λ d op, dm_exec op d) (DiskManager_new demo_kernel) demo_ops).
Proof. split; [reflexivity|]. apply open_tables_consistent. reflexivity. Defined.

(** C26: [write_page] then [read_page] of the same page gives the bytes written, and
    every other whole page of every open file is what it was. *)
Theorem write_page_read_page (fd page_no : Z) (data : bytes) (d d' : DiskManager) :
  dm_inv d → write_page fd page_no data d = (Ok tt, d') → 0 < len data ≤ PAGE_SIZE →
  (∀ buf, len data ≤ len buf →
    ∃ d'', read_page fd page_no (len data) (buf, d')
           = (Ok tt, (data ++ drop (length data) buf, d''))) ∧
  (∀ fd2 page_no2 bs, (fd2, page_no2) ≠ (fd, page_no) →
    page_at d fd2 page_no2 = Some bs → page_at d' fd2 page_no2 = Some bs).
Proof.
  intros Hd Hw Hl. split.
  - intros buf Hbuf. pose proof (write_page_file_of _ _ _ _ _ fd Hd Hw) as Hf.
    rewrite decide_True in Hf by done.
    assert (Hi : i32_ok (page_no * PAGE_SIZE) = true).
    { unfold write_page in Hw. apply bind_Ok in Hw as (?&?&[? ->]%massert_Ok&_). done. }
    apply write_page_Ok in Hw as (path & o & f & E & F & Hp & _).
    unfold file_of in Hf. rewrite E in Hf. simpl in Hf. rewrite F in Hf. simpl in Hf.
    destruct (read_page_run fd page_no (len data) buf d' _ data Hf Hp Hi) as (buf' & d'' & Hr & Hwr & _).
    { apply overwrite_rd_same. unfold PAGE_SIZE. lia. }
    { done. }
    exists d''. rewrite Hr. apply wr_Some in Hwr as (_&_&->). done.
  - intros fd2 page_no2 bs Hne Hpg. apply (write_page_other fd page_no data d d'); [done..|lia|done|done].
Qed.

Definition demo_disk : DiskManager :=
  foldl (λ d op, dm_exec op d) (DiskManager_new demo_kernel) (take 2 demo_ops).

Lemma write_page_read_page_witness :
  ∃ d', write_page 3 2 [1; 2; 3] demo_disk = (Ok tt, d') ∧
    (∀ buf, 3 ≤ len buf →
      ∃ d'', read_page 3 2 3 (buf, d') = (Ok tt, ([1; 2; 3] ++ drop 3 buf, d''))).
Proof.
  eexists. split; [vm_compute; reflexivity|].
  refine (proj1 (write_page_read_page 3 2 [1; 2; 3] demo_disk _ _ _ _)).
  - repeat apply dm_exec_inv. apply DiskManager_new_inv. reflexivity.
  - vm_compute. reflexivity.
  - unfold PAGE_SIZE. simpl. lia.
Defined.
