(* ===== verification/Log.v ===== *)
(** * Log records and the log manager
    (src/src/recovery/log_defs.h, log_manager.h and log_manager.cpp)

    A log record is its header with the fields of its class.  [serialize] is the
    bytes the [memcpy]s of the class lay out from [dest] on; [deserialize] reads
    them back at the offsets the class computes.  The log buffer is held as the
    bytes below [offset_]: the rest of the C++ array is zero and never read. *)
From S2P Require Import Prelude Bytes Disk.

(** src/src/defs.h *)
Record Rid := mkRid { page_no : Z; slot_no : Z }.
#[export] Instance Rid_eq_dec : EqDecision Rid.
Proof. solve_decision. Defined.

Definition INVALID_LSN : Z := -1.
Definition INVALID_TXN_ID : Z := -1.
Definition OFFSET_LOG_TYPE : Z := 0.
Definition OFFSET_LSN : Z := 4.
Definition OFFSET_LOG_TOT_LEN : Z := OFFSET_LSN + 4.
Definition OFFSET_LOG_TID : Z := OFFSET_LOG_TOT_LEN + 4.
Definition OFFSET_PREV_LSN : Z := OFFSET_LOG_TID + 4.
Definition OFFSET_LOG_DATA : Z := OFFSET_PREV_LSN + 4.
Definition LOG_HEADER_SIZE : Z := OFFSET_LOG_DATA.
Definition LOG_BUFFER_SIZE : Z := 1024 * PAGE_SIZE.

Inductive LogType : Type :=
  | UPDATE | INSERT | DELETE | begin_ | commit_ | ABORT | Checkpoint.
#[export] Instance LogType_eq_dec : EqDecision LogType.
Proof. solve_decision. Defined.

(** The values of the enumeration. *)
Definition LogType_val (t : LogType) : Z :=
  match t with
  | UPDATE => 0 | INSERT => 1 | DELETE => 2 | begin_ => 3 | commit_ => 4 | ABORT => 5
  | Checkpoint => 6
  end.
Definition LogType_of (z : Z) : option LogType :=
  match z with
  | 0 => Some UPDATE | 1 => Some INSERT | 2 => Some DELETE | 3 => Some begin_
  | 4 => Some commit_ | 5 => Some ABORT | 6 => Some Checkpoint | _ => None
  end.

Record LogHeader := mkHdr {
  log_type_ : LogType;
  lsn_ : Z;
  log_tot_len_ : Z;
  log_tid_ : Z;
  prev_lsn_ : Z;
}.

(** The fields of an insert or delete record: the value, its place, the table and
    the file header's [first_free_page_no] and [num_pages] at the time. *)
Record RowLog := mkRow {
  value_ : bytes;
  rid_ : Rid;
  table_name_ : bytes;
  first_free_page_no_ : Z;
  num_pages_ : Z;
}.

Inductive LogBody : Type :=
  | NoBody                                        (* begin, commit, abort, checkpoint *)
  | RowBody (row : RowLog)                        (* insert, delete *)
  | UpdateBody (old_value_ : bytes) (row : RowLog). (* [value_ row] is the new value *)

Record LogRecord := mkLog { log_hdr : LogHeader; log_body : LogBody }.

Definition set_lsn (lsn : Z) (r : LogRecord) : LogRecord :=
  let h := log_hdr r in
  mkLog (mkHdr (log_type_ h) lsn (log_tot_len_ h) (log_tid_ h) (prev_lsn_ h)) (log_body r).

(** ** The constructors *)

Definition uint32 (z : Z) : Z := z mod 2 ^ 32.

Definition header_only (t : LogType) (tid : Z) : LogRecord :=
  mkLog (mkHdr t INVALID_LSN LOG_HEADER_SIZE tid INVALID_LSN) NoBody.
Definition BeginLogRecord (txn_id : Z) : LogRecord := header_only begin_ txn_id.
Definition CommitLogRecord (txn_id : Z) : LogRecord := header_only commit_ txn_id.
Definition AbortLogRecord (txn_id : Z) : LogRecord := header_only ABORT txn_id.
Definition CkpLogRecord : LogRecord := header_only Checkpoint INVALID_TXN_ID.

Definition row_record (t : LogType) (txn_id prev_lsn : Z) (row : RowLog) : LogRecord :=
  let tot := uint32 (LOG_HEADER_SIZE + 4 + len (value_ row) + 8 + (8 + len (table_name_ row)) + 4 + 4) in
  mkLog (mkHdr t INVALID_LSN tot txn_id prev_lsn) (RowBody row).
Definition InsertLogRecord (txn_id prev_lsn : Z) (row : RowLog) : LogRecord :=
  row_record INSERT txn_id prev_lsn row.
Definition DeleteLogRecord (txn_id prev_lsn : Z) (row : RowLog) : LogRecord :=
  row_record DELETE txn_id prev_lsn row.
Definition UpdateLogRecord (txn_id prev_lsn : Z) (old_value : bytes) (row : RowLog) : LogRecord :=
  let tot := uint32 (LOG_HEADER_SIZE + 4 * 2 + (len old_value + len (value_ row)) + 8
                     + (8 + len (table_name_ row)) + 4 + 4) in
  mkLog (mkHdr UPDATE INVALID_LSN tot txn_id prev_lsn) (UpdateBody old_value row).

(** ** Serialization *)

Definition serialize_header (h : LogHeader) : bytes :=
  i32 (LogType_val (log_type_ h)) ++ i32 (lsn_ h) ++ u32 (log_tot_len_ h)
  ++ i32 (log_tid_ h) ++ i32 (prev_lsn_ h).
Definition serialize_rid (r : Rid) : bytes := i32 (page_no r) ++ i32 (slot_no r).
Definition serialize_value (v : bytes) : bytes := i32 (len v) ++ v.
Definition serialize_row (row : RowLog) : bytes :=
  serialize_value (value_ row) ++ serialize_rid (rid_ row)
  ++ u64 (len (table_name_ row)) ++ table_name_ row
  ++ i32 (first_free_page_no_ row) ++ i32 (num_pages_ row).
Definition serialize_body (b : LogBody) : bytes :=
  match b with
  | NoBody => []
  | RowBody row => serialize_row row
  | UpdateBody old_value row => serialize_value old_value ++ serialize_row row
  end.
Definition serialize (r : LogRecord) : bytes :=
  serialize_header (log_hdr r) ++ serialize_body (log_body r).

Definition deserialize_header (src : bytes) : option LogHeader :=
  t ← rd_i32 src OFFSET_LOG_TYPE;
  ty ← LogType_of t;
  lsn ← rd_i32 src OFFSET_LSN;
  tot ← rd_u32 src OFFSET_LOG_TOT_LEN;
  tid ← rd_i32 src OFFSET_LOG_TID;
  prev ← rd_i32 src OFFSET_PREV_LSN;
  Some (mkHdr ty lsn tot tid prev).

(** [RmRecord::Deserialize] *)
Definition deserialize_value (src : bytes) (off : Z) : option bytes :=
  size ← rd_i32 src off; rd src (off + 4) size.

Definition deserialize_row (src : bytes) (offset : Z) : option RowLog :=
  v ← deserialize_value src offset;
  let offset := offset + len v + 4 in
  p ← rd_i32 src offset;
  s ← rd_i32 src (offset + 4);
  let offset := offset + 8 in
  n ← rd_u64 src offset;
  let offset := offset + 8 in
  name ← rd src offset n;
  let offset := offset + n in
  ffp ← rd_i32 src offset;
  let offset := offset + 4 in
  np ← rd_i32 src offset;
  Some (mkRow v (mkRid p s) name ffp np).

(** [deserialize] of the class that [log_type_] selects. *)
Definition deserialize (src : bytes) : option LogRecord :=
  h ← deserialize_header src;
  match log_type_ h with
  | begin_ | commit_ | ABORT | Checkpoint => Some (mkLog h NoBody)
  | INSERT | DELETE => row ← deserialize_row src OFFSET_LOG_DATA; Some (mkLog h (RowBody row))
  | UPDATE =>
      old_value ← deserialize_value src OFFSET_LOG_DATA;
      row ← deserialize_row src (OFFSET_LOG_DATA + 4 + len old_value);
      Some (mkLog h (UpdateBody old_value row))
  end.

(** ** The log manager *)

Record LogManager := mkLM {
  global_lsn_ : Z;
  buffer_ : bytes;
  persist_lsn_ : Z;
}.

Definition offset_ (lm : LogManager) : Z := len (buffer_ lm).

(** [persist_lsn_] is not initialised by the constructor. *)
Definition LogManager_new (persist : Z) : LogManager := mkLM 0 [] persist.

Definition is_full (append_size : Z) (lm : LogManager) : bool :=
  offset_ lm + append_size >? LOG_BUFFER_SIZE.

Definition log_disk {A} (m : M DiskManager A) : M (LogManager * DiskManager) A :=
  zoom snd (λ d t, (t.1, d)) m.

Definition flush_log_to_disk : M (LogManager * DiskManager) unit :=
  let! lm := gets fst in
  if offset_ lm =? 0 then ret tt else
  do! log_disk (write_log (buffer_ lm)) in
  modify (λ t, (mkLM (global_lsn_ lm) [] (global_lsn_ lm), t.2)).

(** A record whose [log_tot_len_] is not the number of bytes [serialize] writes
    would overrun [dest] or copy bytes that were never written, and a record
    larger than the buffer would overrun [buffer_]. *)
Definition add_log_to_buffer (log_record : LogRecord) : M (LogManager * DiskManager) Z :=
  let log_record_size := wrap32 (log_tot_len_ (log_hdr log_record)) in
  let! full := gets (λ t, is_full log_record_size t.1) in
  do! (if full : bool then flush_log_to_disk else ret tt) in
  let! lm := gets fst in
  let lsn := global_lsn_ lm in
  let dest := serialize (set_lsn lsn log_record) in
  do! massert (len dest =? log_record_size) in
  do! massert (offset_ lm + log_record_size <=? LOG_BUFFER_SIZE + 1) in
  do! modify (λ t, (mkLM (wrap32 (lsn + 1)) (buffer_ lm ++ dest) (persist_lsn_ lm), t.2)) in
  ret lsn.

(** ** Well-formed records *)

Definition body_type_ok (t : LogType) (b : LogBody) : Prop :=
  match t, b with
  | (begin_ | commit_ | ABORT | Checkpoint), NoBody => True
  | (INSERT | DELETE), RowBody _ => True
  | UPDATE, UpdateBody _ _ => True
  | _, _ => False
  end.

Definition value_ok (v : bytes) : Prop := i32_ok (len v) = true.
Definition row_ok (row : RowLog) : Prop :=
  value_ok (value_ row) ∧ i32_ok (page_no (rid_ row)) = true ∧ i32_ok (slot_no (rid_ row)) = true ∧
  len (table_name_ row) < 2 ^ 64 ∧ i32_ok (first_free_page_no_ row) = true ∧
  i32_ok (num_pages_ row) = true.
Definition body_ok (b : LogBody) : Prop :=
  match b with
  | NoBody => True
  | RowBody row => row_ok row
  | UpdateBody old_value row => value_ok old_value ∧ row_ok row
  end.
Definition header_ok (h : LogHeader) : Prop :=
  i32_ok (lsn_ h) = true ∧ 0 ≤ log_tot_len_ h < 2 ^ 32 ∧ i32_ok (log_tid_ h) = true ∧
  i32_ok (prev_lsn_ h) = true.
Definition log_ok (r : LogRecord) : Prop :=
  header_ok (log_hdr r) ∧ body_ok (log_body r) ∧ body_type_ok (log_type_ (log_hdr r)) (log_body r).

(** ** The round trip *)

Lemma LogType_of_val t : LogType_of (LogType_val t) = Some t.
Proof. by destruct t. Qed.

Lemma LogType_val_ok t : i32_ok (LogType_val t) = true.
Proof. by destruct t. Qed.

Lemma i32_length z : length (i32 z) = 4%nat. Proof. apply le_bytes_length. Qed.
Lemma u32_length z : length (u32 z) = 4%nat. Proof. apply le_bytes_length. Qed.
Lemma u64_length z : length (u64 z) = 8%nat. Proof. apply le_bytes_length. Qed.
#[export] Hint Rewrite i32_length u32_length u64_length @length_app : bytes_len.
Ltac len := autorewrite with bytes_len; simpl; try lia.

(** Reading a field behind a prefix of known length. *)
Lemma rd_i32_field pre z post off :
  off = len pre → i32_ok z = true → rd_i32 (pre ++ i32 z ++ post) off = Some z.
Proof.
  intros Ho Hz. unfold rd_i32. rewrite (rd_field pre (i32 z) post off 4 Ho) by len. simpl.
  by rewrite wrap32_le_uint_i32.
Qed.

Lemma rd_i32_first z post : i32_ok z = true → rd_i32 (i32 z ++ post) 0 = Some z.
Proof. apply (rd_i32_field [] z post 0). done. Qed.

Lemma rd_u32_field pre z post off :
  off = len pre → 0 ≤ z < 2 ^ 32 → rd_u32 (pre ++ u32 z ++ post) off = Some z.
Proof.
  intros Ho Hz. unfold rd_u32. rewrite (rd_field pre (u32 z) post off 4 Ho) by len. simpl.
  unfold u32. rewrite le_uint_bytes. change (256 ^ Z.of_nat 4) with (2 ^ 32). by rewrite Z.mod_small.
Qed.

Lemma rd_u64_field pre z post off :
  off = len pre → 0 ≤ z < 2 ^ 64 → rd_u64 (pre ++ u64 z ++ post) off = Some z.
Proof.
  intros Ho Hz. unfold rd_u64. rewrite (rd_field pre (u64 z) post off 8 Ho) by len. simpl.
  unfold u64. rewrite le_uint_bytes. change (256 ^ Z.of_nat 8) with (2 ^ 64). by rewrite Z.mod_small.
Qed.


Lemma serialize_header_length h : length (serialize_header h) = 20%nat.
Proof. unfold serialize_header. len. Qed.

#[local] Opaque rd rd_i32 rd_u32 rd_u64 i32 u32 u64.

Lemma deserialize_header_serialize h rest :
  header_ok h → deserialize_header (serialize_header h ++ rest) = Some h.
Proof.
  intros (Hl&Ht&Hi&Hp). unfold deserialize_header, serialize_header.
  destruct h as [t lsn tot tid prev]; simpl in Hl, Ht, Hi, Hp |- *.
  rewrite <- !(assoc_L (++)).
  rewrite (rd_i32_first (LogType_val t) _ (LogType_val_ok t)). cbn [mbind option_bind].
  rewrite LogType_of_val. cbn [mbind option_bind].
  set (p1 := i32 (LogType_val t)). assert (L1 : len p1 = 4) by (unfold p1; len).
  rewrite (rd_i32_field p1 lsn _ OFFSET_LSN) by (done || lia). cbn [mbind option_bind].
  rewrite (assoc_L (++) p1). set (p2 := p1 ++ i32 lsn). assert (L2 : len p2 = 8) by (unfold p2; len).
  rewrite (rd_u32_field p2 tot _ OFFSET_LOG_TOT_LEN) by (done || lia). cbn [mbind option_bind].
  rewrite (assoc_L (++) p2). set (p3 := p2 ++ u32 tot). assert (L3 : len p3 = 12) by (unfold p3; len).
  rewrite (rd_i32_field p3 tid _ OFFSET_LOG_TID) by (done || lia). cbn [mbind option_bind].
  rewrite (assoc_L (++) p3). set (p4 := p3 ++ i32 tid). assert (L4 : len p4 = 16) by (unfold p4; len).
  rewrite (rd_i32_field p4 prev _ OFFSET_PREV_LSN) by (done || lia). done.
Qed.

Lemma deserialize_value_field pre v post off :
  off = len pre → value_ok v → deserialize_value (pre ++ serialize_value v ++ post) off = Some v.
Proof.
  intros Ho Hv. unfold deserialize_value, serialize_value. rewrite <- (assoc_L (++)).
  rewrite (rd_i32_field pre (len v)) by done. simpl. rewrite (assoc_L (++) pre).
  apply rd_field; len.
Qed.

Lemma deserialize_row_field pre row post off :
  off = len pre → row_ok row → deserialize_row (pre ++ serialize_row row ++ post) off = Some row.
Proof.
  intros Ho (Hv&?&?&?&?&?). destruct row as [v [p s] name ffp np]; simpl in *.
  unfold deserialize_row, serialize_row, serialize_rid. simpl. rewrite <- !(assoc_L (++)).
  rewrite (deserialize_value_field pre v) by done. simpl.
  rewrite (assoc_L (++) pre). set (p1 := pre ++ serialize_value v).
  assert (L1 : len p1 = off + len v + 4) by (unfold p1, serialize_value; len).
  rewrite (rd_i32_field p1 p _ (off + len v + 4)) by (done || lia). simpl. rewrite (assoc_L (++) p1).
  set (p2 := p1 ++ i32 p). assert (L2 : len p2 = off + len v + 4 + 4) by (unfold p2; len).
  rewrite (rd_i32_field p2 s _ (off + len v + 4 + 4)) by (done || lia). simpl. rewrite (assoc_L (++) p2).
  set (p3 := p2 ++ i32 s). assert (L3 : len p3 = off + len v + 4 + 8) by (unfold p3; len).
  rewrite (rd_u64_field p3) by lia. simpl. rewrite (assoc_L (++) p3).
  set (p4 := p3 ++ u64 (len name)). assert (L4 : len p4 = off + len v + 4 + 8 + 8) by (unfold p4; len).
  rewrite (rd_field p4 name) by lia. simpl. rewrite (assoc_L (++) p4).
  set (p5 := p4 ++ name). assert (L5 : len p5 = off + len v + 4 + 8 + 8 + len name) by (unfold p5; len).
  rewrite (rd_i32_field p5 ffp _ (off + len v + 4 + 8 + 8 + len name)) by (done || lia). simpl. rewrite (assoc_L (++) p5).
  rewrite (rd_i32_field (p5 ++ i32 ffp)) by (done || len). done.
Qed.

Lemma deserialize_serialize r rest :
  log_ok r → deserialize (serialize r ++ rest) = Some r.
Proof.
  intros (Hh & Hb & Ht). destruct r as [h b]; simpl in *. unfold deserialize, serialize. simpl.
  rewrite <- (assoc_L (++)), deserialize_header_serialize by done. simpl.
  pose proof (serialize_header_length h) as Hl.
  destruct (log_type_ h), b as [|row|old row]; simpl in *; try done.
  - destruct Hb as [Ho Hr]. rewrite <- (assoc_L (++)).
    rewrite deserialize_value_field by (done || (unfold OFFSET_LOG_DATA; lia)). simpl.
    rewrite (assoc_L (++) (serialize_header h)), deserialize_row_field; [done| |done].
    unfold serialize_value. rewrite !length_app, Hl, i32_length.
    change OFFSET_LOG_DATA with 20. lia.
  - rewrite deserialize_row_field by (done || lia). done.
  - rewrite deserialize_row_field by (done || lia). done.
Qed.
#[local] Transparent rd rd_i32 rd_u32 rd_u64 i32 u32 u64.

(** ** The length of a record *)

Lemma serialize_row_length row :
  len (serialize_row row) = 4 + len (value_ row) + 8 + (8 + len (table_name_ row)) + 4 + 4.
Proof. unfold serialize_row, serialize_value, serialize_rid. len. Qed.

Lemma serialize_length r :
  len (serialize r) = 20 + len (serialize_body (log_body r)).
Proof. unfold serialize. rewrite length_app, serialize_header_length. lia. Qed.

Definition sized (r : LogRecord) : Prop := log_tot_len_ (log_hdr r) = len (serialize r).

Lemma set_lsn_sized lsn r : sized r → sized (set_lsn lsn r).
Proof. unfold sized. rewrite !serialize_length. done. Qed.

(** ** The log as the sequence of the records added *)

Inductive log_op : Type := LAdd (r : LogRecord) | LFlush.

Fixpoint log_run (ops : list log_op) : M (LogManager * DiskManager) unit :=
  match ops with
  | [] => ret tt
  | LAdd r :: ops => do! add_log_to_buffer r in log_run ops
  | LFlush :: ops => do! flush_log_to_disk in log_run ops
  end.

Fixpoint added (ops : list log_op) : list LogRecord :=
  match ops with
  | [] => []
  | LAdd r :: ops => r :: added ops
  | LFlush :: ops => added ops
  end.

(** The records with their sequence numbers, from [n] on. *)
Fixpoint stamp (n : Z) (rs : list LogRecord) : list LogRecord :=
  match rs with
  | [] => []
  | r :: rs => set_lsn n r :: stamp (n + 1) rs
  end.

Definition log_bytes (rs : list LogRecord) : bytes := concat (serialize <$> rs).

Lemma log_bytes_app rs1 rs2 : log_bytes (rs1 ++ rs2) = log_bytes rs1 ++ log_bytes rs2.
Proof. unfold log_bytes. by rewrite fmap_app, concat_app. Qed.

(** The state after the records [rs] were added to the log file [f0]: [n] of them
    are in the file. *)
Record log_inv (g0 p0 : Z) (f0 : bytes) (rs : list LogRecord) (n : nat)
    (t : LogManager * DiskManager) : Prop := {
  li_disk : dm_inv t.2;
  li_fd : log_fd_ok t.2;
  li_n : (n ≤ length rs)%nat;
  li_file : log_file t.2 = Some (f0 ++ log_bytes (take n rs));
  li_buffer : buffer_ t.1 = log_bytes (drop n rs);
  li_global : global_lsn_ t.1 = g0 + len rs;
  li_persist : persist_lsn_ t.1 = if decide (n = 0%nat) then p0 else g0 + Z.of_nat n;
}.

Lemma log_bytes_nil rs : log_bytes rs = [] → rs = [].
Proof.
  destruct rs as [|r rs]; [done|]. change (log_bytes (r :: rs)) with (serialize r ++ log_bytes rs).
  intros [H _]%app_nil. apply (f_equal length) in H.
  pose proof (serialize_length r). change (length []) with 0%nat in H. lia.
Qed.

Lemma zoom_Ok {S T A} (prj : T → S) (upd : S → T → T) (m : M S A) t a t' :
  zoom prj upd m t = (Ok a, t') ↔ ∃ s, m (prj t) = (Ok a, s) ∧ t' = upd s t.
Proof. unfold zoom. destruct (m (prj t)). naive_solver. Qed.

Lemma flush_log_inv g0 p0 f0 rs n t t' :
  log_inv g0 p0 f0 rs n t → flush_log_to_disk t = (Ok tt, t') →
  log_inv g0 p0 f0 rs (length rs) t' ∧ buffer_ t'.1 = [] ∧ data_kept t.2 t'.2 ∧
  fd2pageno_ t'.2 = fd2pageno_ t.2.
Proof.
  intros [Hd Hl Hn Hf Hb Hg Hp] H. unfold flush_log_to_disk in H.
  apply bind_Ok in H as (? & ? & [-> ->]%gets_Ok & H).
  destruct (Z.eqb_spec (offset_ t.1) 0) as [E|E].
  - apply ret_Ok in H as [_ ->]. unfold offset_ in E.
    assert (E' : buffer_ t.1 = []) by (by apply nil_length_inv; lia).
    rewrite E' in Hb. symmetry in Hb. apply log_bytes_nil in Hb as Hd0.
    assert (n = length rs) as ->.
    { apply (f_equal length) in Hd0. rewrite length_drop in Hd0. simpl in Hd0. lia. }
    split_and!; [by split; rewrite ?drop_all|done|done|done].
  - apply bind_Ok in H as ([] & ? & (d' & Hw & ->)%zoom_Ok & ->%modify_Ok). simpl.
    pose proof (write_log_inv (buffer_ t.1) t.2 Hd) as Hd'. rewrite Hw in Hd'.
    apply write_log_Ok in Hw as (Hl' & Hk & Hpg & f & Hf' & Hf''); [|done..].
    rewrite Hf in Hf'. simplify_eq.
    split_and!; [|done|done|done].
    split; simpl; try done.
    + rewrite Hf'', Hb, firstn_all, <- (assoc_L (++)), <- log_bytes_app, take_drop. done.
    + by rewrite drop_all.
    + rewrite decide_False; [done|]. intros Hz. apply nil_length_inv in Hz. subst rs.
      destruct E. unfold offset_. rewrite Hb. by rewrite drop_nil.
Qed.

(** What a flush does to the disk, whatever the log holds. *)
Lemma flush_log_Ok t t' :
  dm_inv t.2 → log_fd_ok t.2 → flush_log_to_disk t = (Ok tt, t') →
  dm_inv t'.2 ∧ log_fd_ok t'.2 ∧ data_kept t.2 t'.2 ∧ fd2pageno_ t'.2 = fd2pageno_ t.2.
Proof.
  intros Hd Hl H. unfold flush_log_to_disk in H.
  apply bind_Ok in H as (? & ? & [-> ->]%gets_Ok & H).
  destruct (Z.eqb_spec (offset_ t.1) 0) as [E|E]; [by apply ret_Ok in H as [_ ->]|].
  apply bind_Ok in H as ([] & ? & (d' & Hw & ->)%zoom_Ok & ->%modify_Ok). simpl.
  pose proof (write_log_inv (buffer_ t.1) t.2 Hd) as Hd'. rewrite Hw in Hd'.
  apply write_log_Ok in Hw as (? & ? & ? & _); done.
Qed.

Lemma add_log_inv g0 p0 f0 rs n r lsn t t' :
  log_inv g0 p0 f0 rs n t → add_log_to_buffer r t = (Ok lsn, t') →
  i32_ok (g0 + len rs + 1) = true →
  lsn = g0 + len rs ∧ data_kept t.2 t'.2 ∧ fd2pageno_ t'.2 = fd2pageno_ t.2 ∧
  ∃ n', log_inv g0 p0 f0 (rs ++ [set_lsn lsn r]) n' t'.
Proof.
  intros Hi H Hok. unfold add_log_to_buffer in H.
  apply bind_Ok in H as (? & ? & [-> ->]%gets_Ok & H).
  apply bind_Ok in H as ([] & t1 & Hfl & H).
  assert (∃ n', log_inv g0 p0 f0 rs n' t1 ∧ data_kept t.2 t1.2 ∧ fd2pageno_ t1.2 = fd2pageno_ t.2)
    as (n' & Hi1 & Hk & Hpg).
  { destruct (is_full _ _); [|apply ret_Ok in Hfl as [_ ->]; by exists n].
    eapply flush_log_inv in Hfl as (? & _ & ? & ?); [|done]. eauto. }
  clear Hfl Hi. destruct Hi1 as [Hd Hl Hn Hf Hb Hg Hp].
  apply bind_Ok in H as (? & ? & [-> ->]%gets_Ok & H).
  apply bind_Ok in H as (? & ? & [_ ->]%massert_Ok & H).
  apply bind_Ok in H as (? & ? & [_ ->]%massert_Ok & H).
  apply bind_Ok in H as ([] & ? & ->%modify_Ok & [-> ->]%ret_Ok).
  rewrite Hg. split_and!; [done|done|done|]. exists n'. split; simpl; try done.
  - rewrite length_app. lia.
  - by rewrite take_app_le.
  - rewrite Hb, drop_app_le by done. rewrite log_bytes_app. unfold log_bytes at 3. simpl.
    by rewrite app_nil_r.
  - rewrite wrap32_id by done. rewrite length_app. simpl. lia.
Qed.

Lemma stamp_length n rs : length (stamp n rs) = length rs.
Proof. revert n. induction rs; intros; simpl; congruence. Qed.

Lemma log_run_inv ops g0 p0 f0 rs n t t' :
  log_inv g0 p0 f0 rs n t → log_run ops t = (Ok tt, t') →
  i32_ok (g0 + len rs + len (added ops)) = true → - 2 ^ 31 ≤ g0 →
  ∃ n', log_inv g0 p0 f0 (rs ++ stamp (g0 + len rs) (added ops)) n' t'.
Proof.
  revert rs n t. induction ops as [|[r|] ops IH]; intros rs n t Hi H Hok Hg; simpl in *.
  - apply ret_Ok in H as [_ ->]. rewrite app_nil_r. eauto.
  - apply bind_Ok in H as (lsn & t1 & Ha & H). rewrite i32_ok_range in Hok.
    eapply add_log_inv in Ha as (-> & _ & _ & n' & Hi'); [|done|rewrite i32_ok_range; lia].
    eapply IH in H as [n'' Hi'']; [|done| |done].
    + rewrite length_app in Hi''. simpl in Hi''. rewrite <- (assoc_L (++)) in Hi''. simpl in Hi''.
      replace (g0 + Z.of_nat (length rs + 1)) with (g0 + len rs + 1) in Hi'' by lia. eauto.
    + rewrite length_app. simpl. rewrite i32_ok_range. lia.
  - apply bind_Ok in H as ([] & t1 & Ha & H).
    eapply flush_log_inv in Ha as (Hi' & _); [|done]. eauto.
Qed.

(** ** Properties *)

(** C16: a log record of any class survives the trip through its bytes, whatever
    follows it in the log. *)
Theorem log_record_roundtrip (r : LogRecord) (rest : bytes) :
  log_ok r → deserialize (serialize r ++ rest) = Some r.
Proof. apply deserialize_serialize. Qed.

Definition demo_row : RowLog := mkRow [10; 20; 30] (mkRid 1 2) [116; 98] 3 4.

Lemma log_record_roundtrip_witness :
  log_ok (UpdateLogRecord 5 6 [1; 2] demo_row) ∧
  deserialize (serialize (UpdateLogRecord 5 6 [1; 2] demo_row) ++ [9; 9])
  = Some (UpdateLogRecord 5 6 [1; 2] demo_row).
Proof.
  assert (H : log_ok (UpdateLogRecord 5 6 [1; 2] demo_row)).
  { repeat split; vm_compute; congruence. }
  split; [exact H|]. apply (log_record_roundtrip _ _ H).
Defined.

(** The length the constructors of the record classes put in the header is the
    number of bytes [serialize] writes, which is what lets a reader step from
    one record of the log to the next. *)
Theorem log_tot_len_is_length (t : LogType) (txn_id prev_lsn lsn : Z) (old_value : bytes)
    (row : RowLog) :
  len old_value + len (value_ row) + len (table_name_ row) + 52 < 2 ^ 32 →
  Forall (λ r, log_tot_len_ (log_hdr r) = len (serialize (set_lsn lsn r)))
    [BeginLogRecord txn_id; CommitLogRecord txn_id; AbortLogRecord txn_id; CkpLogRecord;
     InsertLogRecord txn_id prev_lsn row; DeleteLogRecord txn_id prev_lsn row;
     UpdateLogRecord txn_id prev_lsn old_value row].
Proof.
  intros H.
  assert (Hv : len (serialize_value old_value) = 4 + len old_value) by (unfold serialize_value; len).
  pose proof (serialize_row_length row) as Hr.
  assert (Hh : ∀ z, 20 + z = LOG_HEADER_SIZE + z) by done.
  repeat constructor; rewrite serialize_length;
    unfold header_only, InsertLogRecord, DeleteLogRecord, row_record, UpdateLogRecord, uint32, set_lsn;
    cbn [log_hdr log_body log_tot_len_ serialize_body]; rewrite ?length_app, ?Nat2Z.inj_add, ?Hr, ?Hv, ?Hh;
    try reflexivity; rewrite Z.mod_small; unfold LOG_HEADER_SIZE, OFFSET_LOG_DATA, OFFSET_PREV_LSN,
      OFFSET_LOG_TID, OFFSET_LOG_TOT_LEN, OFFSET_LSN; lia.
Qed.

Lemma log_tot_len_is_length_witness :
  Forall (λ r, log_tot_len_ (log_hdr r) = len (serialize (set_lsn 3 r)))
    [BeginLogRecord 1; CommitLogRecord 1; AbortLogRecord 1; CkpLogRecord;
     InsertLogRecord 1 2 demo_row; DeleteLogRecord 1 2 demo_row; UpdateLogRecord 1 2 [7] demo_row].
Proof. apply (log_tot_len_is_length UPDATE 1 2 3 [7] demo_row). vm_compute. reflexivity. Defined.

(** C15: after any sequence of [add_log_to_buffer] and [flush_log_to_disk] calls that
    return, the log file followed by the log buffer is the old file followed by
    the bytes of exactly the records added, in order and with consecutive
    sequence numbers from 0: nothing is lost, duplicated or torn by the flush
    that a full buffer forces.  [persist_lsn_] is the number of the records that
    are in the file, that is the sequence number of the first record that is
    {e not} persistent. *)
Theorem log_is_the_records_added (ops : list log_op) (persist : Z) (d : DiskManager) (f : bytes)
    (lm' : LogManager) (d' : DiskManager) :
  dm_inv d → log_fd_ok d → log_file d = Some f →
  log_run ops (LogManager_new persist, d) = (Ok tt, (lm', d')) →
  len (added ops) ≤ INT_MAX →
  let rs := stamp 0 (added ops) in
  ∃ n : nat, (n ≤ length rs)%nat ∧
    log_file d' = Some (f ++ log_bytes (take n rs)) ∧
    buffer_ lm' = log_bytes (drop n rs) ∧
    global_lsn_ lm' = len rs ∧
    persist_lsn_ lm' = if decide (n = 0%nat) then persist else Z.of_nat n.
Proof.
  intros Hd Hl Hf Hrun Hlen rs.
  assert (Hi : log_inv 0 persist f [] 0 (LogManager_new persist, d)).
  { split; simpl; try done. by rewrite app_nil_r. }
  eapply log_run_inv in Hrun as [n Hi']; [|done| |lia].
  - destruct Hi'. exists n. simpl in *. split_and!; try done.
  - rewrite i32_ok_range. unfold INT_MAX in Hlen. simpl. lia.
Qed.

Definition demo_log_disk : DiskManager :=
  foldl (λ d op, dm_exec op d) (DiskManager_new demo_kernel) [OpCreateFile LOG_FILE_NAME].
Definition demo_log_ops : list log_op :=
  [LAdd (BeginLogRecord 1); LAdd (InsertLogRecord 1 0 demo_row); LFlush; LAdd (CommitLogRecord 1)].

Lemma log_is_the_records_added_witness :
  ∃ lm' d' n, log_run demo_log_ops (LogManager_new 0, demo_log_disk) = (Ok tt, (lm', d')) ∧
    log_file d' = Some ([] ++ log_bytes (take n (stamp 0 (added demo_log_ops)))).
Proof.
  destruct (log_run demo_log_ops (LogManager_new 0, demo_log_disk)) as [o [lm' d']] eqn:E.
  assert (Ho : o = Ok tt).
  { change o with ((o, (lm', d')).1). rewrite <- E. vm_compute. reflexivity. }
  subst o. exists lm', d'.
  destruct (log_is_the_records_added demo_log_ops 0 demo_log_disk [] lm' d') as (n & _ & Hf & _).
  - repeat apply dm_exec_inv. apply DiskManager_new_inv. reflexivity.
  - left. reflexivity.
  - vm_compute. reflexivity.
  - exact E.
  - vm_compute. congruence.
  - exists n. split; [reflexivity|exact Hf].
Defined.
