(* ===== verification/BufferPool.v ===== *)
(** * The buffer pool (src/src/storage/page.h, buffer_pool_manager.h and
    buffer_pool_manager.cpp)

    [Storage] is the state the buffer pool and its clients share: the disk
    manager, the log manager the pool points to ([None] is [nullptr]) and the pool
    itself.  A [Page*] is the index of its frame in [pages_].  The public methods
    hold [latch_] for the whole call, which makes each of them one step.  The pool
    is generic in its replacer, through the interface of Replacer.v. *)
From S2P Require Import Prelude Bytes Disk Log Replacer.

Definition INVALID_PAGE_ID : Z := -1.

(** File descriptor and page number.  [PageId]'s [==] is the equality of pairs. *)
Abbreviation PageId := (Z * Z)%type.

Record Page := mkPage {
  id_ : PageId;
  data_ : bytes;
  is_dirty_ : bool;
  pin_count_ : Z;
}.

Definition get_page_lsn (p : Page) : option Z := rd_i32 (data_ p) 0.
Definition set_page_lsn (page_lsn : Z) (data : bytes) : option bytes := wr data 0 (i32 page_lsn).
Definition reset_memory : bytes := replicate (Z.to_nat PAGE_SIZE) 0.

(** [PageId::operator<] *)
Definition PageId_lt (x y : PageId) : bool :=
  if x.1 <? y.1 then true else x.2 <? y.2.

Section pool.
Context {R : Type} `{Replacer R}.

Record BufferPoolManager := mkBPM {
  pool_size_ : nat;
  pages_ : list Page;
  page_table_ : gmap PageId Z;
  free_list_ : list Z;
  replacer_ : R;
}.

Record Storage := mkStorage {
  s_disk : DiskManager;
  s_log : option LogManager;
  s_bpm : BufferPoolManager;
}.

(** The constructor: [Page()] leaves the descriptor of its id uninitialised. *)
Definition BufferPoolManager_new (pool_size : nat) (junk_fd : Z) (replacer : R) : BufferPoolManager :=
  mkBPM pool_size
    (replicate pool_size (mkPage (junk_fd, INVALID_PAGE_ID) reset_memory false 0)) ∅
    (seqZ 0 (Z.of_nat pool_size)) replacer.

Definition set_disk (d : DiskManager) (s : Storage) : Storage := mkStorage d (s_log s) (s_bpm s).
Definition set_bpm (b : BufferPoolManager) (s : Storage) : Storage := mkStorage (s_disk s) (s_log s) b.
Definition set_pages (ps : list Page) (s : Storage) : Storage :=
  let b := s_bpm s in
  set_bpm (mkBPM (pool_size_ b) ps (page_table_ b) (free_list_ b) (replacer_ b)) s.
Definition set_table (m : gmap PageId Z) (s : Storage) : Storage :=
  let b := s_bpm s in
  set_bpm (mkBPM (pool_size_ b) (pages_ b) m (free_list_ b) (replacer_ b)) s.
Definition set_free (l : list Z) (s : Storage) : Storage :=
  let b := s_bpm s in
  set_bpm (mkBPM (pool_size_ b) (pages_ b) (page_table_ b) l (replacer_ b)) s.
Definition set_replacer (r : R) (s : Storage) : Storage :=
  let b := s_bpm s in
  set_bpm (mkBPM (pool_size_ b) (pages_ b) (page_table_ b) (free_list_ b) r) s.

Definition disk_call {A} (m : M DiskManager A) : M Storage A := zoom s_disk set_disk m.

(** [log_manager_->flush_log_to_disk()] *)
Definition log_flush : M Storage unit := λ s,
  match s_log s with
  | None => (Stuck, s)
  | Some lm =>
      let '(o, (lm', d)) := flush_log_to_disk (lm, s_disk s) in
      (o, mkStorage d (Some lm') (s_bpm s))
  end.

(** [pages_[frame_id]] *)
Definition frame (s : Storage) (f : Z) : option Page :=
  if 0 <=? f then pages_ (s_bpm s) !! Z.to_nat f else None.
Definition get_frame (f : Z) : M Storage Page :=
  let! o := gets (λ s, frame s f) in of_option o.
Definition put_frame (f : Z) (p : Page) : M Storage unit :=
  modify (λ s, set_pages (<[Z.to_nat f := p]> (pages_ (s_bpm s))) s).

(** [read_page] into the data of a frame *)
Definition read_into (f fd page_no : Z) : M Storage unit :=
  let! p := get_frame f in
  λ s, let '(o, (buf, d)) := read_page fd page_no PAGE_SIZE (data_ p, s_disk s) in
       (o, (put_frame f (mkPage (id_ p) buf (is_dirty_ p) (pin_count_ p)) (set_disk d s)).2).

Definition find_victim_page : M Storage (option Z) :=
  let! b := gets s_bpm in
  match free_list_ b with
  | [] =>
      let '(o, r) := victim (replacer_ b) in
      do! modify (set_replacer r) in ret o
  | f :: l => do! modify (set_free l) in ret (Some f)
  end.

Definition update_page (f : Z) (new_page_id : PageId) : M Storage unit :=
  let! page := get_frame f in
  let! log := gets s_log in
  do! match log with
      | Some lm =>
          let! lsn := of_option (get_page_lsn page) in
          if lsn >? persist_lsn_ lm then log_flush else ret tt
      | None => ret tt
      end in
  do! (if is_dirty_ page then
         do! disk_call (write_page (id_ page).1 (id_ page).2 (data_ page)) in
         put_frame f (mkPage (id_ page) (data_ page) false (pin_count_ page))
       else ret tt) in
  do! modify (λ s, set_table (delete (id_ page) (page_table_ (s_bpm s))) s) in
  do! modify (λ s, set_table (<[new_page_id := f]> (page_table_ (s_bpm s))) s) in
  put_frame f (mkPage new_page_id reset_memory false 0).

(** [page->pin_count_++; replacer_->pin(frame_id)] *)
Definition pin_frame (f : Z) : M Storage unit :=
  let! p := get_frame f in
  do! put_frame f (mkPage (id_ p) (data_ p) (is_dirty_ p) (pin_count_ p + 1)) in
  modify (λ s, set_replacer (pin f (replacer_ (s_bpm s))) s).

Definition fetch_page (page_id : PageId) : M Storage (option Z) :=
  let! o := gets (λ s, page_table_ (s_bpm s) !! page_id) in
  match o with
  | Some f => do! pin_frame f in ret (Some f)
  | None =>
      let! v := find_victim_page in
      match v with
      | None => ret None
      | Some f =>
          do! update_page f page_id in
          do! read_into f page_id.1 page_id.2 in
          do! pin_frame f in
          ret (Some f)
      end
  end.

Definition unpin_page (page_id : PageId) (is_dirty : bool) : M Storage bool :=
  let! o := gets (λ s, page_table_ (s_bpm s) !! page_id) in
  match o with
  | None => ret false
  | Some f =>
      let! p := get_frame f in
      if pin_count_ p =? 0 then ret false else
      let n := pin_count_ p - 1 in
      do! put_frame f (mkPage (id_ p) (data_ p) (is_dirty || is_dirty_ p) n) in
      do! (if n =? 0 then modify (λ s, set_replacer (unpin f (replacer_ (s_bpm s))) s) else ret tt) in
      ret true
  end.

Definition flush_page (page_id : PageId) : M Storage bool :=
  let! o := gets (λ s, page_table_ (s_bpm s) !! page_id) in
  match o with
  | None => ret false
  | Some f =>
      let! p := get_frame f in
      do! disk_call (write_page page_id.1 page_id.2 (data_ p)) in
      do! put_frame f (mkPage (id_ p) (data_ p) false (pin_count_ p)) in
      ret true
  end.

(** The frame and page number of the new page. *)
Definition new_page (fd : Z) : M Storage (option (Z * Z)) :=
  let! v := find_victim_page in
  match v with
  | None => ret None
  | Some f =>
      let! page_no := disk_call (allocate_page fd) in
      do! update_page f (fd, page_no) in
      do! pin_frame f in
      let! p := get_frame f in
      do! disk_call (write_page fd page_no (data_ p)) in
      ret (Some (f, page_no))
  end.

Definition delete_page (page_id : PageId) : M Storage bool :=
  let! o := gets (λ s, page_table_ (s_bpm s) !! page_id) in
  match o with
  | None => ret true
  | Some f =>
      let! p := get_frame f in
      if pin_count_ p >? 0 then ret false else
      do! (if is_dirty_ p then disk_call (write_page (id_ p).1 (id_ p).2 (data_ p)) else ret tt) in
      do! modify (λ s, set_table (delete page_id (page_table_ (s_bpm s))) s) in
      do! modify (λ s, set_free (free_list_ (s_bpm s) ++ [f]) s) in
      do! put_frame f (mkPage (-1, INVALID_PAGE_ID) reset_memory false 0) in
      ret true
  end.

(** The body of [flush_all_pages]'s loop; the order of the hash map is the order of
    the list. *)
Fixpoint flush_entries (fd : Z) (entries : list (PageId * Z)) : M Storage unit :=
  match entries with
  | [] => ret tt
  | (page_id, f) :: entries =>
      do! (if fd =? page_id.1 then
             let! p := get_frame f in
             do! disk_call (write_page fd page_id.2 (data_ p)) in
             put_frame f (mkPage (id_ p) (data_ p) false (pin_count_ p))
           else ret tt) in
      flush_entries fd entries
  end.
Definition flush_all_pages (fd : Z) : M Storage unit :=
  let! entries := gets (λ s, map_to_list (page_table_ (s_bpm s))) in
  flush_entries fd entries.

(** What a client does with the [Page*] of a page: it changes the page's data in
    place.  [write_frame] replaces the data. *)
Definition write_frame (f : Z) (data : bytes) : M Storage unit :=
  let! p := get_frame f in
  put_frame f (mkPage (id_ p) data (is_dirty_ p) (pin_count_ p)).

(** ** The abstract pages *)

(** The page contents a client sees: those in the pool, else those on disk. *)
Definition cached (s : Storage) (pid : PageId) : option Page :=
  f ← page_table_ (s_bpm s) !! pid; frame s f.
Definition view (s : Storage) (pid : PageId) : option bytes :=
  match page_table_ (s_bpm s) !! pid with
  | Some f => data_ <$> frame s f
  | None => page_at (s_disk s) pid.1 pid.2
  end.
Definition pins (s : Storage) (pid : PageId) : Z :=
  match cached s pid with Some p => pin_count_ p | None => 0 end.

(** The descriptors of the data files: open, and not the log. *)
Definition data_fd (s : Storage) (fd : Z) : Prop :=
  ∃ path, fd_path (s_disk s) fd = Some path ∧ path ≠ LOG_FILE_NAME.

End pool.
Arguments BufferPoolManager R : clear implicits.
Arguments Storage R : clear implicits.

(** ** The invariant *)

Section laws.
Context {R : Type} `{!Replacer R, !ReplacerLaws R}.
Implicit Types (s : Storage R) (f fd : Z) (pid : PageId).

Abbreviation table s := (page_table_ (s_bpm s)).
Abbreviation free s := (free_list_ (s_bpm s)).
Abbreviation repl s := (replacer_ (s_bpm s)).

Record pool_inv s : Prop := {
  pi_disk : dm_inv (s_disk s);
  pi_logfd : log_fd_ok (s_disk s);
  pi_rep : rep_inv (repl s);
  pi_len : length (pages_ (s_bpm s)) = pool_size_ (s_bpm s);
  pi_data f p : frame s f = Some p → len (data_ p) = PAGE_SIZE ∧ 0 ≤ pin_count_ p;
  pi_map pid f : table s !! pid = Some f →
    data_fd s pid.1 ∧ 0 ≤ pid.2 ∧ ∃ p, frame s f = Some p ∧ id_ p = pid;
  pi_free f : f ∈ free s → ∃ p, frame s f = Some p ∧ (id_ p).2 = INVALID_PAGE_ID ∧
    is_dirty_ p = false ∧ pin_count_ p = 0;
  pi_nodup : NoDup (free s);
  pi_total f p : frame s f = Some p → f ∈ free s ∨ table s !! id_ p = Some f;
  pi_evict f : f ∈ evictable (repl s) → ∃ p, frame s f = Some p ∧ pin_count_ p = 0;
  pi_unpinned pid f p : table s !! pid = Some f → frame s f = Some p → pin_count_ p = 0 →
    f ∈ evictable (repl s);
  pi_clean pid f p : table s !! pid = Some f → frame s f = Some p → pin_count_ p = 0 →
    is_dirty_ p = false → page_at (s_disk s) pid.1 pid.2 = Some (data_ p);
}.

(** ** Frames *)

Definition upd_frame f (p : Page) s : Storage R :=
  set_pages (<[Z.to_nat f := p]> (pages_ (s_bpm s))) s.

Lemma get_frame_Ok f p s s' : get_frame f s = (Ok p, s') ↔ frame s f = Some p ∧ s' = s.
Proof.
  unfold get_frame, bind, gets. simpl. rewrite of_option_Ok. done.
Qed.

Lemma put_frame_Ok f p u s s' : put_frame f p s = (Ok u, s') ↔ s' = upd_frame f p s.
Proof. unfold put_frame. apply modify_Ok. Qed.

Lemma frame_upd f p s g :
  is_Some (frame s f) → frame (upd_frame f p s) g = if decide (g = f) then Some p else frame s g.
Proof.
  intros [p0 Hf]. unfold frame, upd_frame in *. simpl in *.
  destruct (Z.leb_spec 0 f); [|done]. destruct (Z.leb_spec 0 g).
  - destruct (decide (g = f)) as [->|].
    + rewrite list_lookup_insert_eq; [done|]. by eapply lookup_lt_Some.
    + rewrite list_lookup_insert_ne by lia. done.
  - rewrite decide_False by lia. done.
Qed.

Lemma frame_is_Some s f : is_Some (frame s f) ↔ 0 ≤ f < len (pages_ (s_bpm s)).
Proof.
  unfold frame. destruct (Z.leb_spec 0 f).
  - rewrite lookup_lt_is_Some. lia.
  - split; [by intros [? ?]|lia].
Qed.

Lemma map_inj s pid1 pid2 f :
  pool_inv s → table s !! pid1 = Some f → table s !! pid2 = Some f → pid1 = pid2.
Proof.
  intros Hi H1 H2. apply (pi_map _ Hi) in H1 as (_ & _ & p & ? & <-).
  apply (pi_map _ Hi) in H2 as (_ & _ & p' & ? & <-). congruence.
Qed.

Lemma free_unmapped s pid f : pool_inv s → f ∈ free s → table s !! pid ≠ Some f.
Proof.
  intros Hi Hf Hm. apply (pi_free _ Hi) in Hf as (p & Hp & Hid & _).
  apply (pi_map _ Hi) in Hm as (_ & Hpos & p' & Hp' & <-). rewrite Hp in Hp'. simplify_eq.
  rewrite Hid in Hpos. unfold INVALID_PAGE_ID in Hpos. lia.
Qed.

(** ** Disk steps: the whole pages of the data files, but for [exc], are kept *)

Definition pages_kept (exc : PageId → Prop) (d d' : DiskManager) : Prop :=
  ∀ fd path, fd_path d fd = Some path → path ≠ LOG_FILE_NAME →
    fd_path d' fd = Some path ∧
    ∀ n b, ¬ exc (fd, n) → page_at d fd n = Some b → page_at d' fd n = Some b.

Lemma pages_kept_trans (exc : PageId → Prop) d1 d2 d3 :
  pages_kept exc d1 d2 → pages_kept exc d2 d3 → pages_kept exc d1 d3.
Proof.
  intros H1 H2 fd path Hp Hne. destruct (H1 fd path Hp Hne) as [Hp2 Hk2].
  destruct (H2 fd path Hp2 Hne) as [Hp3 Hk3]. split; [done|]. eauto.
Qed.

Lemma pages_kept_weaken (exc exc' : PageId → Prop) d d' :
  pages_kept exc d d' → (∀ pid, exc pid → exc' pid) → pages_kept exc' d d'.
Proof.
  intros H Hsub fd path Hp Hne. destruct (H fd path Hp Hne) as [? Hk]. split; [done|].
  intros n b Hn. apply Hk. naive_solver.
Qed.

Lemma data_kept_pages d d' : data_kept d d' → pages_kept (λ _, False) d d'.
Proof.
  intros H fd path Hp Hne. destruct (H fd path Hp Hne) as [? Hf]. split; [done|].
  intros n b _. unfold page_at. by rewrite Hf.
Qed.

Lemma same_disk_pages d d' : same_disk d d' → pages_kept (λ _, False) d d'.
Proof.
  intros Hs fd path Hp Hne. split; [by rewrite (proj1 (proj2 Hs))|].
  intros n b _ Hb. by rewrite <- Hs.
Qed.

Lemma pages_kept_refl exc d : pages_kept exc d d.
Proof. intros fd path Hp _. split; [done|auto]. Qed.

Lemma write_page_any fd n data d d' :
  dm_inv d → log_fd_ok d → write_page fd n data d = (Ok tt, d') → len data ≤ PAGE_SIZE →
  dm_inv d' ∧ log_fd_ok d' ∧ pages_kept (λ pid, pid = (fd, n)) d d' ∧
  fd2pageno_ d' = fd2pageno_ d ∧ 0 ≤ n.
Proof.
  intros Hd Hl Hw Hlen. assert (Hd' : dm_inv d').
  { pose proof (write_page_inv fd n data d Hd) as Hi. by rewrite Hw in Hi. }
  pose proof (λ fd2 n2 b, write_page_other _ _ _ _ _ fd2 n2 b Hd Hw) as Hother.
  apply write_page_Ok in Hw as (path & o & f & E & F & Hn & ->).
  split_and!; try done. intros fd2 path2 Hp _. split.
  - unfold fd_path in *. simpl. destruct (decide (fd = fd2)) as [<-|].
    + rewrite lookup_insert_eq. rewrite E in Hp. done.
    + by rewrite lookup_insert_ne.
  - intros n2 b Hne. apply Hother; [lia|]. naive_solver.
Qed.

Lemma write_page_step fd n data d d' :
  dm_inv d → log_fd_ok d → write_page fd n data d = (Ok tt, d') → len data = PAGE_SIZE →
  dm_inv d' ∧ log_fd_ok d' ∧ pages_kept (λ pid, pid = (fd, n)) d d' ∧
  page_at d' fd n = Some data ∧ fd2pageno_ d' = fd2pageno_ d ∧ 0 ≤ n.
Proof.
  intros Hd Hl Hw Hlen. pose proof (write_page_page_at _ _ _ _ _ Hd Hw Hlen).
  apply write_page_any in Hw as (?&?&?&?&?); [by split_and!|done|done|lia].
Qed.

(** ** Loading a page into a frame *)

Lemma reset_memory_length : len reset_memory = PAGE_SIZE.
Proof. unfold reset_memory. rewrite length_replicate. done. Qed.

Lemma page_at_length d fd n b : page_at d fd n = Some b → len b = PAGE_SIZE.
Proof. unfold page_at. destruct (file_of d fd); [|done]. apply rd_length. Qed.

Lemma upd_frame_twice f p q s : upd_frame f p (upd_frame f q s) = upd_frame f p s.
Proof. unfold upd_frame, set_pages, set_bpm. simpl. by rewrite list_insert_insert_eq. Qed.

Lemma disk_call_Ok {A} (m : M DiskManager A) a s s' :
  disk_call m s = (Ok a, s') ↔ ∃ d, m (s_disk s) = (Ok a, d) ∧ s' = set_disk d s.
Proof. apply zoom_Ok. Qed.

(** While nothing waits in the log buffer, the pool leaves the log file alone. *)
Definition log_quiet s : Prop := ∀ lm, s_log s = Some lm → buffer_ lm = [].
Definition log_kept s s' : Prop :=
  log_quiet s → log_quiet s' ∧ log_file (s_disk s') = log_file (s_disk s).

#[export] Instance log_kept_preorder : PreOrder log_kept.
Proof.
  split; [by intros s ?|]. intros s1 s2 s3 H12 H23 [Hq E]%H12.
  apply H23 in Hq as [? ?]. split; [done|congruence].
Qed.

Lemma log_kept_refl s : log_kept s s.
Proof. reflexivity. Qed.

Lemma log_kept_same s s' :
  s_log s' = s_log s → log_file (s_disk s') = log_file (s_disk s) → log_kept s s'.
Proof. intros Hl Hf Hq. split; [|done]. intros lm. rewrite Hl. apply Hq. Qed.

Lemma write_page_log_file fd n data d d' path :
  fd_path d fd = Some path → path ≠ LOG_FILE_NAME → write_page fd n data d = (Ok tt, d') →
  log_file d' = log_file d.
Proof.
  intros Hp Hne (path' & o & f & E & F & _ & ->)%write_page_Ok.
  unfold fd_path in Hp. rewrite E in Hp. simplify_eq/=.
  unfold log_file. simpl. by rewrite lookup_insert_ne.
Qed.

(** The write-ahead check of [update_page]. *)
Lemma wal_check_Ok (page : Page) s s' :
  dm_inv (s_disk s) → log_fd_ok (s_disk s) →
  (match s_log s with
   | Some lm => let! lsn := of_option (get_page_lsn page) in
                if lsn >? persist_lsn_ lm then log_flush else ret tt
   | None => ret tt
   end) s = (Ok tt, s') →
  ∃ d' log', s' = mkStorage d' log' (s_bpm s) ∧ dm_inv d' ∧ log_fd_ok d' ∧
    pages_kept (λ _, False) (s_disk s) d' ∧ fd2pageno_ d' = fd2pageno_ (s_disk s) ∧
    log_kept s s' ∧ ∀ fd path, fd_path (s_disk s) fd = Some path → path ≠ LOG_FILE_NAME → fd_path d' fd = Some path.
Proof.
  intros Hd Hl H. assert (Hself : s = mkStorage (s_disk s) (s_log s) (s_bpm s)) by by destruct s.
  destruct (s_log s) as [lm|] eqn:El.
  2: { apply ret_Ok in H as [_ ->]. eauto 15 using pages_kept_refl, log_kept_refl. }
  apply bind_Ok in H as (lsn & ? & [_ ->]%of_option_Ok & H).
  destruct (lsn >? persist_lsn_ lm).
  2: { apply ret_Ok in H as [_ ->]. eauto 15 using pages_kept_refl, log_kept_refl. }
  unfold log_flush in H. rewrite El in H.
  destruct (flush_log_to_disk (lm, s_disk s)) as [o [lm' d']] eqn:Ef. simplify_eq.
  assert (Hk : log_kept s (mkStorage d' (Some lm') (s_bpm s))).
  { intros Hq. specialize (Hq lm El). unfold flush_log_to_disk in Ef. rewrite bind_gets in Ef.
    unfold offset_ in Ef. simpl in Ef. rewrite Hq in Ef. apply ret_Ok in Ef as [_ [= -> ->]].
    split; [|done]. intros lm2 [= <-]. done. }
  apply flush_log_Ok in Ef as (? & ? & Hdk & ?); [|done..]. simpl in *.
  eexists _, _. split_and!; [done|done|done|by apply data_kept_pages|done|done|].
  intros fd path Hp Hne. by apply (Hdk fd path).
Qed.

Lemma update_page_Ok f pid s s' :
  dm_inv (s_disk s) → log_fd_ok (s_disk s) →
  (∀ p, frame s f = Some p → len (data_ p) = PAGE_SIZE) →
  update_page f pid s = (Ok tt, s') →
  ∃ p d' log', frame s f = Some p ∧
    s' = upd_frame f (mkPage pid reset_memory false 0)
           (set_table (<[pid := f]> (delete (id_ p) (table s))) (mkStorage d' log' (s_bpm s))) ∧
    dm_inv d' ∧ log_fd_ok d' ∧
    pages_kept (λ q, is_dirty_ p = true ∧ q = id_ p) (s_disk s) d' ∧
    (is_dirty_ p = true → page_at d' (id_ p).1 (id_ p).2 = Some (data_ p)) ∧
    fd2pageno_ d' = fd2pageno_ (s_disk s) ∧
    ((is_dirty_ p = true → data_fd s (id_ p).1) → log_kept s s').
Proof.
  intros Hd Hl Hlen H. unfold update_page in H.
  apply bind_Ok in H as (p & ? & [Hp ->]%get_frame_Ok & H).
  apply bind_Ok in H as (? & ? & [-> ->]%gets_Ok & H).
  apply bind_Ok in H as ([] & s1 & Hw & H).
  apply wal_check_Ok in Hw as (d1 & log1 & -> & Hd1 & Hl1 & Hk1 & Hpg1 & Hlk1 & Hfp1); [|done..].
  apply bind_Ok in H as ([] & s2 & Hwr & H).
  apply bind_Ok in H as ([] & ? & ->%modify_Ok & H).
  apply bind_Ok in H as ([] & ? & ->%modify_Ok & H). apply put_frame_Ok in H as ->.
  exists p. destruct (is_dirty_ p) eqn:Hdirty.
  - apply bind_Ok in Hwr as ([] & ? & (d2 & Hwd & ->)%disk_call_Ok & ->%put_frame_Ok).
    pose proof Hwd as Hlf. simpl in Hlf.
    apply write_page_step in Hwd as (? & ? & Hk2 & Hat & Hpg2 & _); [|done|done|by apply Hlen].
    exists d2, log1. split_and!; [done| |done|done| |done|simpl in *; congruence|].
    + unfold upd_frame, set_table, set_pages, set_bpm, set_disk. simpl.
      by rewrite list_insert_insert_eq.
    + eapply pages_kept_trans.
      * eapply pages_kept_weaken; [exact Hk1|done].
      * eapply pages_kept_weaken; [exact Hk2|]. intros pid2 ->. split; [done|].
        by destruct (id_ p).
    + intros (path & Hpath & Hne)%(λ H, H eq_refl) Hq. destruct (Hlk1 Hq) as [Hq1 E1].
      split; [exact Hq1|]. simpl in *. rewrite <- E1.
      eapply write_page_log_file; [by apply Hfp1|done|exact Hlf].
  - apply ret_Ok in Hwr as [_ ->]. exists d1, log1. split_and!; try done.
    eapply pages_kept_weaken; [exact Hk1|done].
Qed.

Lemma wr_all (buf bs : bytes) buf' : wr buf 0 bs = Some buf' → length bs = length buf → buf' = bs.
Proof.
  intros (_ & _ & ->)%wr_Some Hl. simpl. rewrite drop_ge by lia. by rewrite app_nil_r.
Qed.

Lemma read_into_Ok f fd n s s' :
  dm_inv (s_disk s) → (∀ p, frame s f = Some p → len (data_ p) = PAGE_SIZE) →
  read_into f fd n s = (Ok tt, s') →
  ∃ p d' bs, frame s f = Some p ∧ page_at (s_disk s) fd n = Some bs ∧ 0 ≤ n ∧
    s' = upd_frame f (mkPage (id_ p) bs (is_dirty_ p) (pin_count_ p)) (set_disk d' s) ∧
    same_disk (s_disk s) d' ∧ dm_inv d'.
Proof.
  intros Hd Hlen H. unfold read_into in H.
  apply bind_Ok in H as (p & ? & [Hp ->]%get_frame_Ok & H).
  destruct (read_page fd n PAGE_SIZE (data_ p, s_disk s)) as [o [buf d']] eqn:E. simplify_eq/=.
  pose proof (read_page_inv fd n PAGE_SIZE (data_ p, s_disk s) Hd) as Hd'. rewrite E in Hd'.
  apply read_page_Ok in E as (file & bs & Hf & ? & Hrd & Hwr & Hs); [|done].
  apply wr_all in Hwr as ->; [|apply rd_length in Hrd; specialize (Hlen p Hp); lia].
  exists p, d', bs. split_and!; try done. unfold page_at. by rewrite Hf.
Qed.

Lemma pin_frame_Ok f u s s' :
  pin_frame f s = (Ok u, s') →
  ∃ p, frame s f = Some p ∧
    s' = set_replacer (pin f (repl s))
           (upd_frame f (mkPage (id_ p) (data_ p) (is_dirty_ p) (pin_count_ p + 1)) s).
Proof.
  intros H. unfold pin_frame in H. apply bind_Ok in H as (p & ? & [Hp ->]%get_frame_Ok & H).
  apply bind_Ok in H as ([] & ? & ->%put_frame_Ok & ->%modify_Ok). by exists p.
Qed.

Lemma find_victim_Ok s f s' :
  pool_inv s → find_victim_page s = (Ok (Some f), s') →
  ∃ l r, s' = set_free l (set_replacer r s) ∧ rep_inv r ∧
    ((free s = f :: l ∧ r = repl s) ∨
     (free s = [] ∧ l = [] ∧ f ∈ evictable (repl s) ∧ evictable r = evictable (repl s) ∖ {[f]})).
Proof.
  intros Hi H. unfold find_victim_page in H. apply bind_Ok in H as (? & ? & [-> ->]%gets_Ok & H).
  destruct (free s) as [|g l] eqn:Hfree.
  - destruct (victim (repl s)) as [o r] eqn:Hv.
    apply bind_Ok in H as ([] & ? & ->%modify_Ok & [<- ->]%ret_Ok).
    apply victim_Some in Hv as (?&?&?); [|apply Hi].
    exists [], r. split; [|naive_solver]. destruct s as [? ? []]. simpl in *. by subst.
  - apply bind_Ok in H as ([] & ? & ->%modify_Ok & [? ->]%ret_Ok). simplify_eq.
    exists l, (repl s). split_and!; [by destruct s as [? ? []]|apply Hi|by left].
Qed.

Lemma find_victim_None s s' :
  pool_inv s → find_victim_page s = (Ok None, s') →
  s' = s ∧ free s = [] ∧ evictable (repl s) = ∅.
Proof.
  intros Hi H. unfold find_victim_page in H. apply bind_Ok in H as (? & ? & [-> ->]%gets_Ok & H).
  destruct (free s) as [|g l] eqn:Hfree.
  - destruct (victim (repl s)) as [o r] eqn:Hv.
    apply bind_Ok in H as ([] & ? & ->%modify_Ok & [<- ->]%ret_Ok).
    apply victim_None in Hv as [-> ?]; [|apply Hi]. split_and!; [by destruct s as [? ? []]|done..].
  - apply bind_Ok in H as ([] & ? & ->%modify_Ok & [? ->]%ret_Ok). done.
Qed.

(** [s'] is [s] with the page [pid] loaded into the victim frame [f], pinned once. *)
Record replaced s f (p0 : Page) pid (data : bytes) s' : Prop := {
  rp_frame0 : frame s f = Some p0;
  rp_use : free s = f :: free s' ∨ (free s = [] ∧ free s' = [] ∧ f ∈ evictable (repl s));
  rp_new : table s !! pid = None;
  rp_pos : 0 ≤ pid.2;
  rp_fd : data_fd s pid.1;
  rp_data : len data = PAGE_SIZE;
  rp_table : table s' = <[pid := f]> (delete (id_ p0) (table s));
  rp_frames g : frame s' g = if decide (g = f) then Some (mkPage pid data false 1) else frame s g;
  rp_len : length (pages_ (s_bpm s')) = length (pages_ (s_bpm s));
  rp_size : pool_size_ (s_bpm s') = pool_size_ (s_bpm s);
  rp_rep : rep_inv (repl s');
  rp_ev : evictable (repl s') = evictable (repl s) ∖ {[f]};
  rp_disk : dm_inv (s_disk s');
  rp_logfd : log_fd_ok (s_disk s');
  rp_kept : pages_kept (λ q, q = pid ∨ is_dirty_ p0 = true ∧ q = id_ p0) (s_disk s) (s_disk s');
  rp_at : page_at (s_disk s') pid.1 pid.2 = Some data;
  rp_log : log_kept s s';
  rp_back : is_dirty_ p0 = true → page_at (s_disk s') (id_ p0).1 (id_ p0).2 = Some (data_ p0);
}.

Lemma pages_kept_data_fd exc s s' fd :
  pages_kept exc (s_disk s) (s_disk s') → data_fd s fd → data_fd s' fd.
Proof. intros Hk (path & Hp & Hne). exists path. split; [|done]. by apply Hk. Qed.

Section replaced.
Context s f p0 pid data s' (Hi : pool_inv s) (Hr : replaced s f p0 pid data s').

Lemma rp_pin0 : pin_count_ p0 = 0.
Proof.
  pose proof (rp_frame0 _ _ _ _ _ _ Hr) as Hf.
  destruct (rp_use _ _ _ _ _ _ Hr) as [E|(_ & _ & E)].
  - destruct (pi_free _ Hi f) as (p & ? & _ & _ & ?); [rewrite E; by left|]. congruence.
  - apply (pi_evict _ Hi) in E as (p & ? & ?). congruence.
Qed.

(** The frame [f] held no page, or the page [id_ p0]. *)
Lemma rp_was pid2 : table s !! pid2 = Some f → pid2 = id_ p0.
Proof.
  intros (_ & _ & p & Hp & <-)%(pi_map _ Hi).
  rewrite (rp_frame0 _ _ _ _ _ _ Hr) in Hp. congruence.
Qed.

Lemma rp_id0 pid2 g : pid2 = id_ p0 → table s !! pid2 = Some g → g = f.
Proof.
  intros -> Hm. destruct (pi_total _ Hi f p0) as [Hf|Hf]; [apply Hr| |congruence].
  apply (pi_free _ Hi) in Hf as (p & Hp & Hid & _).
  rewrite (rp_frame0 _ _ _ _ _ _ Hr) in Hp. injection Hp as <-.
  apply (pi_map _ Hi) in Hm as (_ & Hpos & _). unfold INVALID_PAGE_ID in Hid. lia.
Qed.

Lemma rp_dirty_mapped : is_dirty_ p0 = true → table s !! id_ p0 = Some f.
Proof.
  intros Hd. destruct (pi_total _ Hi f p0) as [Hf|Hf]; [apply Hr| |done].
  apply (pi_free _ Hi) in Hf as (p & Hp & _ & Hnd & _).
  rewrite (rp_frame0 _ _ _ _ _ _ Hr) in Hp. congruence.
Qed.

Lemma rp_lookup pid2 : pid2 ≠ pid →
  table s' !! pid2 = if decide (pid2 = id_ p0) then None else table s !! pid2.
Proof.
  intros Hne. rewrite (rp_table _ _ _ _ _ _ Hr), lookup_insert_ne by done.
  case_decide; [subst; by rewrite lookup_delete_eq|by rewrite lookup_delete_ne].
Qed.

(** The other pages of the pool stay where they are. *)
Lemma rp_other pid2 g : pid2 ≠ pid → table s' !! pid2 = Some g →
  table s !! pid2 = Some g ∧ g ≠ f ∧ pid2 ≠ id_ p0.
Proof.
  intros Hne. rewrite rp_lookup by done. case_decide as Hd; [done|]. intros Hm.
  split_and!; [done| |done]. intros ->. by apply rp_was in Hm.
Qed.

Lemma rp_free g : g ∈ free s' → g ∈ free s ∧ g ≠ f.
Proof.
  intros Hg. pose proof (pi_nodup _ Hi) as Hnd. destruct (rp_use _ _ _ _ _ _ Hr) as [E|(_ & E & _)].
  - rewrite E in *. apply NoDup_cons in Hnd as [? _]. split; [by right|]. by intros ->.
  - rewrite E in Hg. by apply elem_of_nil in Hg.
Qed.

Lemma replaced_inv : pool_inv s'.
Proof.
  split; try apply Hr.
  - rewrite (rp_len _ _ _ _ _ _ Hr), (rp_size _ _ _ _ _ _ Hr). apply Hi.
  - intros g p. rewrite (rp_frames _ _ _ _ _ _ Hr). case_decide; [|apply Hi].
    intros [= <-]. simpl. split; [apply Hr|lia].
  - intros pid2 g Hm. destruct (decide (pid2 = pid)) as [->|Hne].
    + rewrite (rp_table _ _ _ _ _ _ Hr), lookup_insert_eq in Hm. injection Hm as <-.
      split_and!; [|apply Hr|]. { eapply pages_kept_data_fd; apply Hr. }
      rewrite (rp_frames _ _ _ _ _ _ Hr), decide_True by done. eauto.
    + apply rp_other in Hm as (Hm & Hg & _); [|done]. apply (pi_map _ Hi) in Hm as (? & ? & ?).
      split_and!; [|done|by rewrite (rp_frames _ _ _ _ _ _ Hr), decide_False].
      eapply pages_kept_data_fd; [apply Hr|done].
  - intros g [Hg Hne]%rp_free. rewrite (rp_frames _ _ _ _ _ _ Hr), decide_False by done.
    by apply Hi.
  - pose proof (pi_nodup _ Hi) as Hnd. destruct (rp_use _ _ _ _ _ _ Hr) as [E|(_ & E & _)].
    + rewrite E in Hnd. by apply NoDup_cons in Hnd as [_ ?].
    + rewrite E. constructor.
  - intros g p. rewrite (rp_frames _ _ _ _ _ _ Hr). case_decide as Hg.
    + intros [= <-]. right. simpl. by rewrite (rp_table _ _ _ _ _ _ Hr), lookup_insert_eq, Hg.
    + intros Hp. destruct (pi_total _ Hi g p Hp) as [Hf|Hm].
      * left. destruct (rp_use _ _ _ _ _ _ Hr) as [E|(E & _)]; rewrite E in Hf.
        -- by apply elem_of_cons in Hf as [?|?].
        -- by apply elem_of_nil in Hf.
      * right. rewrite rp_lookup.
        -- case_decide as Hd; [|done]. by destruct Hg; eapply rp_id0.
        -- intros Hd. rewrite Hd, (rp_new _ _ _ _ _ _ Hr) in Hm. done.
  - intros g. rewrite (rp_ev _ _ _ _ _ _ Hr), elem_of_difference, elem_of_singleton.
    intros [(p & Hp & ?)%(pi_evict _ Hi) Hne].
    rewrite (rp_frames _ _ _ _ _ _ Hr), decide_False by done. eauto.
  - intros pid2 g p Hm Hp Hpin. rewrite (rp_ev _ _ _ _ _ _ Hr).
    rewrite (rp_frames _ _ _ _ _ _ Hr) in Hp. destruct (decide (pid2 = pid)) as [->|Hne].
    + rewrite (rp_table _ _ _ _ _ _ Hr), lookup_insert_eq in Hm. injection Hm as <-.
      rewrite decide_True in Hp by done. injection Hp as <-. done.
    + apply rp_other in Hm as (Hm & Hg & _); [|done]. rewrite decide_False in Hp by done.
      apply elem_of_difference. split; [by eapply (pi_unpinned _ Hi)|by rewrite elem_of_singleton].
  - intros pid2 g p Hm Hp Hpin Hcl. rewrite (rp_frames _ _ _ _ _ _ Hr) in Hp.
    destruct (decide (pid2 = pid)) as [->|Hne].
    + rewrite (rp_table _ _ _ _ _ _ Hr), lookup_insert_eq in Hm. injection Hm as <-.
      rewrite decide_True in Hp by done. injection Hp as <-. done.
    + apply rp_other in Hm as (Hm & Hg & Hid); [|done]. rewrite decide_False in Hp by done.
      destruct (pi_map _ Hi _ _ Hm) as ((path & Hpath & Hlog) & _).
      destruct (rp_kept _ _ _ _ _ _ Hr _ _ Hpath Hlog) as [_ Hk]. apply Hk.
      * destruct pid2. simpl. naive_solver.
      * by eapply (pi_clean _ Hi).
Qed.

Lemma replaced_view pid2 b :
  pid2 ≠ pid → data_fd s pid2.1 → view s pid2 = Some b → view s' pid2 = Some b.
Proof.
  intros Hne (path & Hpath & Hlog) Hv. unfold view in *. rewrite rp_lookup by done.
  destruct (rp_kept _ _ _ _ _ _ Hr _ _ Hpath Hlog) as [_ Hk].
  specialize (Hk pid2.2 b). rewrite <- (surjective_pairing pid2) in Hk.
  destruct (decide (pid2 = id_ p0)) as [->|Hid].
  - destruct (table s !! id_ p0) as [g|] eqn:Hm.
    + apply (rp_id0 (id_ p0) g eq_refl) in Hm as Hg. subst g.
      rewrite (rp_frame0 _ _ _ _ _ _ Hr) in Hv. injection Hv as <-.
      destruct (is_dirty_ p0) eqn:Hd; [by apply Hr|].
      apply Hk; [naive_solver|]. eapply (pi_clean _ Hi); [done|apply Hr|apply rp_pin0|done].
    + apply Hk; [|done]. intros [?|[Hd _]]; [done|]. apply rp_dirty_mapped in Hd. congruence.
  - destruct (table s !! pid2) as [g|] eqn:Hm.
    + rewrite (rp_frames _ _ _ _ _ _ Hr), decide_False; [done|].
      intros ->. by apply rp_was in Hm.
    + apply Hk; naive_solver.
Qed.

Lemma replaced_cached pid2 :
  pid2 ≠ pid → pid2 ≠ id_ p0 → cached s' pid2 = cached s pid2.
Proof.
  intros Hne Hid. unfold cached. rewrite rp_lookup, decide_False by done.
  destruct (table s !! pid2) as [g|] eqn:Hm; [|done]. simpl.
  rewrite (rp_frames _ _ _ _ _ _ Hr), decide_False; [done|]. intros ->. by apply rp_was in Hm.
Qed.

Lemma replaced_cached_new : cached s' pid = Some (mkPage pid data false 1).
Proof.
  unfold cached. rewrite (rp_table _ _ _ _ _ _ Hr), lookup_insert_eq. simpl.
  by rewrite (rp_frames _ _ _ _ _ _ Hr), decide_True.
Qed.

Lemma replaced_pins pid2 : pins s' pid2 = if decide (pid2 = pid) then 1 else pins s pid2.
Proof.
  unfold pins. case_decide as Hne; [subst; by rewrite replaced_cached_new|].
  destruct (decide (pid2 = id_ p0)) as [->|Hid]; [|by rewrite replaced_cached].
  unfold cached. rewrite rp_lookup, decide_True by done. simpl.
  destruct (table s !! id_ p0) as [g|] eqn:Hm; [|done]. simpl.
  rewrite (rp_id0 (id_ p0) g eq_refl Hm), (rp_frame0 _ _ _ _ _ _ Hr). by rewrite rp_pin0.
Qed.

End replaced.

(** ** Changing a page that is in the pool *)

Definition retouched s f (p' : Page) (r' : R) d' log' : Storage R :=
  set_replacer r' (upd_frame f p' (mkStorage d' log' (s_bpm s))).

Section retouched.
Context s f p p' r' d' (log' : option LogManager) (Hi : pool_inv s)
  (Hmap : table s !! id_ p = Some f) (Hp : frame s f = Some p) (Hid : id_ p' = id_ p)
  (Hlen : len (data_ p') = PAGE_SIZE) (Hpin : 0 ≤ pin_count_ p') (Hrep : rep_inv r')
  (Hev : ∀ g, g ∈ evictable r' ↔ if decide (g = f) then pin_count_ p' = 0 else g ∈ evictable (repl s))
  (Hclean : pin_count_ p' = 0 → is_dirty_ p' = false →
    page_at d' (id_ p).1 (id_ p).2 = Some (data_ p'))
  (Hd' : dm_inv d') (Hl' : log_fd_ok d') (Hk : pages_kept (λ q, q = id_ p) (s_disk s) d').

Abbreviation s' := (retouched s f p' r' d' log').

Lemma rt_frame g : frame s' g = if decide (g = f) then Some p' else frame s g.
Proof. exact (frame_upd f p' s g (mk_is_Some _ _ Hp)). Qed.

Lemma rt_mapped pid g : table s !! pid = Some g → g = f → pid = id_ p.
Proof. intros Hm ->. by eapply map_inj. Qed.

Lemma retouched_inv : pool_inv s'.
Proof.
  split; simpl; try done.
  - rewrite length_insert. apply Hi.
  - intros g q. rewrite rt_frame. case_decide; [intros [= <-]; done|apply Hi].
  - intros pid g Hm. destruct (pi_map _ Hi _ _ Hm) as (Hfd & ? & q & Hq & ?).
    split_and!; [|done|].
    + destruct Hfd as (path & Hpath & Hne). exists path. split; [by apply (Hk _ _ Hpath Hne)|done].
    + rewrite rt_frame. case_decide as Hg; [|eauto]. exists p'. split; [done|].
      rewrite Hid. symmetry. by apply (rt_mapped _ g).
  - intros g Hg. rewrite rt_frame, decide_False; [by apply Hi|].
    intros ->. by eapply (free_unmapped _ (id_ p) f).
  - apply Hi.
  - intros g q. rewrite rt_frame. case_decide as Hg; [|apply Hi].
    intros [= <-]. right. by rewrite Hid, Hg.
  - intros g. rewrite Hev, rt_frame. case_decide; [eauto|apply Hi].
  - intros pid g q Hm. rewrite rt_frame, Hev. case_decide; [by intros [= <-]|].
    intros. by eapply (pi_unpinned _ Hi).
  - intros pid g q Hm. rewrite rt_frame. case_decide as Hg.
    + intros [= <-]. by rewrite (rt_mapped pid g Hm Hg).
    + intros Hq Hpin0 Hcl. destruct (pi_map _ Hi _ _ Hm) as ((path & Hpath & Hne) & _).
      apply (Hk _ _ Hpath Hne); [|by eapply (pi_clean _ Hi)].
      destruct pid as [fd2 n2]. simpl. intros Heq. rewrite Heq in Hm. congruence.
Qed.

Lemma rt_cached pid : cached s' pid = if decide (pid = id_ p) then Some p' else cached s pid.
Proof.
  unfold cached. simpl. case_decide as Hd.
  - rewrite Hd, Hmap. simpl. by rewrite rt_frame, decide_True.
  - destruct (table s !! pid) as [g|] eqn:Hm; [|done]. simpl. rewrite rt_frame, decide_False; [done|].
    intros Hg. destruct Hd. by apply (rt_mapped _ g).
Qed.

Lemma rt_view_same : view s' (id_ p) = Some (data_ p').
Proof. unfold view. simpl. rewrite Hmap. by rewrite rt_frame, decide_True. Qed.

Lemma rt_view_other pid b :
  pid ≠ id_ p → data_fd s pid.1 → view s pid = Some b → view s' pid = Some b.
Proof.
  intros Hne (path & Hpath & Hlog). unfold view. simpl.
  destruct (table s !! pid) as [g|] eqn:Hm.
  - rewrite rt_frame, decide_False; [done|]. intros Hg. destruct Hne. by apply (rt_mapped _ g).
  - apply (Hk _ _ Hpath Hlog). by destruct pid.
Qed.

Lemma rt_pins pid : pins s' pid = if decide (pid = id_ p) then pin_count_ p' else pins s pid.
Proof. unfold pins. rewrite rt_cached. by case_decide. Qed.
End retouched.

(** [s] before a change of no more than a frame is [retouched s] of it. *)
Lemma mapped_frame s pid f :
  pool_inv s → table s !! pid = Some f → ∃ p, frame s f = Some p ∧ id_ p = pid.
Proof. intros Hi Hm. by apply (pi_map _ Hi) in Hm as (_ & _ & ?). Qed.

Lemma evictable_iff s pid f p :
  pool_inv s → table s !! pid = Some f → frame s f = Some p →
  (f ∈ evictable (repl s) ↔ pin_count_ p = 0).
Proof.
  intros Hi Hm Hp. split.
  - intros (q & ? & ?)%(pi_evict _ Hi). congruence.
  - by apply (pi_unpinned _ Hi pid).
Qed.

(** A dirty frame holds a page of a data file. *)
Lemma victim_data_fd s f p :
  pool_inv s → frame s f = Some p → is_dirty_ p = true → data_fd s (id_ p).1.
Proof.
  intros Hi Hp Hd. destruct (pi_total _ Hi f p Hp) as [Hf|Hf].
  - apply (pi_free _ Hi) in Hf as (q & Hq & _ & Hq2 & _). congruence.
  - by apply (pi_map _ Hi) in Hf as [? _].
Qed.

(** What the operations do not change: what clients see of the data files. *)
Definition view_kept s s' : Prop :=
  ∀ pid b, data_fd s pid.1 → view s pid = Some b → view s' pid = Some b.
Definition fds_kept s s' : Prop := ∀ fd, data_fd s fd → data_fd s' fd.

Lemma view_length s pid d : pool_inv s → view s pid = Some d → len d = PAGE_SIZE.
Proof.
  intros Hi. unfold view. destruct (table s !! pid) as [f|]; [|apply page_at_length].
  destruct (frame s f) as [p|] eqn:E; [|done]. intros [= <-]. by apply (pi_data _ Hi _ _ E).
Qed.

(** *** [fetch_page] of a page in the pool *)
Lemma fetch_hit s pid f s' :
  pool_inv s → table s !! pid = Some f → fetch_page pid s = (Ok (Some f), s') →
  ∃ p, cached s pid = Some p ∧ id_ p = pid ∧
    s' = retouched s f (mkPage pid (data_ p) (is_dirty_ p) (pin_count_ p + 1)) (pin f (repl s))
           (s_disk s) (s_log s).
Proof.
  intros Hi Hm H. unfold fetch_page in H. apply bind_Ok in H as (? & ? & [-> ->]%gets_Ok & H).
  rewrite Hm in H. apply bind_Ok in H as ([] & ? & (p & Hp & ->)%pin_frame_Ok & [_ ->]%ret_Ok).
  destruct (mapped_frame s pid f Hi Hm) as (q & Hq & Hid). rewrite Hp in Hq. injection Hq as <-.
  exists p. unfold cached. rewrite Hm, Hid. by destruct s.
Qed.

Lemma fetch_miss s pid f s' :
  pool_inv s → data_fd s pid.1 → table s !! pid = None →
  fetch_page pid s = (Ok (Some f), s') →
  ∃ p0 data, replaced s f p0 pid data s' ∧
    (∀ b, page_at (s_disk s) pid.1 pid.2 = Some b → data = b) ∧
    fd2pageno_ (s_disk s') = fd2pageno_ (s_disk s).
Proof.
  intros Hi Hfd Hm H. unfold fetch_page in H. apply bind_Ok in H as (? & ? & [-> ->]%gets_Ok & H).
  rewrite Hm in H. apply bind_Ok in H as (v & s1 & Hv & H).
  destruct v as [g|]; [|by apply ret_Ok in H as [? _]].
  apply find_victim_Ok in Hv as (l & r & -> & Hr & Huse); [|done].
  apply bind_Ok in H as ([] & s2 & Hup & H).
  apply update_page_Ok in Hup as (p0 & d1 & log1 & Hp0 & -> & Hd1 & Hl1 & Hk1 & Hback & Hpg1 & Hlk);
    [|apply Hi|apply Hi|intros p; apply (pi_data _ Hi)].
  simpl in *. change (frame s g = Some p0) in Hp0.
  set (s2 := upd_frame g _ _) in H.
  assert (Hf2 : ∀ h, frame s2 h = if decide (h = g) then Some (mkPage pid reset_memory false 0) else frame s h).
  { intros h. exact (frame_upd g _ s h (mk_is_Some _ _ Hp0)). }
  apply bind_Ok in H as ([] & s3 & Hrd & H).
  apply read_into_Ok in Hrd as (p & d2 & bs & Hp & Hat & Hpos & -> & Hsame & Hd2); [|done|].
  2: { intros p. rewrite Hf2. case_decide; [intros [= <-]; apply reset_memory_length|apply (pi_data _ Hi)]. }
  rewrite Hf2, decide_True in Hp by done. injection Hp as <-. simpl in *.
  apply bind_Ok in H as ([] & s4 & (p & Hp & ->)%pin_frame_Ok & [[= ->] ->]%ret_Ok).
  set (s3 := upd_frame g (mkPage pid bs false 0) (set_disk d2 s2)) in *.
  assert (Hf3 : ∀ h, frame s3 h = if decide (h = g) then Some (mkPage pid bs false 0) else frame s h).
  { intros h. unfold s3. rewrite frame_upd.
    - change (frame (set_disk d2 s2) h) with (frame s2 h). rewrite Hf2. by case_decide.
    - change (frame (set_disk d2 s2) g) with (frame s2 g). rewrite Hf2, decide_True by done. done. }
  rewrite Hf3, decide_True in Hp by done. injection Hp as <-. simpl.
  destruct (pin_spec r g Hr) as [Hrep Hev].
  exists p0, bs. split_and!.
  - split; simpl; try done.
    + destruct Huse as [[? _]|(?&?&?&_)]; [by left|right; by subst l].
    + by eapply page_at_length.
    + intros h. change (frame (upd_frame g (mkPage pid bs false 1) s3) h
        = if decide (h = g) then Some (mkPage pid bs false 1) else frame s h).
      rewrite frame_upd by (rewrite Hf3, decide_True; done). rewrite Hf3. by case_decide.
    + by rewrite !length_insert.
    + rewrite Hev. destruct Huse as [[_ ->]|(_&_&_&->)]; set_solver.
    + by eapply same_disk_log_fd_ok.
    + eapply pages_kept_trans.
      * eapply pages_kept_weaken; [exact Hk1|]. naive_solver.
      * eapply pages_kept_weaken; [by apply same_disk_pages|done].
    + by rewrite <- Hsame.
    + intros Hq. destruct Hlk as [Hq2 E2]; [exact (victim_data_fd s g p0 Hi Hp0)|exact Hq|].
      split; [exact Hq2|]. simpl in *. rewrite <- E2. unfold log_file. by rewrite (proj1 Hsame).
    + rewrite <- Hsame. done.
  - intros b Hb. destruct Hfd as (path & Hpath & Hne).
    destruct (Hk1 _ _ Hpath Hne) as [_ Hk]. specialize (Hk pid.2 b). rewrite Hk in Hat; [congruence| |done].
    intros [Hdirty Heq]. rewrite <- (surjective_pairing pid) in Heq.
    destruct (pi_total _ Hi g p0 Hp0) as [Hf|Hf]; [|congruence].
    apply (pi_free _ Hi) in Hf as (q & Hq & _ & Hq2 & _). congruence.
  - rewrite (proj2 (proj2 (proj2 (proj2 Hsame)))). done.
Qed.

Lemma fetch_none s pid s' :
  pool_inv s → fetch_page pid s = (Ok None, s') →
  s' = s ∧ free s = [] ∧ ∀ f p, frame s f = Some p → 0 < pin_count_ p.
Proof.
  intros Hi H. unfold fetch_page in H. apply bind_Ok in H as (? & ? & [-> ->]%gets_Ok & H).
  destruct (table s !! pid) as [f|].
  { by apply bind_Ok in H as ([] & ? & _ & [? _]%ret_Ok). }
  apply bind_Ok in H as (v & s1 & Hv & H). destruct v as [g|].
  { apply bind_Ok in H as ([] & ? & _ & H). apply bind_Ok in H as ([] & ? & _ & H).
    by apply bind_Ok in H as ([] & ? & _ & [? _]%ret_Ok). }
  apply ret_Ok in H as [_ ->]. apply find_victim_None in Hv as (-> & Hfree & Hev); [|done].
  split_and!; [done|done|]. intros f p Hp. destruct (pi_data _ Hi _ _ Hp) as [_ Hpin].
  destruct (pi_total _ Hi _ _ Hp) as [Hf|Hm]; [rewrite Hfree in Hf; by apply elem_of_nil in Hf|].
  destruct (decide (pin_count_ p = 0)) as [H0|]; [|lia].
  apply (pi_unpinned _ Hi _ _ _ Hm Hp) in H0. rewrite Hev in H0. by apply elem_of_empty in H0.
Qed.

Lemma put_as_retouched s f p' : upd_frame f p' s = retouched s f p' (repl s) (s_disk s) (s_log s).
Proof. by destruct s as [? ? []]. Qed.

Lemma unpin_Ok s pid is_dirty b s' :
  pool_inv s → unpin_page pid is_dirty s = (Ok b, s') →
  if b then ∃ f p, table s !! pid = Some f ∧ frame s f = Some p ∧ id_ p = pid ∧ 0 < pin_count_ p ∧
    s' = retouched s f (mkPage pid (data_ p) (is_dirty || is_dirty_ p) (pin_count_ p - 1))
           (if decide (pin_count_ p = 1) then unpin f (repl s) else repl s) (s_disk s) (s_log s)
  else s' = s ∧ pins s pid = 0.
Proof.
  intros Hi H. unfold unpin_page in H. apply bind_Ok in H as (? & ? & [-> ->]%gets_Ok & H).
  unfold pins, cached. destruct (table s !! pid) as [f|] eqn:Hm.
  2: by apply ret_Ok in H as [-> ->].
  apply bind_Ok in H as (p & ? & [Hp ->]%get_frame_Ok & H). simpl. rewrite Hp.
  destruct (mapped_frame s pid f Hi Hm) as (q & Hq & Hid). rewrite Hp in Hq. injection Hq as <-.
  destruct (pi_data _ Hi _ _ Hp) as [_ Hpin].
  destruct (Z.eqb_spec (pin_count_ p) 0); [by apply ret_Ok in H as [-> ->]|].
  apply bind_Ok in H as ([] & ? & ->%put_frame_Ok & H).
  apply bind_Ok in H as ([] & s2 & H2 & [-> ->]%ret_Ok).
  exists f, p. rewrite Hid in *. split_and!; [done..|lia|].
  destruct (Z.eqb_spec (pin_count_ p - 1) 0).
  - apply modify_Ok in H2 as ->. rewrite decide_True by lia. by destruct s.
  - apply ret_Ok in H2 as [_ ->]. rewrite decide_False by lia. apply put_as_retouched.
Qed.

(** Writing the data of a page in the pool back to its file. *)
Lemma flush_frame_Ok s pid f p d :
  pool_inv s → table s !! pid = Some f → frame s f = Some p →
  write_page pid.1 pid.2 (data_ p) (s_disk s) = (Ok tt, d) →
  let s' := retouched s f (mkPage pid (data_ p) false (pin_count_ p)) (repl s) d (s_log s) in
  pool_inv s' ∧ view_kept s s' ∧ (∀ q, pins s' q = pins s q) ∧ fds_kept s s' ∧
  page_at d pid.1 pid.2 = view s pid ∧ fd2pageno_ d = fd2pageno_ (s_disk s) ∧
  pages_kept (λ q, q = pid) (s_disk s) d.
Proof.
  intros Hi Hm Hp Hw s'. destruct (mapped_frame s pid f Hi Hm) as (q & Hq & Hid).
  rewrite Hp in Hq. injection Hq as <-. subst pid. destruct (pi_data _ Hi _ _ Hp) as [Hlen Hpin].
  apply write_page_step in Hw as (Hd & Hl & Hk & Hat & Hpg & _); [|apply Hi|apply Hi|done].
  rewrite <- (surjective_pairing (id_ p)) in Hk.
  assert (Hview : view s (id_ p) = Some (data_ p)).
  { unfold view. rewrite Hm. simpl. by rewrite Hp. }
  split_and!; [| | | |by rewrite Hview|done|done].
  - apply (retouched_inv s f p); try done; [apply Hi|]. intros g. case_decide as Hg; [|done].
    subst g. simpl. by apply (evictable_iff _ (id_ p) _ p).
  - intros pid2 b Hfd Hv. destruct (decide (pid2 = id_ p)) as [->|Hne].
    + unfold s'. rewrite (rt_view_same s f p) by done. simpl. congruence.
    + by apply (rt_view_other s f p).
  - intros pid2. unfold s'. rewrite (rt_pins s f p) by done. case_decide as Hd2; [|done]. subst pid2.
    unfold pins, cached. rewrite Hm. simpl. by rewrite Hp.
  - intros fd (path & Hpath & Hne). exists path. by split; [apply (Hk _ _ Hpath Hne)|].
Qed.

Lemma flush_Ok s pid b s' :
  pool_inv s → flush_page pid s = (Ok b, s') →
  pool_inv s' ∧ view_kept s s' ∧ (∀ q, pins s' q = pins s q) ∧ fds_kept s s' ∧
  fd2pageno_ (s_disk s') = fd2pageno_ (s_disk s) ∧ table s' = table s ∧
  if b then page_at (s_disk s') pid.1 pid.2 = view s pid else s' = s.
Proof.
  intros Hi H. unfold flush_page in H. apply bind_Ok in H as (? & ? & [-> ->]%gets_Ok & H).
  destruct (table s !! pid) as [f|] eqn:Hm.
  2: { apply ret_Ok in H as [-> ->]. split_and!; try done; by intros ?. }
  apply bind_Ok in H as (p & ? & [Hp ->]%get_frame_Ok & H).
  apply bind_Ok in H as ([] & ? & (d & Hw & ->)%disk_call_Ok & H).
  apply bind_Ok in H as ([] & ? & ->%put_frame_Ok & [-> ->]%ret_Ok).
  destruct (mapped_frame s pid f Hi Hm) as (q & Hq & Hid). rewrite Hp in Hq. injection Hq as <-.
  destruct (flush_frame_Ok s pid f p d Hi Hm Hp Hw) as (?&?&?&?&?&?&_).
  rewrite put_as_retouched, Hid. split_and!; done.
Qed.

Lemma allocate_page_Ok fd n d d' :
  allocate_page fd d = (Ok n, d') →
  n = get_fd2pageno d fd ∧ d' = set_pageno (<[fd := wrap32 (n + 1)]> (fd2pageno_ d)) d.
Proof.
  unfold allocate_page. intros H. apply bind_Ok in H as (? & ? & [_ ->]%massert_Ok & H).
  apply bind_Ok in H as (? & ? & [-> ->]%gets_Ok & H).
  by apply bind_Ok in H as ([] & ? & ->%modify_Ok & [-> ->]%ret_Ok).
Qed.

Lemma new_page_Ok s fd f n s' :
  pool_inv s → data_fd s fd → table s !! (fd, get_fd2pageno (s_disk s) fd) = None →
  new_page fd s = (Ok (Some (f, n)), s') →
  n = get_fd2pageno (s_disk s) fd ∧
  fd2pageno_ (s_disk s') = <[fd := wrap32 (n + 1)]> (fd2pageno_ (s_disk s)) ∧
  ∃ p0, replaced s f p0 (fd, n) reset_memory s'.
Proof.
  intros Hi Hfd Hm H. unfold new_page in H.
  apply bind_Ok in H as (v & s1 & Hv & H). destruct v as [g|]; [|by apply ret_Ok in H as [? _]].
  apply find_victim_Ok in Hv as (l & r & -> & Hr & Huse); [|done].
  apply bind_Ok in H as (m & s2 & (d0 & Hall & ->)%disk_call_Ok & H).
  apply allocate_page_Ok in Hall as [Hn ->]. simpl in Hn. subst m. set (m := get_fd2pageno _ _) in *.
  apply bind_Ok in H as ([] & s2 & Hup & H).
  apply update_page_Ok in Hup as (p0 & d1 & log1 & Hp0 & -> & Hd1 & Hl1 & Hk1 & Hback & Hpg1 & Hlk);
    [|by apply set_pageno_inv, Hi|apply Hi|intros p; apply (pi_data _ Hi)].
  simpl in *. change (frame s g = Some p0) in Hp0.
  change (pages_kept (λ q, is_dirty_ p0 = true ∧ q = id_ p0) (s_disk s) d1) in Hk1.
  set (s2 := upd_frame g _ _) in H.
  assert (Hf2 : ∀ h, frame s2 h = if decide (h = g) then Some (mkPage (fd, m) reset_memory false 0) else frame s h).
  { intros h. exact (frame_upd g _ s h (mk_is_Some _ _ Hp0)). }
  apply bind_Ok in H as ([] & ? & (p & Hp & ->)%pin_frame_Ok & H).
  rewrite Hf2, decide_True in Hp by done. injection Hp as <-. simpl in H.
  apply bind_Ok in H as (p & ? & [Hp ->]%get_frame_Ok & H).
  set (s3 := upd_frame g (mkPage (fd, m) reset_memory false 1) s2) in *.
  assert (Hf3 : ∀ h, frame s3 h = if decide (h = g) then Some (mkPage (fd, m) reset_memory false 1) else frame s h).
  { intros h. unfold s3. rewrite frame_upd; rewrite !Hf2; [by case_decide|by rewrite decide_True]. }
  change (frame s3 g = Some p) in Hp. rewrite Hf3, decide_True in Hp by done. injection Hp as <-. simpl in H.
  apply bind_Ok in H as ([] & ? & (d2 & Hw & ->)%disk_call_Ok & [[= -> ->] ->]%ret_Ok). simpl in Hw.
  pose proof Hw as Hwl.
  apply write_page_step in Hw as (Hd2 & Hl2 & Hk2 & Hat & Hpg2 & Hpos); [|done|done|apply reset_memory_length].
  destruct (pin_spec r g Hr) as [Hrep Hev].
  split_and!; [done|simpl; congruence|]. exists p0. split; simpl; try done.
  - destruct Huse as [[? _]|(?&?&?&_)]; [by left|right; by subst l].
  - by rewrite !length_insert.
  - rewrite Hev. destruct Huse as [[_ ->]|(_&_&_&->)]; set_solver.
  - eapply pages_kept_trans; eapply pages_kept_weaken; [exact Hk1|naive_solver|exact Hk2|naive_solver].
  - intros Hq. destruct Hlk as [Hq2 E2]; [exact (victim_data_fd s g p0 Hi Hp0)|exact Hq|].
    split; [exact Hq2|]. refine (eq_trans _ E2). destruct Hfd as (path & Hpath & Hne).
    eapply write_page_log_file; [|done|exact Hwl]. by apply (Hk1 _ _ Hpath Hne).
  - intros Hdirty. specialize (Hback Hdirty).
    destruct (pi_total _ Hi g p0 Hp0) as [Hf|Hf].
    { apply (pi_free _ Hi) in Hf as (q & Hq & _ & Hq2 & _). congruence. }
    destruct (pi_map _ Hi _ _ Hf) as ((path & Hpath & Hne) & _).
    destruct (Hk1 _ _ Hpath Hne) as [Hpath1 _].
    apply (Hk2 _ _ Hpath1 Hne); [|done]. rewrite <- (surjective_pairing (id_ p0)). congruence.
Qed.

Lemma new_page_None s fd s' : new_page fd s = (Ok None, s') → pool_inv s → s' = s.
Proof.
  intros H Hi. unfold new_page in H. apply bind_Ok in H as (v & s1 & Hv & H). destruct v as [g|].
  - apply bind_Ok in H as (? & ? & _ & H). apply bind_Ok in H as (? & ? & _ & H).
    apply bind_Ok in H as (? & ? & _ & H). apply bind_Ok in H as (? & ? & _ & H).
    by apply bind_Ok in H as (? & ? & _ & [? _]%ret_Ok).
  - apply ret_Ok in H as [_ ->]. by apply find_victim_None in Hv as [-> _].
Qed.

(** ** Removing a page from the pool *)

Section released.
Context s f (p : Page) d' (Hi : pool_inv s) (Hmap : table s !! id_ p = Some f)
  (Hp : frame s f = Some p) (Hpin : pin_count_ p = 0) (Hd' : dm_inv d') (Hl' : log_fd_ok d')
  (Hk : pages_kept (λ q, q = id_ p) (s_disk s) d')
  (Hat : page_at d' (id_ p).1 (id_ p).2 = Some (data_ p)).

Definition released : Storage R :=
  upd_frame f (mkPage (-1, INVALID_PAGE_ID) reset_memory false 0)
    (set_free (free s ++ [f]) (set_table (delete (id_ p) (table s)) (mkStorage d' (s_log s) (s_bpm s)))).

Lemma rl_frame g :
  frame released g = if decide (g = f) then Some (mkPage (-1, INVALID_PAGE_ID) reset_memory false 0)
                     else frame s g.
Proof. exact (frame_upd f _ s g (mk_is_Some _ _ Hp)). Qed.

Lemma rl_lookup pid g : table released !! pid = Some g → table s !! pid = Some g ∧ g ≠ f ∧ pid ≠ id_ p.
Proof.
  simpl. intros [Hne Hm]%lookup_delete_Some. split_and!; [done| |done].
  intros ->. destruct Hne. by eapply map_inj.
Qed.

Lemma released_inv : pool_inv released.
Proof.
  split; simpl; try done.
  - apply Hi.
  - rewrite length_insert. apply Hi.
  - intros g q. rewrite rl_frame. case_decide; [intros [= <-]|apply Hi]. split; [apply reset_memory_length|done].
  - intros pid g Hm. apply rl_lookup in Hm as (Hm & Hg & _).
    destruct (pi_map _ Hi _ _ Hm) as (Hfd & ? & ?).
    split_and!; [by eapply pages_kept_data_fd|done|by rewrite rl_frame, decide_False].
  - intros g Hg. rewrite rl_frame. case_decide as Hgf; [by eexists|].
    apply Hi. apply elem_of_app in Hg as [?|Hg]; [done|]. by apply list_elem_of_singleton in Hg.
  - apply NoDup_app. split_and!; [apply Hi| |apply NoDup_singleton].
    intros g Hg ->%list_elem_of_singleton. by eapply free_unmapped.
  - intros g q. rewrite rl_frame. case_decide as Hgf.
    + intros _. left. subst. apply elem_of_app. right. by apply list_elem_of_singleton.
    + intros Hq. destruct (pi_total _ Hi g q Hq) as [?|Hm]; [left; apply elem_of_app; by left|].
      right. rewrite lookup_delete_ne; [done|]. intros Heq. rewrite <- Heq in Hm. congruence.
  - intros g (q & ? & ?)%(pi_evict _ Hi). rewrite rl_frame. case_decide; eauto.
  - intros pid g q Hm. apply rl_lookup in Hm as (Hm & Hg & _). rewrite rl_frame, decide_False by done.
    by apply (pi_unpinned _ Hi pid).
  - intros pid g q Hm. apply rl_lookup in Hm as (Hm & Hg & Hid). rewrite rl_frame, decide_False by done.
    intros Hq Hq0 Hcl. destruct (pi_map _ Hi _ _ Hm) as ((path & Hpath & Hne) & _).
    apply (Hk _ _ Hpath Hne); [by destruct pid|]. by eapply (pi_clean _ Hi).
Qed.

Lemma released_view : view_kept s released.
Proof.
  intros pid b (path & Hpath & Hne) Hv. unfold view in *. simpl.
  destruct (decide (pid = id_ p)) as [->|Hid].
  - rewrite lookup_delete_eq. rewrite Hmap in Hv. simpl in Hv. rewrite Hp in Hv. simpl in Hv. congruence.
  - rewrite lookup_delete_ne by done. destruct (table s !! pid) as [g|] eqn:Hm.
    + rewrite rl_frame, decide_False; [done|]. intros ->. destruct Hid. by eapply map_inj.
    + apply (Hk _ _ Hpath Hne); [by destruct pid|done].
Qed.

Lemma released_pins pid : pins released pid = pins s pid.
Proof.
  unfold pins, cached. simpl. destruct (decide (pid = id_ p)) as [->|Hid].
  - rewrite lookup_delete_eq, Hmap. simpl. by rewrite Hp.
  - rewrite lookup_delete_ne by done. destruct (table s !! pid) as [g|] eqn:Hm; [|done]. simpl.
    rewrite rl_frame, decide_False; [done|]. intros ->. destruct Hid. by eapply map_inj.
Qed.
End released.

Lemma delete_Ok s pid b s' :
  pool_inv s → delete_page pid s = (Ok b, s') →
  pool_inv s' ∧ view_kept s s' ∧ fds_kept s s' ∧ (∀ q, pins s' q = pins s q) ∧
  if b then table s' = delete pid (table s) ∧ pins s pid = 0 else s' = s ∧ 0 < pins s pid.
Proof.
  intros Hi H. unfold delete_page in H. apply bind_Ok in H as (? & ? & [-> ->]%gets_Ok & H).
  unfold pins at 3 4, cached. destruct (table s !! pid) as [f|] eqn:Hm.
  2: { apply ret_Ok in H as [-> ->]. split_and!; try done; [by intros ?|by intros ?|by rewrite delete_id]. }
  apply bind_Ok in H as (p & ? & [Hp ->]%get_frame_Ok & H). simpl. rewrite Hp.
  destruct (mapped_frame s pid f Hi Hm) as (q & Hq & Hid). rewrite Hp in Hq. injection Hq as <-.
  destruct (pi_data _ Hi _ _ Hp) as [Hlen Hpin].
  rewrite Z.gtb_ltb in H. destruct (Z.ltb_spec 0 (pin_count_ p)).
  { apply ret_Ok in H as [-> ->]. split_and!; try done; by intros ?. }
  assert (Hpin0 : pin_count_ p = 0) by lia. subst pid.
  apply bind_Ok in H as ([] & s1 & Hw & H).
  assert (∃ d', s1 = set_disk d' s ∧ dm_inv d' ∧ log_fd_ok d' ∧
    pages_kept (λ q, q = id_ p) (s_disk s) d' ∧
    page_at d' (id_ p).1 (id_ p).2 = Some (data_ p)) as (d' & -> & Hd & Hl & Hk & Hat).
  { destruct (is_dirty_ p) eqn:Hdirty.
    - apply disk_call_Ok in Hw as (d' & Hw & ->).
      apply write_page_step in Hw as (?&?&Hk&?&_); [|apply Hi|apply Hi|done].
      rewrite <- (surjective_pairing (id_ p)) in Hk. eauto 10.
    - apply ret_Ok in Hw as [_ ->]. exists (s_disk s). split_and!; [by destruct s|apply Hi|apply Hi| |].
      + apply pages_kept_refl.
      + by eapply (pi_clean _ Hi). }
  apply bind_Ok in H as ([] & ? & ->%modify_Ok & H). apply bind_Ok in H as ([] & ? & ->%modify_Ok & H).
  apply bind_Ok in H as ([] & ? & ->%put_frame_Ok & [-> ->]%ret_Ok). simpl.
  change (upd_frame f _ _) with (released s f p d').
  split_and!; [by apply released_inv|by apply released_view| |by apply released_pins|done|done].
  intros fd Hfd. by eapply pages_kept_data_fd.
Qed.

(** *** [flush_all_pages] *)

(** The page is in the pool as it is on disk. *)
Definition synced s pid : Prop :=
  ∃ b, view s pid = Some b ∧ page_at (s_disk s) pid.1 pid.2 = Some b.

Lemma flush_frame_synced s pid f p d q :
  pool_inv s → table s !! pid = Some f → frame s f = Some p →
  write_page pid.1 pid.2 (data_ p) (s_disk s) = (Ok tt, d) → data_fd s q.1 →
  q = pid ∨ synced s q →
  synced (retouched s f (mkPage pid (data_ p) false (pin_count_ p)) (repl s) d (s_log s)) q.
Proof.
  intros Hi Hm Hp Hw Hfd Hq.
  destruct (flush_frame_Ok s pid f p d Hi Hm Hp Hw) as (_ & Hv & _ & _ & Hat & _ & Hk).
  assert (Hview : view s pid = Some (data_ p)).
  { unfold view. rewrite Hm. simpl. by rewrite Hp. }
  destruct (decide (q = pid)) as [->|Hne].
  - exists (data_ p). split; [by apply Hv|]. simpl. congruence.
  - destruct Hq as [?|(b & Hb & Hbd)]; [done|]. exists b. split; [by apply Hv|].
    destruct Hfd as (path & Hpath & Hlog). apply (Hk _ _ Hpath Hlog); [by destruct q|done].
Qed.

Lemma flush_entries_Ok fd entries s s' :
  pool_inv s → (∀ pid f, (pid, f) ∈ entries → table s !! pid = Some f) →
  flush_entries fd entries s = (Ok tt, s') →
  pool_inv s' ∧ view_kept s s' ∧ (∀ q, pins s' q = pins s q) ∧ fds_kept s s' ∧
  table s' = table s ∧ fd2pageno_ (s_disk s') = fd2pageno_ (s_disk s) ∧
  (∀ q, data_fd s q.1 → synced s q ∨ (q.1 = fd ∧ ∃ f, (q, f) ∈ entries) → synced s' q).
Proof.
  revert s. induction entries as [|[pid f] entries IH]; intros s Hi Hall H; simpl in H.
  - apply ret_Ok in H as [_ ->]. split_and!; try done; [by intros ?|by intros ?|].
    intros q _ [?|(_ & f & Hf)]; [done|by apply elem_of_nil in Hf].
  - apply bind_Ok in H as ([] & s1 & H1 & H).
    assert (Hm : table s !! pid = Some f) by (apply Hall; by left).
    assert (pool_inv s1 ∧ view_kept s s1 ∧ (∀ q, pins s1 q = pins s q) ∧ fds_kept s s1 ∧
      table s1 = table s ∧ fd2pageno_ (s_disk s1) = fd2pageno_ (s_disk s) ∧
      ∀ q, data_fd s q.1 → synced s q ∨ (q.1 = fd ∧ q = pid) → synced s1 q)
      as (Hi1 & Hv1 & Hp1 & Hf1 & Ht1 & Hpg1 & Hs1).
    { destruct (Z.eqb_spec fd pid.1) as [->|Hne].
      - apply bind_Ok in H1 as (p & ? & [Hp ->]%get_frame_Ok & H1).
        apply bind_Ok in H1 as ([] & ? & (d & Hw & ->)%disk_call_Ok & ->%put_frame_Ok).
        destruct (mapped_frame s pid f Hi Hm) as (q & Hq & Hid). rewrite Hp in Hq. injection Hq as <-.
        destruct (flush_frame_Ok s pid f p d Hi Hm Hp Hw) as (?&?&?&?&_&?&_).
        rewrite put_as_retouched, Hid. split_and!; try done.
        intros q Hfd Hq. apply (flush_frame_synced s pid f p d q); [done..|]. naive_solver.
      - apply ret_Ok in H1 as [_ ->]. split_and!; try done; [by intros ?|by intros ?|].
        intros q _ [?|[? ->]]; [done|]. congruence. }
    apply IH in H as (Hi2 & Hv2 & Hp2 & Hf2 & Ht2 & Hpg2 & Hs2); [|done|].
    2: { intros pid2 f2 Hin. rewrite Ht1. apply Hall. by right. }
    split_and!; [done| | | |congruence|congruence|].
    + intros q b Hfd Hb. apply Hv2; [by apply Hf1|]. by apply Hv1.
    + intros q. by rewrite Hp2.
    + intros g Hg. by apply Hf2, Hf1.
    + intros q Hfd Hq. apply Hs2; [by apply Hf1|].
      destruct Hq as [?|(? & g & Hg)]; [left; by apply Hs1; auto|].
      apply elem_of_cons in Hg as [[= -> ->]|Hg]; [left; apply Hs1; auto|right; eauto].
Qed.

Lemma flush_all_Ok fd s s' :
  pool_inv s → flush_all_pages fd s = (Ok tt, s') →
  pool_inv s' ∧ view_kept s s' ∧ (∀ q, pins s' q = pins s q) ∧ fds_kept s s' ∧
  table s' = table s ∧ fd2pageno_ (s_disk s') = fd2pageno_ (s_disk s) ∧
  (∀ q f, q.1 = fd → table s !! q = Some f → synced s' q).
Proof.
  intros Hi H. unfold flush_all_pages in H. apply bind_Ok in H as (? & ? & [-> ->]%gets_Ok & H).
  apply flush_entries_Ok in H as (? & ? & ? & ? & ? & ? & Hs); [|done|].
  2: { intros pid f. by rewrite elem_of_map_to_list. }
  split_and!; try done. intros q f Hfd Hm. apply Hs.
  - by apply (pi_map _ Hi) in Hm as (? & _).
  - right. split; [done|]. exists f. by apply elem_of_map_to_list.
Qed.

(** *** A client's change of a page it has pinned *)
Lemma write_frame_Ok s pid f data s' :
  pool_inv s → table s !! pid = Some f → 0 < pins s pid → len data = PAGE_SIZE →
  write_frame f data s = (Ok tt, s') →
  pool_inv s' ∧ (∀ q, pins s' q = pins s q) ∧ fds_kept s s' ∧ table s' = table s ∧
  s_disk s' = s_disk s ∧ s_log s' = s_log s ∧
  (∀ q, view s' q = if decide (q = pid) then Some data else view s q).
Proof.
  intros Hi Hm Hpin Hlen H. unfold write_frame in H.
  apply bind_Ok in H as (p & ? & [Hp ->]%get_frame_Ok & ->%put_frame_Ok).
  destruct (mapped_frame s pid f Hi Hm) as (q & Hq & Hid). rewrite Hp in Hq. injection Hq as <-.
  subst pid. assert (Hpin' : 0 < pin_count_ p).
  { unfold pins, cached in Hpin. rewrite Hm in Hpin. simpl in Hpin. by rewrite Hp in Hpin. }
  rewrite put_as_retouched. split_and!; try done.
  - apply (retouched_inv s f p); simpl; try done; try apply Hi; try lia.
    intros g. case_decide as Hg; [|done]. subst g. by apply (evictable_iff _ (id_ p) _ p).
  - intros q. rewrite (rt_pins s f p) by done. case_decide as Hd; [|done]. subst q. simpl.
    unfold pins, cached. rewrite Hm. simpl. by rewrite Hp.
  - by intros ?.
  - intros q. unfold view. simpl. case_decide as Hd.
    + subst q. rewrite Hm. by rewrite (rt_frame s f p), decide_True.
    + destruct (table s !! q) as [g|] eqn:Hm2; [|done]. rewrite (rt_frame s f p) by done.
      rewrite decide_False; [done|]. intros ->. destruct Hd. by eapply map_inj.
Qed.

(** *** A client's write to the disk, around the pool, of a page that is not in it *)
Lemma raw_write_Ok s fd n data s' :
  pool_inv s → table s !! (fd, n) = None → len data ≤ PAGE_SIZE →
  disk_call (write_page fd n data) s = (Ok tt, s') →
  pool_inv s' ∧ (∀ q, pins s' q = pins s q) ∧ fds_kept s s' ∧ table s' = table s ∧
  fd2pageno_ (s_disk s') = fd2pageno_ (s_disk s) ∧ s_log s' = s_log s ∧
  (data_fd s fd → log_kept s s') ∧
  (∀ q b, q ≠ (fd, n) → data_fd s q.1 → view s q = Some b → view s' q = Some b).
Proof.
  intros Hi Hm Hlen (d & Hw & ->)%disk_call_Ok. pose proof Hw as Hwl.
  apply write_page_any in Hw as (Hd & Hl & Hk & Hpg & _); [|apply Hi|apply Hi|done].
  split_and!; try done.
  - destruct Hi as [? ? ? ? ? Hmap ? ? ? ? ? Hcl]. split; simpl; try done.
    + intros pid f Hf. destruct (Hmap pid f Hf) as (?&?&?). split_and!; try done.
      by eapply pages_kept_data_fd.
    + intros pid f p Hf Hp H0 Hcl0. destruct (Hmap pid f Hf) as ((path & Hpath & Hne) & _).
      apply (Hk _ _ Hpath Hne); [|by eapply Hcl]. rewrite <- (surjective_pairing pid). congruence.
  - intros g Hg. by eapply pages_kept_data_fd.
  - intros (path & Hpath & Hne). apply log_kept_same; [done|]. by eapply write_page_log_file.
  - intros q b Hne (path & Hpath & Hlog) Hv. unfold view in *. simpl.
    destruct (table s !! q); [done|]. apply (Hk _ _ Hpath Hlog); [|done].
    by rewrite <- (surjective_pairing q).
Qed.

(** *** Steps of the disk that keep the data files, as those of the log do *)
Lemma disk_step_pool s dk log' :
  pool_inv s → dm_inv dk → log_fd_ok dk → pages_kept (λ _, False) (s_disk s) dk →
  let s' := mkStorage dk log' (s_bpm s) in pool_inv s' ∧ view_kept s s' ∧ fds_kept s s'.
Proof.
  intros Hi Hd Hl Hk s'. split_and!.
  - destruct Hi as [? ? ? ? ? Hmap ? ? ? ? ? Hcl]. split; simpl; try done.
    + intros pid f Hf. destruct (Hmap pid f Hf) as (?&?&?). split_and!; try done. by eapply pages_kept_data_fd.
    + intros pid f p Hf Hp H0 Hc. destruct (Hmap pid f Hf) as ((path & Hpath & Hne) & _).
      apply (Hk _ _ Hpath Hne); [by intros []|]. by eapply Hcl.
  - intros q b (path & Hpath & Hne) Hv. unfold view in *. simpl. destruct (table s !! q) as [f|]; [done|].
    apply (Hk _ _ Hpath Hne); [by intros []|done].
  - intros fd Hfd. by eapply pages_kept_data_fd.
Qed.

(** What a client owes an unpin: it says [is_dirty] when it changed the page. *)
Definition dirty s pid : Prop := ∃ p, cached s pid = Some p ∧ is_dirty_ p = true.
Definition unpin_pre s pid (is_dirty : bool) : Prop :=
  is_dirty = true ∨ pins s pid ≠ 1 ∨ dirty s pid ∨ synced s pid.

(** *** What a fetch that returns a page does *)
Record fetched s pid f s' : Prop := {
  ft_inv : pool_inv s';
  ft_view : view_kept s s';
  ft_fds : fds_kept s s';
  ft_table : table s' !! pid = Some f;
  ft_pins q : pins s' q = if decide (q = pid) then pins s q + 1 else pins s q;
  ft_pageno : fd2pageno_ (s_disk s') = fd2pageno_ (s_disk s);
  ft_stay q g : table s !! q = Some g → 0 < pins s q → table s' !! q = Some g;
  ft_pinned q : 0 < pins s q → view s' q = view s q;
  ft_keys q : q ≠ pid → table s !! q = None → table s' !! q = None;
  ft_unpin : unpin_pre s' pid false;
  ft_log : log_kept s s';
}.

Lemma pins_mapped s pid f p : table s !! pid = Some f → frame s f = Some p → pins s pid = pin_count_ p.
Proof. intros Hm Hp. unfold pins, cached. rewrite Hm. simpl. by rewrite Hp. Qed.

Lemma pinned_mapped s pid : 0 < pins s pid → ∃ f p, table s !! pid = Some f ∧ frame s f = Some p.
Proof.
  unfold pins, cached. destruct (table s !! pid) as [f|]; [|done]. simpl.
  destruct (frame s f) as [p|] eqn:E; [eauto|done].
Qed.

(** A pinned page is not the victim. *)
Lemma replaced_pinned s f p0 pid data s' q g :
  pool_inv s → replaced s f p0 pid data s' → table s !! q = Some g → 0 < pins s q →
  q ≠ pid ∧ q ≠ id_ p0 ∧ g ≠ f ∧ table s' !! q = Some g.
Proof.
  intros Hi Hr Hq Hpin.
  assert (Hqp : q ≠ pid) by (intros ->; by rewrite (rp_new _ _ _ _ _ _ Hr) in Hq).
  assert (Hg : g ≠ f).
  { intros ->. erewrite pins_mapped in Hpin by (done || apply Hr).
    rewrite (rp_pin0 s f p0 pid data s' Hi Hr) in Hpin. lia. }
  assert (Hd : q ≠ id_ p0).
  { intros Hd. destruct Hg. by eapply (rp_id0 s f p0 pid data s' Hi Hr). }
  split_and!; try done. by rewrite (rp_lookup s f p0 pid data s' Hr), decide_False.
Qed.

(** Loading a page keeps what the clients see, and the pinned pages where they are. *)
Lemma replaced_pinned_view s f p0 pid data s' q :
  pool_inv s → replaced s f p0 pid data s' → 0 < pins s q → view s' q = view s q.
Proof.
  intros Hi Hr Hpin. destruct (pinned_mapped _ _ Hpin) as (g & p & Hq & Hp).
  destruct (replaced_pinned _ _ _ _ _ _ _ _ Hi Hr Hq Hpin) as (_ & _ & Hg & Hq').
  unfold view. rewrite Hq, Hq'. by rewrite (rp_frames _ _ _ _ _ _ Hr), decide_False.
Qed.

Lemma fetch_hit_fetched s pid g f s' :
  pool_inv s → table s !! pid = Some g → fetch_page pid s = (Ok (Some f), s') → fetched s pid f s'.
Proof.
  intros Hi Hm H. assert (g = f) as ->.
  { unfold fetch_page in H. apply bind_Ok in H as (? & ? & [-> ->]%gets_Ok & H). rewrite Hm in H.
    by apply bind_Ok in H as ([] & ? & _ & [[= ->] _]%ret_Ok). }
  apply fetch_hit in H as (p & Hc & Hid & ->); [|done|done]. subst pid.
  unfold cached in Hc. rewrite Hm in Hc. simpl in Hc.
  destruct (pi_data _ Hi _ _ Hc) as [Hlen Hpin].
  destruct (pin_spec (repl s) f (pi_rep _ Hi)) as [Hrep Hev]. split; try done.
  - apply (retouched_inv s f p); simpl; try done; try apply Hi; try lia.
    intros g. rewrite Hev. case_decide; [set_solver by lia|set_solver].
  - intros q b Hq Hb. destruct (decide (q = id_ p)) as [->|Hne]; [|by apply (rt_view_other s f p)].
    rewrite (rt_view_same s f p) by done. unfold view in Hb. rewrite Hm in Hb. simpl in *.
    by rewrite Hc in Hb.
  - by intros ?.
  - intros q. rewrite (rt_pins s f p) by done. case_decide as Hd; [|done]. subst q.
    by erewrite pins_mapped.
  - intros q _. unfold view. simpl. destruct (table s !! q) as [g|] eqn:Hm2; [|done].
    rewrite (rt_frame s f p) by done. case_decide as Hg; [|done]. subst g. by rewrite Hc.
  - right. rewrite (rt_pins s f p), decide_True by done. simpl.
    destruct (decide (pin_count_ p = 0)) as [H0|]; [right|left; lia].
    destruct (is_dirty_ p) eqn:Hdirty.
    + left. eexists. by rewrite (rt_cached s f p), decide_True.
    + right. exists (data_ p). rewrite (rt_view_same s f p) by done.
      split; [done|]. by apply (pi_clean _ Hi _ _ _ Hm Hc).
Qed.

Lemma fetch_miss_fetched s pid f s' :
  pool_inv s → data_fd s pid.1 → table s !! pid = None →
  fetch_page pid s = (Ok (Some f), s') → fetched s pid f s'.
Proof.
  intros Hi Hfd Hm H. apply fetch_miss in H as (p0 & data & Hr & Hdata & Hpg); [|done..].
  split; try done.
  - by eapply replaced_inv.
  - intros q b Hq Hb. destruct (decide (q = pid)) as [->|Hne]; [|by eapply replaced_view].
    unfold view in Hb. rewrite Hm in Hb. apply Hdata in Hb as ->. unfold view.
    rewrite (rp_table _ _ _ _ _ _ Hr), lookup_insert_eq.
    by rewrite (rp_frames _ _ _ _ _ _ Hr), decide_True.
  - intros fd ?. eapply pages_kept_data_fd; [apply Hr|done].
  - by rewrite (rp_table _ _ _ _ _ _ Hr), lookup_insert_eq.
  - intros q. erewrite replaced_pins by done. case_decide as Hq; [|done]. subst q.
    unfold pins, cached. by rewrite Hm.
  - intros q g Hq Hpin. by eapply replaced_pinned.
  - intros q Hpin. by eapply replaced_pinned_view.
  - intros q Hne Hq. rewrite (rp_lookup s f p0 pid data s' Hr) by done. by case_decide.
  - right. right. right. exists data. split; [|apply (rp_at _ _ _ _ _ _ Hr)]. unfold view.
    rewrite (rp_table _ _ _ _ _ _ Hr), lookup_insert_eq.
    by rewrite (rp_frames _ _ _ _ _ _ Hr), decide_True.
  - apply (rp_log _ _ _ _ _ _ Hr).
Qed.

Lemma fetch_Ok s pid f s' :
  pool_inv s → data_fd s pid.1 → fetch_page pid s = (Ok (Some f), s') → fetched s pid f s'.
Proof.
  intros Hi Hfd H. destruct (table s !! pid) as [g|] eqn:Hm;
    [by eapply fetch_hit_fetched|by apply fetch_miss_fetched].
Qed.

(** *** What a new page is *)
Record page_made s fd f n s' : Prop := {
  pm_inv : pool_inv s';
  pm_view q b : q ≠ (fd, n) → data_fd s q.1 → view s q = Some b → view s' q = Some b;
  pm_new : view s' (fd, n) = Some reset_memory;
  pm_fds : fds_kept s s';
  pm_table : table s' !! (fd, n) = Some f;
  pm_pins q : pins s' q = if decide (q = (fd, n)) then 1 else pins s q;
  pm_no : n = get_fd2pageno (s_disk s) fd;
  pm_pageno : fd2pageno_ (s_disk s') = <[fd := wrap32 (n + 1)]> (fd2pageno_ (s_disk s));
  pm_pos : 0 ≤ n;
  pm_keys q : q ≠ (fd, n) → table s !! q = None → table s' !! q = None;
  pm_log : log_kept s s';
  pm_stay q g : table s !! q = Some g → 0 < pins s q → table s' !! q = Some g;
}.

Lemma new_Ok s fd f n s' :
  pool_inv s → data_fd s fd → table s !! (fd, get_fd2pageno (s_disk s) fd) = None →
  new_page fd s = (Ok (Some (f, n)), s') → page_made s fd f n s'.
Proof.
  intros Hi Hfd Hm H. apply new_page_Ok in H as (Hn & Hpg & p0 & Hr); [|done..].
  split; try done.
  - by eapply replaced_inv.
  - intros q b Hne Hq Hb. by eapply replaced_view.
  - unfold view. rewrite (rp_table _ _ _ _ _ _ Hr), lookup_insert_eq.
    by rewrite (rp_frames _ _ _ _ _ _ Hr), decide_True.
  - intros g ?. eapply pages_kept_data_fd; [apply Hr|done].
  - by rewrite (rp_table _ _ _ _ _ _ Hr), lookup_insert_eq.
  - intros q. by erewrite replaced_pins.
  - apply (rp_pos _ _ _ _ _ _ Hr).
  - intros q Hne Hq. rewrite (rp_lookup s f p0 (fd, n) reset_memory s' Hr) by done. by case_decide.
  - apply (rp_log _ _ _ _ _ _ Hr).
  - intros q g Hq Hpin. by eapply replaced_pinned.
Qed.

(** *** What an unpin does *)
Record unpinned s pid (b : bool) s' : Prop := {
  up_inv : pool_inv s';
  up_view q : view s' q = view s q;
  up_disk : s_disk s' = s_disk s;
  up_table : table s' = table s;
  up_pins q : pins s' q = if decide (q = pid) then (if b then pins s q - 1 else pins s q) else pins s q;
  up_b : b = true ↔ 0 < pins s pid;
  up_log : s_log s' = s_log s;
}.

Lemma unpin_unpinned s pid is_dirty b s' :
  pool_inv s → unpin_pre s pid is_dirty → unpin_page pid is_dirty s = (Ok b, s') →
  unpinned s pid b s'.
Proof.
  intros Hi Hpre H. apply unpin_Ok in H; [|done]. destruct b.
  2: { destruct H as [-> H0]. split; try done; [intros q; by case_decide|]. rewrite H0. done. }
  destruct H as (f & p & Hm & Hp & Hid & Hpin & ->). subst pid.
  destruct (pi_data _ Hi _ _ Hp) as [Hlen _]. destruct (unpin_spec (repl s) f (pi_rep _ Hi)) as [Hrep Hev].
  pose proof (pins_mapped _ _ _ _ Hm Hp) as Hpins.
  assert (Hnot : f ∉ evictable (repl s)).
  { rewrite (evictable_iff s (id_ p) f p) by done. lia. }
  split; try done.
  - apply (retouched_inv s f p); simpl; try done; try apply Hi; try lia.
    + case_decide; [done|apply Hi].
    + intros g. case_decide; case_decide; set_solver by lia.
    + intros H0 Hcl. apply orb_false_iff in Hcl as [-> Hcl].
      destruct Hpre as [?|[?|[(q & Hq & ?)|(b & Hb & Hat)]]]; [done|lia| |].
      * unfold cached in Hq. rewrite Hm in Hq. simpl in Hq. congruence.
      * unfold view in Hb. rewrite Hm in Hb. simpl in Hb. rewrite Hp in Hb. simpl in Hb. congruence.
  - intros q. unfold view. simpl. destruct (table s !! q) as [g|] eqn:Hm2; [|done].
    rewrite (rt_frame s f p) by done. case_decide as Hg; [|done]. subst g. by rewrite Hp.
  - intros q. rewrite (rt_pins s f p) by done. case_decide as Hd; [|done]. subst q. simpl. by rewrite Hpins.
  - rewrite Hpins. done.
Qed.
End laws.

(** ** Properties *)

Inductive pool_op : Type :=
  | PFetch (pid : PageId)
  | PUnpin (pid : PageId) (is_dirty : bool)
  | PFlush (pid : PageId)
  | PNew (fd : Z)
  | PDelete (pid : PageId)
  | PFlushAll (fd : Z)
  | PWrite (pid : PageId) (data : bytes).   (* the client changes a page it has pinned *)

Inductive pool_ret : Type :=
  | RFrame (f : option Z) | RBool (b : bool) | RNew (o : option (Z * Z)) | RUnit.

Definition pool_exec {R} `{!Replacer R} (op : pool_op) : M (Storage R) pool_ret :=
  match op with
  | PFetch pid => let! o := fetch_page pid in ret (RFrame o)
  | PUnpin pid d => let! b := unpin_page pid d in ret (RBool b)
  | PFlush pid => let! b := flush_page pid in ret (RBool b)
  | PNew fd => let! o := new_page fd in ret (RNew o)
  | PDelete pid => let! b := delete_page pid in ret (RBool b)
  | PFlushAll fd => do! flush_all_pages fd in ret RUnit
  | PWrite pid data =>
      let! o := gets (λ s, page_table_ (s_bpm s) !! pid) in
      let! f := of_option o in
      do! write_frame f data in ret RUnit
  end.

(** What a client owes: pages of open data files; [is_dirty] when it changed the
    page; the next page number of a file names no page of the pool. *)
Definition op_pre {R} (s : Storage R) (op : pool_op) : Prop :=
  match op with
  | PFetch pid => data_fd s pid.1
  | PUnpin pid d => unpin_pre s pid d
  | PNew fd => data_fd s fd ∧ page_table_ (s_bpm s) !! (fd, get_fd2pageno (s_disk s) fd) = None
  | PWrite pid data => 0 < pins s pid ∧ len data = PAGE_SIZE
  | PFlush _ | PDelete _ | PFlushAll _ => True
  end.

(** The abstract pool: page contents [V] and pin counts [P], no frames. *)
Abbreviation pages := (PageId → option bytes).
Definition grows (D : Z → Prop) (V V' : pages) : Prop :=
  ∀ pid b, D pid.1 → V pid = Some b → V' pid = Some b.

Definition spec_step (D : Z → Prop) (op : pool_op) (r : pool_ret)
    (V : pages) (P : PageId → Z) (V' : pages) (P' : PageId → Z) : Prop :=
  match op, r with
  | PFetch pid, RFrame (Some _) =>
      grows D V V' ∧ is_Some (V' pid) ∧ ∀ q, P' q = if decide (q = pid) then P q + 1 else P q
  | PFetch _, RFrame None => V' = V ∧ P' = P
  | PUnpin pid _, RBool b =>
      (∀ q, V' q = V q) ∧ (b = true ↔ 0 < P pid) ∧
      ∀ q, P' q = if decide (q = pid) then (if b then P q - 1 else P q) else P q
  | PFlush _, RBool _ => grows D V V' ∧ ∀ q, P' q = P q
  | PNew fd, RNew (Some (_, n)) =>
      (∀ q b, q ≠ (fd, n) → D q.1 → V q = Some b → V' q = Some b) ∧
      V' (fd, n) = Some reset_memory ∧ ∀ q, P' q = if decide (q = (fd, n)) then 1 else P q
  | PNew _, RNew None => V' = V ∧ P' = P
  | PDelete pid, RBool b => grows D V V' ∧ (b = true ↔ P pid = 0) ∧ ∀ q, P' q = P q
  | PFlushAll _, RUnit => grows D V V' ∧ ∀ q, P' q = P q
  | PWrite pid data, RUnit =>
      (∀ q, V' q = if decide (q = pid) then Some data else V q) ∧ ∀ q, P' q = P q
  | _, _ => False
  end.

Section properties.
Context {R : Type} `{!Replacer R, !ReplacerLaws R}.
Implicit Types (s : Storage R).

Lemma pins_nonneg s pid : pool_inv s → 0 ≤ pins s pid.
Proof.
  intros Hi. unfold pins, cached. destruct (page_table_ (s_bpm s) !! pid) as [f|]; [|done]. simpl.
  destruct (frame s f) as [p|] eqn:Hp; [|done]. by apply (pi_data _ Hi) in Hp as [_ ?].
Qed.

Lemma view_pinned s pid : 0 < pins s pid → is_Some (view s pid).
Proof.
  intros (f & p & Hm & Hp)%pinned_mapped. unfold view. rewrite Hm. simpl. rewrite Hp. eauto.
Qed.

Lemma BufferPoolManager_new_inv d log n junk r :
  dm_inv d → log_fd_ok d → rep_inv r → evictable r = ∅ →
  pool_inv (mkStorage d log (BufferPoolManager_new n junk r)).
Proof.
  intros Hd Hl Hr He.
  assert (Hf : ∀ f p, frame (mkStorage d log (BufferPoolManager_new n junk r)) f = Some p →
    p = mkPage (junk, INVALID_PAGE_ID) reset_memory false 0 ∧ 0 ≤ f < Z.of_nat n).
  { intros f p. unfold frame. simpl. destruct (Z.leb_spec 0 f); [|done].
    intros [-> ?]%lookup_replicate. split; [done|lia]. }
  split; simpl; try done.
  - by rewrite length_replicate.
  - intros f p [-> _]%Hf. split; [apply reset_memory_length|done].
  - intros f [? ?]%elem_of_seqZ. exists (mkPage (junk, INVALID_PAGE_ID) reset_memory false 0).
    split; [|done]. unfold frame. simpl. destruct (Z.leb_spec 0 f); [|lia]. apply lookup_replicate. split; [done|lia].
  - apply NoDup_seqZ.
  - intros f p [_ ?]%Hf. left. apply elem_of_seqZ. lia.
  - rewrite He. intros f []%elem_of_empty.
Qed.

Lemma exec_bind {A} (m : M (Storage R) A) (k : A → pool_ret) s r s' :
  bind m (λ a, ret (k a)) s = (Ok r, s') → ∃ a, m s = (Ok a, s') ∧ r = k a.
Proof. intros (a & s1 & Hm & [-> ->]%ret_Ok)%bind_Ok. eauto. Qed.

(** One call, with everything a later proof may need of it. *)
Lemma pool_exec_step op s r s' :
  pool_inv s → op_pre s op → pool_exec op s = (Ok r, s') →
  pool_inv s' ∧ spec_step (data_fd s) op r (view s) (pins s) (view s') (pins s') ∧ fds_kept s s'.
Proof.
  intros Hi Hpre H. destruct op as [pid|pid d|pid|fd|pid|fd|pid data]; simpl in Hpre, H.
  - apply exec_bind in H as (o & H & ->). destruct o as [f|].
    + apply fetch_Ok in H as [? ? ? ? Hp ? ? ? ? ? ?]; [|done..]. simpl; split_and!; try done.
      apply view_pinned. rewrite Hp, decide_True by done. pose proof (pins_nonneg s pid Hi). lia.
    + apply fetch_none in H as (-> & _); [|done]. simpl. split_and!; [done..|by intros ?].
  - apply exec_bind in H as (b & H & ->). apply unpin_unpinned in H as [? ? Hd ? ? ? ?]; [|done..].
    simpl; split_and!; try done. intros fd Hfd. unfold data_fd in *. by rewrite Hd.
  - apply exec_bind in H as (b & H & ->). simpl; by apply flush_Ok in H as (?&?&?&?&?); [|done].
  - destruct Hpre as [Hfd Hm]. apply exec_bind in H as (o & H & ->). destruct o as [[f n]|].
    + apply new_Ok in H as [? ? ? ? ? ? ? ? ? ? ?]; [|done..]. simpl; by split_and!.
    + apply new_page_None in H as ->; [|done]. simpl. split_and!; [done..|by intros ?].
  - apply exec_bind in H as (b & H & ->). apply delete_Ok in H as (?&?&?&?&Hb); [|done].
    simpl; split_and!; try done. destruct b; [by destruct Hb|]. destruct Hb. split; [done|lia].
  - apply exec_bind in H as ([] & H & ->). simpl; by apply flush_all_Ok in H as (?&?&?&?&?); [|done].
  - apply bind_Ok in H as (? & ? & [-> ->]%gets_Ok & H).
    apply bind_Ok in H as (f & ? & [Hm ->]%of_option_Ok & H).
    apply exec_bind in H as ([] & H & ->). destruct Hpre.
    simpl. by apply (write_frame_Ok s pid) in H as (?&?&?&?&?&?&?).
Qed.

(** C3: the buffer pool implements a store of pages.  Every call that returns keeps
    the pool's invariant and does to the page contents clients see and to the pin
    counts what the frame-less abstract pool does: fetching, evicting, writing
    back, flushing and deleting never change the contents of a page, and only the
    client's own change of a pinned page does. *)
Theorem pool_refines_pages op s r s' :
  pool_inv s → op_pre s op → pool_exec op s = (Ok r, s') →
  pool_inv s' ∧ spec_step (data_fd s) op r (view s) (pins s) (view s') (pins s') ∧ fds_kept s s'.
Proof. apply pool_exec_step. Qed.

(** C19: a pinned page is never evicted, moved or deleted: whatever call is made, it
    stays in the frame its clients hold a pointer to, and only their own change
    of it changes its contents. *)
Theorem pinned_page_stays op s r s' pid f :
  pool_inv s → op_pre s op → pool_exec op s = (Ok r, s') →
  page_table_ (s_bpm s) !! pid = Some f → 0 < pins s pid →
  page_table_ (s_bpm s') !! pid = Some f ∧
  ((∃ data, op = PWrite pid data) ∨ view s' pid = view s pid).
Proof.
  intros Hi Hpre H Hm Hpin. destruct op as [q|q d|q|fd|q|fd|q data]; simpl in Hpre, H.
  - apply exec_bind in H as ([g|] & H & ->).
    + apply fetch_Ok in H as Hf; [|done..]. split; [by apply Hf|right; by apply Hf].
    + apply fetch_none in H as (-> & _); [|done]. auto.
  - apply exec_bind in H as (b & H & ->). apply unpin_unpinned in H as Hu; [|done..].
    rewrite (up_table _ _ _ _ Hu). split; [done|right; apply Hu].
  - apply exec_bind in H as (b & H & ->). apply flush_Ok in H as (_&Hv&_&_&_&->&_); [|done].
    split; [done|right]. destruct (view_pinned _ _ Hpin) as [c Hc]. rewrite Hc. apply Hv; [|done].
    by apply (pi_map _ Hi) in Hm as (? & _).
  - destruct Hpre as [Hfd Hnm]. apply exec_bind in H as ([[g n]|] & H & ->).
    + apply new_page_Ok in H as (_ & _ & p0 & Hr); [|done..].
      destruct (replaced_pinned _ _ _ _ _ _ _ _ Hi Hr Hm Hpin) as (_ & _ & _ & ?).
      split; [done|right]. by eapply replaced_pinned_view.
    + apply new_page_None in H as ->; auto.
  - apply exec_bind in H as (b & H & ->). apply delete_Ok in H as (_&Hv&_&_&Hb); [|done].
    destruct b; [|destruct Hb as [-> _]; auto]. destruct Hb as [-> H0].
    assert (q ≠ pid) by (intros ->; lia). rewrite lookup_delete_ne by done. split; [done|right].
    destruct (view_pinned _ _ Hpin) as [c Hc]. rewrite Hc. apply Hv; [|done].
    by apply (pi_map _ Hi) in Hm as (? & _).
  - apply exec_bind in H as ([] & H & ->). apply flush_all_Ok in H as (_&Hv&_&_&->&_); [|done].
    split; [done|right]. destruct (view_pinned _ _ Hpin) as [c Hc]. rewrite Hc. apply Hv; [|done].
    by apply (pi_map _ Hi) in Hm as (? & _).
  - apply bind_Ok in H as (? & ? & [-> ->]%gets_Ok & H).
    apply bind_Ok in H as (g & ? & [Hg ->]%of_option_Ok & H).
    apply exec_bind in H as ([] & H & ->). destruct Hpre.
    apply (write_frame_Ok s q) in H as (_&_&_&->&_&_&Hv); try done. split; [done|].
    rewrite Hv. case_decide; [subst; left; eauto|by right].
Qed.

(** [fetch_page] answers [nullptr] only when every frame of the pool is pinned,
    and then changes nothing. *)
Theorem fetch_fails_only_when_all_pinned s pid s' :
  pool_inv s → fetch_page pid s = (Ok None, s') →
  s' = s ∧ ∀ f p, frame s f = Some p → 0 < pin_count_ p.
Proof. intros Hi H. by apply fetch_none in H as (?&_&?). Qed.

(** C25: after [flush_all_pages], every page of the file that is in the pool is on
    disk as clients see it. *)
Theorem flush_all_pages_durable s fd s' pid f :
  pool_inv s → flush_all_pages fd s = (Ok tt, s') →
  pid.1 = fd → page_table_ (s_bpm s) !! pid = Some f →
  ∃ b, view s pid = Some b ∧ view s' pid = Some b ∧ page_at (s_disk s') pid.1 pid.2 = Some b.
Proof.
  intros Hi H Hfd Hm. apply flush_all_Ok in H as (_ & Hv & _ & _ & _ & _ & Hs); [|done].
  destruct (Hs pid f Hfd Hm) as (b & Hb & Hat).
  destruct (pi_map _ Hi _ _ Hm) as (Hdf & _ & p & Hp & _).
  assert (Hview : view s pid = Some (data_ p)).
  { unfold view. rewrite Hm. simpl. by rewrite Hp. }
  apply (Hv pid _ Hdf) in Hview as Hv'. exists b. split_and!; congruence.
Qed.
End properties.

Section eviction.
Context {R : Type} `{!Replacer R, !ReplacerLaws R}.
Implicit Types (s : Storage R).

(** A write of a page of a data file leaves the log file alone. *)

Lemma flush_log_empties t t' : flush_log_to_disk t = (Ok tt, t') → buffer_ t'.1 = [].
Proof.
  unfold flush_log_to_disk. intros H. apply bind_Ok in H as (? & ? & [-> ->]%gets_Ok & H).
  destruct (Z.eqb_spec (offset_ t.1) 0) as [E|E].
  - apply ret_Ok in H as [_ ->]. unfold offset_ in E. apply nil_length_inv. lia.
  - by apply bind_Ok in H as ([] & ? & _ & ->%modify_Ok).
Qed.

Lemma open_file_fails path d o d' :
  open_file path d = (o, d') → (∀ fd, o ≠ Ok fd) → (∃ e, o = Throw e) ∧ d' = d.
Proof.
  unfold open_file, bind, gets, throw. cbn. destruct (path2fd_ d !! path); [intros [= <- <-]; eauto|].
  unfold syscall. destruct (k_open_spec path false (kernel d)) as [[E1 E2]|(fd & files & ? & _ & E & _)].
  - destruct (k_open path false (kernel d)) as [fd k]. cbn in *. subst. cbn. destruct d. intros [= <- <-]. eauto.
  - rewrite E. cbn. destruct (Z.eqb_spec fd (-1)); [lia|]. intros [= <- <-] Hno. by destruct (Hno fd).
Qed.

Lemma open_log_fails d o d' : open_log d = (o, d') → o ≠ Ok tt → (∃ e, o = Throw e) ∧ d' = d.
Proof.
  unfold open_log. rewrite bind_gets. destruct (log_fd_ d =? -1); [|intros [= <- <-]; done].
  unfold bind. destruct (open_file _ d) as [[fd|e|] d1] eqn:Ho; cbn; [by intros [= <- <-]|..];
    apply open_file_fails in Ho as [[e' He] ->]; try done; intros [= <- <-] _; split; eauto; congruence.
Qed.

(** Whatever way a write of the log ends, the open data files are as before. *)
Lemma write_log_keeps data d : dm_inv d → log_fd_ok d → data_kept d (write_log data d).2.
Proof.
  intros Hd Hl. unfold write_log. destruct (open_log d) as [[[]|e|] d1] eqn:Ho.
  - rewrite (bind_run _ _ _ _ _ Ho), bind_gets.
    destruct (open_log_Ok _ _ Hd Hl Ho) as (Hd1 & _ & (o & E) & Hfiles & Hfds & _).
    assert (data_kept d d1) as Hk.
    { intros fd path Hp _. unfold fd_path, file_of in *.
      destruct (k_fds (kernel d) !! fd) as [x|] eqn:Ex; [|done]. rewrite (Hfds _ _ Ex). cbn. by rewrite Hfiles. }
    assert (∀ m : gmap Z (string * Z), ∀ files : gmap string bytes,
      (∀ fd, fd ≠ log_fd_ d1 → m !! fd = k_fds (kernel d1) !! fd) →
      (∀ q, q ≠ LOG_FILE_NAME → files !! q = k_files (kernel d1) !! q) →
      data_kept d1 (set_kernel (mkKernel files m (k_limit (kernel d1)) (k_quota (kernel d1))) d1)) as Hset.
    { intros m files Hm Hf fd path Hp Hne. unfold fd_path, file_of in *. cbn in *.
      destruct (k_fds (kernel d1) !! fd) as [[q o']|] eqn:Ex; [|done]. injection Hp as ->.
      rewrite Hm by (intros ->; congruence). rewrite Ex. cbn. by rewrite Hf. }
    assert (∀ k, data_kept d1 (set_kernel k d1) → data_kept d (set_kernel k d1)) as Ht by (intros k H; by etrans).
    unfold syscall, k_seek_end, k_write, bind. rewrite E.
    destruct (dm_open _ Hd1 _ _ _ E) as (_ & _ & [f F]). rewrite F. cbn. rewrite lookup_insert_eq, F.
    set (data' := take _ data). destruct (_ && _); cbn; case_match; cbn; apply Ht, Hset; try done; cbn;
      intros; by rewrite ?insert_insert_eq, ?lookup_insert_ne by done.
  - unfold bind. rewrite Ho. by apply open_log_fails in Ho as [_ ->].
  - unfold bind. rewrite Ho. by apply open_log_fails in Ho as [_ ->].
Qed.
Lemma flush_log_cases t o t' : dm_inv t.2 → log_fd_ok t.2 → flush_log_to_disk t = (o, t') →
  data_kept t.2 t'.2 ∧
  (o = Ok tt → buffer_ t'.1 = [] ∧
     ∀ old, log_file t.2 = Some old → log_file t'.2 = Some (old ++ buffer_ t.1)).
Proof.
  intros Hd Hl. unfold flush_log_to_disk. rewrite bind_gets. destruct (Z.eqb_spec (offset_ t.1) 0) as [E|E].
  { intros [= <- <-]. split; [done|]. intros _. unfold offset_ in E.
    assert (buffer_ t.1 = []) as -> by (apply nil_length_inv; lia). split; [done|]. intros old. by rewrite app_nil_r. }
  pose proof (write_log_keeps (buffer_ t.1) t.2 Hd Hl) as Hk. unfold bind, log_disk, zoom.
  destruct (write_log (buffer_ t.1) t.2) as [[[]|e|] d'] eqn:Hw; cbn in *; intros [= <- <-]; (split; [done|]); try done.
  intros _. split; [done|]. intros old Hold.
  apply write_log_Ok in Hw as (_ & _ & _ & f & Hf & Hf'); [|done..]. cbn in *. congruence.
Qed.

(** Whatever way a write of a page of a data file ends, the log file is as before. *)
Lemma write_page_log_kept fd n data d path :
  fd_path d fd = Some path → path ≠ LOG_FILE_NAME → log_file (write_page fd n data d).2 = log_file d.
Proof.
  intros Hp Hne. unfold fd_path in Hp. destruct (k_fds (kernel d) !! fd) as [[q o]|] eqn:E; [|done]. injection Hp as ->.
  unfold write_page, massert. destruct (i32_ok _); [|done]. unfold bind, syscall, k_seek, k_write, throw, ret. cbn. rewrite E.
  destruct (n * PAGE_SIZE <? 0); cbn; [done|]. case_match; [done|]. cbn. rewrite lookup_insert_eq.
  destruct (k_files (kernel d) !! path) as [f|]; cbn; [destruct (_ && _); cbn|]; case_match; cbn; try done;
    unfold log_file; cbn; by rewrite lookup_insert_ne.
Qed.

(** C27: write-ahead logging, as [update_page] does it with a dirty victim of a data file.
    When the page's lsn is above [persist_lsn_] the log is flushed first: at that point the
    page on disk is still the old one.  If the flush throws, [update_page] stops there; if
    it returns, the log file holds all records of the buffer, which is empty, and stays so
    however [update_page] ends; only then the page goes to disk.  At or below
    [persist_lsn_] the log is left as it is, buffer included: and as [persist_lsn_] is the
    number of the first record that is {e not} in the log file, a dirty page whose lsn
    equals it reaches the disk before its log record. *)
Theorem update_page_wal s f pid p lm l o s' :
  pool_inv s → frame s f = Some p → is_dirty_ p = true → s_log s = Some lm →
  get_page_lsn p = Some l → update_page f pid s = (o, s') →
  (persist_lsn_ lm < l → ∀ o1 s1, log_flush s = (o1, s1) →
     page_at (s_disk s1) (id_ p).1 (id_ p).2 = page_at (s_disk s) (id_ p).1 (id_ p).2 ∧
     match o1 with
     | Ok _ =>
         (∃ lm', s_log s1 = Some lm' ∧ buffer_ lm' = []) ∧
         (∀ old, log_file (s_disk s) = Some old → log_file (s_disk s1) = Some (old ++ buffer_ lm)) ∧
         s_log s' = s_log s1 ∧ log_file (s_disk s') = log_file (s_disk s1)
     | Throw e => o = Throw e ∧ s' = s1
     | Stuck => o = Stuck
     end) ∧
  (o = Ok tt → page_at (s_disk s') (id_ p).1 (id_ p).2 = Some (data_ p) ∧
     (l ≤ persist_lsn_ lm → s_log s' = Some lm ∧ log_file (s_disk s') = log_file (s_disk s))).
Proof.
  intros Hi Hp Hdirty Hlog Hl H. destruct (victim_data_fd s f p Hi Hp Hdirty) as (path & Hpath & Hne).
  split; [|intros ->; split].
  - intros Hlt o1 s1 Hfl. unfold update_page in H.
    assert (get_frame f s = (Ok p, s)) as Hget by (by apply get_frame_Ok).
    rewrite (bind_run _ _ _ _ _ Hget), bind_gets, Hlog, Hdirty in H.
    match type of H with bind ?m _ _ = _ => assert (m s = (o1, s1)) as Hm end.
    { unfold bind at 1, of_option. rewrite Hl. cbn -[log_flush]. rewrite Z.gtb_ltb.
      by destruct (Z.ltb_spec (persist_lsn_ lm) l); [|lia]. }
    unfold log_flush in Hfl. rewrite Hlog in Hfl.
    destruct (flush_log_to_disk (lm, s_disk s)) as [o2 [lm' d1]] eqn:Ef. injection Hfl as <- <-.
    apply flush_log_cases in Ef as [Hk Hok]; [|apply Hi..]. cbn in Hk, Hok.
    destruct (Hk _ _ Hpath Hne) as [Hpath1 Hfile1]. split; [unfold page_at; cbn; by rewrite Hfile1|].
    destruct o2 as [[]|e|];
      [|rewrite (bind_throw _ _ _ _ _ Hm) in H; by injection H as <- <-|rewrite (bind_stuck _ _ _ _ Hm) in H; by injection H as <- _].
    destruct (Hok eq_refl) as [Hempty Hlogfile]. rewrite (bind_run _ _ _ _ _ Hm) in H.
    split; [by exists lm'|]. split; [exact Hlogfile|].
    pose proof (write_page_log_kept (id_ p).1 (id_ p).2 (data_ p) d1 path Hpath1 Hne) as Hw.
    unfold bind at 1 2, disk_call, zoom in H. cbn [s_disk] in H.
    destruct (write_page _ _ _ d1) as [[[]|e|] d2]; cbn in Hw, H; injection H as _ <-; cbn; done.
  - apply update_page_Ok in H as (q & d' & log' & Hq & -> & _ & _ & _ & Hat & _);
      [|apply Hi|apply Hi|intros q; apply (pi_data _ Hi)].
    rewrite Hp in Hq. injection Hq as <-. by apply Hat.
  - intros Hle. unfold update_page in H. apply bind_Ok in H as (q & ? & [Hq ->]%get_frame_Ok & H).
    rewrite Hp in Hq. injection Hq as <-. apply bind_Ok in H as (? & ? & [-> ->]%gets_Ok & H).
    rewrite Hlog, Hdirty in H. apply bind_Ok in H as ([] & s1 & Hw & H).
    apply bind_Ok in Hw as (? & ? & [Hl' ->]%of_option_Ok & Hw). rewrite Hl in Hl'. injection Hl' as <-.
    apply bind_Ok in H as ([] & s2 & Hwr & H).
    apply bind_Ok in Hwr as ([] & ? & (d2 & Hwd & ->)%disk_call_Ok & ->%put_frame_Ok).
    apply bind_Ok in H as ([] & ? & ->%modify_Ok & H).
    apply bind_Ok in H as ([] & ? & ->%modify_Ok & ->%put_frame_Ok). simpl.
    rewrite Z.gtb_ltb in Hw. destruct (Z.ltb_spec (persist_lsn_ lm) l); [lia|].
    apply ret_Ok in Hw as [_ ->]. split; [done|]. by eapply write_page_log_file.
Qed.

(** C28: when the read of a fetched page fails, [fetch_page] throws and the page stays
    mapped to the victim frame, whether the frame was free or had another page: the frame
    is neither free nor pinned, and the next fetch of the page succeeds without reading it:
    it gives that frame with what is in it, and touches no file. *)
Theorem failed_fetch_leaves_page_mapped s pid f s0 s1 e s' :
  pool_inv s → page_table_ (s_bpm s) !! pid = None →
  find_victim_page s = (Ok (Some f), s0) → update_page f pid s0 = (Ok tt, s1) →
  read_into f pid.1 pid.2 s1 = (Throw e, s') →
  fetch_page pid s = (Throw e, s') ∧
  page_table_ (s_bpm s') !! pid = Some f ∧ f ∉ free_list_ (s_bpm s') ∧ pins s' pid = 0 ∧
  ∃ s2, fetch_page pid s' = (Ok (Some f), s2) ∧ s_disk s2 = s_disk s' ∧ view s2 pid = view s' pid.
Proof.
  intros Hi Hm Hv Hu Hr.
  assert (fetch_page pid s = (Throw e, s')) as Hf.
  { unfold fetch_page. rewrite bind_gets, Hm, (bind_run _ _ _ _ _ Hv), (bind_run _ _ _ _ _ Hu). by apply bind_throw. }
  split; [exact Hf|].
  destruct (find_victim_Ok _ _ _ Hi Hv) as (l & r & -> & _ & Huse).
  assert (f ∉ l) as Hfl.
  { destruct Huse as [[Hfree _]|(_ & -> & _)]; [|by apply not_elem_of_nil].
    pose proof (pi_nodup _ Hi) as Hnd. rewrite Hfree in Hnd. by apply NoDup_cons in Hnd as [? _]. }
  apply update_page_Ok in Hu as (p & d1 & log1 & Hp & -> & _);
    [|apply Hi|apply Hi|intros q Hq; by apply (pi_data _ Hi f)].
  set (s1 := upd_frame f _ _) in *.
  assert (frame s1 f = Some (mkPage pid reset_memory false 0)) as Hf1.
  { unfold s1. rewrite frame_upd by (exists p; exact Hp). by rewrite decide_True. }
  unfold read_into in Hr. unfold bind at 1 in Hr. unfold get_frame, bind, gets in Hr. cbn in Hr. rewrite Hf1 in Hr. cbn in Hr.
  destruct (read_page _ _ _ _) as [o [buf d]]. injection Hr as _ Hs.
  set (s2 := upd_frame f (mkPage pid buf false 0) (set_disk d s1)).
  assert (s' = s2) as -> by (symmetry; exact Hs).
  assert (frame s2 f = Some (mkPage pid buf false 0)) as Hf2.
  { unfold s2. rewrite frame_upd by (exists (mkPage pid reset_memory false 0); exact Hf1). by rewrite decide_True. }
  assert (page_table_ (s_bpm s2) !! pid = Some f) as Hmap by (simpl; by rewrite lookup_insert_eq).
  split_and!; [done|done|by rewrite (pins_mapped _ _ _ _ Hmap Hf2)|].
  unfold fetch_page. rewrite bind_gets, Hmap. unfold pin_frame, get_frame, bind, gets. rewrite Hf2. cbn -[frame].
  eexists. split; [done|]. split; [done|]. unfold view. cbn -[frame]. rewrite lookup_insert_eq. cbn -[frame].
  change (frame s2 f) with (frame s2 f). rewrite Hf2. cbn.
  match goal with |- context [frame ?s3 f] =>
    change (frame s3 f) with (frame (upd_frame f (mkPage pid buf false 1) s2) f) end.
  rewrite frame_upd by (eexists; exact Hf2). by rewrite decide_True.
Qed.
End eviction.

(** ** Witnesses: a pool of LRU frames over one open data file *)

#[local] Existing Instance LRU.lru_replacer.
#[local] Existing Instance LRU.lru_laws.

Definition demo_data_disk : DiskManager :=
  foldl (λ d op, dm_exec op d) (DiskManager_new demo_kernel)
    [OpCreateFile LOG_FILE_NAME; OpCreateFile "t"; OpOpenFile "t"].
Definition demo_storage (n : nat) (log : option LogManager) : Storage LRU.LRUReplacer :=
  mkStorage demo_data_disk log (BufferPoolManager_new n 0 (LRU.LRUReplacer_new (Z.of_nat n))).

Lemma demo_storage_inv n log : pool_inv (demo_storage n log).
Proof.
  apply BufferPoolManager_new_inv.
  - repeat apply dm_exec_inv. apply DiskManager_new_inv. reflexivity.
  - left. reflexivity.
  - apply LRU.lru_new_inv.
  - reflexivity.
Qed.

Lemma demo_data_fd n log : data_fd (demo_storage n log) 3.
Proof. exists "t"%string. split; [vm_compute; reflexivity|discriminate]. Qed.

(** The state after the calls of [ops]. *)
Definition pool_after (ops : list pool_op) (s : Storage LRU.LRUReplacer) : Storage LRU.LRUReplacer :=
  foldl (λ s op, (pool_exec op s).2) s ops.

Definition one_page : list pool_op := [PNew 3].

Lemma one_page_inv n log :
  (pool_exec (PNew 3) (demo_storage n log)).1 = Ok (RNew (Some (0, 0))) →
  pool_inv (pool_after one_page (demo_storage n log)) ∧ data_fd (pool_after one_page (demo_storage n log)) 3.
Proof.
  intros H. apply (run_outcome _ _ _ _ eq_refl) in H.
  apply pool_exec_step in H as (Hi & _ & Hfd).
  - split; [exact Hi|]. apply Hfd, demo_data_fd.
  - apply demo_storage_inv.
  - split; [apply demo_data_fd|]. reflexivity.
Qed.

Lemma pool_refines_pages_witness :
  let s := demo_storage 2 None in let s' := (pool_exec (PNew 3) s).2 in
  pool_inv s ∧ pool_inv s' ∧ view s' (3, 0) = Some reset_memory ∧ pins s' (3, 0) = 1.
Proof.
  intros s s'. split; [apply demo_storage_inv|].
  destruct (pool_refines_pages (PNew 3) s (RNew (Some (0, 0))) s') as (Hi & (_ & Hv & Hp) & _).
  - apply demo_storage_inv.
  - split; [apply demo_data_fd|reflexivity].
  - apply run_outcome; [reflexivity|vm_compute; reflexivity].
  - split; [exact Hi|]. split; [exact Hv|]. rewrite Hp. reflexivity.
Defined.

Lemma pinned_page_stays_witness :
  let s := pool_after one_page (demo_storage 2 None) in
  let s' := (pool_exec (PNew 3) s).2 in
  0 < pins s (3, 0) ∧ page_table_ (s_bpm s') !! (3, 0) = Some 0.
Proof.
  intros s s'. assert (Hpin : 0 < pins s (3, 0)) by (vm_compute; reflexivity).
  split; [exact Hpin|].
  destruct (one_page_inv 2 None) as [Hi Hfd]; [vm_compute; reflexivity|].
  refine (proj1 (pinned_page_stays (PNew 3) s (RNew (Some (1, 1))) s' (3, 0) 0 Hi _ _ _ Hpin)).
  - split; [exact Hfd|vm_compute; reflexivity].
  - apply run_outcome; [reflexivity|vm_compute; reflexivity].
  - vm_compute. reflexivity.
Defined.

Lemma fetch_fails_only_when_all_pinned_witness :
  let s := pool_after one_page (demo_storage 1 None) in
  (fetch_page (3, 5) s).2 = s ∧ ∃ p, frame s 0 = Some p ∧ 0 < pin_count_ p.
Proof.
  intros s. destruct (one_page_inv 1 None) as [Hi Hfd]; [vm_compute; reflexivity|].
  destruct (fetch_fails_only_when_all_pinned s (3, 5) (fetch_page (3, 5) s).2 Hi) as [H1 H2].
  { apply run_outcome; [reflexivity|vm_compute; reflexivity]. }
  split; [exact H1|]. exists (mkPage (3, 0) reset_memory false 1).
  assert (frame s 0 = Some (mkPage (3, 0) reset_memory false 1)) as H by (vm_compute; reflexivity).
  split; [exact H|]. exact (H2 _ _ H).
Defined.

Lemma flush_all_pages_durable_witness :
  let s := pool_after one_page (demo_storage 2 None) in
  ∃ b, view s (3, 0) = Some b ∧ page_at (s_disk (flush_all_pages 3 s).2) 3 0 = Some b.
Proof.
  intros s. destruct (one_page_inv 2 None) as [Hi Hfd]; [vm_compute; reflexivity|].
  destruct (flush_all_pages_durable s 3 (flush_all_pages 3 s).2 (3, 0) 0) as (b & H1 & _ & H2).
  - exact Hi.
  - apply run_outcome; [reflexivity|vm_compute; reflexivity].
  - reflexivity.
  - vm_compute. reflexivity.
  - exists b. split; [exact H1|exact H2].
Defined.

(** The first record is in the log file; the record of the change to page 0, number 1,
    is in the buffer, and the page, which carries that number, is unpinned dirty. *)
Definition wal_log : LogManager := mkLM 2 (serialize (set_lsn 1 (BeginLogRecord 7))) 1.
Definition wal_page : bytes := default [] (set_page_lsn 1 reset_memory).
Definition wal_storage : Storage LRU.LRUReplacer :=
  pool_after [PNew 3; PWrite (3, 0) wal_page; PUnpin (3, 0) true] (demo_storage 1 (Some wal_log)).

Lemma written_storage_inv data : len data = PAGE_SIZE →
  pool_inv (pool_after [PNew 3; PWrite (3, 0) data; PUnpin (3, 0) true] (demo_storage 1 (Some wal_log))).
Proof.
  intros Hlen. destruct (one_page_inv 1 (Some wal_log)) as [Hi Hfd]; [vm_compute; reflexivity|].
  change (pool_after _ _) with (pool_exec (PUnpin (3, 0) true)
    (pool_exec (PWrite (3, 0) data) (pool_after one_page (demo_storage 1 (Some wal_log)))).2).2.
  set (s1 := pool_after one_page (demo_storage 1 (Some wal_log))) in *.
  assert (H2 : pool_exec (PWrite (3, 0) data) s1 = (Ok RUnit, (pool_exec (PWrite (3, 0) data) s1).2)).
  { apply run_outcome; [reflexivity|vm_compute; reflexivity]. }
  apply pool_exec_step in H2 as (Hi2 & _ & _); [|done|split; [vm_compute; reflexivity|exact Hlen]].
  set (s2 := (pool_exec (PWrite (3, 0) data) s1).2) in *.
  assert (H3 : pool_exec (PUnpin (3, 0) true) s2 = (Ok (RBool true), (pool_exec (PUnpin (3, 0) true) s2).2)).
  { apply run_outcome; [reflexivity|vm_compute; reflexivity]. }
  apply pool_exec_step in H3 as (Hi3 & _ & _); [exact Hi3|done|by left].
Qed.
Lemma wal_storage_inv : pool_inv wal_storage.
Proof. apply (written_storage_inv wal_page). vm_compute. reflexivity. Qed.

(** The page at the lsn 2 instead: the log goes first. *)
Definition later_page : bytes := default [] (set_page_lsn 2 reset_memory).
Definition later_storage : Storage LRU.LRUReplacer :=
  pool_after [PNew 3; PWrite (3, 0) later_page; PUnpin (3, 0) true] (demo_storage 1 (Some wal_log)).

Lemma later_storage_inv : pool_inv later_storage.
Proof. apply (written_storage_inv later_page). vm_compute. reflexivity. Qed.

Lemma update_page_wal_witness :
  let s := later_storage in let s' := (update_page 0 (3, 1) s).2 in
  page_at (s_disk (log_flush s).2) 3 0 = Some reset_memory ∧
  page_at (s_disk s') 3 0 = Some later_page ∧ log_file (s_disk s') = Some (buffer_ wal_log).
Proof.
  intros s s'.
  assert (log_flush s = (Ok tt, (log_flush s).2)) as Hfl by (apply run_outcome; [reflexivity|vm_compute; reflexivity]).
  destruct (update_page_wal s 0 (3, 1) (mkPage (3, 0) later_page true 0) wal_log 2 (Ok tt) s') as (H1 & H2).
  - apply later_storage_inv.
  - vm_compute. reflexivity.
  - reflexivity.
  - vm_compute. reflexivity.
  - vm_compute. reflexivity.
  - apply run_outcome; [reflexivity|vm_compute; reflexivity].
  - destruct (H1 eq_refl _ _ Hfl) as (Hat & _ & Hlog & _ & Hlog').
    split; [refine (eq_trans Hat _); vm_compute; reflexivity|]. split; [apply (proj1 (H2 eq_refl))|].
    rewrite Hlog'. apply (Hlog []). vm_compute. reflexivity.
Defined.

(** A fetch of a page that is not in the file, with the only frame's dirty page as the victim. *)
Lemma failed_fetch_leaves_page_mapped_witness :
  let s := wal_storage in let s' := (fetch_page (3, 7) s).2 in
  page_table_ (s_bpm s') !! (3, 7) = Some 0 ∧ ∃ s2, fetch_page (3, 7) s' = (Ok (Some 0), s2).
Proof.
  intros s s'.
  set (r0 := find_victim_page s). set (r1 := update_page 0 (3, 7) r0.2). set (r2 := read_into 0 3 7 r1.2).
  assert (r0.1 = Ok (Some 0)) as E0 by (vm_compute; reflexivity).
  assert (r1.1 = Ok tt) as E1 by (vm_compute; reflexivity).
  assert (r2.1 = Throw (InternalError "DiskManager::read_page Error")) as E2 by (vm_compute; reflexivity).
  destruct (failed_fetch_leaves_page_mapped s (3, 7) 0 r0.2 r1.2 (InternalError "DiskManager::read_page Error") r2.2)
    as (H0 & H1 & _ & _ & s3 & H2 & _).
  - apply wal_storage_inv.
  - vm_compute. reflexivity.
  - exact (run_outcome find_victim_page s _ _ eq_refl E0).
  - exact (run_outcome (update_page 0 (3, 7)) r0.2 _ _ eq_refl E1).
  - exact (run_outcome (read_into 0 3 7) r1.2 _ _ eq_refl E2).
  - assert (∀ o x, fetch_page (3, 7) s = (o, x) → s' = x) as Hs' by (intros o x Hx; unfold s'; by rewrite Hx).
    rewrite (Hs' _ _ H0). split; [exact H1|]. exists s3. exact H2.
Defined.
