(* ===== verification/Record.v ===== *)
(** * Record files (src/src/record/rm_defs.h, rm_file_handle.h, rm_file_handle.cpp
    and rm_manager.h)

    A table's data file is a header page and pages of fixed-size records.  The
    functions work on the bytes of the pages, in the frames of the buffer pool:
    the page's lsn at 0, its [RmPageHdr] at 4, the bitmap at 12, the slots behind
    it.  [RmFileHandle] is the descriptor [fd_] (an argument) and the mutable
    [file_hdr_] (part of the state).  A context is the request for the record lock
    that the lock manager serves (Lock.v); a context also makes the operations
    stamp the page with the log manager's next lsn. *)
From S2P Require Import Prelude Bytes Bitmap Disk Log Replacer BufferPool.

Definition RM_NO_PAGE : Z := -1.
Definition RM_FILE_HDR_PAGE : Z := 0.
Definition RM_FIRST_RECORD_PAGE : Z := 1.
Definition RM_MAX_RECORD_SIZE : Z := 512.

Record RmFileHdr := mkFileHdr {
  record_size : Z;
  num_pages : Z;
  num_records_per_page : Z;
  first_free_page_no : Z;
  bitmap_size : Z;
}.

Definition file_hdr_bytes (h : RmFileHdr) : bytes :=
  i32 (record_size h) ++ i32 (num_pages h) ++ i32 (num_records_per_page h)
  ++ i32 (first_free_page_no h) ++ i32 (bitmap_size h).
Definition file_hdr_of (b : bytes) : option RmFileHdr :=
  rs ← rd_i32 b 0; np ← rd_i32 b 4; nr ← rd_i32 b 8; ff ← rd_i32 b 12; bs ← rd_i32 b 16;
  Some (mkFileHdr rs np nr ff bs).
Definition sizeof_RmFileHdr : Z := 20.

Definition set_first_free (p : Z) (h : RmFileHdr) : RmFileHdr :=
  mkFileHdr (record_size h) (num_pages h) (num_records_per_page h) p (bitmap_size h).
Definition set_num_pages (n : Z) (h : RmFileHdr) : RmFileHdr :=
  mkFileHdr (record_size h) n (num_records_per_page h) (first_free_page_no h) (bitmap_size h).

(** ** The page layout (RmPageHdr, RmPageHandle) *)

Definition OFFSET_PAGE_HDR : Z := 4.
Definition OFFSET_NEXT_FREE : Z := OFFSET_PAGE_HDR.
Definition OFFSET_NUM_RECORDS : Z := OFFSET_PAGE_HDR + 4.
Definition OFFSET_BITMAP : Z := 8 + OFFSET_PAGE_HDR.
Definition slots (h : RmFileHdr) : Z := OFFSET_BITMAP + bitmap_size h.
Definition get_slot (h : RmFileHdr) (slot_no : Z) : Z := slots h + slot_no * record_size h.

(** [memcpy(slot_head, buf, record_size)] *)
Definition copy_to_slot (h : RmFileHdr) (slot_no : Z) (buf d : bytes) : option bytes :=
  b ← rd buf 0 (record_size h); wr d (get_slot h slot_no) b.
Definition add_num_records (k : Z) (d : bytes) : option bytes :=
  n ← rd_i32 d OFFSET_NUM_RECORDS; wr d OFFSET_NUM_RECORDS (i32 (wrap32 (n + k))).

Section handle.
Context {R : Type} `{Replacer R}.
Abbreviation St := (RmFileHdr * Storage R)%type.

Definition sto {A} (m : M (Storage R) A) : M St A := zoom snd (λ s t, (t.1, s)) m.

(** Reads and writes of the page in frame [f]. *)
Definition load {A} (f : Z) (g : bytes → option A) : M (Storage R) A :=
  let! p := get_frame f in of_option (g (data_ p)).
Definition store (f : Z) (g : bytes → option bytes) : M (Storage R) unit :=
  let! p := get_frame f in
  let! d := of_option (g (data_ p)) in
  write_frame f d.

(** A page the pool cannot give is a null [Page*], which the [RmPageHandle]
    constructor dereferences. *)
Definition fetch_page_handle (fd page_no : Z) : M (Storage R) Z :=
  let! o := fetch_page (fd, page_no) in of_option o.

Definition write_file_hdr (fd : Z) : M St unit :=
  let! h := gets fst in
  sto (disk_call (write_page fd RM_FILE_HDR_PAGE (file_hdr_bytes h))).

Definition set_hdr (g : RmFileHdr → RmFileHdr) : M St unit := modify (λ t, (g t.1, t.2)).

(** The page's number, from its id. *)
Definition frame_page_no (f : Z) : M (Storage R) Z := let! p := get_frame f in ret (id_ p).2.

Definition create_new_page_handle (fd : Z) : M St Z :=
  let! o := sto (new_page fd) in
  let! new := of_option o in
  let '(f, page_no) := new in
  let! h := gets fst in
  do! sto (store f (λ d,
        d ← wr d OFFSET_NUM_RECORDS (i32 0);
        d ← wr d OFFSET_NEXT_FREE (i32 RM_NO_PAGE);
        Bitmap.init d OFFSET_BITMAP (bitmap_size h))) in
  do! set_hdr (set_first_free page_no) in
  do! set_hdr (λ h, set_num_pages (num_pages h + 1) h) in
  do! write_file_hdr fd in
  ret f.

Definition create_page_handle (fd : Z) : M St Z :=
  let! h := gets fst in
  if negb (first_free_page_no h =? -1) then sto (fetch_page_handle fd (first_free_page_no h))
  else create_new_page_handle fd.

Definition release_page_handle (fd f : Z) : M St unit :=
  let! h := gets fst in
  let! page_no := sto (frame_page_no f) in
  if page_no =? first_free_page_no h then ret tt else
  do! sto (store f (λ d, wr d OFFSET_NEXT_FREE (i32 (first_free_page_no h)))) in
  do! set_hdr (set_first_free page_no) in
  write_file_hdr fd.

(** [page->set_page_lsn(context->log_mgr_->get_lsn())] when there is a context *)
Definition stamp_page (context : bool) (f : Z) : M (Storage R) unit :=
  if context then
    let! l := gets s_log in
    let! lm := of_option l in
    store f (set_page_lsn (global_lsn_ lm))
  else ret tt.

Definition unpin_ (fd page_no : Z) (is_dirty : bool) : M (Storage R) unit :=
  do! unpin_page (fd, page_no) is_dirty in ret tt.

(** ** Operations *)

Definition is_record (fd : Z) (rid : Rid) : M St bool :=
  let! f := sto (fetch_page_handle fd (page_no rid)) in
  sto (load f (λ d, Bitmap.is_set d OFFSET_BITMAP (slot_no rid))).

(** [lock] is [lock_shared_on_record] of the context's lock manager, [None] for a
    null context.  The record is copied out of the frame after the unpin. *)
Definition get_record (fd : Z) (rid : Rid) (lock : option (M St unit)) : M St bytes :=
  do! default (ret tt) lock in
  let! f := sto (fetch_page_handle fd (page_no rid)) in
  let! h := gets fst in
  let! no := sto (frame_page_no f) in
  do! sto (unpin_ fd no true) in
  sto (load f (λ d, rd d (get_slot h (slot_no rid)) (record_size h))).

(** The page became full: it leaves the list of pages with free space. *)
Definition unlink_full_page (fd f : Z) : M St unit :=
  let! next := sto (load f (λ d, rd_i32 d OFFSET_NEXT_FREE)) in
  do! set_hdr (set_first_free next) in
  do! sto (store f (λ d, wr d OFFSET_NEXT_FREE (i32 RM_NO_PAGE))) in
  write_file_hdr fd.

Definition insert_record (fd : Z) (buf : bytes) (context : bool) : M St Rid :=
  let! f := create_page_handle fd in
  let! h := gets fst in
  let! offset := sto (load f (λ d, Bitmap.first_bit false d OFFSET_BITMAP (num_records_per_page h))) in
  do! sto (store f (λ d,
        d ← copy_to_slot h offset buf d;
        d ← Bitmap.set d OFFSET_BITMAP offset;
        add_num_records 1 d)) in
  let! n := sto (load f (λ d, rd_i32 d OFFSET_NUM_RECORDS)) in
  do! (if n >=? num_records_per_page h then unlink_full_page fd f else ret tt) in
  do! sto (stamp_page context f) in
  let! no := sto (frame_page_no f) in
  do! sto (unpin_ fd no true) in
  ret (mkRid no offset).

(** [insert_record(rid, buf)]: at a given place, for rollbacks *)
Definition insert_record_at (fd : Z) (rid : Rid) (buf : bytes) : M St unit :=
  let! f := sto (fetch_page_handle fd (page_no rid)) in
  let! h := gets fst in
  do! sto (store f (λ d,
        d ← Bitmap.set d OFFSET_BITMAP (slot_no rid);
        copy_to_slot h (slot_no rid) buf d)) in
  let! no := sto (frame_page_no f) in
  sto (unpin_ fd no true).

Definition delete_record (fd : Z) (rid : Rid) (context : bool) : M St unit :=
  let! f := sto (fetch_page_handle fd (page_no rid)) in
  let! h := gets fst in
  do! sto (store f (λ d,
        d ← Bitmap.reset d OFFSET_BITMAP (slot_no rid);
        add_num_records (-1) d)) in
  let! n := sto (load f (λ d, rd_i32 d OFFSET_NUM_RECORDS)) in
  do! (if n =? num_records_per_page h - 1 then release_page_handle fd f else ret tt) in
  let! no := sto (frame_page_no f) in
  do! sto (stamp_page context f) in
  sto (unpin_ fd no true).

Definition update_record (fd : Z) (rid : Rid) (buf : bytes) (context : bool) : M St unit :=
  let! f := sto (fetch_page_handle fd (page_no rid)) in
  let! h := gets fst in
  do! sto (store f (copy_to_slot h (slot_no rid) buf)) in
  let! no := sto (frame_page_no f) in
  do! sto (stamp_page context f) in
  sto (unpin_ fd no true).

(** ** Recovery *)

Definition restore_hdr (row : RowLog) : M St unit :=
  do! set_hdr (set_first_free (first_free_page_no_ row)) in
  set_hdr (set_num_pages (num_pages_ row)).

Definition insert_redo (fd lsn : Z) (row : RowLog) : M St unit :=
  do! restore_hdr row in
  let rid := rid_ row in
  let! f := sto (fetch_page_handle fd (page_no rid)) in
  let! h := gets fst in
  do! sto (store f (λ d,
        d ← Bitmap.set d OFFSET_BITMAP (slot_no rid);
        d ← copy_to_slot h (slot_no rid) (value_ row) d;
        add_num_records 1 d)) in
  let! n := sto (load f (λ d, rd_i32 d OFFSET_NUM_RECORDS)) in
  do! (if n >=? num_records_per_page h then unlink_full_page fd f else ret tt) in
  do! sto (store f (set_page_lsn lsn)) in
  let! p := sto (get_frame f) in
  do! sto (unpin_page (id_ p) true) in ret tt.

(** [value_ row] is the new value of an update record. *)
Definition update_redo (fd lsn : Z) (row : RowLog) : M St unit :=
  do! restore_hdr row in
  let rid := rid_ row in
  let! f := sto (fetch_page_handle fd (page_no rid)) in
  let! h := gets fst in
  do! sto (store f (copy_to_slot h (slot_no rid) (value_ row))) in
  do! sto (store f (set_page_lsn lsn)) in
  sto (unpin_ fd (page_no rid) true).

Definition delete_redo (fd lsn : Z) (row : RowLog) : M St unit :=
  do! restore_hdr row in
  let rid := rid_ row in
  let! f := sto (fetch_page_handle fd (page_no rid)) in
  let! h := gets fst in
  do! sto (store f (λ d,
        d ← Bitmap.reset d OFFSET_BITMAP (slot_no rid);
        add_num_records (-1) d)) in
  let! n := sto (load f (λ d, rd_i32 d OFFSET_NUM_RECORDS)) in
  do! (if n =? num_records_per_page h - 1 then release_page_handle fd f else ret tt) in
  do! sto (store f (set_page_lsn lsn)) in
  sto (unpin_ fd (page_no rid) true).

Definition insert_undo (fd : Z) (rid : Rid) : M St unit := delete_record fd rid false.
Definition delete_undo (fd : Z) (rid : Rid) (buf : bytes) : M St unit := insert_record_at fd rid buf.
Definition update_undo (fd : Z) (rid : Rid) (buf : bytes) : M St unit :=
  let! f := sto (fetch_page_handle fd (page_no rid)) in
  let! h := gets fst in
  do! sto (store f (copy_to_slot h (slot_no rid) buf)) in
  sto (unpin_ fd (page_no rid) true).

(** ** RmManager *)

(** The header of a new file: a page holds [sizeof(hdr) + (n + 7) / 8 + n * record_size]
    bytes for [n] records. *)
Definition created_hdr (rec_size : Z) : RmFileHdr :=
  let n := Z.quot (Bitmap.BITMAP_WIDTH * (PAGE_SIZE - 1 - sizeof_RmFileHdr) + 1) (1 + rec_size * Bitmap.BITMAP_WIDTH) in
  mkFileHdr rec_size 1 n RM_NO_PAGE (Z.quot (n + Bitmap.BITMAP_WIDTH - 1) Bitmap.BITMAP_WIDTH).

Definition rm_create_file (filename : string) (rec_size : Z) : M (Storage R) unit :=
  if (rec_size <? 1) || (rec_size >? RM_MAX_RECORD_SIZE)
  then throw (InvalidRecordSizeError rec_size) else
  do! disk_call (create_file filename) in
  let! fd := disk_call (open_file filename) in
  do! disk_call (write_page fd RM_FILE_HDR_PAGE (file_hdr_bytes (created_hdr rec_size))) in
  disk_call (close_file fd).

Definition rm_destroy_file (filename : string) : M (Storage R) unit :=
  disk_call (destroy_file filename).

(** The [RmFileHandle] constructor: the header read into [file_hdr_]. *)
Definition RmFileHandle_new (fd : Z) : M (Storage R) RmFileHdr := λ s,
  let '(o, (buf, d)) :=
    (read_page fd RM_FILE_HDR_PAGE sizeof_RmFileHdr) (replicate 20 0, s_disk s) in
  (do! (λ s, (o, s)) in
   let! h := of_option (file_hdr_of buf) in
   do! disk_call (set_fd2pageno fd (num_pages h)) in
   ret h) (set_disk d s).

Definition rm_open_file (filename : string) : M (Storage R) (Z * RmFileHdr) :=
  let! fd := disk_call (open_file filename) in
  let! h := RmFileHandle_new fd in
  ret (fd, h).

Definition rm_close_file (fd : Z) (h : RmFileHdr) : M (Storage R) unit :=
  do! disk_call (write_page fd RM_FILE_HDR_PAGE (file_hdr_bytes h)) in
  do! flush_all_pages fd in
  disk_call (close_file fd).

End handle.

(** ** The layout fits the page *)

Definition records_per_page (rs : Z) : Z :=
  Z.quot (Bitmap.BITMAP_WIDTH * (PAGE_SIZE - 1 - sizeof_RmFileHdr) + 1) (1 + rs * Bitmap.BITMAP_WIDTH).

(** The headers [rm_create_file] writes. *)
Record hdr_ok (h : RmFileHdr) : Prop := {
  ho_size : 1 ≤ record_size h ≤ RM_MAX_RECORD_SIZE;
  ho_n : num_records_per_page h = records_per_page (record_size h);
  ho_bitmap : bitmap_size h
    = Z.quot (num_records_per_page h + Bitmap.BITMAP_WIDTH - 1) Bitmap.BITMAP_WIDTH;
}.

Lemma records_per_page_div rs : 1 ≤ rs → records_per_page rs = 32601 / (1 + rs * 8).
Proof. intros. unfold records_per_page. rewrite Z.quot_div_nonneg; [done|done|unfold Bitmap.BITMAP_WIDTH; lia]. Qed.

Lemma hdr_ok_bounds h : hdr_ok h →
  1 ≤ num_records_per_page h ≤ 3622 ∧ bitmap_size h = (num_records_per_page h + 7) / 8 ∧
  slots h + num_records_per_page h * record_size h ≤ PAGE_SIZE.
Proof.
  intros [Hs Hn Hb]. rewrite records_per_page_div in Hn by lia.
  unfold RM_MAX_RECORD_SIZE in Hs. set (n := num_records_per_page h) in *. set (rs := record_size h) in *.
  assert (Hdiv : n * (1 + rs * 8) ≤ 32601 < (n + 1) * (1 + rs * 8)).
  { rewrite Hn. pose proof (Z.div_mod 32601 (1 + rs * 8)). pose proof (Z.mod_pos_bound 32601 (1 + rs * 8)). lia. }
  assert (1 ≤ n) by nia. assert (Hb' : bitmap_size h = (n + 7) / 8).
  { rewrite Hb. unfold Bitmap.BITMAP_WIDTH. rewrite Z.quot_div_nonneg by lia. f_equal. lia. }
  split_and!; [lia|nia|done|]. unfold slots, OFFSET_BITMAP, OFFSET_PAGE_HDR. rewrite Hb'.
  pose proof (Z.mul_div_le (n + 7) 8). unfold PAGE_SIZE. lia.
Qed.

Lemma get_slot_range h i : hdr_ok h → 0 ≤ i < num_records_per_page h →
  slots h ≤ get_slot h i ∧ get_slot h i + record_size h ≤ PAGE_SIZE.
Proof.
  intros Hh Hi. pose proof (hdr_ok_bounds h Hh) as (? & _ & ?). destruct Hh as [? _ _].
  unfold get_slot. nia.
Qed.

Lemma get_slot_disjoint h i j : hdr_ok h → i ≠ j →
  get_slot h i + record_size h ≤ get_slot h j ∨ get_slot h j + record_size h ≤ get_slot h i.
Proof. intros [? _ _] Hij. unfold get_slot. nia. Qed.

(** ** The rows of a page *)

Section page.
Context (h : RmFileHdr) (Hh : hdr_ok h).
Abbreviation n := (num_records_per_page h).

Definition occ (d : bytes) : gset Z := Bitmap.occupied d OFFSET_BITMAP n.
Definition row (d : bytes) (i : Z) : option bytes :=
  if decide (i ∈ occ d) then rd d (get_slot h i) (record_size h) else None.
Definition next_free (d : bytes) : option Z := rd_i32 d OFFSET_NEXT_FREE.
Definition num_records (d : bytes) : option Z := rd_i32 d OFFSET_NUM_RECORDS.

(** A page of the right size whose count is that of its bitmap. *)
Definition page_ok (d : bytes) : Prop :=
  len d = PAGE_SIZE ∧ num_records d = Some (Z.of_nat (size (occ d))).

Lemma slots_end : slots h = OFFSET_BITMAP + (n + 7) / 8.
Proof. pose proof (hdr_ok_bounds h Hh) as (_ & Hb & _). unfold slots. by rewrite Hb. Qed.

Lemma occ_range d i : i ∈ occ d → 0 ≤ i < n.
Proof. unfold occ. rewrite Bitmap.elem_of_occupied. tauto. Qed.

(** A write outside of the bitmap and the slots changes no row. *)
Lemma row_wr_header d off bs d' :
  wr d off bs = Some d' → off + len bs ≤ OFFSET_BITMAP → occ d' = occ d ∧ ∀ i, row d' i = row d i.
Proof.
  intros Hw Hoff. assert (Ho : occ d' = occ d).
  { unfold occ. eapply Bitmap.occupied_wr_disjoint; [done|lia]. }
  split; [done|]. intros i. unfold row. rewrite Ho. case_decide as Hi; [|done].
  apply occ_range in Hi. eapply rd_wr_disjoint; [done|]. right.
  pose proof (get_slot_range h i Hh Hi). rewrite slots_end in *.
  pose proof (Z.div_pos (n + 7) 8). lia.
Qed.

(** Filling a slot. *)
Lemma copy_to_slot_spec d i buf d' :
  len d = PAGE_SIZE → 0 ≤ i < n → copy_to_slot h i buf d = Some d' →
  len d' = PAGE_SIZE ∧ occ d' = occ d ∧ next_free d' = next_free d ∧ num_records d' = num_records d ∧
  rd d' (get_slot h i) (record_size h) = rd buf 0 (record_size h) ∧
  ∀ j, j ≠ i → rd d' (get_slot h j) (record_size h) = rd d (get_slot h j) (record_size h).
Proof.
  intros Hl Hi H. unfold copy_to_slot in H. destruct (rd buf 0 (record_size h)) as [b|] eqn:Hb; [|done].
  simpl in H. pose proof (rd_length _ _ _ _ Hb) as Hbl.
  pose proof (get_slot_range h i Hh Hi) as [Hs _]. rewrite slots_end in Hs.
  pose proof (hdr_ok_bounds h Hh) as (? & _). pose proof (Z.div_pos (n + 7) 8).
  unfold OFFSET_BITMAP, OFFSET_PAGE_HDR in Hs.
  split_and!.
  - apply wr_length in H. lia.
  - unfold occ. eapply Bitmap.occupied_wr_disjoint; [done|]. left. unfold OFFSET_BITMAP, OFFSET_PAGE_HDR. lia.
  - eapply rd_i32_disjoint; [done|]. left. unfold OFFSET_NEXT_FREE, OFFSET_PAGE_HDR. lia.
  - eapply rd_i32_disjoint; [done|]. left. unfold OFFSET_NUM_RECORDS, OFFSET_PAGE_HDR. lia.
  - by eapply rd_wr_same.
  - intros j Hj. eapply rd_wr_disjoint; [done|]. rewrite Hbl. by apply get_slot_disjoint.
Qed.

Lemma copy_to_slot_is_Some d i buf :
  len d = PAGE_SIZE → 0 ≤ i < n → record_size h ≤ len buf → is_Some (copy_to_slot h i buf d).
Proof.
  intros Hl Hi Hb. unfold copy_to_slot. pose proof (ho_size _ Hh).
  destruct (rd_is_Some buf 0 (record_size h)) as [b Hrd]; [lia..|]. rewrite Hrd. simpl.
  apply rd_length in Hrd. pose proof (get_slot_range h i Hh Hi) as [Hs ?].
  rewrite slots_end in Hs. pose proof (hdr_ok_bounds h Hh) as (? & _). pose proof (Z.div_pos (n + 7) 8).
  unfold OFFSET_BITMAP, OFFSET_PAGE_HDR in Hs. apply wr_is_Some; lia.
Qed.

(** Counting. *)
Lemma add_num_records_spec k d d' c :
  add_num_records k d = Some d' → num_records d = Some c → i32_ok (c + k) = true →
  len d' = len d ∧ occ d' = occ d ∧ (∀ i, row d' i = row d i) ∧ next_free d' = next_free d ∧
  num_records d' = Some (c + k).
Proof.
  unfold add_num_records. intros H Hc Hk. unfold num_records in Hc. rewrite Hc in H. simpl in H.
  rewrite wrap32_id in H by done.
  destruct (row_wr_header _ _ _ _ H) as [Ho Hr]; [done|].
  split_and!; [by apply wr_length in H; lia|done|done| |by eapply rd_i32_wr].
  eapply rd_i32_disjoint; [done|]. left. done.
Qed.

Lemma add_num_records_is_Some k d : len d = PAGE_SIZE → is_Some (add_num_records k d).
Proof.
  intros Hl. unfold add_num_records.
  destruct (rd_i32_is_Some d OFFSET_NUM_RECORDS) as [c ->]; [done|rewrite Hl; done|]. simpl.
  apply wr_is_Some; [done|rewrite Hl; done].
Qed.

(** Setting and clearing a bit. *)
Lemma bit_write_spec d i b d' :
  wr d (OFFSET_BITMAP + i / 8) [b] = Some d' → 0 ≤ i < n →
  len d' = len d ∧ next_free d' = next_free d ∧ num_records d' = num_records d ∧
  ∀ j, 0 ≤ j < n → rd d' (get_slot h j) (record_size h) = rd d (get_slot h j) (record_size h).
Proof.
  intros H Hi. pose proof (Z.div_pos i 8).
  split_and!.
  - apply wr_length in H. lia.
  - eapply rd_i32_disjoint; [done|]. left. unfold OFFSET_NEXT_FREE, OFFSET_BITMAP, OFFSET_PAGE_HDR. lia.
  - eapply rd_i32_disjoint; [done|]. left. unfold OFFSET_NUM_RECORDS, OFFSET_BITMAP, OFFSET_PAGE_HDR. lia.
  - intros j Hj. eapply rd_wr_disjoint; [done|]. right. pose proof (get_slot_range h j Hh Hj) as [Hs _].
    rewrite slots_end in Hs. simpl. pose proof (Z.div_lt_upper_bound i 8 ((n + 7) / 8)).
    pose proof (Z.div_mod (n + 7) 8). pose proof (Z.mod_pos_bound (n + 7) 8). lia.
Qed.

Lemma size_occ_bounds d : 0 ≤ Z.of_nat (size (occ d)) ≤ n.
Proof.
  pose proof (hdr_ok_bounds h Hh) as (? & _). split; [lia|]. apply Bitmap.occupied_size. lia.
Qed.

Lemma count_ok c k : 0 ≤ c ≤ n → -1 ≤ k ≤ 1 → i32_ok (c + k) = true.
Proof. pose proof (hdr_ok_bounds h Hh) as (? & _). intros. apply i32_ok_range. lia. Qed.

(** What an operation makes of a page: its rows and its count, with the link kept. *)
Record page_step (d d' : bytes) (rows : Z → option bytes) : Prop := {
  ps_ok : page_ok d';
  ps_row i : row d' i = rows i;
  ps_next : next_free d' = next_free d;
}.

Lemma page_insert_spec d i buf d' :
  page_ok d → 0 ≤ i < n → i ∉ occ d →
  (d1 ← copy_to_slot h i buf d; d2 ← Bitmap.set d1 OFFSET_BITMAP i; add_num_records 1 d2) = Some d' →
  page_step d d' (λ j, if decide (j = i) then rd buf 0 (record_size h) else row d j) ∧
  occ d' = {[i]} ∪ occ d.
Proof.
  intros [Hl Hc] Hi Hnot H.
  destruct (copy_to_slot h i buf d) as [d1|] eqn:H1; [|done]. simpl in H.
  destruct (Bitmap.set d1 OFFSET_BITMAP i) as [d2|] eqn:H2; [|done]. simpl in H.
  apply copy_to_slot_spec in H1 as (L1 & O1 & F1 & N1 & Rn & Ro); [|done|done].
  assert (O2 : occ d2 = {[i]} ∪ occ d) by (rewrite <- O1; by eapply Bitmap.occupied_set).
  apply Bitmap.set_wr in H2 as [b Hb]; [|lia].
  apply bit_write_spec in Hb as (L2 & F2 & N2 & R2); [|done].
  apply (add_num_records_spec 1 d2 d' (Z.of_nat (size (occ d)))) in H as (L3 & O3 & R3 & F3 & N3);
    [|congruence|apply count_ok; [apply size_occ_bounds|lia]].
  split; [|congruence]. split.
  - split; [congruence|]. rewrite N3, O3, O2. rewrite size_union, size_singleton by set_solver.
    f_equal. lia.
  - intros j. rewrite R3. unfold row. rewrite O2. destruct (decide (j = i)) as [->|Hj].
    + rewrite decide_True by set_solver. by rewrite R2.
    + destruct (decide (j ∈ occ d)) as [Hin|].
      * rewrite decide_True by set_solver. rewrite R2; [by apply Ro|]. by apply occ_range in Hin.
      * by rewrite decide_False by set_solver.
  - congruence.
Qed.

Lemma page_insert_is_Some d i buf :
  len d = PAGE_SIZE → 0 ≤ i < n → record_size h ≤ len buf →
  is_Some (d1 ← copy_to_slot h i buf d; d2 ← Bitmap.set d1 OFFSET_BITMAP i; add_num_records 1 d2).
Proof.
  intros Hl Hi Hb. destruct (copy_to_slot_is_Some d i buf Hl Hi Hb) as [d1 H1]. rewrite H1. simpl.
  apply copy_to_slot_spec in H1 as (L1 & _); [|done|done].
  pose proof (get_slot_range h i Hh Hi) as [Hs ?]. rewrite slots_end in Hs.
  pose proof (ho_size _ Hh).
  destruct (Bitmap.set_is_Some d1 OFFSET_BITMAP i) as [d2 H2]; [done|lia| |].
  { rewrite L1. pose proof (Z.div_lt_upper_bound i 8 ((n + 7) / 8)).
    pose proof (Z.div_mod (n + 7) 8). pose proof (Z.mod_pos_bound (n + 7) 8). lia. }
  rewrite H2. simpl. apply add_num_records_is_Some.
  apply Bitmap.set_wr in H2 as [b Hw]; [|lia]. apply wr_length in Hw. congruence.
Qed.

Lemma page_delete_spec d i d' :
  page_ok d → i ∈ occ d →
  (d1 ← Bitmap.reset d OFFSET_BITMAP i; add_num_records (-1) d1) = Some d' →
  page_step d d' (λ j, if decide (j = i) then None else row d j) ∧ occ d' = occ d ∖ {[i]}.
Proof.
  intros [Hl Hc] Hin H. pose proof (occ_range _ _ Hin) as Hi.
  destruct (Bitmap.reset d OFFSET_BITMAP i) as [d2|] eqn:H2; [|done]. simpl in H.
  assert (O2 : occ d2 = occ d ∖ {[i]}) by (by eapply Bitmap.occupied_reset).
  apply Bitmap.reset_wr in H2 as [b Hb]; [|lia].
  apply bit_write_spec in Hb as (L2 & F2 & N2 & R2); [|done].
  apply (add_num_records_spec (-1) d2 d' (Z.of_nat (size (occ d)))) in H as (L3 & O3 & R3 & F3 & N3);
    [|congruence|apply count_ok; [apply size_occ_bounds|lia]].
  split; [|congruence]. split.
  - split; [congruence|]. rewrite N3, O3, O2. rewrite size_difference, size_singleton by set_solver.
    assert (size (occ d) ≠ 0%nat) by (apply size_non_empty_iff; set_solver). f_equal. lia.
  - intros j. rewrite R3. unfold row. rewrite O2. destruct (decide (j = i)) as [->|Hj].
    + by rewrite decide_False by set_solver.
    + destruct (decide (j ∈ occ d)) as [Hj2|].
      * rewrite decide_True by set_solver. rewrite R2; [done|]. by apply occ_range in Hj2.
      * by rewrite decide_False by set_solver.
  - congruence.
Qed.

Lemma page_update_spec d i buf d' :
  page_ok d → i ∈ occ d → copy_to_slot h i buf d = Some d' →
  page_step d d' (λ j, if decide (j = i) then rd buf 0 (record_size h) else row d j) ∧ occ d' = occ d.
Proof.
  intros [Hl Hc] Hin H. pose proof (occ_range _ _ Hin) as Hi.
  apply copy_to_slot_spec in H as (L1 & O1 & F1 & N1 & Rn & Ro); [|done|done].
  split; [|done]. split.
  - split; [done|]. congruence.
  - intros j. unfold row. rewrite O1. destruct (decide (j = i)) as [->|Hj].
    + by rewrite decide_True.
    + case_decide; [|done]. by apply Ro.
  - done.
Qed.

(** The lsn and the link are written in front of the count. *)
Lemma page_stamp_spec d l d' :
  page_ok d → set_page_lsn l d = Some d' → page_step d d' (row d) ∧ occ d' = occ d.
Proof.
  intros [Hl Hc] H. unfold set_page_lsn in H. destruct (row_wr_header _ _ _ _ H) as [Ho Hr]; [done|].
  split; [|done]. split; [|done|].
  - split; [by apply wr_length in H; lia|]. rewrite Ho. rewrite <- Hc.
    eapply rd_i32_disjoint; [done|]. by right.
  - eapply rd_i32_disjoint; [done|]. by right.
Qed.

Lemma page_link_spec d p d' :
  page_ok d → i32_ok p = true → wr d OFFSET_NEXT_FREE (i32 p) = Some d' →
  page_ok d' ∧ (∀ i, row d' i = row d i) ∧ occ d' = occ d ∧ next_free d' = Some p.
Proof.
  intros [Hl Hc] Hp H. destruct (row_wr_header _ _ _ _ H) as [Ho Hr]; [done|].
  split_and!; [|done|done|by eapply rd_i32_wr].
  split; [by apply wr_length in H; lia|]. rewrite Ho. rewrite <- Hc.
  eapply rd_i32_disjoint; [done|]. by right.
Qed.

Lemma page_init_spec d d' :
  len d = PAGE_SIZE →
  (d1 ← wr d OFFSET_NUM_RECORDS (i32 0); d2 ← wr d1 OFFSET_NEXT_FREE (i32 RM_NO_PAGE);
   Bitmap.init d2 OFFSET_BITMAP (bitmap_size h)) = Some d' →
  page_ok d' ∧ occ d' = ∅ ∧ next_free d' = Some RM_NO_PAGE.
Proof.
  intros Hl H. destruct (wr d OFFSET_NUM_RECORDS (i32 0)) as [d1|] eqn:H1; [|done]. simpl in H.
  destruct (wr d1 OFFSET_NEXT_FREE (i32 RM_NO_PAGE)) as [d2|] eqn:H2; [|done]. simpl in H.
  pose proof (hdr_ok_bounds h Hh) as (_ & Hb & _).
  assert (Ho : occ d' = ∅) by (eapply Bitmap.occupied_init; [done|lia]).
  assert (N1 : rd_i32 d1 OFFSET_NUM_RECORDS = Some 0) by (by eapply rd_i32_wr).
  assert (F2 : rd_i32 d2 OFFSET_NEXT_FREE = Some RM_NO_PAGE) by (by eapply rd_i32_wr).
  assert (N2 : rd_i32 d2 OFFSET_NUM_RECORDS = Some 0).
  { rewrite <- N1. eapply rd_i32_disjoint; [done|]. by right. }
  unfold Bitmap.init in H.
  assert (Hd : ∀ off, off + 4 ≤ OFFSET_BITMAP → rd_i32 d' off = rd_i32 d2 off).
  { intros off Hoff. eapply rd_i32_disjoint; [done|]. by left. }
  split_and!; [|done|unfold next_free; by rewrite Hd].
  split; [apply wr_length in H1, H2, H; lia|]. unfold num_records. rewrite Hd by done.
  by rewrite Ho, size_empty.
Qed.

(** The search for a free slot. *)
Lemma first_free_slot d r :
  page_ok d → Z.of_nat (size (occ d)) < n →
  Bitmap.first_bit false d OFFSET_BITMAP n = Some r → 0 ≤ r < n ∧ r ∉ occ d.
Proof.
  intros Hok Hs Hr. unfold Bitmap.first_bit in Hr. pose proof (hdr_ok_bounds h Hh) as (? & _).
  apply Bitmap.next_bit_run in Hr as (Hrange & Hbefore & Hat); [|lia].
  destruct (Bitmap.occupied_free d OFFSET_BITMAP n Hs) as (p & Hp & Hpn).
  assert (Hnot : r ≠ n).
  { intros ->. destruct Hpn. apply Bitmap.elem_of_occupied. split; [done|]. by apply Hbefore; lia. }
  split; [lia|]. unfold occ. rewrite Bitmap.elem_of_occupied. intros [_ Hset].
  rewrite Hat in Hset by lia. done.
Qed.
End page.

(** ** Working on a pinned page *)

(** Takes the next call, on the storage, of a run of an operation. *)
Tactic Notation "sto_step" hyp(H) ident(s1) ident(Hx) :=
  apply bind_Ok in H as (? & ? & (s1 & Hx & ->)%zoom_Ok & H); simpl in Hx, H.
Ltac get_hdr H := apply bind_Ok in H as (? & ? & [-> ->]%gets_Ok & H); simpl in H.

Section file.
Context {R : Type} `{!Replacer R, !ReplacerLaws R}.
Implicit Types (s : Storage R) (pid : PageId) (f : Z) (d : bytes).
Abbreviation St := (RmFileHdr * Storage R)%type.
Abbreviation table s := (page_table_ (s_bpm s)).

(** [s] is [s0] with the page [pid], pinned in frame [f], holding [d]; the header page
    of the file, which is written around the pool, may differ too. *)
Record editing s0 pid f d s : Prop := {
  ed_inv : pool_inv s;
  ed_table : table s !! pid = Some f;
  ed_view : view s pid = Some d;
  ed_other q b : q ≠ pid → q ≠ (pid.1, RM_FILE_HDR_PAGE) → data_fd s0 q.1 →
    view s0 q = Some b → view s q = Some b;
  ed_pins q : pins s q = pins s0 q;
  ed_pins0 : 0 < pins s0 pid;
  ed_pageno : fd2pageno_ (s_disk s) = fd2pageno_ (s_disk s0);
  ed_fds : fds_kept s0 s;
  ed_keys q : q ≠ pid → table s0 !! q = None → table s !! q = None;
  ed_log : log_kept s0 s;
}.

Lemma editing_pinned s0 pid f d s : editing s0 pid f d s → 0 < pins s pid.
Proof. intros He. rewrite (ed_pins _ _ _ _ _ He). apply He. Qed.

Lemma editing_frame s0 pid f d s :
  editing s0 pid f d s → ∃ p, frame s f = Some p ∧ data_ p = d ∧ id_ p = pid.
Proof.
  intros He. destruct (mapped_frame s pid f (ed_inv _ _ _ _ _ He) (ed_table _ _ _ _ _ He)) as (p & Hp & Hid).
  pose proof (ed_view _ _ _ _ _ He) as Hv. unfold view in Hv.
  rewrite (ed_table _ _ _ _ _ He) in Hv. simpl in Hv. rewrite Hp in Hv. simplify_eq/=. eauto.
Qed.

Lemma editing_refl s pid f d :
  pool_inv s → table s !! pid = Some f → view s pid = Some d → 0 < pins s pid →
  editing s pid f d s.
Proof. intros. split; try done. by intros ?. Qed.

Lemma load_editing {A} s0 pid f d s (g : bytes → option A) a s' :
  editing s0 pid f d s → load f g s = (Ok a, s') → g d = Some a ∧ s' = s.
Proof.
  intros He H. unfold load in H. apply bind_Ok in H as (p & ? & [Hp ->]%get_frame_Ok & [Hg ->]%of_option_Ok).
  destruct (editing_frame _ _ _ _ _ He) as (p' & Hp' & <- & _). rewrite Hp in Hp'. by simplify_eq.
Qed.

Lemma store_editing s0 pid f d s g s' :
  editing s0 pid f d s → store f g s = (Ok tt, s') →
  ∃ d', g d = Some d' ∧ (len d' = PAGE_SIZE → editing s0 pid f d' s').
Proof.
  intros He H. unfold store in H. apply bind_Ok in H as (p & ? & [Hp ->]%get_frame_Ok & H).
  apply bind_Ok in H as (d' & ? & [Hg ->]%of_option_Ok & H).
  destruct (editing_frame _ _ _ _ _ He) as (p' & Hp' & <- & _). rewrite Hp in Hp'. simplify_eq.
  exists d'. split; [done|]. intros Hl.
  apply (write_frame_Ok s pid) in H as (Hi & Hpins & Hfds & Ht & Hd & Hlg & Hv); [| |by apply He|by eapply editing_pinned|done].
  2: apply He.
  split; try done.
  - rewrite Ht. apply He.
  - by rewrite Hv, decide_True.
  - intros q b Hq Hq0 Hfd Hb. rewrite Hv, decide_False by done. by apply (ed_other _ _ _ _ _ He).
  - intros q. rewrite Hpins. apply He.
  - apply He.
  - rewrite Hd. apply He.
  - intros fd Hfd. by apply Hfds, (ed_fds _ _ _ _ _ He).
  - intros q Hq Hq0. rewrite Ht. by apply (ed_keys _ _ _ _ _ He).
  - etrans; [apply He|]. apply log_kept_same; [done|by rewrite Hd].
Qed.

Lemma frame_page_no_editing s0 pid f d s n s' :
  editing s0 pid f d s → frame_page_no f s = (Ok n, s') → n = pid.2 ∧ s' = s.
Proof.
  intros He H. unfold frame_page_no in H. apply bind_Ok in H as (p & ? & [Hp ->]%get_frame_Ok & [-> ->]%ret_Ok).
  destruct (editing_frame _ _ _ _ _ He) as (p' & Hp' & _ & <-). rewrite Hp in Hp'. by simplify_eq.
Qed.

Lemma file_hdr_bytes_length h : len (file_hdr_bytes h) = 20.
Proof. unfold file_hdr_bytes. len. Qed.

Lemma write_file_hdr_editing s0 fd p f d h s t' :
  editing s0 (fd, p) f d s → table s0 !! (fd, RM_FILE_HDR_PAGE) = None → p ≠ RM_FILE_HDR_PAGE →
  write_file_hdr fd (h, s) = (Ok tt, t') →
  ∃ s', t' = (h, s') ∧ editing s0 (fd, p) f d s'.
Proof.
  intros He Hm Hp H. unfold write_file_hdr in H. apply bind_Ok in H as (? & ? & [-> ->]%gets_Ok & H).
  apply zoom_Ok in H as (s' & H & ->). simpl in H.
  apply raw_write_Ok in H as (Hi & Hpins & Hfds & Ht & Hpg & _ & Hlk & Hv);
    [|by apply He|apply (ed_keys _ _ _ _ _ He); [congruence|done]|rewrite file_hdr_bytes_length; done].
  exists s'. split; [done|].
  assert (Hdfd : data_fd s fd) by (by apply (pi_map _ (ed_inv _ _ _ _ _ He) (fd, p) f), He).
  split; try done.
  - rewrite Ht. apply He.
  - apply Hv; [congruence|done|apply He].
  - intros q b Hq Hq0 Hfd Hb. apply Hv; [done|by apply (ed_fds _ _ _ _ _ He)|]. by apply (ed_other _ _ _ _ _ He).
  - intros q. rewrite Hpins. apply He.
  - apply He.
  - rewrite Hpg. apply He.
  - intros g Hg. by apply Hfds, (ed_fds _ _ _ _ _ He).
  - intros q Hq Hq0. rewrite Ht. by apply (ed_keys _ _ _ _ _ He).
  - etrans; [apply He|by apply Hlk].
Qed.

(** The page is released again, marked dirty. *)
Record edited s0 pid d s : Prop := {
  dn_inv : pool_inv s;
  dn_view : view s pid = Some d;
  dn_other q b : q ≠ pid → q ≠ (pid.1, RM_FILE_HDR_PAGE) → data_fd s0 q.1 →
    view s0 q = Some b → view s q = Some b;
  dn_pins q : pins s q = if decide (q = pid) then pins s0 q - 1 else pins s0 q;
  dn_pageno : fd2pageno_ (s_disk s) = fd2pageno_ (s_disk s0);
  dn_fds : fds_kept s0 s;
  dn_keys q : q ≠ pid → table s0 !! q = None → table s !! q = None;
  dn_log : log_kept s0 s;
}.

Lemma unpin_editing s0 fd p f d s s' :
  editing s0 (fd, p) f d s → unpin_ fd p true s = (Ok tt, s') →
  edited s0 (fd, p) d s'.
Proof.
  intros He H. unfold unpin_ in H. apply bind_Ok in H as (b & ? & H & [_ ->]%ret_Ok).
  apply unpin_unpinned in H as [? Hv Hd Ht Hp Hb Hlg]; [|apply He|by left].
  pose proof (editing_pinned _ _ _ _ _ He) as Hpin. apply Hb in Hpin as Htrue. subst b.
  split; try done.
  - rewrite Hv. apply He.
  - intros q b Hq Hq0 Hfd Hbb. rewrite Hv. by apply (ed_other _ _ _ _ _ He).
  - intros q. rewrite Hp, (ed_pins _ _ _ _ _ He). done.
  - rewrite Hd. apply He.
  - intros g Hg. apply (ed_fds _ _ _ _ _ He) in Hg. unfold data_fd in *. by rewrite Hd.
  - intros q Hq Hq0. rewrite Ht. by apply (ed_keys _ _ _ _ _ He).
  - etrans; [apply He|]. apply log_kept_same; [done|by rewrite Hd].
Qed.

Lemma stamp_page_editing s0 pid f d s context s' h :
  hdr_ok h → page_ok h d → editing s0 pid f d s → stamp_page context f s = (Ok tt, s') →
  ∃ d', editing s0 pid f d' s' ∧ page_step h d d' (row h d) ∧ occ h d' = occ h d.
Proof.
  intros Hh Hok He H. unfold stamp_page in H. destruct context.
  2: { apply ret_Ok in H as [_ ->]. exists d. split_and!; done. }
  apply bind_Ok in H as (? & ? & [-> ->]%gets_Ok & H).
  apply bind_Ok in H as (lm & ? & [_ ->]%of_option_Ok & H).
  apply (store_editing s0 pid f d) in H as (d' & Hg & He'); [|done].
  apply (page_stamp_spec h Hh) in Hg as [Hst Ho]; [|done].
  exists d'. split_and!; [apply He', Hst|done|done].
Qed.

(** ** The file's invariant *)

(** The free list: from [start], through the links, to [RM_NO_PAGE]. *)
Fixpoint chain (nxt : Z → option Z) (start : Z) (l : list Z) : Prop :=
  match l with
  | [] => start = RM_NO_PAGE
  | p :: l => start = p ∧ ∃ q, nxt p = Some q ∧ chain nxt q l
  end.

Lemma chain_ext nxt nxt' start l :
  chain nxt start l → (∀ p, p ∈ l → nxt' p = nxt p) → chain nxt' start l.
Proof.
  revert start. induction l as [|p l IH]; intros start Hc Hn; [done|].
  destruct Hc as [-> (q & Hq & Hc)]. split; [done|]. exists q. split.
  - rewrite Hn; [done|by left].
  - apply IH; [done|]. intros p' Hp'. apply Hn. by right.
Qed.

Definition link s (fd p : Z) : option Z := d ← view s (fd, p); next_free d.
(** A page of the file with a free slot. *)
Definition has_room (h : RmFileHdr) s (fd p : Z) : Prop :=
  1 ≤ p < num_pages h ∧
  ∃ d, view s (fd, p) = Some d ∧ Z.of_nat (size (occ h d)) < num_records_per_page h.

Record rm_inv (fd : Z) (h : RmFileHdr) s : Prop := {
  ri_pool : pool_inv s;
  ri_fd : data_fd s fd;
  ri_hdr : hdr_ok h;
  ri_num : 1 ≤ num_pages h ≤ INT_MAX;
  ri_alloc : get_fd2pageno (s_disk s) fd = num_pages h;
  ri_page p : 1 ≤ p < num_pages h → ∃ d, view s (fd, p) = Some d ∧ page_ok h d;
  ri_uncached p : p = RM_FILE_HDR_PAGE ∨ num_pages h ≤ p → table s !! (fd, p) = None;
  ri_free : ∃ l, chain (link s fd) (first_free_page_no h) l ∧ NoDup l ∧
    ∀ p, p ∈ l ↔ has_room h s fd p;
}.

(** The table: the records of the file by their place. *)
Definition rows_of (fd : Z) (h : RmFileHdr) s (rid : Rid) : option bytes :=
  if decide (1 ≤ page_no rid < num_pages h)
  then d ← view s (fd, page_no rid); row h d (slot_no rid) else None.

(** The pages of the file are as they were. *)
Lemma rm_inv_frame fd h s s' :
  rm_inv fd h s → pool_inv s' → data_fd s' fd → get_fd2pageno (s_disk s') fd = get_fd2pageno (s_disk s) fd →
  (∀ p, 1 ≤ p < num_pages h → view s' (fd, p) = view s (fd, p)) →
  (∀ p, p = RM_FILE_HDR_PAGE ∨ num_pages h ≤ p → table s' !! (fd, p) = None) → rm_inv fd h s'.
Proof.
  intros [Hpool Hfd Hh Hnum Halloc Hpage Hun (l & Hc & Hnd & Hl)] Hi Hf Hpg Hsame Hk.
  split; try done; [congruence|by intros p Hp; rewrite Hsame; auto|].
  exists l. split_and!; [|done|].
  - eapply chain_ext; [done|]. intros p Hp. apply Hl in Hp as (Hp & _). unfold link. by rewrite Hsame.
  - intros p. rewrite Hl. unfold has_room. split; intros (Hp & d & Hd & ?); (split; [done|]; exists d).
    + by rewrite Hsame.
    + by rewrite Hsame in Hd.
Qed.

(** Nothing but where pages are cached, and pins, changed. *)
Lemma rm_inv_same fd h s s' :
  rm_inv fd h s → pool_inv s' → view_kept s s' → fds_kept s s' →
  fd2pageno_ (s_disk s') = fd2pageno_ (s_disk s) →
  (∀ p, p = RM_FILE_HDR_PAGE ∨ num_pages h ≤ p → table s' !! (fd, p) = None) →
  rm_inv fd h s' ∧ ∀ rid, rows_of fd h s' rid = rows_of fd h s rid.
Proof.
  intros Hr Hi Hv Hf Hpg Hk.
  assert (Hsame : ∀ p, 1 ≤ p < num_pages h → view s' (fd, p) = view s (fd, p)).
  { intros p Hp. destruct (ri_page _ _ _ Hr p Hp) as (d & Hd & _). rewrite Hd. apply Hv; [apply Hr|done]. }
  split.
  - apply (rm_inv_frame fd h s); [done|done|apply Hf, Hr| |done|done]. unfold get_fd2pageno. by rewrite Hpg.
  - intros rid. unfold rows_of. case_decide as Hp; [|done]. by rewrite Hsame.
Qed.

Lemma fetch_rm fd h s p f s' :
  rm_inv fd h s → 1 ≤ p < num_pages h → fetch_page_handle fd p s = (Ok f, s') →
  rm_inv fd h s' ∧ (∀ rid, rows_of fd h s' rid = rows_of fd h s rid) ∧
  (∀ q, pins s' q = if decide (q = (fd, p)) then pins s q + 1 else pins s q) ∧
  unpin_pre s' (fd, p) false ∧
  ∃ d, view s' (fd, p) = Some d ∧ page_ok h d ∧ editing s' (fd, p) f d s'.
Proof.
  intros Hr Hp H. unfold fetch_page_handle in H.
  apply bind_Ok in H as (o & s1 & H & [-> ->]%of_option_Ok).
  apply fetch_Ok in H as [? Hview ? ? Hpins ? ? ? Hkeys Hup ?]; [|by apply Hr|by apply Hr].
  destruct (rm_inv_same fd h s s1 Hr) as [Hr1 Hrows]; try done.
  { intros p2 Hp2. apply Hkeys; [|by apply (ri_uncached _ _ _ Hr)].
    intros [= ->]. unfold RM_FILE_HDR_PAGE in Hp2. lia. }
  split_and!; [done|done|done|done|]. destruct (ri_page _ _ _ Hr1 p Hp) as (d & Hd & Hok).
  exists d. split_and!; [done|done|]. apply editing_refl; [done|done|done|].
  rewrite Hpins, decide_True by done. pose proof (pins_nonneg s (fd, p) (ri_pool _ _ _ Hr)). lia.
Qed.

(** The end of an operation on page [p]: its new contents [d'], and the new head [x] of
    the free list [l']. *)
Lemma edited_rm fd h s p d' s' x l' :
  rm_inv fd h s → 1 ≤ p < num_pages h → edited s (fd, p) d' s' → page_ok h d' →
  chain (λ q, if decide (q = p) then next_free d' else link s fd q) x l' → NoDup l' →
  (∀ q, q ∈ l' ↔ if decide (q = p) then Z.of_nat (size (occ h d')) < num_records_per_page h
                 else has_room h s fd q) →
  rm_inv fd (set_first_free x h) s' ∧
  ∀ rid, rows_of fd (set_first_free x h) s' rid
         = if decide (page_no rid = p) then row h d' (slot_no rid) else rows_of fd h s rid.
Proof.
  intros Hr Hp He Hok Hc Hnd Hl. pose proof Hr as [Hpool Hfd Hh Hnum Halloc Hpage Hun _].
  assert (Hsame : ∀ q, 1 ≤ q < num_pages h → q ≠ p → view s' (fd, q) = view s (fd, q)).
  { intros q Hq Hne. destruct (Hpage q Hq) as (d & Hd & _). rewrite Hd.
    apply (dn_other _ _ _ _ He); [congruence| |done|done]. unfold RM_FILE_HDR_PAGE. simpl. intros [= ?]. lia. }
  pose proof (dn_view _ _ _ _ He) as Hvp.
  assert (Hroom : ∀ q, has_room (set_first_free x h) s' fd q ↔ q ∈ l').
  { intros q. rewrite Hl. unfold has_room. simpl. case_decide as Hq.
    - subst q. rewrite Hvp. split; [by intros (_ & d & [= <-] & ?)|eauto].
    - split; intros (Hq2 & d & Hd & ?); (split; [done|]; exists d).
      + by rewrite Hsame in Hd.
      + by rewrite Hsame. }
  split.
  - split; simpl; try done; [apply He|by apply (dn_fds _ _ _ _ He)| | | | |].
    + destruct Hh. by split.
    + unfold get_fd2pageno. by rewrite (dn_pageno _ _ _ _ He).
    + intros q Hq. destruct (decide (q = p)) as [->|Hne]; [by exists d'|]. rewrite Hsame by done. by apply Hpage.
    + intros q Hq. apply (dn_keys _ _ _ _ He); [|by apply Hun]. intros [= ->].
      unfold RM_FILE_HDR_PAGE in Hq. lia.
    + exists l'. split_and!; [|done|by intros q; rewrite Hroom].
      eapply chain_ext; [done|]. intros q Hq. unfold link. case_decide as Hqp; [subst; by rewrite Hvp|].
      apply Hl in Hq. rewrite decide_False in Hq by done. destruct Hq as [Hq _]. by rewrite Hsame.
  - intros rid. unfold rows_of. simpl. case_decide as Hq.
    + case_decide as Hqp; [by rewrite Hqp, Hvp|]. by rewrite Hsame.
    + case_decide as Hqp; [lia|done].
Qed.

(** ** The operations on the table *)

Lemma set_first_free_same h : set_first_free (first_free_page_no h) h = h.
Proof. by destruct h. Qed.

Lemma has_room_page h s fd p d :
  1 ≤ p < num_pages h → view s (fd, p) = Some d →
  (has_room h s fd p ↔ Z.of_nat (size (occ h d)) < num_records_per_page h).
Proof.
  intros Hp Hv. unfold has_room. rewrite Hv. split; [by intros (_ & d' & [= <-] & ?)|eauto].
Qed.

(** An operation that keeps the page's bits and link keeps the free list. *)
Lemma edited_rm_same fd h s p d d' s' rows :
  rm_inv fd h s → 1 ≤ p < num_pages h → view s (fd, p) = Some d → edited s (fd, p) d' s' →
  page_step h d d' rows →
  (Z.of_nat (size (occ h d')) < num_records_per_page h ↔
   Z.of_nat (size (occ h d)) < num_records_per_page h) →
  rm_inv fd h s' ∧
  ∀ rid, rows_of fd h s' rid = if decide (page_no rid = p) then rows (slot_no rid) else rows_of fd h s rid.
Proof.
  intros Hr Hp Hv He [Hok Hrow Hnext] Ho. destruct (ri_free _ _ _ Hr) as (l & Hc & Hnd & Hl).
  destruct (edited_rm fd h s p d' s' (first_free_page_no h) l Hr Hp He Hok) as [Hr' Hrows]; [|done| |].
  - eapply chain_ext; [done|]. intros q Hq. case_decide as Hqp; [|done]. subst q. unfold link.
    rewrite Hv. simpl. done.
  - intros q. rewrite Hl. case_decide as Hqp; [|done]. subst q. rewrite Ho. by apply has_room_page.
  - rewrite set_first_free_same in *. split; [done|]. intros rid. rewrite Hrows.
    case_decide; [apply Hrow|done].
Qed.

Definition same_pins s s' : Prop := ∀ q, pins s' q = pins s q.

Lemma unpinned_same_pins s0 s1 pid d s' :
  (∀ q, pins s1 q = if decide (q = pid) then pins s0 q + 1 else pins s0 q) →
  edited s1 pid d s' → same_pins s0 s'.
Proof. intros H1 He q. rewrite (dn_pins _ _ _ _ He), H1. case_decide; lia. Qed.

Lemma rows_of_page fd h s rid d :
  1 ≤ page_no rid < num_pages h → view s (fd, page_no rid) = Some d →
  rows_of fd h s rid = row h d (slot_no rid).
Proof. intros Hp Hv. unfold rows_of. rewrite decide_True by done. by rewrite Hv. Qed.

Lemma rows_of_Some fd h s rid old :
  rows_of fd h s rid = Some old → 1 ≤ page_no rid < num_pages h.
Proof. unfold rows_of. by case_decide. Qed.

Lemma row_Some h d i b : row h d i = Some b → i ∈ occ h d ∧ rd d (get_slot h i) (record_size h) = Some b.
Proof. unfold row. by case_decide. Qed.

Lemma rid_eta rid p i : page_no rid = p → slot_no rid = i → rid = mkRid p i.
Proof. destruct rid. simpl. by intros -> ->. Qed.

Lemma get_record_rm fd h s rid b r h' s' :
  rm_inv fd h s → rows_of fd h s rid = Some b →
  get_record fd rid None (h, s) = (Ok r, (h', s')) →
  h' = h ∧ r = b ∧ rm_inv fd h s' ∧ (∀ q, rows_of fd h s' q = rows_of fd h s q) ∧ same_pins s s'.
Proof.
  intros Hr Hb H. pose proof (rows_of_Some _ _ _ _ _ Hb) as Hp. unfold get_record in H.
  apply bind_Ok in H as ([] & ? & [_ ->]%ret_Ok & H). sto_step H s1 Hf.
  apply (fetch_rm _ _ _ _ _ _ Hr Hp) in Hf as (Hr1 & Hrows1 & Hpins1 & _ & d & Hd & Hok & He).
  get_hdr H. sto_step H s9 Hno.
  apply (frame_page_no_editing _ _ _ _ _ _ _ He) in Hno as [-> ->]. simpl in H.
  apply bind_Ok in H as ([] & ? & (s2 & Hun & ->)%zoom_Ok & H). simpl in Hun, H.
  pose proof (ed_table _ _ _ _ _ He) as Htab.
  assert (Hup : table s2 = table s1 ∧ ∀ q, view s2 q = view s1 q).
  { unfold unpin_ in Hun. apply bind_Ok in Hun as (? & ? & Hu & [_ ->]%ret_Ok).
    apply unpin_unpinned in Hu as [? ? ? ? ? ? ?]; [done|apply Hr1|by left]. }
  apply unpin_editing with (1 := He) in Hun as Hdn.
  apply zoom_Ok in H as (s3 & Hload & [= -> ->]). simpl in Hload.
  unfold load in Hload. apply bind_Ok in Hload as (pg & ? & [Hpg ->]%get_frame_Ok & [Hrd ->]%of_option_Ok).
  destruct Hup as [Ht Hv]. specialize (Hv (fd, page_no rid)). rewrite Hd in Hv. unfold view in Hv.
  rewrite Ht, Htab in Hv. simpl in Hv. rewrite Hpg in Hv. simplify_eq/=.
  assert (Hbr : row h (data_ pg) (slot_no rid) = Some b).
  { rewrite <- Hb, <- Hrows1. symmetry. by apply rows_of_page. }
  apply row_Some in Hbr as [Hin Hrd2].
  destruct (edited_rm_same fd h s1 (page_no rid) (data_ pg) (data_ pg) s2 (row h (data_ pg)) Hr1 Hp)
    as [Hr2 Hrows2]; [done|done|by split|done|].
  split_and!; [done|congruence|done| |by eapply unpinned_same_pins].
  intros q. rewrite Hrows2, <- Hrows1. case_decide as Hq; [|done].
  symmetry. apply rows_of_page; [by rewrite Hq|by rewrite Hq].
Qed.

Lemma update_record_rm fd h s rid buf old context h' s' :
  rm_inv fd h s → rows_of fd h s rid = Some old →
  update_record fd rid buf context (h, s) = (Ok tt, (h', s')) →
  h' = h ∧ rm_inv fd h s' ∧ same_pins s s' ∧
  ∀ q, rows_of fd h s' q = if decide (q = rid) then rd buf 0 (record_size h) else rows_of fd h s q.
Proof.
  intros Hr Hb H. pose proof (rows_of_Some _ _ _ _ _ Hb) as Hp. unfold update_record in H.
  sto_step H s1 Hf.
  apply (fetch_rm _ _ _ _ _ _ Hr Hp) in Hf as (Hr1 & Hrows1 & Hpins1 & _ & d & Hd & Hok & He).
  get_hdr H. apply bind_Ok in H as ([] & ? & (s2 & Hst & ->)%zoom_Ok & H). simpl in Hst, H.
  pose proof (ri_hdr _ _ _ Hr) as Hh.
  apply (store_editing _ _ _ _ _ _ _ He) in Hst as (d2 & Hcp & He2).
  assert (Hin : slot_no rid ∈ occ h d).
  { rewrite <- Hrows1, (rows_of_page _ _ _ _ d) in Hb by done. by apply row_Some in Hb as [? _]. }
  apply (page_update_spec h Hh) in Hcp as [[Hok2 Hrow2 Hnx2] Ho2]; [|done|done].
  specialize (He2 (proj1 Hok2)).
  sto_step H s9 Hno. apply (frame_page_no_editing _ _ _ _ _ _ _ He2) in Hno as [-> ->]. simpl in H.
  apply bind_Ok in H as ([] & ? & (s3 & Hsp & ->)%zoom_Ok & H). simpl in Hsp, H.
  apply (stamp_page_editing _ _ _ _ _ _ _ h Hh Hok2 He2) in Hsp as (d3 & He3 & [Hok3 Hrow3 Hnx3] & Ho3).
  apply zoom_Ok in H as (s4 & Hun & [= -> ->]). simpl in Hun.
  apply unpin_editing with (1 := He3) in Hun as Hdn.
  destruct (edited_rm_same fd h s1 (page_no rid) d d3 s4
    (λ j, if decide (j = slot_no rid) then rd buf 0 (record_size h) else row h d j) Hr1 Hp Hd Hdn)
    as [Hr4 Hrows4]; [|by rewrite Ho3, Ho2|].
  { split; [done| |congruence]. intros i. by rewrite Hrow3, Hrow2. }
  split_and!; [done|done|by eapply unpinned_same_pins|].
  intros q. rewrite Hrows4, <- Hrows1. case_decide as Hq.
  - destruct (decide (q = rid)) as [->|Hne]; [by rewrite decide_True|]. rewrite decide_False.
    + symmetry. apply rows_of_page; by rewrite Hq.
    + intros Hs. apply Hne. destruct q, rid. simpl in *. congruence.
  - rewrite decide_False by congruence. done.
Qed.

(** The two changes of the free list, on the pinned page. *)
Lemma chain_head_ok fd h s : rm_inv fd h s → i32_ok (first_free_page_no h) = true.
Proof.
  intros Hr. destruct (ri_free _ _ _ Hr) as (l & Hc & _ & Hl). pose proof (ri_num _ _ _ Hr).
  destruct l as [|p l]; simpl in Hc.
  - by rewrite Hc.
  - destruct Hc as [-> _]. destruct (proj1 (Hl p)) as [? _]; [by left|].
    apply i32_ok_range. unfold INT_MAX in *. lia.
Qed.

Lemma release_editing fd h s0 p f d s t' :
  hdr_ok h → page_ok h d → i32_ok (first_free_page_no h) = true →
  editing s0 (fd, p) f d s → table s0 !! (fd, RM_FILE_HDR_PAGE) = None → p ≠ RM_FILE_HDR_PAGE →
  p ≠ first_free_page_no h → release_page_handle fd f (h, s) = (Ok tt, t') →
  ∃ d' s', t' = (set_first_free p h, s') ∧ editing s0 (fd, p) f d' s' ∧ page_ok h d' ∧
    (∀ i, row h d' i = row h d i) ∧ occ h d' = occ h d ∧ next_free d' = Some (first_free_page_no h).
Proof.
  intros Hh Hok Hff He Hm Hp Hne H. unfold release_page_handle in H. get_hdr H.
  sto_step H s9 Hno. apply (frame_page_no_editing _ _ _ _ _ _ _ He) in Hno as [-> ->]. simpl in H.
  destruct (Z.eqb_spec p (first_free_page_no h)); [done|].
  apply bind_Ok in H as ([] & ? & (s2 & Hst & ->)%zoom_Ok & H). simpl in Hst, H.
  apply (store_editing _ _ _ _ _ _ _ He) in Hst as (d2 & Hw & He2).
  apply (page_link_spec h Hh) in Hw as (Hok2 & Hrow2 & Ho2 & Hn2); [|done|done].
  specialize (He2 (proj1 Hok2)).
  apply bind_Ok in H as ([] & ? & ->%modify_Ok & H). simpl in H.
  apply (write_file_hdr_editing s0 fd p f d2) in H as (s3 & -> & He3); [|done..]. eauto 10.
Qed.

Lemma unlink_editing fd h s0 p f d s t' :
  hdr_ok h → page_ok h d →
  editing s0 (fd, p) f d s → table s0 !! (fd, RM_FILE_HDR_PAGE) = None → p ≠ RM_FILE_HDR_PAGE →
  unlink_full_page fd f (h, s) = (Ok tt, t') →
  ∃ x d' s', next_free d = Some x ∧ t' = (set_first_free x h, s') ∧ editing s0 (fd, p) f d' s' ∧
    page_ok h d' ∧ (∀ i, row h d' i = row h d i) ∧ occ h d' = occ h d.
Proof.
  intros Hh Hok He Hm Hp H. unfold unlink_full_page in H.
  sto_step H s9 Hld. apply (load_editing _ _ _ _ _ _ _ _ He) in Hld as [Hx ->].
  apply bind_Ok in H as ([] & ? & ->%modify_Ok & H). simpl in H.
  apply bind_Ok in H as ([] & ? & (s2 & Hst & ->)%zoom_Ok & H). simpl in Hst, H.
  apply (store_editing _ _ _ _ _ _ _ He) in Hst as (d2 & Hw & He2).
  apply (page_link_spec h Hh) in Hw as (Hok2 & Hrow2 & Ho2 & Hn2); [|done|done].
  specialize (He2 (proj1 Hok2)).
  apply (write_file_hdr_editing s0 fd p f d2) in H as (s3 & -> & He3); [|done..]. eauto 10.
Qed.

(** The last steps of an operation: stamp the page, unpin it. *)
Lemma finish_editing fd h s0 p f d s context s' s'' :
  hdr_ok h → page_ok h d → editing s0 (fd, p) f d s → stamp_page context f s = (Ok tt, s') →
  unpin_ fd p true s' = (Ok tt, s'') →
  ∃ d', edited s0 (fd, p) d' s'' ∧ page_step h d d' (row h d) ∧ occ h d' = occ h d.
Proof.
  intros Hh Hok He Hsp Hun.
  apply (stamp_page_editing _ _ _ _ _ _ _ h Hh Hok He) in Hsp as (d3 & He3 & Hst & Ho).
  apply unpin_editing with (1 := He3) in Hun as Hdn. eauto.
Qed.

(** What an operation on page [p] does to the rows, from what it does to those of [p]. *)
Lemma rows_of_update fd h h' s s' p d i (v : option bytes) :
  1 ≤ p < num_pages h → view s (fd, p) = Some d →
  (∀ rid, rows_of fd h' s' rid =
    if decide (page_no rid = p) then (if decide (slot_no rid = i) then v else row h d (slot_no rid))
    else rows_of fd h s rid) →
  ∀ rid, rows_of fd h' s' rid = if decide (rid = mkRid p i) then v else rows_of fd h s rid.
Proof.
  intros Hp Hd Hrows rid. rewrite Hrows. destruct (decide (rid = mkRid p i)) as [->|Hne]; simpl.
  - by rewrite !decide_True.
  - case_decide as Hq; [|done]. rewrite decide_False by (intros Hs; apply Hne; by apply rid_eta).
    symmetry. apply rows_of_page; by rewrite Hq.
Qed.

(** A free list for a page [p] of contents [d'] with head [x]. *)
Definition relinked fd s (p : Z) d' (x : Z) (l' : list Z) : Prop :=
  chain (λ q, if decide (q = p) then next_free d' else link s fd q) x l' ∧ NoDup l'.

(** The end of a deletion: a page that was full gets into the free list. *)
Lemma maybe_release fd h s1 p f d d2 s2 l t3 :
  rm_inv fd h s1 → 1 ≤ p < num_pages h → view s1 (fd, p) = Some d →
  editing s1 (fd, p) f d2 s2 → page_ok h d2 → next_free d2 = next_free d →
  (size (occ h d2) + 1 = size (occ h d))%nat →
  chain (link s1 fd) (first_free_page_no h) l → NoDup l → (∀ q, q ∈ l ↔ has_room h s1 fd q) →
  (if Z.of_nat (size (occ h d2)) =? num_records_per_page h - 1
   then release_page_handle fd f else ret tt) (h, s2) = (Ok tt, t3) →
  ∃ x l' d3 s3, t3 = (set_first_free x h, s3) ∧ editing s1 (fd, p) f d3 s3 ∧ page_ok h d3 ∧
    (∀ j, row h d3 j = row h d2 j) ∧ occ h d3 = occ h d2 ∧
    relinked fd s1 p d3 x l' ∧ ∀ q, q ∈ l' ↔ q = p ∨ q ∈ l.
Proof.
  intros Hr1 Hp Hd He2 Hok2 Hnx2 Hsz Hc Hnd Hl H3. pose proof (ri_hdr _ _ _ Hr1) as Hh.
  pose proof (size_occ_bounds h Hh d) as Hbd.
  pose proof (has_room_page h s1 fd p d Hp Hd) as Hroom. rewrite <- Hl in Hroom.
  destruct (Z.eqb_spec (Z.of_nat (size (occ h d2))) (num_records_per_page h - 1)) as [Hfull|Hnf].
  - assert (Hpl : p ∉ l) by (rewrite Hroom; lia).
    apply (release_editing fd h s1 p f d2) in H3 as (d3 & s3 & -> & He3 & Hok3 & Hrow3 & Ho3 & Hn3);
      try done; [| |apply Hr1; by left|unfold RM_FILE_HDR_PAGE; lia|].
    + exists p, (p :: l), d3, s3. split_and!; try done; [split|].
      * split; [done|]. exists (first_free_page_no h). rewrite decide_True by done. split; [done|].
        eapply chain_ext; [done|]. intros q Hq. rewrite decide_False; [done|]. by intros ->.
      * by apply NoDup_cons.
      * intros q. by rewrite elem_of_cons.
    + by eapply chain_head_ok.
    + intros Heq. destruct l as [|p' l0]; simpl in Hc.
      * unfold RM_NO_PAGE in Hc. lia.
      * destruct Hc as [Heq' _]. apply Hpl. rewrite Heq, Heq'. by left.
  - apply ret_Ok in H3 as [_ ->]. exists (first_free_page_no h), l, d2, s2.
    rewrite set_first_free_same. split_and!; try done; [split; [|done]|].
    + eapply chain_ext; [done|]. intros q Hq. case_decide as Hqp; [|done]. subst q.
      rewrite Hnx2. unfold link. by rewrite Hd.
    + intros q. split; [by right|]. intros [->|?]; [|done]. apply Hroom. lia.
Qed.

Lemma delete_record_rm fd h s rid old context h' s' :
  rm_inv fd h s → rows_of fd h s rid = Some old →
  delete_record fd rid context (h, s) = (Ok tt, (h', s')) →
  rm_inv fd h' s' ∧ same_pins s s' ∧
  ∀ q, rows_of fd h' s' q = if decide (q = rid) then None else rows_of fd h s q.
Proof.
  intros Hr Hb H. pose proof (rows_of_Some _ _ _ _ _ Hb) as Hp. unfold delete_record in H.
  pose proof (ri_hdr _ _ _ Hr) as Hh. destruct rid as [p i]. simpl in *.
  apply bind_Ok in H as (f & ? & (s1 & Hf & ->)%zoom_Ok & H); simpl in Hf, H.
  apply (fetch_rm _ _ _ _ _ _ Hr Hp) in Hf as (Hr1 & Hrows1 & Hpins1 & _ & d & Hd & Hok & He).
  get_hdr H. apply bind_Ok in H as ([] & ? & (s2 & Hst & ->)%zoom_Ok & H). simpl in Hst, H.
  apply (store_editing _ _ _ _ _ _ _ He) in Hst as (d2 & Hcp & He2).
  rewrite <- Hrows1, (rows_of_page _ _ _ _ d) in Hb by done. apply row_Some in Hb as [Hin _]. simpl in Hin.
  apply (page_delete_spec h Hh) in Hcp as [[Hok2 Hrow2 Hnx2] Ho2]; [|done|done].
  specialize (He2 (proj1 Hok2)).
  sto_step H s9 Hld. apply (load_editing _ _ _ _ _ _ _ _ He2) in Hld as [Hn ->].
  pose proof (proj2 Hok2) as Hc2. unfold num_records in Hc2. rewrite Hc2 in Hn. injection Hn as <-.
  assert (Hsz : (size (occ h d2) + 1 = size (occ h d))%nat).
  { rewrite Ho2, size_difference, size_singleton by set_solver.
    assert (size (occ h d) ≠ 0%nat) by (apply size_non_empty_iff; set_solver). lia. }
  pose proof (size_occ_bounds h Hh d) as Hbd. destruct (ri_free _ _ _ Hr1) as (l & Hc & Hnd & Hl).
  apply bind_Ok in H as ([] & t3 & H3 & H).
  destruct (maybe_release fd h s1 p f d d2 s2 l t3)
    as (x & l' & d3 & s3 & -> & He3 & Hok3 & Hrow3 & Ho3 & [Hc3 Hnd3] & Hl3); [done..|].
  sto_step H s9 Hno. apply (frame_page_no_editing _ _ _ _ _ _ _ He3) in Hno as [-> ->]. simpl in H.
  apply bind_Ok in H as ([] & ? & (s4 & Hsp & ->)%zoom_Ok & H). simpl in Hsp, H.
  apply zoom_Ok in H as (s5 & Hun & [= -> ->]). simpl in Hun.
  destruct (finish_editing fd h s1 p f d3 s3 context s4 s5 Hh Hok3 He3 Hsp Hun)
    as (d4 & Hdn & [Hok4 Hrow4 Hnx4] & Ho4).
  destruct (edited_rm fd h s1 p d4 s5 x l' Hr1 Hp Hdn Hok4) as [Hr5 Hrows5]; [| done| |].
  - eapply chain_ext; [done|]. intros q Hq. by rewrite Hnx4.
  - intros q. rewrite Hl3, Hl. case_decide as Hqp; [|naive_solver].
    subst q. rewrite Ho4, Ho3. split; [lia|by left].
  - split_and!; [done|by eapply unpinned_same_pins|].
    intros q. rewrite (rows_of_update fd h _ s1 s5 p d i None Hp Hd).
    + by rewrite Hrows1.
    + intros q2. rewrite Hrows5. case_decide; [|done]. by rewrite Hrow4, Hrow3, Hrow2.
Qed.

(** The page an insertion goes to: the head of the free list, or a new page. *)
Record handled fd h s f h1 s1 (p : Z) d : Prop := {
  ha_rm : rm_inv fd h1 s1;
  ha_size : record_size h1 = record_size h;
  ha_rows rid : rows_of fd h1 s1 rid = rows_of fd h s rid;
  ha_pins q : pins s1 q = if decide (q = (fd, p)) then pins s q + 1 else pins s q;
  ha_range : 1 ≤ p < num_pages h1;
  ha_head : first_free_page_no h1 = p;
  ha_view : view s1 (fd, p) = Some d;
  ha_ok : page_ok h1 d;
  ha_room : Z.of_nat (size (occ h1 d)) < num_records_per_page h1;
  ha_edit : editing s1 (fd, p) f d s1;
}.

Lemma fetch_handled fd h s f h1 s1 :
  rm_inv fd h s → first_free_page_no h ≠ -1 →
  sto (fetch_page_handle fd (first_free_page_no h)) (h, s) = (Ok f, (h1, s1)) →
  ∃ p d, handled fd h s f h1 s1 p d.
Proof.
  intros Hr Hff H. apply zoom_Ok in H as (s2 & H & [= -> <-]). simpl in H.
  destruct (ri_free _ _ _ Hr) as (l & Hc & Hnd & Hl). destruct l as [|p l]; [done|].
  destruct Hc as [Hpeq _]. rewrite Hpeq in H. destruct (proj1 (Hl p)) as [Hp (d0 & Hd0 & Hsz)]; [by left|].
  apply (fetch_rm _ _ _ _ _ _ Hr Hp) in H as Hf. destruct Hf as (Hr1 & Hrows1 & Hpins1 & _ & d & Hd & Hok & He).
  exists p, d. split; try done.
  apply (has_room_page h s1 fd p d Hp Hd). destruct (ri_free _ _ _ Hr1) as (l1 & Hc1 & _ & Hl1).
  apply Hl1. destruct l1 as [|p1 l1]; [done|]. destruct Hc1 as [Hp1 _]. rewrite <- Hp1, Hpeq. by left.
Qed.

Lemma new_handled fd h s f h1 s1 :
  rm_inv fd h s → num_pages h < INT_MAX → first_free_page_no h = -1 →
  create_new_page_handle fd (h, s) = (Ok f, (h1, s1)) →
  ∃ p d, handled fd h s f h1 s1 p d.
Proof.
  intros Hr Hmax Hff H. unfold create_new_page_handle in H. pose proof (ri_hdr _ _ _ Hr) as Hh.
  apply bind_Ok in H as (o & ? & (s2 & Hnew & ->)%zoom_Ok & H). simpl in Hnew, H.
  apply bind_Ok in H as ([g n] & ? & [-> ->]%of_option_Ok & H). get_hdr H.
  apply new_Ok in Hnew as [Hi2 Hv2 Hn2 Hfd2 Ht2 Hp2 Hno Hpg2 Hpos Hk2]; [|apply Hr|apply Hr|].
  2: { apply (ri_uncached _ _ _ Hr). right. rewrite (ri_alloc _ _ _ Hr). lia. }
  rewrite (ri_alloc _ _ _ Hr) in Hno. subst n. pose proof (ri_num _ _ _ Hr) as Hnum.
  assert (He : editing s2 (fd, num_pages h) g reset_memory s2).
  { apply editing_refl; try done. rewrite Hp2, decide_True by done. done. }
  apply bind_Ok in H as ([] & ? & (s3 & Hst & ->)%zoom_Ok & H). simpl in Hst, H.
  apply (store_editing _ _ _ _ _ _ _ He) in Hst as (d3 & Hw & He3).
  apply (page_init_spec h Hh) in Hw as (Hok3 & Ho3 & Hnx3); [|apply reset_memory_length].
  specialize (He3 (proj1 Hok3)).
  apply bind_Ok in H as ([] & ? & ->%modify_Ok & H). apply bind_Ok in H as ([] & ? & ->%modify_Ok & H).
  simpl in H. apply bind_Ok in H as ([] & t4 & H4 & [-> <-]%ret_Ok).
  assert (Hun2 : table s2 !! (fd, RM_FILE_HDR_PAGE) = None).
  { apply Hk2; [|by apply (ri_uncached _ _ _ Hr); left]. unfold RM_FILE_HDR_PAGE. intros [= ?]. lia. }
  apply (write_file_hdr_editing s2 fd (num_pages h) g d3) in H4 as (s4 & [= -> ->] & He4);
    [|done|done|unfold RM_FILE_HDR_PAGE; lia].
  assert (Hold : ∀ q, 1 ≤ q < num_pages h → view s4 (fd, q) = view s (fd, q)).
  { intros q Hq. destruct (ri_page _ _ _ Hr q Hq) as (d & Hd & _). rewrite Hd.
    assert (Hnq : (fd, q) ≠ (fd, num_pages h)) by (intros [= ?]; lia).
    apply (ed_other _ _ _ _ _ He4); [done|unfold RM_FILE_HDR_PAGE; simpl; intros [= ?]; lia|apply Hfd2, Hr|].
    apply Hv2; [done|apply Hr|done]. }
  pose proof (hdr_ok_bounds h Hh) as (Hn1 & _).
  exists (num_pages h), d3. split; simpl; try done; try lia; [| | |apply He4|change (occ _ d3) with (occ h d3); rewrite Ho3, size_empty; lia|].
  - split; simpl; try done; try lia.
    + apply He4.
    + apply (ed_fds _ _ _ _ _ He4), Hfd2, Hr.
    + destruct Hh. by split.
    + unfold get_fd2pageno. rewrite (ed_pageno _ _ _ _ _ He4), Hpg2, lookup_insert_eq. simpl.
      apply wrap32_id, i32_ok_range. unfold INT_MAX in Hmax. lia.
    + intros q Hq. destruct (decide (q = num_pages h)) as [->|]; [exists d3; split; [apply He4|done]|].
      rewrite Hold by lia. apply (ri_page _ _ _ Hr). lia.
    + intros q Hq. apply (ed_keys _ _ _ _ _ He4).
      { unfold RM_FILE_HDR_PAGE in Hq. intros [= ->]. lia. }
      apply Hk2; [unfold RM_FILE_HDR_PAGE in Hq; intros [= ->]; lia|].
      apply (ri_uncached _ _ _ Hr). destruct Hq; [by left|right; lia].
    + exists [num_pages h]. split_and!; [|apply NoDup_singleton|].
      * split; [done|]. exists RM_NO_PAGE. split; [|done]. unfold link.
        by rewrite (ed_view _ _ _ _ _ He4).
      * intros q. rewrite list_elem_of_singleton. unfold has_room. simpl. split.
        -- intros ->. split; [lia|]. exists d3. split; [apply He4|].
           change (occ _ d3) with (occ h d3). rewrite Ho3, size_empty. lia.
        -- intros (Hq & d & Hd & Hs). destruct (decide (q = num_pages h)) as [|Hne]; [done|exfalso].
           rewrite Hold in Hd by lia. destruct (ri_free _ _ _ Hr) as (l & Hc & _ & Hl).
           assert (Hql : q ∈ l) by (apply Hl; split; [lia|]; eauto).
           destruct l as [|p' l]; [by apply elem_of_nil in Hql|]. destruct Hc as [Heq _].
           destruct (proj1 (Hl p')) as [? _]; [by left|]. lia.
  - intros rid. unfold rows_of. simpl. destruct (decide (page_no rid = num_pages h)) as [Heq|Hne].
    + rewrite decide_True by lia. rewrite (decide_False (P := 1 ≤ page_no rid < num_pages h)) by lia.
      rewrite Heq, (ed_view _ _ _ _ _ He4). simpl. unfold row. change (occ _ d3) with (occ h d3).
      rewrite Ho3. by rewrite decide_False by set_solver.
    + destruct (decide (1 ≤ page_no rid < num_pages h)); [|by rewrite decide_False by lia].
      rewrite decide_True by lia. by rewrite Hold.
  - intros q. rewrite (ed_pins _ _ _ _ _ He4), Hp2. case_decide as Hq; [|done]. subst q.
    unfold pins, cached. rewrite (ri_uncached _ _ _ Hr) by (right; lia). done.
  - apply editing_refl; [apply He4|apply He4|apply He4|by eapply editing_pinned].
Qed.

Lemma create_page_handle_rm fd h s f h1 s1 :
  rm_inv fd h s → num_pages h < INT_MAX → create_page_handle fd (h, s) = (Ok f, (h1, s1)) →
  ∃ p d, handled fd h s f h1 s1 p d.
Proof.
  intros Hr Hmax H. unfold create_page_handle in H. get_hdr H.
  destruct (Z.eqb_spec (first_free_page_no h) (-1)); simpl in H.
  - by apply new_handled.
  - by apply fetch_handled.
Qed.

(** The end of an insertion: a page that became full leaves the free list, whose head
    it is. *)
Lemma maybe_unlink fd h s1 p f d d2 s2 l t3 :
  rm_inv fd h s1 → 1 ≤ p < num_pages h → view s1 (fd, p) = Some d →
  editing s1 (fd, p) f d2 s2 → page_ok h d2 → next_free d2 = next_free d →
  chain (link s1 fd) p (p :: l) → NoDup (p :: l) → first_free_page_no h = p →
  (if Z.of_nat (size (occ h d2)) >=? num_records_per_page h
   then unlink_full_page fd f else ret tt) (h, s2) = (Ok tt, t3) →
  ∃ x l' d3 s3, t3 = (set_first_free x h, s3) ∧ editing s1 (fd, p) f d3 s3 ∧ page_ok h d3 ∧
    (∀ j, row h d3 j = row h d2 j) ∧ occ h d3 = occ h d2 ∧ relinked fd s1 p d3 x l' ∧
    ∀ q, q ∈ l' ↔ (q = p ∧ Z.of_nat (size (occ h d2)) < num_records_per_page h) ∨ q ∈ l.
Proof.
  intros Hr1 Hp Hd He2 Hok2 Hnx2 Hc Hnd Hhead H3. pose proof (ri_hdr _ _ _ Hr1) as Hh.
  pose proof Hc as [_ (x & Hx & Hcl)]. unfold link in Hx. rewrite Hd in Hx. simpl in Hx.
  pose proof Hnd as [Hpl Hndl]%NoDup_cons.
  rewrite Z.geb_leb in H3. destruct (Z.leb_spec (num_records_per_page h) (Z.of_nat (size (occ h d2)))).
  - apply (unlink_editing fd h s1 p f d2) in H3 as (x' & d3 & s3 & Hx' & -> & He3 & Hok3 & Hrow3 & Ho3);
      try done; [|apply Hr1; by left|unfold RM_FILE_HDR_PAGE; lia].
    assert (x' = x) as -> by congruence. exists x, l, d3, s3. split_and!; try done; [split; [|done]|].
    + eapply chain_ext; [done|]. intros q Hq. rewrite decide_False; [done|]. by intros ->.
    + intros q. split; [by right|]. intros [[_ ?]|?]; [lia|done].
  - apply ret_Ok in H3 as [_ ->]. exists p, (p :: l), d2, s2.
    replace (set_first_free p h) with h by (by rewrite <- Hhead, set_first_free_same).
    split_and!; try done; [split; [|done]|].
    + eapply chain_ext; [done|]. intros q Hq. case_decide as Hqp; [|done]. subst q.
      rewrite Hnx2. unfold link. by rewrite Hd.
    + intros q. rewrite elem_of_cons. naive_solver.
Qed.

Lemma insert_record_rm fd h s buf context rid h' s' :
  rm_inv fd h s → num_pages h < INT_MAX →
  insert_record fd buf context (h, s) = (Ok rid, (h', s')) →
  rm_inv fd h' s' ∧ same_pins s s' ∧ record_size h' = record_size h ∧
  rows_of fd h s rid = None ∧
  ∀ q, rows_of fd h' s' q = if decide (q = rid) then rd buf 0 (record_size h) else rows_of fd h s q.
Proof.
  intros Hr Hmax H. unfold insert_record in H. apply bind_Ok in H as (f & [h1 s1] & Hcr & H).
  apply create_page_handle_rm in Hcr as (p & d & [Hr1 Hsz Hrows1 Hpins1 Hp Hhead Hd Hok Hroom He]); [|done..].
  pose proof (ri_hdr _ _ _ Hr1) as Hh. get_hdr H.
  apply bind_Ok in H as (i & ? & (s9 & Hld & ->)%zoom_Ok & H). simpl in Hld, H.
  apply (load_editing _ _ _ _ _ _ _ _ He) in Hld as [Hi ->].
  apply (first_free_slot h1 Hh) in Hi as [Hirange Hinot]; [|done..].
  apply bind_Ok in H as ([] & ? & (s2 & Hst & ->)%zoom_Ok & H). simpl in Hst, H.
  apply (store_editing _ _ _ _ _ _ _ He) in Hst as (d2 & Hcp & He2).
  apply (page_insert_spec h1 Hh) in Hcp as [[Hok2 Hrow2 Hnx2] Ho2]; [|done..].
  specialize (He2 (proj1 Hok2)).
  sto_step H s9 Hld. apply (load_editing _ _ _ _ _ _ _ _ He2) in Hld as [Hn ->].
  pose proof (proj2 Hok2) as Hc2. unfold num_records in Hc2. rewrite Hc2 in Hn. injection Hn as <-.
  destruct (ri_free _ _ _ Hr1) as (l & Hc & Hnd & Hl).
  pose proof (proj2 (Hl p) (conj Hp (ex_intro _ d (conj Hd Hroom)))) as Hpl.
  destruct l as [|p' l]; [by apply elem_of_nil in Hpl|].
  assert (p' = p) as -> by (destruct Hc; congruence). rewrite Hhead in Hc.
  apply bind_Ok in H as ([] & t3 & H3 & H).
  destruct (maybe_unlink fd h1 s1 p f d d2 s2 l t3)
    as (x & l' & d3 & s3 & -> & He3 & Hok3 & Hrow3 & Ho3 & [Hc3 Hnd3] & Hl3); [done..|].
  apply bind_Ok in H as ([] & ? & (s4 & Hsp & ->)%zoom_Ok & H). simpl in Hsp, H.
  apply (stamp_page_editing _ _ _ _ _ _ _ h1 Hh Hok3 He3) in Hsp as (d4 & He4 & [Hok4 Hrow4 Hnx4] & Ho4).
  sto_step H s9 Hno. apply (frame_page_no_editing _ _ _ _ _ _ _ He4) in Hno as [-> ->]. simpl in H.
  apply bind_Ok in H as ([] & ? & (s5 & Hun & ->)%zoom_Ok & [-> [= -> ->]]%ret_Ok). simpl in Hun |- *.
  apply unpin_editing with (1 := He4) in Hun as Hdn.
  destruct (edited_rm fd h1 s1 p d4 s5 x l' Hr1 Hp Hdn Hok4) as [Hr5 Hrows5]; [|done| |].
  - eapply chain_ext; [done|]. intros q Hq. by rewrite Hnx4.
  - intros q. rewrite Hl3. apply NoDup_cons in Hnd as [Hpnl _]. case_decide as Hqp.
    + subst q. rewrite Ho4, Ho3. naive_solver.
    + rewrite <- Hl, elem_of_cons. naive_solver.
  - split_and!; [done|by eapply unpinned_same_pins|done| |].
    + rewrite <- Hrows1, (rows_of_page fd h1 s1 _ d) by done. unfold row. simpl. by rewrite decide_False.
    + intros q. rewrite (rows_of_update fd h1 _ s1 s5 p d i (rd buf 0 (record_size h)) Hp Hd).
      * by rewrite Hrows1.
      * intros q2. rewrite Hrows5. case_decide; [|done]. by rewrite Hrow4, Hrow3, Hrow2, Hsz.
Qed.
End file.

(** ** Opening a file that was just created *)

#[local] Opaque rd rd_i32 rd_u32 rd_u64 i32 u32 u64.
Lemma file_hdr_of_bytes h rest :
  i32_ok (record_size h) = true → i32_ok (num_pages h) = true →
  i32_ok (num_records_per_page h) = true → i32_ok (first_free_page_no h) = true →
  i32_ok (bitmap_size h) = true → file_hdr_of (file_hdr_bytes h ++ rest) = Some h.
Proof.
  intros H1 H2 H3 H4 H5. unfold file_hdr_of, file_hdr_bytes. destruct h as [rs np nr ff bs].
  simpl in H1, H2, H3, H4, H5 |- *. rewrite <- !(assoc_L (++)).
  rewrite (rd_i32_first rs) by done. cbn [mbind option_bind].
  rewrite (assoc_L (++) (i32 rs)). set (p1 := i32 rs). assert (L1 : len p1 = 4) by (unfold p1; len).
  rewrite <- (assoc_L (++)). rewrite (rd_i32_field p1 np _ 4) by (done || lia). cbn [mbind option_bind].
  rewrite (assoc_L (++) p1). set (p2 := p1 ++ i32 np). assert (L2 : len p2 = 8) by (unfold p2; len).
  rewrite (rd_i32_field p2 nr _ 8) by (done || lia). cbn [mbind option_bind].
  rewrite (assoc_L (++) p2). set (p3 := p2 ++ i32 nr). assert (L3 : len p3 = 12) by (unfold p3; len).
  rewrite (rd_i32_field p3 ff _ 12) by (done || lia). cbn [mbind option_bind].
  rewrite (assoc_L (++) p3). set (p4 := p3 ++ i32 ff). assert (L4 : len p4 = 16) by (unfold p4; len).
  rewrite (rd_i32_field p4 bs _ 16) by (done || lia). done.
Qed.

#[local] Transparent rd rd_i32 rd_u32 rd_u64 i32 u32 u64.

Lemma created_hdr_ok rs : 1 ≤ rs ≤ RM_MAX_RECORD_SIZE → hdr_ok (created_hdr rs).
Proof. intros. by split. Qed.

Section properties.
Context {R : Type} `{!Replacer R, !ReplacerLaws R}.
Implicit Types (s : Storage R).

(** A file with a header page only, none of whose pages is in the pool. *)
Lemma fresh_file_inv fd h s :
  pool_inv s → data_fd s fd → hdr_ok h → num_pages h = 1 → first_free_page_no h = RM_NO_PAGE →
  get_fd2pageno (s_disk s) fd = 1 → (∀ p, page_table_ (s_bpm s) !! (fd, p) = None) →
  rm_inv fd h s ∧ ∀ rid, rows_of fd h s rid = None.
Proof.
  intros Hi Hfd Hh Hn Hff Hpg Hun. split.
  - split; try done; [unfold INT_MAX; lia|congruence|lia|]. exists []. split_and!; [done|constructor|].
    intros p. rewrite elem_of_nil. unfold has_room. split; [done|]. intros [? _]. lia.
  - intros rid. unfold rows_of. rewrite decide_False; [done|]. lia.
Qed.

(** *** The file [rm_create_file] leaves *)

Lemma rd_whole b n : len b = n → rd b 0 n = Some b.
Proof using Type. intros <-. apply rd_Some. split_and!; try lia. by rewrite Nat2Z.id, firstn_all. Qed.
Lemma wr_whole b b' : len b = len b' → wr b 0 b' = Some b'.
Proof using Type.
  intros Hl. apply wr_Some. split_and!; try lia. cbn [take Z.to_nat].
  rewrite drop_ge by (cbn; lia). by rewrite app_nil_r.
Qed.

Lemma create_file_empty path d d' :
  create_file path d = (Ok tt, d') → k_files (kernel d') !! path = Some [].
Proof.
  unfold create_file, is_file, k_stat, syscall, k_open, bind, gets, throw.
  destruct (k_files (kernel d) !! path) as [x|] eqn:E; cbn; rewrite ?E; cbn; [discriminate|].
  destruct (free_fd (kernel d)) as [fd|]; cbn; [|discriminate].
  case_match; cbn; [discriminate|]. unfold k_close. cbn. rewrite lookup_insert_eq. intros [= <-]. cbn.
  by rewrite lookup_insert_eq.
Qed.

Lemma open_file_opens path d fd d' : open_file path d = (Ok fd, d') →
  k_files (kernel d') = k_files (kernel d) ∧ k_fds (kernel d') !! fd = Some (path, 0).
Proof.
  unfold open_file, syscall, k_open, bind, gets, throw, modify, ret. cbn.
  destruct (path2fd_ d !! path); [discriminate|].
  destruct (k_files (kernel d) !! path), (free_fd (kernel d)); cbn; try discriminate.
  case_match; [discriminate|]. intros [= <- <-]. cbn. by rewrite lookup_insert_eq.
Qed.

Lemma write_page_creates fd path data d d' :
  write_page fd 0 data d = (Ok tt, d') → k_fds (kernel d) !! fd = Some (path, 0) →
  k_files (kernel d) !! path = Some [] → k_files (kernel d') !! path = Some data.
Proof.
  intros (path' & o & f & Hfd' & Hf' & _ & ->)%write_page_Ok Hfd Hf. simplify_eq. cbn.
  rewrite lookup_insert_eq. unfold overwrite. cbn. by rewrite drop_nil, app_nil_r.
Qed.

Lemma close_file_files fd d d' : close_file fd d = (Ok tt, d') → k_files (kernel d') = k_files (kernel d).
Proof.
  unfold close_file, syscall, k_close, bind, gets, throw, modify. cbn.
  destruct (fd2path_ d !! fd); [|discriminate]. destruct (k_fds (kernel d) !! fd); cbn; [|discriminate].
  by intros [= <-].
Qed.

Lemma rm_create_file_writes path rs s s' :
  rm_create_file path rs s = (Ok tt, s') →
  1 ≤ rs ≤ RM_MAX_RECORD_SIZE ∧ k_files (kernel (s_disk s')) !! path = Some (file_hdr_bytes (created_hdr rs)).
Proof.
  unfold rm_create_file. destruct (_ || _) eqn:Eg; [discriminate|]. intros H.
  apply orb_false_iff in Eg. split; [lia|].
  apply bind_Ok in H as ([] & ? & (d1 & Hcr%create_file_empty & ->)%disk_call_Ok & H).
  apply bind_Ok in H as (fd & ? & (d2 & [Hf Hfd]%open_file_opens & ->)%disk_call_Ok & H).
  apply bind_Ok in H as ([] & ? & (d3 & Hw & ->)%disk_call_Ok & (d4 & Hc%close_file_files & ->)%disk_call_Ok).
  cbn in *. rewrite Hc. eapply write_page_creates; [exact Hw|exact Hfd|by rewrite Hf].
Qed.

Lemma rm_open_file_reads path h s fd h' s' :
  k_files (kernel (s_disk s)) !! path = Some (file_hdr_bytes h) → file_hdr_of (file_hdr_bytes h) = Some h →
  rm_open_file path s = (Ok (fd, h'), s') → h' = h.
Proof.
  intros Hf Hh H. unfold rm_open_file in H.
  apply bind_Ok in H as (fd1 & ? & (d1 & [Hf1 Hfd]%open_file_opens & ->)%disk_call_Ok & H).
  apply bind_Ok in H as (h1 & s2 & H & [[= <- <-] <-]%ret_Ok). rewrite <-Hf1 in Hf. clear Hf1.
  unfold RmFileHandle_new in H. destruct (read_page _ _ _ _) as [o [buf d]] eqn:Hr.
  apply bind_Ok in H as ([] & s3 & [= -> <-] & H).
  apply read_page_Ok in Hr as (f & bs & Hff & _ & Hrd & Hwr & _); [|done].
  unfold file_of in Hff. cbn in Hff. rewrite Hfd in Hff. cbn in Hff. rewrite Hf in Hff. injection Hff as <-.
  pose proof (file_hdr_bytes_length h) as Hlen. set (hb := file_hdr_bytes h) in *. clearbody hb.
  assert (bs = hb) as -> by (change (rd hb 0 20 = Some bs) in Hrd; rewrite (rd_whole hb 20 Hlen) in Hrd; congruence).
  assert (buf = hb) as -> by (rewrite wr_whole in Hwr; [congruence|by rewrite Hlen]).
  rewrite Hh in H. apply bind_Ok in H as (h2 & s4 & [= <- <-] & H).
  by apply bind_Ok in H as ([] & s5 & _ & [[= <-] _]%ret_Ok).
Qed.

(** What a header says of the pages of its file: the bitmap has a bit for every record, the
    slots lie behind the bitmap, inside the page and apart from each other. *)
Record page_layout (rs : Z) (h : RmFileHdr) : Prop := {
  pl_size : record_size h = rs;
  pl_some : 1 ≤ num_records_per_page h;
  pl_bits : num_records_per_page h ≤ 8 * bitmap_size h;
  pl_slots i : 0 ≤ i < num_records_per_page h →
    OFFSET_BITMAP + bitmap_size h ≤ get_slot h i ∧ get_slot h i + rs ≤ PAGE_SIZE;
  pl_apart i j : i < j → get_slot h i + rs ≤ get_slot h j;
}.

Lemma created_layout rs : 1 ≤ rs ≤ RM_MAX_RECORD_SIZE → page_layout rs (created_hdr rs).
Proof.
  intros Hrs. pose proof (created_hdr_ok rs Hrs) as Hh. set (h := created_hdr rs) in *.
  pose proof (hdr_ok_bounds h Hh) as (? & Hb & _). split; [done|lia| | |].
  - rewrite Hb. pose proof (Z.div_mod (num_records_per_page h + 7) 8).
    pose proof (Z.mod_pos_bound (num_records_per_page h + 7) 8). lia.
  - intros i Hi. exact (get_slot_range h i Hh Hi).
  - intros i j Hij. unfold get_slot. simpl. nia.
Qed.

(** C24: [rm_create_file] refuses a record size out of range and changes nothing then;
    whenever it returns, the size was in range, the new file holds exactly a header, and
    the layout of a page by that header fits: a page holds at least one record, the bitmap
    has a bit for each, and the slots lie behind the bitmap, inside the page and apart from
    each other.  It is the header [rm_open_file] gives for the file. *)
Theorem record_layout_fits (filename : string) (rs : Z) s :
  (¬ 1 ≤ rs ≤ RM_MAX_RECORD_SIZE → rm_create_file filename rs s = (Throw (InvalidRecordSizeError rs), s)) ∧
  ∀ s', rm_create_file filename rs s = (Ok tt, s') →
    1 ≤ rs ≤ RM_MAX_RECORD_SIZE ∧
    ∃ h, k_files (kernel (s_disk s')) !! filename = Some (file_hdr_bytes h) ∧ page_layout rs h ∧
      ∀ fd h' s'', rm_open_file filename s' = (Ok (fd, h'), s'') → h' = h.
Proof using Type.
  split.
  - intros Hrs. unfold rm_create_file. destruct (_ || _) eqn:Eg; [done|]. apply orb_false_iff in Eg. lia.
  - intros s' [Hrs Hf]%rm_create_file_writes. split; [done|]. exists (created_hdr rs).
    split_and!; [done|by apply created_layout|]. intros fd h' s''. apply rm_open_file_reads; [done|].
    pose proof (hdr_ok_bounds _ (created_hdr_ok rs Hrs)) as ([? ?] & Hb & _).
    assert (0 ≤ bitmap_size (created_hdr rs) ≤ 454) by (rewrite Hb; split; [apply Z.div_pos; lia|]; apply Z.div_le_upper_bound; lia).
    unfold RM_MAX_RECORD_SIZE in Hrs.
    assert (record_size (created_hdr rs) = rs ∧ num_pages (created_hdr rs) = 1 ∧
      first_free_page_no (created_hdr rs) = -1) as (E1 & E2 & E3) by done.
    rewrite <-(app_nil_r (file_hdr_bytes _)). apply file_hdr_of_bytes; apply i32_ok_range; lia.
Qed.

(** The operations of a record file, and the table they stand for. *)
Inductive rm_op : Type :=
  | RGet (rid : Rid)
  | RInsert (buf : bytes) (context : bool)
  | RDelete (rid : Rid) (context : bool)
  | RUpdate (rid : Rid) (buf : bytes) (context : bool).
Inductive rm_ret : Type := RetRecord (b : bytes) | RetRid (rid : Rid) | RetUnit.

Definition rm_exec (fd : Z) (op : rm_op) : M (RmFileHdr * Storage R) rm_ret :=
  match op with
  | RGet rid => let! b := get_record fd rid None in ret (RetRecord b)
  | RInsert buf c => let! rid := insert_record fd buf c in ret (RetRid rid)
  | RDelete rid c => do! delete_record fd rid c in ret RetUnit
  | RUpdate rid buf c => do! update_record fd rid buf c in ret RetUnit
  end.

(** Records are read, deleted and updated where there is one. *)
Definition rm_pre (T : Rid → option bytes) (op : rm_op) : Prop :=
  match op with
  | RInsert _ _ => True
  | RGet rid | RDelete rid _ | RUpdate rid _ _ => is_Some (T rid)
  end.

Definition table_step (rs : Z) (op : rm_op) (r : rm_ret) (T T' : Rid → option bytes) : Prop :=
  match op, r with
  | RGet rid, RetRecord b => T rid = Some b ∧ ∀ q, T' q = T q
  | RInsert buf _, RetRid rid =>
      T rid = None ∧ ∀ q, T' q = if decide (q = rid) then rd buf 0 rs else T q
  | RDelete rid _, RetUnit => ∀ q, T' q = if decide (q = rid) then None else T q
  | RUpdate rid buf _, RetUnit => ∀ q, T' q = if decide (q = rid) then rd buf 0 rs else T q
  | _, _ => False
  end.

Lemma rm_exec_insert_inv fd h s buf c r h' s' :
  rm_inv fd h s → num_pages h < INT_MAX →
  rm_exec fd (RInsert buf c) (h, s) = (Ok r, (h', s')) → rm_inv fd h' s'.
Proof.
  intros Hr Hmax H. simpl in H. apply bind_Ok in H as (rid & ? & H & [_ <-]%ret_Ok).
  by apply insert_record_rm in H as (? & _).
Qed.

(** C1: a record file implements a table, a finite map from places to records of
    [record_size] bytes.  Every operation that returns does to the map exactly
    what it is for - an insertion takes a place that was free - and leaves every
    page unpinned as often as it pinned it; and it keeps the file's invariant: the
    counts of the page headers are those of the bitmaps, and the chain from
    [first_free_page_no] is, without repetition, the pages that have a free slot. *)
Theorem record_file_refines_table fd h s op r h' s' :
  rm_inv fd h s → num_pages h < INT_MAX → rm_pre (rows_of fd h s) op →
  rm_exec fd op (h, s) = (Ok r, (h', s')) →
  rm_inv fd h' s' ∧ table_step (record_size h) op r (rows_of fd h s) (rows_of fd h' s') ∧
  same_pins s s'.
Proof.
  intros Hr Hmax Hpre H. destruct op as [rid|buf c|rid c|rid buf c]; simpl in Hpre, H.
  - destruct Hpre as [b Hb]. apply bind_Ok in H as (b' & ? & H & [-> <-]%ret_Ok).
    by apply (get_record_rm _ _ _ _ b) in H as (-> & -> & ? & ? & ?).
  - apply bind_Ok in H as (rid & ? & H & [-> <-]%ret_Ok).
    by apply insert_record_rm in H as (? & ? & _ & ? & ?).
  - destruct Hpre as [b Hb]. apply bind_Ok in H as ([] & ? & H & [-> <-]%ret_Ok).
    by apply (delete_record_rm _ _ _ _ b) in H as (? & ? & ?).
  - destruct Hpre as [b Hb]. apply bind_Ok in H as ([] & ? & H & [-> <-]%ret_Ok).
    by apply (update_record_rm _ _ _ _ _ b) in H as (-> & ? & ? & ?).
Qed.

(** C29: [delete_undo], the rollback of a deletion, puts the record back but leaves
    the page's [num_records] one short of its bitmap, so the file's invariant is
    lost: the count says there is a free slot where there may be none. *)
Theorem delete_undo_loses_count fd h s rid buf h' s' :
  rm_inv fd h s → 1 ≤ page_no rid < num_pages h → 0 ≤ slot_no rid < num_records_per_page h →
  rows_of fd h s rid = None → delete_undo fd rid buf (h, s) = (Ok tt, (h', s')) →
  h' = h ∧ rows_of fd h s' rid = rd buf 0 (record_size h) ∧
  ∃ d, view s' (fd, page_no rid) = Some d ∧
    num_records d = Some (Z.of_nat (size (occ h d)) - 1) ∧ ¬ page_ok h d.
Proof.
  intros Hr Hp Hslot Hnone H. unfold delete_undo, insert_record_at in H.
  pose proof (ri_hdr _ _ _ Hr) as Hh.
  apply bind_Ok in H as (f & ? & (s1 & Hf & ->)%zoom_Ok & H); simpl in Hf, H.
  apply (fetch_rm _ _ _ _ _ _ Hr Hp) in Hf as (Hr1 & Hrows1 & Hpins1 & _ & d & Hd & Hok & He).
  apply bind_Ok in H as (? & ? & [-> ->]%gets_Ok & H); simpl in H.
  apply bind_Ok in H as ([] & ? & (s2 & Hst & ->)%zoom_Ok & H). simpl in Hst, H.
  apply (store_editing _ _ _ _ _ _ _ He) in Hst as (d2 & Hcp & He2).
  destruct Hok as [Hl Hc]. destruct (Bitmap.set d OFFSET_BITMAP (slot_no rid)) as [d1|] eqn:H1; [|done].
  simpl in Hcp. assert (Ho1 : occ h d1 = {[slot_no rid]} ∪ occ h d) by by eapply Bitmap.occupied_set.
  apply Bitmap.set_wr in H1 as [b Hb]; [|lia].
  apply (bit_write_spec h Hh) in Hb as (L1 & _ & N1 & _); [|done].
  apply (copy_to_slot_spec h Hh) in Hcp as (L2 & O2 & _ & N2 & Rn & _); [|congruence|done].
  specialize (He2 L2).
  apply bind_Ok in H as (n & ? & (s9 & Hno & ->)%zoom_Ok & H). simpl in Hno, H.
  apply (frame_page_no_editing _ _ _ _ _ _ _ He2) in Hno as [-> ->]. simpl in H.
  apply zoom_Ok in H as (s3 & Hun & [= -> ->]). simpl in Hun.
  apply unpin_editing with (1 := He2) in Hun as Hdn.
  assert (Hnot : slot_no rid ∉ occ h d).
  { intros Hin. rewrite <- Hrows1, (rows_of_page _ _ _ _ d) in Hnone by done. unfold row in Hnone.
    rewrite decide_True in Hnone by done. pose proof (get_slot_range h _ Hh Hslot) as [? Hend].
    pose proof (ho_size _ Hh). rewrite slots_end in * by done.
    pose proof (Z.div_pos (num_records_per_page h + 7) 8).
    destruct (rd_is_Some d (get_slot h (slot_no rid)) (record_size h)) as [x Hx];
      [unfold OFFSET_BITMAP, OFFSET_PAGE_HDR in *; lia|lia|rewrite Hl; lia|]. congruence. }
  assert (Hcount : num_records d2 = Some (Z.of_nat (size (occ h d2)) - 1)).
  { rewrite N2, N1, Hc, O2, Ho1, size_union, size_singleton by set_solver. f_equal. lia. }
  pose proof (dn_view _ _ _ _ Hdn) as Hv3.
  split_and!; [done| |].
  - rewrite (rows_of_page _ _ _ _ d2) by done. unfold row. rewrite O2, Ho1, decide_True by set_solver. done.
  - exists d2. split_and!; [done|done|]. intros [_ Hc2]. rewrite Hcount in Hc2. injection Hc2. lia.
Qed.

(** A fetch of a page in the pool, in any state: it serves the frame's data. *)
Lemma fetch_cached_view s pid f o s' :
  page_table_ (s_bpm s) !! pid = Some f → fetch_page pid s = (Ok o, s') →
  o = Some f ∧ view s' pid = view s pid.
Proof.
  intros Hm H. unfold fetch_page in H. rewrite bind_gets, Hm in H.
  apply bind_Ok in H as ([] & ? & (p & Hp & ->)%pin_frame_Ok & [-> ->]%ret_Ok). split; [done|].
  unfold view. simpl. rewrite Hm.
  change (frame (set_replacer _ _) f) with
    (frame (upd_frame f (mkPage (id_ p) (data_ p) (is_dirty_ p) (pin_count_ p + 1)) s) f).
  rewrite frame_upd by eauto. by rewrite decide_True, Hp.
Qed.

(** C29: [RmManager::close_file] leaves the file's pages in the buffer pool, mapped
    under the descriptor it closes.  When the kernel gives that descriptor to the
    next file that is opened, the pool serves the closed file's pages as pages of
    the new file. *)
Theorem closed_file_pages_are_served_again s fd h p f path s1 s2 o s3 :
  pool_inv s → page_table_ (s_bpm s) !! (fd, RM_FILE_HDR_PAGE) = None →
  page_table_ (s_bpm s) !! (fd, p) = Some f →
  rm_close_file fd h s = (Ok tt, s1) → disk_call (open_file path) s1 = (Ok fd, s2) →
  fetch_page (fd, p) s2 = (Ok o, s3) →
  o = Some f ∧ view s3 (fd, p) = view s (fd, p).
Proof.
  intros Hi Hun Hm Hclose Hopen Hfetch. unfold rm_close_file in Hclose.
  apply bind_Ok in Hclose as ([] & sa & Hw & H).
  apply raw_write_Ok in Hw as (Hia & _ & Hfda & Hta & _ & _ & Hva);
    [|done|done|rewrite file_hdr_bytes_length; done].
  apply bind_Ok in H as ([] & sb & Hfl & (d1 & _ & ->)%disk_call_Ok).
  apply flush_all_Ok in Hfl as (Hib & Hvb & _ & _ & Htb & _); [|done].
  apply disk_call_Ok in Hopen as (d2 & _ & ->).
  apply fetch_cached_view with (f := f) in Hfetch as [-> Hv]; [|simpl; congruence].
  split; [done|]. rewrite Hv. destruct (pi_map _ Hi _ _ Hm) as (Hfd & _ & pg & Hpg & Hid).
  assert (Hview : view s (fd, p) = Some (data_ pg)).
  { unfold view. rewrite Hm. simpl. by rewrite Hpg. }
  assert (Hne : (fd, p) ≠ (fd, RM_FILE_HDR_PAGE)) by congruence.
  apply Hva in Hview as Hview2; [|done|done]. apply Hvb in Hview2; [|by apply Hfda].
  rewrite Hview, <- Hview2. unfold view. simpl. rewrite Htb, Hta, Hm. done.
Qed.
End properties.

(** ** Witnesses: a file of 100-byte records over a pool of LRU frames *)

#[local] Existing Instance LRU.lru_replacer.
#[local] Existing Instance LRU.lru_laws.

Definition demo_hdr : RmFileHdr := created_hdr 100.
Definition demo_rm_disk : DiskManager :=
  foldl (λ d op, dm_exec op d) (DiskManager_new demo_kernel)
    [OpCreateFile LOG_FILE_NAME; OpCreateFile "t"; OpOpenFile "t";
     OpWritePage 3 0 (file_hdr_bytes demo_hdr); OpSetPageno 3 1].
Definition demo_rm_storage (n : nat) : Storage LRU.LRUReplacer :=
  mkStorage demo_rm_disk None (BufferPoolManager_new n 0 (LRU.LRUReplacer_new (Z.of_nat n))).
Definition demo_record : bytes := replicate 100 7.

Lemma demo_rm_inv n : rm_inv 3 demo_hdr (demo_rm_storage n).
Proof.
  apply fresh_file_inv.
  - apply BufferPoolManager_new_inv.
    + repeat apply dm_exec_inv. apply DiskManager_new_inv. reflexivity.
    + left. reflexivity.
    + apply LRU.lru_new_inv.
    + reflexivity.
  - exists "t"%string. split; [vm_compute; reflexivity|discriminate].
  - apply created_hdr_ok. unfold RM_MAX_RECORD_SIZE. lia.
  - reflexivity.
  - reflexivity.
  - vm_compute. reflexivity.
  - intros p. apply lookup_empty.
Qed.

(** A new file, and the file opened again. *)
Definition demo_created : Storage LRU.LRUReplacer := (rm_create_file "u" 512 (demo_rm_storage 2)).2.
Definition demo_opened : outcome (Z * RmFileHdr) := (rm_open_file "u" demo_created).1.

Lemma record_layout_fits_witness :
  rm_create_file "u" 512 (demo_rm_storage 2) = (Ok tt, demo_created) ∧
  demo_opened = Ok (4, created_hdr 512) ∧ page_layout 512 (created_hdr 512).
Proof.
  assert (rm_create_file "u" 512 (demo_rm_storage 2) = (Ok tt, demo_created)) as Hc
    by (apply run_outcome; [reflexivity|vm_compute; reflexivity]).
  assert (demo_opened = Ok (4, created_hdr 512)) as Ho by (vm_compute; reflexivity).
  split; [exact Hc|]. split; [exact Ho|].
  destruct (proj2 (record_layout_fits "u" 512 (demo_rm_storage 2)) demo_created Hc) as (_ & h & _ & Hl & Hh).
  rewrite (Hh 4 (created_hdr 512) (rm_open_file "u" demo_created).2); [exact Hl|].
  rewrite <-Ho. apply surjective_pairing.
Defined.

(** The state after one insertion, as the operation leaves it. *)
Definition demo_inserted : RmFileHdr * Storage LRU.LRUReplacer :=
  (rm_exec 3 (RInsert demo_record false) (demo_hdr, demo_rm_storage 2)).2.

Lemma demo_insert_run :
  rm_exec 3 (RInsert demo_record false) (demo_hdr, demo_rm_storage 2)
  = (Ok (RetRid (mkRid 1 0)), (demo_inserted.1, demo_inserted.2)).
Proof. rewrite <- surjective_pairing. apply run_outcome; [reflexivity|vm_compute; reflexivity]. Qed.

Lemma record_file_refines_table_witness :
  rm_inv 3 demo_inserted.1 demo_inserted.2 ∧
  rows_of 3 demo_inserted.1 demo_inserted.2 (mkRid 1 0) = Some demo_record.
Proof.
  destruct (record_file_refines_table 3 demo_hdr (demo_rm_storage 2) (RInsert demo_record false)
    (RetRid (mkRid 1 0)) demo_inserted.1 demo_inserted.2) as (Hr & (_ & Hrows) & _).
  - apply demo_rm_inv.
  - reflexivity.
  - exact I.
  - exact demo_insert_run.
  - split; [exact Hr|]. rewrite Hrows. reflexivity.
Defined.

(** The invariant of the state after the insertion, without the theorem above. *)
Lemma demo_inserted_inv : rm_inv 3 demo_inserted.1 demo_inserted.2.
Proof.
  eapply rm_exec_insert_inv; [apply demo_rm_inv|reflexivity|exact demo_insert_run].
Qed.

Lemma delete_undo_loses_count_witness :
  ∃ d, view (delete_undo 3 (mkRid 1 5) demo_record demo_inserted).2.2 (3, 1) = Some d ∧
    ¬ page_ok demo_inserted.1 d.
Proof.
  set (t := (delete_undo 3 (mkRid 1 5) demo_record demo_inserted).2).
  destruct (delete_undo_loses_count 3 demo_inserted.1 demo_inserted.2 (mkRid 1 5) demo_record t.1 t.2)
    as (_ & _ & d & Hv & _ & Hn).
  - exact demo_inserted_inv.
  - vm_compute. split; congruence.
  - vm_compute. split; congruence.
  - vm_compute. reflexivity.
  - rewrite <- !surjective_pairing. apply run_outcome; [reflexivity|vm_compute; reflexivity].
  - exists d. split; [exact Hv|exact Hn].
Defined.

(** The table is closed with its page in the pool; the file opened next gets descriptor
    3 and, as its page 1, the table's. *)
Definition demo_closed : Storage LRU.LRUReplacer := (rm_close_file 3 demo_inserted.1 demo_inserted.2).2.
Definition demo_reopened : Storage LRU.LRUReplacer := (disk_call (open_file LOG_FILE_NAME) demo_closed).2.

Lemma closed_file_pages_are_served_again_witness :
  view (fetch_page (3, 1) demo_reopened).2 (3, 1) = view demo_inserted.2 (3, 1).
Proof.
  refine (proj2 (closed_file_pages_are_served_again demo_inserted.2 3 demo_inserted.1 1 0 LOG_FILE_NAME
    demo_closed demo_reopened (Some 0) (fetch_page (3, 1) demo_reopened).2 _ _ _ _ _ _)).
  - apply demo_inserted_inv.
  - vm_compute. reflexivity.
  - vm_compute. reflexivity.
  - apply run_outcome; [reflexivity|vm_compute; reflexivity].
  - apply run_outcome; [reflexivity|vm_compute; reflexivity].
  - apply run_outcome; [reflexivity|vm_compute; reflexivity].
Defined.
