(* ===== verification/PoolRun.v ===== *)
(** * The buffer pool's calls return

    In a pool that satisfies its invariant no call of the buffer pool runs into undefined
    behaviour: it returns, or throws an error of the file system.  What the calls do when
    they return is in BufferPool.v; the index needs both.  A page number times the page
    size is an [int] in the code, so the pages have to lie in the first 2 GB of a file. *)
From S2P Require Import Prelude Bytes Disk Log Replacer BufferPool Record.

(** The exceptions of the disk manager: what a full disk, a missing file or a file that is
    cut short lead to. *)
Definition io_error (e : exn) : bool :=
  match e with
  | InternalError _ | RuntimeError _ | UnixError | FileNotFoundError _ | FileNotClosedError _ => true
  | _ => false
  end.

Abbreviation runs m s := (wp m (λ _ _, True) (λ e _, io_error e = true) s).

Lemma wp_syscall {A} (f : Kernel → A * Kernel) (Q : A → DiskManager → Prop) E d :
  Q (f (kernel d)).1 (set_kernel (f (kernel d)).2 d) → wp (syscall f) Q E d.
Proof. unfold wp, syscall. by destruct (f (kernel d)). Qed.

Lemma write_page_runs fd n data d : i32_ok (n * PAGE_SIZE) = true → runs (write_page fd n data) d.
Proof.
  intros Hn. unfold write_page. apply wp_bind, wp_massert; [done|]. apply wp_bind, wp_syscall.
  destruct (_ =? -1); [by apply wp_throw|]. apply wp_bind, wp_syscall.
  destruct (_ =? len data); [by apply wp_ret|by apply wp_throw].
Qed.

Lemma read_page_runs fd n k buf d :
  i32_ok (n * PAGE_SIZE) = true → 0 ≤ k ≤ len buf → runs (read_page fd n k) (buf, d).
Proof.
  intros Hn Hk. unfold read_page. cbv zeta. apply wp_bind, wp_massert.
  { rewrite Hn. simpl. lia. }
  apply wp_bind, wp_zoom, wp_syscall. cbn [fst snd].
  destruct (_ =? -1); [by apply wp_throw|]. apply wp_bind, wp_zoom, wp_syscall. cbn [fst snd].
  destruct (k_read fd k _).1 as [bs|] eqn:Er; [|by apply wp_throw].
  assert (len bs ≤ k) as Hbs.
  { unfold k_read in Er. destruct (k_fds _ !! fd) as [[path off]|]; [|done].
    destruct (k_files _ !! path); [|done]. injection Er as <-. rewrite length_take. lia. }
  apply wp_bind, wp_gets, wp_bind, wp_of_option; [apply wr_is_Some; cbn; lia|].
  intros buf' _. apply wp_bind, wp_modify. destruct (len bs =? k); [by apply wp_ret|by apply wp_throw].
Qed.

Lemma open_file_runs path d : runs (open_file path) d.
Proof.
  unfold open_file. apply wp_bind, wp_gets. destruct (path2fd_ d !! path); [by apply wp_throw|].
  apply wp_bind, wp_syscall. destruct (_ =? -1); [by apply wp_throw|].
  by apply wp_bind, wp_modify, wp_ret.
Qed.

Lemma write_log_runs bs d : runs (write_log bs) d.
Proof.
  unfold write_log, open_log. apply wp_bind, wp_bind, wp_gets.
  assert (∀ d1, runs (let! fd := gets log_fd_ in do! syscall (k_seek_end fd) in
    let! n := syscall (k_write fd bs) in if n =? len bs then ret tt else throw UnixError) d1) as Hrest.
  { intros d1. apply wp_bind, wp_gets, wp_bind, wp_syscall, wp_bind, wp_syscall.
    destruct (_ =? len bs); [by apply wp_ret|by apply wp_throw]. }
  destruct (log_fd_ d =? -1).
  - apply wp_bind, wp_Ok; [apply open_file_runs|]. intros fd d1 _. by apply wp_modify.
  - by apply wp_ret.
Qed.

Section runs.
Context {R : Type} `{!Replacer R, !ReplacerLaws R}.
Implicit Types (s : Storage R) (f fd : Z) (pid : PageId).
Abbreviation table s := (page_table_ (s_bpm s)).

(** The pages in the pool are in the first 2 GB of their files. *)
Definition small_pages s : Prop := ∀ pid f, table s !! pid = Some f → i32_ok (pid.2 * PAGE_SIZE) = true.

Lemma wp_disk_call {A} (m : M DiskManager A) (Q : A → Storage R → Prop) s :
  runs m (s_disk s) → (∀ a d, Q a (set_disk d s)) → wp (disk_call m) Q (λ e _, io_error e = true) s.
Proof.
  intros Hm HQ. apply wp_zoom. eapply wp_mono; [exact Hm|]. intros a d _. apply HQ.
Qed.

Lemma wp_get_frame f (Q : Page → Storage R → Prop) E s :
  is_Some (frame s f) → (∀ p, frame s f = Some p → Q p s) → wp (get_frame f) Q E s.
Proof. intros Hf HQ. unfold get_frame. by apply wp_bind, wp_gets, wp_of_option. Qed.

Lemma log_flush_runs s (Q : unit → Storage R → Prop) :
  is_Some (s_log s) → (∀ d l, Q tt (mkStorage d l (s_bpm s))) →
  wp log_flush Q (λ e _, io_error e = true) s.
Proof.
  intros [lm Hl] HQ. unfold wp, log_flush. rewrite Hl.
  assert (runs flush_log_to_disk (lm, s_disk s)) as Hf.
  { unfold flush_log_to_disk. apply wp_bind, wp_gets. destruct (_ =? 0); [by apply wp_ret|].
    apply wp_bind. apply wp_zoom. eapply wp_mono; [apply write_log_runs|]. intros [] d _. by apply wp_modify. }
  unfold wp in Hf. destruct (flush_log_to_disk (lm, s_disk s)) as [[[]|e|] [lm' d]]; auto.
Qed.

Lemma read_into_runs f fd n s :
  i32_ok (n * PAGE_SIZE) = true → (∃ p, frame s f = Some p ∧ len (data_ p) = PAGE_SIZE) →
  runs (read_into f fd n) s.
Proof.
  intros Hn (p & Hp & Hl). unfold read_into. apply wp_bind, wp_get_frame; [by eexists|].
  intros p' Hp'. simplify_eq.
  pose proof (read_page_runs fd n PAGE_SIZE (data_ p) (s_disk s) Hn) as Hr. unfold wp in *.
  destruct (read_page fd n PAGE_SIZE (data_ p, s_disk s)) as [[[]|e|] [buf d]]; apply Hr; rewrite Hl; done.
Qed.

Lemma pin_frame_runs f s : is_Some (frame s f) → runs (pin_frame f) s.
Proof. intros Hf. unfold pin_frame. apply wp_bind, wp_get_frame; [done|]. intros p _. done. Qed.

(** The frame the victim search gives is there. *)
Lemma victim_frame s f s1 :
  pool_inv s → find_victim_page s = (Ok (Some f), s1) →
  (∃ p, frame s f = Some p ∧ pin_count_ p = 0) ∧ pages_ (s_bpm s1) = pages_ (s_bpm s) ∧
  s_disk s1 = s_disk s ∧ s_log s1 = s_log s ∧ table s1 = table s.
Proof.
  intros Hi H. apply find_victim_Ok in H as (l & r & -> & _ & Huse); [|done]. split; [|done].
  destruct Huse as [[Hf _]|(_ & _ & Hf & _)].
  - destruct (pi_free _ Hi f) as (p & ? & _ & _ & ?); [rewrite Hf; by left|]. eauto.
  - by apply (pi_evict _ Hi).
Qed.

Lemma find_victim_runs s : runs find_victim_page s.
Proof.
  unfold find_victim_page. apply wp_bind, wp_gets. destruct (free_list_ _); [|done].
  by destruct (victim _).
Qed.

(** [update_page] after the victim search has taken the frame [f] out of the replacer. *)
Lemma update_victim_runs s f s1 pid (Q : unit → Storage R → Prop) :
  pool_inv s → small_pages s → find_victim_page s = (Ok (Some f), s1) →
  ∀ s2, pages_ (s_bpm s2) = pages_ (s_bpm s) → table s2 = table s → s_log s2 = s_log s →
  dm_inv (s_disk s2) → log_fd_ok (s_disk s2) →
  (∀ s3, frame s3 f = Some (mkPage pid reset_memory false 0) → dm_inv (s_disk s3) → Q tt s3) →
  wp (update_page f pid) Q (λ e _, io_error e = true) s2.
Proof.
  intros Hi Hs Hv s2 Hpg Ht Hl Hd Hlf HQ.
  destruct (victim_frame s f s1 Hi Hv) as ((p & Hp & Hpin) & _).
  assert (Hfr : ∀ g, frame s2 g = frame s g) by (intros g; unfold frame; by rewrite Hpg).
  assert (runs (update_page f pid) s2) as Hrun.
  { unfold update_page. apply wp_bind, wp_get_frame; [rewrite Hfr; by eexists|].
    intros p' Hp'. rewrite Hfr in Hp'. simplify_eq. apply wp_bind, wp_gets, wp_bind.
    assert (∀ s1, runs (
      do! (if is_dirty_ p then do! disk_call (write_page (id_ p).1 (id_ p).2 (data_ p)) in
             put_frame f (mkPage (id_ p) (data_ p) false (pin_count_ p)) else ret tt) in
      do! modify (λ s, set_table (delete (id_ p) (table s)) s) in
      do! modify (λ s, set_table (<[pid := f]> (table s)) s) in
      put_frame f (mkPage pid reset_memory false 0)) s1) as Hrest.
    { intros s4. apply wp_bind. destruct (is_dirty_ p) eqn:Hdirty; [|done].
      apply wp_bind, wp_disk_call; [|done].
      apply write_page_runs. destruct (pi_total _ Hi f p Hp) as [Hf|Hm]; [|by eapply Hs].
      apply (pi_free _ Hi) in Hf as (q & Hq & _ & Hq2 & _). congruence. }
    destruct (s_log s2) as [lm|] eqn:El; [|by apply wp_ret, Hrest].
    apply wp_bind, wp_of_option.
    { apply rd_i32_is_Some; [lia|]. destruct (pi_data _ Hi _ _ Hp) as [-> _]. done. }
    intros lsn _. destruct (lsn >? persist_lsn_ lm); [|by apply wp_ret, Hrest].
    apply log_flush_runs; [by eexists|]. intros d l. by apply Hrest. }
  apply wp_Ok; [exact Hrun|]. intros [] s3 H.
  apply update_page_Ok in H as (q & d' & log' & Hq & -> & Hd' & _); [|done..|].
  2: { intros q. rewrite Hfr. apply (pi_data _ Hi). }
  apply HQ; [|done]. rewrite frame_upd; [by rewrite decide_True|]. exact (mk_is_Some _ _ Hq).
Qed.

(** A fetch answers, with no page only if all frames are pinned. *)
Lemma fetch_page_runs pid s :
  pool_inv s → small_pages s → i32_ok (pid.2 * PAGE_SIZE) = true → runs (fetch_page pid) s.
Proof.
  intros Hi Hs Hn. unfold fetch_page. apply wp_bind, wp_gets. destruct (table s !! pid) as [f|] eqn:Hm.
  { apply wp_bind. eapply wp_mono; [apply pin_frame_runs|done].
    destruct (mapped_frame s pid f Hi Hm) as (p & ? & _). by eexists. }
  apply wp_bind, wp_Ok; [apply find_victim_runs|]. intros [f|] s1 Hv; [|done].
  destruct (victim_frame _ _ _ Hi Hv) as (_ & Hpg & Hd & Hl & Ht).
  apply wp_bind. eapply update_victim_runs; [done|done|exact Hv|done|done|done|rewrite Hd; apply Hi..|].
  intros s3 Hf Hd3. apply wp_bind, wp_Ok.
  { apply read_into_runs; [done|]. eexists. split; [exact Hf|]. apply reset_memory_length. }
  intros [] s4 H. apply read_into_Ok in H as (p & d' & bs & Hp & _ & _ & -> & _); [|done|].
  2: { intros p. rewrite Hf. intros [= <-]. apply reset_memory_length. }
  apply wp_bind. eapply wp_mono; [apply pin_frame_runs|done].
  eexists. rewrite frame_upd; [by rewrite decide_True|]. exact (mk_is_Some _ _ Hp).
Qed.

Lemma new_page_runs fd s :
  pool_inv s → small_pages s → 0 ≤ fd < MAX_FD →
  i32_ok (get_fd2pageno (s_disk s) fd * PAGE_SIZE) = true → runs (new_page fd) s.
Proof.
  intros Hi Hs Hfd Hn. unfold new_page.
  apply wp_bind, wp_Ok; [apply find_victim_runs|]. intros [f|] s1 Hv; [|done].
  destruct (victim_frame _ _ _ Hi Hv) as (_ & Hpg & Hd & Hl & Ht).
  apply wp_bind, wp_zoom. unfold allocate_page. apply wp_bind, wp_massert; [lia|].
  apply wp_bind, wp_gets, wp_bind, wp_modify, wp_ret. rewrite Hd.
  apply wp_bind. eapply update_victim_runs; [done|done|exact Hv|done|done|done|cbn..|].
  { apply set_pageno_inv, Hi. }
  { apply Hi. }
  intros s3 Hf Hd3. apply wp_bind, wp_Ok; [apply pin_frame_runs; by eexists|].
  intros [] s4 (p & Hp & ->)%pin_frame_Ok. apply wp_bind, wp_get_frame.
  { apply frame_is_Some. cbn. rewrite length_insert. apply frame_is_Some. by eexists. }
  intros q _. apply wp_bind, wp_disk_call; [by apply write_page_runs|]. done.
Qed.

Lemma unpin_page_runs pid dirty s : pool_inv s → runs (unpin_page pid dirty) s.
Proof.
  intros Hi. unfold unpin_page. apply wp_bind, wp_gets. destruct (table s !! pid) as [f|] eqn:Hm; [|done].
  destruct (mapped_frame s pid f Hi Hm) as (p & Hp & _). apply wp_bind, wp_get_frame; [by eexists|].
  intros p' _. destruct (_ =? 0); [done|]. apply wp_bind, wp_modify, wp_bind. by destruct (_ =? 0).
Qed.

Lemma delete_page_runs pid s : pool_inv s → small_pages s → runs (delete_page pid) s.
Proof.
  intros Hi Hs. unfold delete_page. apply wp_bind, wp_gets. destruct (table s !! pid) as [f|] eqn:Hm; [|done].
  destruct (mapped_frame s pid f Hi Hm) as (p & Hp & Hid). apply wp_bind, wp_get_frame; [by eexists|].
  intros q Hq. assert (q = p) as -> by congruence. destruct (_ >? 0); [done|]. apply wp_bind.
  destruct (is_dirty_ p); [|done]. apply wp_disk_call; [|done]. apply write_page_runs. rewrite Hid. by eapply Hs.
Qed.

End runs.

(** ** How many frames are pinned *)

Lemma size_union_at_most {A} `{Countable A} (X Y : gset A) : (size (X ∪ Y) ≤ size X + size Y)%nat.
Proof. rewrite size_union_alt. apply Nat.add_le_mono_l, subseteq_size. set_solver. Qed.

Lemma size_list_at_most {A} `{Countable A} (l : list A) : (size (list_to_set (C := gset A) l) ≤ length l)%nat.
Proof.
  induction l as [|x l IH]; [done|]. cbn [list_to_set length].
  etrans; [apply size_union_at_most|]. rewrite size_singleton. lia.
Qed.

Section pinned.
Context {R : Type} `{!Replacer R, !ReplacerLaws R}.
Implicit Types (s : Storage R).
Abbreviation table s := (page_table_ (s_bpm s)).
Abbreviation frames s := (length (pages_ (s_bpm s))).

Definition pinned s : gset PageId := filter (λ q, 0 < pins s q) (dom (table s)).

Lemma elem_of_pinned s q : q ∈ pinned s ↔ 0 < pins s q.
Proof.
  unfold pinned. rewrite elem_of_filter, elem_of_dom. split; [tauto|]. intros H. split; [done|].
  apply pinned_mapped in H as (f & p & Hf & _). by eexists.
Qed.

(** All frames are pinned only if there are as many pinned pages as frames. *)
Lemma full_pinned s :
  pool_inv s → free_list_ (s_bpm s) = [] → (∀ f p, frame s f = Some p → 0 < pin_count_ p) →
  (frames s ≤ size (pinned s))%nat.
Proof.
  intros Hi Hfree Hpin. set (L := pages_ (s_bpm s)).
  assert (∀ i p, L !! i = Some p → table s !! id_ p = Some (Z.of_nat i) ∧ 0 < pins s (id_ p)) as HL.
  { intros i p Hp. assert (frame s (Z.of_nat i) = Some p) as Hf.
    { unfold frame. destruct (Z.leb_spec 0 (Z.of_nat i)); [|lia]. by rewrite Nat2Z.id. }
    destruct (pi_total _ Hi _ _ Hf) as [Hin|Hm]; [rewrite Hfree in Hin; by apply elem_of_nil in Hin|].
    split; [done|]. rewrite (pins_mapped _ _ _ _ Hm Hf). by eapply Hpin. }
  assert (NoDup (id_ <$> L)) as Hnd.
  { apply NoDup_alt. intros i j q (p & Hq & Hi')%list_lookup_fmap_Some (p' & Hq' & Hj')%list_lookup_fmap_Some.
    destruct (HL _ _ Hi') as [H1 _]. destruct (HL _ _ Hj') as [H2 _]. rewrite <-Hq, Hq', H2 in H1. simplify_eq. lia. }
  rewrite <-(length_fmap id_). fold L. rewrite <-(size_list_to_set (C := gset PageId) (id_ <$> L) Hnd).
  apply subseteq_size. intros q (p & -> & Hp)%elem_of_list_to_set%list_elem_of_fmap.
  apply list_elem_of_lookup in Hp as (i & Hp). apply elem_of_pinned. by apply (HL i).
Qed.

(** A new page is refused only then. *)
Lemma new_none s fd s' : pool_inv s → new_page fd s = (Ok None, s') → (frames s ≤ size (pinned s))%nat.
Proof.
  intros Hi H. unfold new_page in H. apply bind_Ok in H as (v & s1 & Hv & H). destruct v as [g|].
  { apply bind_Ok in H as (? & ? & _ & H). apply bind_Ok in H as (? & ? & _ & H).
    apply bind_Ok in H as (? & ? & _ & H). apply bind_Ok in H as (? & ? & _ & H).
    by apply bind_Ok in H as (? & ? & _ & [? _]%ret_Ok). }
  apply find_victim_None in Hv as (_ & Hfree & Hev); [|done]. apply full_pinned; [done|done|].
  intros g P HP. destruct (pi_data _ Hi _ _ HP) as [_ Hpin].
  destruct (pi_total _ Hi _ _ HP) as [Hf|Hm]; [rewrite Hfree in Hf; by apply elem_of_nil in Hf|].
  destruct (decide (pin_count_ P = 0)) as [Hz|]; [|lia].
  apply (pi_unpinned _ Hi _ _ _ Hm HP) in Hz. rewrite Hev in Hz. by apply elem_of_empty in Hz.
Qed.

(** *** The calls keep the number of frames, and the log manager *)

Definition same_frames s s' : Prop := frames s' = frames s ∧ (is_Some (s_log s) → is_Some (s_log s')).
#[export] Instance same_frames_preorder : PreOrder same_frames.
Proof. split; [done|]. intros ??? [H1 ?] [H2 ?]. split; [congruence|auto]. Qed.

Lemma frames_put f p : within same_frames (put_frame f p).
Proof. intros s. split; [apply length_insert|done]. Qed.
Lemma frames_disk {A} (m : M DiskManager A) : within same_frames (disk_call m).
Proof. intros s. unfold disk_call, zoom. by destruct (m _). Qed.
Lemma frames_get f : within same_frames (get_frame f).
Proof. unfold get_frame. within_steps. Qed.
Lemma frames_flush : within same_frames log_flush.
Proof. intros s. unfold log_flush. destruct (s_log s); [|done]. destruct (flush_log_to_disk _) as [? [??]]. by split. Qed.
Lemma frames_upd (g : Storage R → Storage R) :
  (∀ s, frames (g s) = frames s) → (∀ s, s_log (g s) = s_log s) → within same_frames (modify g).
Proof. intros H Hl s. split; [apply H|]. simpl. by rewrite Hl. Qed.

Ltac frames_steps :=
  repeat (within_steps; try first [apply frames_get|apply frames_put|apply frames_disk|apply frames_flush
                                  |by apply frames_upd]).

Lemma frames_victim : within same_frames find_victim_page.
Proof. unfold find_victim_page. frames_steps. Qed.
Lemma frames_pin f : within same_frames (pin_frame f).
Proof. unfold pin_frame. frames_steps. Qed.
Lemma frames_update f pid : within same_frames (update_page f pid).
Proof. unfold update_page. frames_steps. Qed.
Lemma frames_read f fd n : within same_frames (read_into f fd n).
Proof.
  unfold read_into. apply within_bind; [typeclasses eauto|apply frames_get|]. intros p s.
  destruct (read_page _ _ _ _) as [o [buf d]]. split; [apply length_insert|done].
Qed.

Lemma frames_fetch pid : within same_frames (fetch_page pid).
Proof.
  unfold fetch_page. repeat (within_steps; try first [apply frames_pin|apply frames_victim|apply frames_update|apply frames_read]).
Qed.
Lemma frames_unpin pid b : within same_frames (unpin_page pid b).
Proof. unfold unpin_page. frames_steps. Qed.
Lemma frames_new fd : within same_frames (new_page fd).
Proof.
  unfold new_page. repeat (within_steps;
    try first [apply frames_pin|apply frames_victim|apply frames_update|apply frames_get|apply frames_disk]).
Qed.
Lemma frames_delete pid : within same_frames (delete_page pid).
Proof. unfold delete_page. frames_steps. Qed.
Lemma frames_write f d : within same_frames (write_frame f d).
Proof. unfold write_frame. frames_steps. Qed.

Lemma frames_store f g : within same_frames (store f g).
Proof. unfold store. repeat (within_steps; try first [apply frames_get|apply frames_write]). Qed.

Lemma within_frames {A} (m : M (Storage R) A) o s s' : within same_frames m → m s = (o, s') → frames s' = frames s.
Proof. intros H E. destruct (H s) as [H1 _]. by rewrite E in H1. Qed.
Lemma within_log {A} (m : M (Storage R) A) o s s' :
  within same_frames m → m s = (o, s') → is_Some (s_log s) → is_Some (s_log s').
Proof. intros H E. destruct (H s) as [_ H1]. by rewrite E in H1. Qed.
End pinned.
