(* ===== verification/Rows.v ===== *)
(** * The rows of open tables, in the pages of the pool

    What the operations on single rows do, for callers that keep many tables open: they
    return or throw an error of the file system, change one row of one table and no other
    row of any table, and leave the pins as they were.  [file_ok] says of a file what is
    needed for that; it does not depend on the counts and the free list of the pages, which
    a rollback does not keep. *)
From S2P Require Import Prelude Bytes Bitmap Disk Log Replacer BufferPool Record PoolRun.

Definition MAX_TABLE_PAGES : Z := 2 ^ 19.

Section rows.
Context {R : Type} `{!Replacer R, !ReplacerLaws R}.
Abbreviation St := (RmFileHdr * Storage R)%type.
Implicit Types (s : Storage R) (fd f p : Z) (pid : PageId) (d : bytes) (h : RmFileHdr) (t : St) (rid : Rid).
Abbreviation table s := (page_table_ (s_bpm s)).
Abbreviation frames s := (length (pages_ (s_bpm s))).

Definition fails_io {S} (e : exn) (_ : S) : Prop := io_error e = true.
Abbreviation io := fails_io.

(** ** The pool between two operations *)

(** A frame can be had for one page. *)
Record stored s : Prop := {
  so_inv : pool_inv s;
  so_small : small_pages s;
  so_room : (size (pinned s) < frames s)%nat;
}.

Record file_ok fd h s : Prop := {
  fo_fd : data_fd s fd;
  fo_hdr : hdr_ok h;
  fo_num : 1 ≤ num_pages h ≤ MAX_TABLE_PAGES;
  fo_page p : 1 ≤ p < num_pages h → is_Some (view s (fd, p));
  fo_uncached : table s !! (fd, RM_FILE_HDR_PAGE) = None;
}.

(** An operation that may have changed the page [pid], and the header page of its file. *)
Record touched pid s s' : Prop := {
  tc_stored : stored s';
  tc_view q b : q ≠ pid → q ≠ (pid.1, RM_FILE_HDR_PAGE) → data_fd s q.1 → view s q = Some b → view s' q = Some b;
  tc_page : is_Some (view s' pid);
  tc_pins q : pins s' q = pins s q;
  tc_fds : fds_kept s s';
  tc_pageno g : g ≠ pid.1 → get_fd2pageno (s_disk s') g = get_fd2pageno (s_disk s) g;
  tc_keys q : q ≠ pid → table s !! q = None → table s' !! q = None;
  tc_log : is_Some (s_log s) → is_Some (s_log s');
}.

(** An operation that read one page. *)
Record looked_at pid s s' : Prop := {
  la_touched : touched pid s s';
  la_view : view s' pid = view s pid;
  la_pageno : fd2pageno_ (s_disk s') = fd2pageno_ (s_disk s);
}.

(** The header as the operations on rows leave it. *)
Definition same_layout h h' : Prop := ∃ x, h' = set_first_free x h.

Lemma same_layout_refl h : same_layout h h.
Proof. exists (first_free_page_no h). by destruct h. Qed.
Lemma same_layout_trans h h' h'' : same_layout h h' → same_layout h' h'' → same_layout h h''.
Proof. intros [x ->] [y ->]. by exists y. Qed.

Lemma same_layout_rows h h' fd s rid : same_layout h h' → rows_of fd h' s rid = rows_of fd h s rid.
Proof. by intros [x ->]. Qed.

(** One row of a file is now [v]. *)
Record row_changed fd h (rid : Rid) (v : option bytes) s s' : Prop := {
  rc_touched : touched (fd, page_no rid) s s';
  rc_rows q : rows_of fd h s' q = if decide (q = rid) then v else rows_of fd h s q;
}.

Lemma touched_file pid s s' fd h :
  1 ≤ pid.2 → touched pid s s' → file_ok fd h s → file_ok fd h s'.
Proof.
  intros Hp Ht Hf. split; try apply Hf.
  - apply (tc_fds _ _ _ Ht), Hf.
  - intros p Hpp. destruct (decide ((fd, p) = pid)) as [<-|Hne]; [by apply Ht|].
    destruct (fo_page _ _ _ Hf p Hpp) as [b Hb]. exists b. apply (tc_view _ _ _ Ht); [done| |apply Hf|done].
    intros [= _ ->]. unfold RM_FILE_HDR_PAGE in Hpp. lia.
  - apply (tc_keys _ _ _ Ht); [|apply Hf]. intros <-. simpl in Hp. unfold RM_FILE_HDR_PAGE in Hp. lia.
Qed.

Lemma layout_file fd h h' s : same_layout h h' → file_ok fd h s → file_ok fd h' s.
Proof. intros [x ->] [? [? ? ?] ? ? ?]. by split. Qed.

Lemma touched_rows pid s s' fd h rid :
  (fd, page_no rid) ≠ pid → touched pid s s' → file_ok fd h s → rows_of fd h s' rid = rows_of fd h s rid.
Proof.
  intros Hne Ht Hf. unfold rows_of. case_decide as Hp; [|done].
  destruct (fo_page _ _ _ Hf _ Hp) as [b Hb]. rewrite Hb. simpl.
  rewrite (tc_view _ _ _ Ht _ b); [done|done| |apply Hf|done].
  intros [= _ ?]. unfold RM_FILE_HDR_PAGE in *. lia.
Qed.

(** Other tables keep their rows. *)
Lemma row_changed_other fd h rid v s s' fd' h' q :
  fd' ≠ fd → row_changed fd h rid v s s' → file_ok fd' h' s → rows_of fd' h' s' q = rows_of fd' h' s q.
Proof. intros Hne [Ht _] Hf. eapply touched_rows; [|done..]. congruence. Qed.

Lemma rm_inv_file_ok fd h s : rm_inv fd h s → num_pages h ≤ MAX_TABLE_PAGES → file_ok fd h s.
Proof.
  intros Hi Hn. split; [apply Hi|apply Hi| | |].
  - pose proof (ri_num _ _ _ Hi). lia.
  - intros p Hp. destruct (ri_page _ _ _ Hi p Hp) as (d & Hd & _). by exists d.
  - apply (ri_uncached _ _ _ Hi). by left.
Qed.

(** The log manager is no part of it. *)
Definition with_log (log : option LogManager) s : Storage R := mkStorage (s_disk s) log (s_bpm s).

Lemma with_log_stored log s : stored s → stored (with_log log s).
Proof. intros [[] Hs Hr]. by split. Qed.
Lemma with_log_file log fd h s : file_ok fd h s → file_ok fd h (with_log log s).
Proof. by intros []. Qed.
Lemma with_log_rows log fd h s rid : rows_of fd h (with_log log s) rid = rows_of fd h s rid.
Proof. done. Qed.

(** ** Working on a pinned page *)

(** [editing] of Record.v, with the number of frames and the log manager kept. *)
Record working s0 pid f d s : Prop := {
  wk_ed : editing s0 pid f d s;
  wk_frames : same_frames s0 s;
}.

Lemma wp_sto {A} (m : M (Storage R) A) (Q : A → St → Prop) t :
  wp m (λ a s', Q a (t.1, s')) io t.2 → wp (sto m) Q io t.
Proof. intros H. apply wp_zoom. exact H. Qed.

Lemma wp_fetch_handle s fd p d (Q : Z → Storage R → Prop) :
  stored s → data_fd s fd → 0 ≤ p < MAX_TABLE_PAGES → view s (fd, p) = Some d →
  (∀ f s1, fetched s (fd, p) f s1 → same_frames s s1 → working s1 (fd, p) f d s1 → Q f s1) →
  wp (fetch_page_handle fd p) Q io s.
Proof.
  intros [Hi Hsm Hroom] Hfd Hp Hv HQ. unfold fetch_page_handle. apply wp_bind, wp_Ok.
  { apply fetch_page_runs; [done|done|]. apply i32_ok_range. unfold MAX_TABLE_PAGES, PAGE_SIZE in *. simpl. lia. }
  intros o s1 Ho. destruct o as [f|].
  2: { apply fetch_none in Ho as (-> & Hfree & Hpin); [|done].
    pose proof (full_pinned _ Hi Hfree Hpin). lia. }
  apply wp_of_option; [by eexists|]. intros f' [= <-].
  pose proof (frames_fetch (fd, p) s) as Hfr. rewrite Ho in Hfr.
  apply fetch_Ok in Ho; [|done..]. apply HQ; [done|done|]. split; [|done].
  apply editing_refl; [apply Ho|apply Ho|by apply Ho|].
  pose proof (pins_nonneg s (fd, p) Hi). rewrite (ft_pins _ _ _ _ Ho). case_decide; [lia|done].
Qed.

Lemma wp_store_working s0 pid f d s g d' (Q : unit → Storage R → Prop) :
  working s0 pid f d s → g d = Some d' → len d' = PAGE_SIZE →
  (∀ s', working s0 pid f d' s' → Q tt s') → wp (store f g) Q io s.
Proof.
  intros [He Hf] Hg Hl HQ. destruct (editing_frame _ _ _ _ _ He) as (p & Hp & Hd & _).
  apply wp_Ok.
  - unfold store. apply wp_bind, wp_get_frame; [by eexists|]. intros p' Hp'. simplify_eq.
    apply wp_bind, wp_of_option; [by eexists|]. intros d2 _. unfold write_frame.
    apply wp_bind, wp_get_frame; [by eexists|]. intros p' _. by apply wp_modify.
  - intros [] s' Hrun. apply HQ. split.
    + apply (store_editing _ _ _ _ _ _ _ He) in Hrun as (d2 & Hg2 & He2). rewrite Hg in Hg2. simplify_eq. by apply He2.
    + etrans; [exact Hf|]. pose proof (frames_store f g s) as Hst. by rewrite Hrun in Hst.
Qed.

Lemma wp_load_working {A} s0 pid f d s (g : bytes → option A) a (Q : A → Storage R → Prop) :
  working s0 pid f d s → g d = Some a → Q a s → wp (load f g) Q io s.
Proof.
  intros [He _] Hg HQ. destruct (editing_frame _ _ _ _ _ He) as (p & Hp & Hd & _).
  unfold load. apply wp_bind, wp_get_frame; [by eexists|]. intros p' Hp'. simplify_eq.
  rewrite Hg. by apply wp_ret.
Qed.

Lemma wp_page_no_working s0 pid f d s (Q : Z → Storage R → Prop) :
  working s0 pid f d s → Q pid.2 s → wp (frame_page_no f) Q io s.
Proof.
  intros [He _] HQ. destruct (editing_frame _ _ _ _ _ He) as (p & Hp & _ & <-).
  unfold frame_page_no. apply wp_bind, wp_get_frame; [by eexists|]. intros p' Hp'. simplify_eq. by apply wp_ret.
Qed.

(** The header page is written around the pool. *)
Lemma wp_write_hdr_working s0 fd p f d h s (Q : unit → St → Prop) :
  working s0 (fd, p) f d s → table s0 !! (fd, RM_FILE_HDR_PAGE) = None → p ≠ RM_FILE_HDR_PAGE →
  (∀ s', working s0 (fd, p) f d s' → Q tt (h, s')) → wp (write_file_hdr fd) Q io (h, s).
Proof.
  intros [He Hf] Hm Hp HQ. apply wp_Ok.
  - unfold write_file_hdr. apply wp_bind, wp_gets, wp_sto, wp_disk_call; [|done]. by apply write_page_runs.
  - intros [] t' Hrun. pose proof Hrun as Hrun2.
    apply (write_file_hdr_editing s0 fd p f d h s) in Hrun as (s' & -> & He'); [|done..].
    apply HQ. split; [done|]. etrans; [exact Hf|]. unfold write_file_hdr in Hrun2.
    apply bind_Ok in Hrun2 as (? & ? & [-> ->]%gets_Ok & (s2 & Hw & [= ->])%zoom_Ok). simpl in Hw.
    pose proof (frames_disk (write_page fd RM_FILE_HDR_PAGE (file_hdr_bytes h)) s) as Hd. by rewrite Hw in Hd.
Qed.

(** What the page handed out leaves of the rest; a page fetched, or a new one. *)
Record obtained s pid s1 : Prop := {
  ob_view q b : q ≠ pid → q ≠ (pid.1, RM_FILE_HDR_PAGE) → data_fd s q.1 → view s q = Some b → view s1 q = Some b;
  ob_pins q : pins s1 q = if decide (q = pid) then pins s q + 1 else pins s q;
  ob_fds : fds_kept s s1;
  ob_pageno g : g ≠ pid.1 → get_fd2pageno (s_disk s1) g = get_fd2pageno (s_disk s) g;
  ob_keys q : q ≠ pid → table s !! q = None → table s1 !! q = None;
  ob_frames : same_frames s s1;
}.

Lemma fetched_obtained s pid f s1 : fetched s pid f s1 → same_frames s s1 → obtained s pid s1.
Proof.
  intros Hft Hfr. split; [|by apply Hft|by apply Hft| |by apply Hft|done].
  - intros q b _ _ Hd Hv. by apply (ft_view _ _ _ _ Hft).
  - intros g _. unfold get_fd2pageno. by rewrite (ft_pageno _ _ _ _ Hft).
Qed.

(** The end of an operation. *)
Lemma wp_unpin_obtained s fd p f d s1 s2 (Q : unit → Storage R → Prop) :
  stored s → 0 ≤ p < MAX_TABLE_PAGES → obtained s (fd, p) s1 → working s1 (fd, p) f d s2 →
  (∀ s', touched (fd, p) s s' → view s' (fd, p) = Some d → Q tt s') → wp (unpin_ fd p true) Q io s2.
Proof.
  intros [Hi Hsm Hroom] Hp Hob [He Hf] HQ. pose proof (ob_frames _ _ _ Hob) as Hfr. apply wp_Ok.
  { unfold unpin_. apply wp_bind. eapply wp_mono; [apply unpin_page_runs, He|done]. }
  intros [] s' Hun. assert (same_frames s s') as [Hfs Hlog].
  { etrans; [exact Hfr|]. etrans; [exact Hf|]. unfold unpin_ in Hun.
    apply bind_Ok in Hun as (b & ? & Hun & [_ ->]%ret_Ok). pose proof (frames_unpin (fd, p) true s2) as Hu. by rewrite Hun in Hu. }
  apply unpin_editing with (1 := He) in Hun as Hdn.
  assert (∀ q, pins s' q = pins s q) as Hpins.
  { intros q. rewrite (dn_pins _ _ _ _ Hdn), (ob_pins _ _ _ Hob). case_decide; lia. }
  assert (∀ q, q ≠ (fd, p) → table s !! q = None → table s' !! q = None) as Hkeys.
  { intros q Hq Hn. by apply (dn_keys _ _ _ _ Hdn), (ob_keys _ _ _ Hob). }
  apply HQ; [|apply Hdn]. split; [|..]; try done.
  - split; [apply Hdn| |].
    + intros q g Hq. destruct (decide (q = (fd, p))) as [->|Hne].
      * apply i32_ok_range. unfold MAX_TABLE_PAGES, PAGE_SIZE in *. simpl. lia.
      * destruct (table s !! q) as [g'|] eqn:Eq; [by eapply Hsm|]. by rewrite Hkeys in Hq.
    + rewrite Hfs. eapply Nat.le_lt_trans; [|exact Hroom]. apply subseteq_size.
      intros q. by rewrite !elem_of_pinned, Hpins.
  - intros q b Hq Hq0 Hd Hv. apply (dn_other _ _ _ _ Hdn); [done|done|by apply Hob|by apply Hob].
  - exists d. apply Hdn.
  - intros g Hg. by apply (dn_fds _ _ _ _ Hdn), Hob.
  - intros g Hg. rewrite <-(ob_pageno _ _ _ Hob) by done. unfold get_fd2pageno. by rewrite (dn_pageno _ _ _ _ Hdn).
Qed.

Lemma wp_unpin_working s fd p f d s1 s2 (Q : unit → Storage R → Prop) :
  stored s → 0 ≤ p < MAX_TABLE_PAGES → fetched s (fd, p) f s1 → same_frames s s1 → working s1 (fd, p) f d s2 →
  (∀ s', touched (fd, p) s s' → view s' (fd, p) = Some d → Q tt s') → wp (unpin_ fd p true) Q io s2.
Proof. intros Hs Hp Hft Hfr. apply wp_unpin_obtained; [done..|]. by eapply fetched_obtained. Qed.

(** The stamp of a change, with a context. *)
Lemma wp_stamp_working h s0 pid f d s (context : bool) (Q : unit → Storage R → Prop) :
  hdr_ok h → working s0 pid f d s → len d = PAGE_SIZE → (context = true → is_Some (s_log s0)) →
  (∀ d' s', working s0 pid f d' s' → len d' = PAGE_SIZE → (∀ j, row h d' j = row h d j) → Q tt s') →
  wp (stamp_page context f) Q io s.
Proof.
  intros Hh Hw Hl Hlog HQ. destruct context; [|by apply wp_ret, (HQ d)].
  destruct (proj2 (wk_frames _ _ _ _ _ Hw) (Hlog eq_refl)) as [lm Hlm].
  unfold stamp_page. apply wp_bind, wp_gets, wp_bind, wp_of_option; [by rewrite Hlm|]. intros lm' _.
  destruct (wr_is_Some d 0 (i32 (global_lsn_ lm'))) as [d' Hd']; [done|rewrite Hl; done|].
  eapply wp_store_working; [done|exact Hd'|apply wr_length in Hd'; lia|]. intros s' Hw'. apply (HQ d'); [done|apply wr_length in Hd'; lia|].
  by apply (row_wr_header h Hh) in Hd' as [_ ?].
Qed.

(** ** The changes of a page's rows, whatever its count says *)

Section page.
Context (h : RmFileHdr) (Hh : hdr_ok h).

Lemma slot_in_bitmap d i : len d = PAGE_SIZE → 0 ≤ i < num_records_per_page h → OFFSET_BITMAP + i / 8 < len d.
Proof.
  intros Hl Hi. pose proof (get_slot_range h i Hh Hi) as [Hs ?]. rewrite (slots_end h Hh) in Hs. pose proof (ho_size _ Hh).
  pose proof (Z.div_lt_upper_bound i 8 ((num_records_per_page h + 7) / 8)).
  pose proof (Z.div_mod (num_records_per_page h + 7) 8). pose proof (Z.mod_pos_bound (num_records_per_page h + 7) 8). lia.
Qed.

Lemma add_num_records_rows k d :
  len d = PAGE_SIZE → ∃ d', add_num_records k d = Some d' ∧ len d' = PAGE_SIZE ∧ ∀ j, row h d' j = row h d j.
Proof using Hh.
  intros Hl. destruct (add_num_records_is_Some k d Hl) as [d' H]. exists d'. split; [done|].
  unfold add_num_records in H. destruct (rd_i32 d OFFSET_NUM_RECORDS) as [c|]; [|done]. simpl in H.
  destruct (row_wr_header h Hh _ _ _ _ H) as [_ Hr]; [done|]. split; [by apply wr_length in H; lia|done].
Qed.

Lemma link_rows x d :
  len d = PAGE_SIZE → ∃ d', wr d OFFSET_NEXT_FREE (i32 x) = Some d' ∧ len d' = PAGE_SIZE ∧ ∀ j, row h d' j = row h d j.
Proof using Hh.
  intros Hl. destruct (wr_is_Some d OFFSET_NEXT_FREE (i32 x)) as [d' H]; [done|rewrite Hl; done|]. exists d'. split; [done|].
  destruct (row_wr_header h Hh _ _ _ _ H) as [_ Hr]; [done|]. split; [by apply wr_length in H; lia|done].
Qed.

Lemma reset_rows d i :
  len d = PAGE_SIZE → 0 ≤ i < num_records_per_page h →
  ∃ d', (d1 ← Bitmap.reset d OFFSET_BITMAP i; add_num_records (-1) d1) = Some d' ∧ len d' = PAGE_SIZE ∧
    ∀ j, row h d' j = if decide (j = i) then None else row h d j.
Proof using Hh.
  intros Hl Hi. destruct (Bitmap.reset_is_Some d OFFSET_BITMAP i) as [d1 H1]; [done|lia|by apply slot_in_bitmap|].
  rewrite H1. simpl. assert (occ h d1 = occ h d ∖ {[i]}) as O1 by (by eapply Bitmap.occupied_reset).
  apply Bitmap.reset_wr in H1 as [b Hb]; [|lia]. apply (bit_write_spec h Hh) in Hb as (L1 & _ & _ & R1); [|done].
  destruct (add_num_records_rows (-1) d1) as (d2 & H2 & L2 & R2); [congruence|]. exists d2. split_and!; [done|done|].
  intros j. rewrite R2. unfold row. rewrite O1. destruct (decide (j = i)) as [->|Hj].
  - by rewrite decide_False by set_solver.
  - destruct (decide (j ∈ occ h d)) as [Hj2|].
    + rewrite decide_True by set_solver. apply R1. by apply (occ_range h) in Hj2.
    + by rewrite decide_False by set_solver.
Qed.

Lemma set_rows d i buf :
  len d = PAGE_SIZE → 0 ≤ i < num_records_per_page h → record_size h ≤ len buf →
  ∃ d', (d1 ← Bitmap.set d OFFSET_BITMAP i; copy_to_slot h i buf d1) = Some d' ∧ len d' = PAGE_SIZE ∧
    ∀ j, row h d' j = if decide (j = i) then rd buf 0 (record_size h) else row h d j.
Proof using Hh.
  intros Hl Hi Hb. destruct (Bitmap.set_is_Some d OFFSET_BITMAP i) as [d1 H1]; [done|lia|by apply slot_in_bitmap|].
  rewrite H1. simpl. assert (occ h d1 = {[i]} ∪ occ h d) as O1 by (by eapply Bitmap.occupied_set).
  apply Bitmap.set_wr in H1 as [b Hw]; [|lia]. apply (bit_write_spec h Hh) in Hw as (L1 & _ & _ & R1); [|done].
  destruct (copy_to_slot_is_Some h Hh d1 i buf) as [d2 H2]; [congruence|done|done|]. exists d2.
  pose proof (copy_to_slot_spec h Hh _ _ _ _ (eq_trans L1 Hl) Hi H2) as (L2 & O2 & _ & _ & Rn & Ro).
  split_and!; [done|done|]. intros j. unfold row. rewrite O2, O1. destruct (decide (j = i)) as [->|Hj].
  - by rewrite decide_True by set_solver.
  - destruct (decide (j ∈ occ h d)) as [Hj2|].
    + rewrite decide_True by set_solver. rewrite Ro by done. apply R1. by apply (occ_range h) in Hj2.
    + by rewrite decide_False by set_solver.
Qed.

Lemma copy_rows d i buf :
  len d = PAGE_SIZE → i ∈ occ h d → record_size h ≤ len buf →
  ∃ d', copy_to_slot h i buf d = Some d' ∧ len d' = PAGE_SIZE ∧
    ∀ j, row h d' j = if decide (j = i) then rd buf 0 (record_size h) else row h d j.
Proof using Hh.
  intros Hl Hin Hb. pose proof (occ_range h _ _ Hin) as Hi.
  destruct (copy_to_slot_is_Some h Hh d i buf Hl Hi Hb) as [d2 H2]. exists d2.
  pose proof (copy_to_slot_spec h Hh _ _ _ _ Hl Hi H2) as (L2 & O2 & _ & _ & Rn & Ro).
  split_and!; [done|done|]. intros j. unfold row. rewrite O2. destruct (decide (j = i)) as [->|Hj].
  - by rewrite decide_True.
  - case_decide; [by apply Ro|done].
Qed.
End page.

(** ** The operations *)

Lemma row_at fd h s rid v : rows_of fd h s rid = Some v →
  1 ≤ page_no rid < num_pages h ∧ ∃ d, view s (fd, page_no rid) = Some d ∧ slot_no rid ∈ occ h d ∧
    rd d (get_slot h (slot_no rid)) (record_size h) = Some v.
Proof.
  unfold rows_of. case_decide as Hp; [|done]. destruct (view s _) as [d|]; [|done]. simpl.
  intros [Hin Hrd]%row_Some. split; [done|]. by exists d.
Qed.

(** What an operation that touched one page did to the rows of the file. *)
Lemma touched_row_changed fd h s s' p i v d d' :
  1 ≤ p < num_pages h → file_ok fd h s → touched (fd, p) s s' → view s (fd, p) = Some d → view s' (fd, p) = Some d' →
  (∀ j, row h d' j = if decide (j = i) then v else row h d j) → row_changed fd h (mkRid p i) v s s'.
Proof.
  intros Hp Hf Ht Hv Hv' Hrows. split; [done|]. apply (rows_of_update fd h h s s' p d i v Hp Hv).
  intros q. case_decide as Hq.
  - rewrite <-Hrows. apply rows_of_page; by rewrite Hq.
  - eapply touched_rows; [|done..]. congruence.
Qed.

Context (fd : Z) (h : RmFileHdr).

Lemma wp_update_row s rid old buf (context : bool) (Q : unit → St → Prop) :
  stored s → file_ok fd h s → rows_of fd h s rid = Some old → record_size h ≤ len buf →
  (context = true → is_Some (s_log s)) →
  (∀ s', row_changed fd h rid (rd buf 0 (record_size h)) s s' → Q tt (h, s')) →
  wp (update_record fd rid buf context) Q io (h, s).
Proof.
  intros Hs Hf Hrow Hb Hlog HQ. destruct (row_at _ _ _ _ _ Hrow) as (Hp & d & Hv & Hin & _). pose proof (fo_num _ _ _ Hf) as Hn.
  pose proof (view_length _ _ _ (so_inv _ Hs) Hv) as Hl.
  destruct (copy_rows h (fo_hdr _ _ _ Hf) d (slot_no rid) buf Hl Hin Hb) as (d' & Hcp & Hl' & Hrows).
  unfold update_record. apply wp_bind, wp_sto. cbn [snd fst]. eapply wp_fetch_handle; [done|apply Hf|lia|done|].
  intros f s1 Hft Hfr Hw. apply wp_bind, wp_gets, wp_bind, wp_sto. cbn [snd fst].
  eapply wp_store_working; [done|exact Hcp|done|]. intros s2 Hw2. apply wp_bind, wp_sto. cbn [snd fst].
  eapply wp_page_no_working; [done|]. apply wp_bind, wp_sto. cbn [snd fst].
  eapply (wp_stamp_working h); [apply Hf|exact Hw2|done|by intros; apply Hfr, Hlog|]. intros d3 s3 Hw3 Hl3 Hrows3.
  apply wp_sto. cbn [snd fst].
  eapply wp_unpin_working; [done|..|done|done|done|]; [lia|]. intros s' Ht Hv'. apply HQ.
  destruct rid as [p i]. eapply touched_row_changed; [done..|]. intros j. by rewrite Hrows3, Hrows.
Qed.

Lemma wp_insert_row_at s rid buf (Q : unit → St → Prop) :
  stored s → file_ok fd h s → 1 ≤ page_no rid < num_pages h → 0 ≤ slot_no rid < num_records_per_page h →
  record_size h ≤ len buf →
  (∀ s', row_changed fd h rid (rd buf 0 (record_size h)) s s' → Q tt (h, s')) →
  wp (insert_record_at fd rid buf) Q io (h, s).
Proof.
  intros Hs Hf Hp Hi Hb HQ. destruct (fo_page _ _ _ Hf _ Hp) as [d Hv]. pose proof (fo_num _ _ _ Hf) as Hn.
  pose proof (view_length _ _ _ (so_inv _ Hs) Hv) as Hl.
  destruct (set_rows h (fo_hdr _ _ _ Hf) d (slot_no rid) buf Hl Hi Hb) as (d' & Hcp & Hl' & Hrows).
  unfold insert_record_at. apply wp_bind, wp_sto. cbn [snd fst]. eapply wp_fetch_handle; [done|apply Hf|lia|done|].
  intros f s1 Hft Hfr Hw. apply wp_bind, wp_gets, wp_bind, wp_sto. cbn [snd fst].
  eapply wp_store_working; [done|exact Hcp|done|]. intros s2 Hw2. apply wp_bind, wp_sto. cbn [snd fst].
  eapply wp_page_no_working; [done|]. apply wp_sto. cbn [snd fst].
  eapply wp_unpin_working; [done|..|done|done|done|]; [lia|]. intros s' Ht Hv'. apply HQ.
  destruct rid as [p i]. by eapply touched_row_changed.
Qed.

(** A page that was full may get to the head of the free list. *)
Lemma wp_maybe_release s0 p f d s (b : bool) (Q : unit → St → Prop) :
  hdr_ok h → working s0 (fd, p) f d s → len d = PAGE_SIZE → table s0 !! (fd, RM_FILE_HDR_PAGE) = None → 1 ≤ p →
  (∀ h' d' s', same_layout h h' → working s0 (fd, p) f d' s' → len d' = PAGE_SIZE →
    (∀ j, row h d' j = row h d j) → Q tt (h', s')) →
  wp (if b then release_page_handle fd f else ret tt) Q io (h, s).
Proof.
  intros Hh Hw Hl Hm Hp HQ. destruct b.
  2: { apply wp_ret. eapply HQ; [apply same_layout_refl|exact Hw|done|done]. }
  unfold release_page_handle. apply wp_bind, wp_gets, wp_bind, wp_sto. cbn [snd fst].
  eapply wp_page_no_working; [done|]. destruct (_ =? _).
  { apply wp_ret. eapply HQ; [apply same_layout_refl|exact Hw|done|done]. }
  destruct (link_rows h Hh (first_free_page_no h) d Hl) as (d' & Hwr & Hl' & Hrows).
  apply wp_bind, wp_sto. cbn [snd fst]. eapply wp_store_working; [done|exact Hwr|done|]. intros s2 Hw2.
  apply wp_bind, wp_modify. cbn [snd fst].
  eapply wp_write_hdr_working; [exact Hw2|done|unfold RM_FILE_HDR_PAGE; lia|]. intros s3 Hw3.
  eapply HQ; [by eexists|exact Hw3|done|done].
Qed.

Lemma wp_delete_row s rid old (context : bool) (Q : unit → St → Prop) :
  stored s → file_ok fd h s → rows_of fd h s rid = Some old → (context = true → is_Some (s_log s)) →
  (∀ h' s', same_layout h h' → row_changed fd h rid None s s' → Q tt (h', s')) →
  wp (delete_record fd rid context) Q io (h, s).
Proof.
  intros Hs Hf Hrow Hlog HQ. destruct (row_at _ _ _ _ _ Hrow) as (Hp & d & Hv & Hin & _). pose proof (fo_num _ _ _ Hf) as Hn.
  pose proof (view_length _ _ _ (so_inv _ Hs) Hv) as Hl. pose proof (fo_hdr _ _ _ Hf) as Hh.
  destruct (reset_rows h Hh d (slot_no rid) Hl) as (d1 & Hr1 & Hl1 & Hrows1); [by eapply occ_range|].
  unfold delete_record. apply wp_bind, wp_sto. cbn [snd fst]. eapply wp_fetch_handle; [done|apply Hf|lia|done|].
  intros f s1 Hft Hfr Hw. apply wp_bind, wp_gets, wp_bind, wp_sto. cbn [snd fst].
  eapply wp_store_working; [done|exact Hr1|done|]. intros s2 Hw2. apply wp_bind, wp_sto. cbn [snd fst].
  destruct (rd_i32_is_Some d1 OFFSET_NUM_RECORDS) as [c Hc]; [done|rewrite Hl1; done|].
  eapply wp_load_working; [exact Hw2|exact Hc|]. apply wp_bind.
  eapply wp_maybe_release; [done|exact Hw2|done| |lia|].
  { apply (ft_keys _ _ _ _ Hft); [|apply Hf]. intros [= Hz]. unfold RM_FILE_HDR_PAGE in Hz. lia. }
  intros h' d' s3 Hh' Hw3 Hl3 Hrows3. apply wp_bind, wp_sto. cbn [snd fst].
  eapply wp_page_no_working; [done|]. apply wp_bind, wp_sto. cbn [snd fst].
  eapply (wp_stamp_working h); [done|exact Hw3|done|by intros; apply Hfr, Hlog|]. intros d4 s4 Hw4 Hl4 Hrows4.
  apply wp_sto. cbn [snd fst].
  eapply wp_unpin_working; [done|..|done|done|done|]; [lia|]. intros s' Ht Hv'. apply HQ; [done|].
  destruct rid as [p i]. eapply touched_row_changed; [done..|]. intros j. by rewrite Hrows4, Hrows3, Hrows1.
Qed.

(** The record is copied after the page was unpinned. *)
Lemma wp_get_row s rid v (Q : bytes → St → Prop) :
  stored s → file_ok fd h s → rows_of fd h s rid = Some v →
  (∀ s', looked_at (fd, page_no rid) s s' → Q v (h, s')) → wp (get_record fd rid None) Q io (h, s).
Proof.
  intros Hs Hf Hrow HQ. destruct (row_at _ _ _ _ _ Hrow) as (Hp & d & Hv & Hin & Hrd). pose proof (fo_num _ _ _ Hf) as Hn.
  unfold get_record. apply wp_bind, wp_ret, wp_bind, wp_sto. cbn [snd fst].
  eapply wp_fetch_handle; [done|apply Hf|lia|done|]. intros f s1 Hft Hfr Hw.
  apply wp_bind, wp_gets, wp_bind, wp_sto. cbn [snd fst]. eapply wp_page_no_working; [done|].
  apply wp_bind, wp_sto. cbn [snd fst].
  assert (wp (unpin_ fd (page_no rid) true) (λ _ s', touched (fd, page_no rid) s s' ∧ view s' (fd, page_no rid) = Some d) io s1) as Hwp.
  { eapply wp_unpin_working; [done|..|done|done|exact Hw|done]. lia. }
  apply wp_Ok; [eapply wp_mono; [exact Hwp|done]|]. intros [] s' Hun.
  unfold wp in Hwp. rewrite Hun in Hwp. destruct Hwp as [Ht Hv'].
  assert (table s' !! (fd, page_no rid) = Some f ∧ s_disk s' = s_disk s1) as [Hm Hdisk].
  { unfold unpin_ in Hun. apply bind_Ok in Hun as (? & ? & Hu & [_ ->]%ret_Ok).
    apply unpin_unpinned in Hu; [|apply Hft|by left]. rewrite (up_table _ _ _ _ Hu), (up_disk _ _ _ _ Hu). split; [apply Hft|done]. }
  apply wp_sto. cbn [snd fst]. pose proof Hv' as Hv2. unfold view in Hv2. rewrite Hm in Hv2. destruct (frame s' f) as [P|] eqn:HP; [|done].
  injection Hv2 as Hd. unfold load. apply wp_bind, wp_get_frame; [by eexists|]. intros P' HP'. simplify_eq.
  rewrite Hrd. apply wp_ret, HQ. split; [done|congruence|]. by rewrite Hdisk, (ft_pageno _ _ _ _ Hft).
Qed.

End rows.
