(* ===== verification/RowWrite.v ===== *)
(** * Insertions, deletions and updates of rows return

    On a record file that satisfies its invariant, with the pool's pages pinned as before:
    the operation returns, or meets an error of the file system; the file's invariant holds
    again, one row has changed, and the pages of the other files are as they were. *)
From S2P Require Import Prelude Bytes Bitmap Disk Log Replacer BufferPool Record PoolRun Rows.

Section write.
Context {R : Type} `{!Replacer R, !ReplacerLaws R}.
Abbreviation St := (RmFileHdr * Storage R)%type.
Implicit Types (s : Storage R) (fd f p : Z) (pid : PageId) (d : bytes) (h : RmFileHdr) (rid : Rid).
Abbreviation table s := (page_table_ (s_bpm s)).
Abbreviation io := fails_io.

(** ** Other files *)

Lemma touched_rm pid s s' fd h : fd ≠ pid.1 → touched pid s s' → rm_inv fd h s → rm_inv fd h s'.
Proof.
  intros Hne Ht Hr. apply (rm_inv_frame fd h s s' Hr).
  - apply Ht.
  - apply (tc_fds _ _ _ Ht), Hr.
  - by apply (tc_pageno _ _ _ Ht).
  - intros p Hp. destruct (ri_page _ _ _ Hr p Hp) as (d & Hd & _). rewrite Hd.
    apply (tc_view _ _ _ Ht); [by intros <-|by intros [= ? _]|apply Hr|done].
  - intros p Hp. apply (tc_keys _ _ _ Ht); [by intros <-|by apply (ri_uncached _ _ _ Hr)].
Qed.

Lemma looked_rm g p s s' fd h :
  looked_at (g, p) s s' → (g = fd → 1 ≤ p < num_pages h) → rm_inv fd h s → rm_inv fd h s'.
Proof.
  intros [Ht Hv Hpg] Hp Hr. destruct (decide (fd = g)) as [<-|Hne]; [|by eapply touched_rm; [|done..]].
  specialize (Hp eq_refl). apply (rm_inv_frame fd h s s' Hr).
  - apply Ht.
  - apply (tc_fds _ _ _ Ht), Hr.
  - unfold get_fd2pageno. by rewrite Hpg.
  - intros q Hq. destruct (decide (q = p)) as [->|Hne]; [done|].
    destruct (ri_page _ _ _ Hr q Hq) as (d & Hd & _). rewrite Hd.
    apply (tc_view _ _ _ Ht); [congruence| |apply Hr|done]. intros [= Hz]. unfold RM_FILE_HDR_PAGE in Hz. lia.
  - intros q Hq. apply (tc_keys _ _ _ Ht); [|by apply (ri_uncached _ _ _ Hr)].
    intros [= ->]. unfold RM_FILE_HDR_PAGE in Hq. lia.
Qed.

(** The log manager wrote to its file. *)
Lemma quiet_rm fd h s s' :
  rm_inv fd h s → pool_inv s' → view_kept s s' → fds_kept s s' → s_bpm s' = s_bpm s →
  fd2pageno_ (s_disk s') = fd2pageno_ (s_disk s) → rm_inv fd h s'.
Proof.
  intros Hr Hi Hv Hf Hb Hpg. apply (rm_inv_same fd h s s'); try done. rewrite Hb. apply Hr.
Qed.

Lemma with_log_rm log fd h s : stored s → rm_inv fd h s → rm_inv fd h (with_log log s).
Proof. intros Hs%(with_log_stored log) Hr. eapply quiet_rm; [exact Hr|apply Hs|intros pid b _ Hb; exact Hb|intros g Hg; exact Hg|done..]. Qed.

(** ** A row written *)

(** [page] is whether the file may have got a new page. *)
Record row_written fd h h' rid (v : option bytes) s s' : Prop := {
  rw_inv : rm_inv fd h' s';
  rw_touched : touched (fd, page_no rid) s s';
  rw_size : record_size h' = record_size h;
  rw_pages : num_pages h ≤ num_pages h' ≤ num_pages h + 1;
  rw_page : 1 ≤ page_no rid < num_pages h';
  rw_slot : 0 ≤ slot_no rid < num_records_per_page h';
  rw_rows q : rows_of fd h' s' q = if decide (q = rid) then v else rows_of fd h s q;
}.

Lemma row_written_n fd h h' rid v s s' :
  hdr_ok h → row_written fd h h' rid v s s' → num_records_per_page h' = num_records_per_page h.
Proof. intros Hh Hw. pose proof (ri_hdr _ _ _ (rw_inv _ _ _ _ _ _ _ Hw)) as Hh'. rewrite (ho_n _ Hh), (ho_n _ Hh'). by rewrite (rw_size _ _ _ _ _ _ _ Hw). Qed.

Lemma row_place fd h s rid v :
  rows_of fd h s rid = Some v → 1 ≤ page_no rid < num_pages h ∧ 0 ≤ slot_no rid < num_records_per_page h.
Proof. intros (Hp & d & _ & Hin & _)%row_at. split; [done|]. by eapply occ_range. Qed.

Section file.
Context (fd : Z) (h : RmFileHdr) (s : Storage R).
Context (Hs : stored s) (Hr : rm_inv fd h s) (Hn : num_pages h ≤ MAX_TABLE_PAGES).
Context (context : bool) (Hlog : context = true → is_Some (s_log s)).

Lemma wp_update_written rid old buf (Q : unit → St → Prop) :
  rows_of fd h s rid = Some old → record_size h ≤ len buf →
  (∀ s', row_written fd h h rid (rd buf 0 (record_size h)) s s' → Q tt (h, s')) →
  wp (update_record fd rid buf context) Q io (h, s).
Proof using Hs Hr Hn Hlog.
  intros Hrow Hb HQ. destruct (row_place _ _ _ _ _ Hrow) as [Hp Hsl]. eapply wp_run.
  { eapply (wp_update_row fd h s rid old buf context (λ _ t, touched (fd, page_no rid) s t.2));
      [done|by apply rm_inv_file_ok|done|done|done|]. intros s' Hrc. apply Hrc. }
  intros [] [h' s'] Hrun Ht. cbn [snd] in Ht.
  apply (update_record_rm _ _ _ _ _ old) in Hrun as (-> & Hr' & _ & Hrows); [|done..].
  apply HQ. by split; try lia.
Qed.

Lemma wp_delete_written rid old (Q : unit → St → Prop) :
  rows_of fd h s rid = Some old →
  (∀ h' s', num_pages h' = num_pages h → row_written fd h h' rid None s s' → Q tt (h', s')) →
  wp (delete_record fd rid context) Q io (h, s).
Proof using Hs Hr Hn Hlog.
  intros Hrow HQ. destruct (row_place _ _ _ _ _ Hrow) as [Hp Hsl]. eapply wp_run.
  { eapply (wp_delete_row fd h s rid old context (λ _ t, same_layout h t.1 ∧ touched (fd, page_no rid) s t.2));
      [done|by apply rm_inv_file_ok|done|done|]. intros h' s' Hh Hrc. split; [done|apply Hrc]. }
  intros [] [h' s'] Hrun [[x Hh] Ht]. cbn [fst snd] in Ht, Hh. subst h'.
  apply (delete_record_rm _ _ _ _ old) in Hrun as (Hr' & _ & Hrows); [|done..].
  apply HQ; [done|]. split; try done; cbn; lia.
Qed.

(** *** A page for the new row *)

(** The head of the free list is fetched, or a page is added to the file. *)
Lemma wp_fetch_head (Q : Z → St → Prop) :
  first_free_page_no h ≠ -1 →
  (∀ f s1, obtained s (fd, first_free_page_no h) s1 → Q f (h, s1)) →
  wp (sto (fetch_page_handle fd (first_free_page_no h))) Q io (h, s).
Proof using Hs Hr Hn.
  intros Hff HQ. destruct (ri_free _ _ _ Hr) as (l & Hc & _ & Hl). destruct l as [|p l]; [done|].
  destruct Hc as [Hpeq _]. destruct (proj1 (Hl p)) as [Hp (d & Hd & _)]; [by left|]. rewrite Hpeq in *.
  apply wp_sto. cbn [fst snd]. eapply wp_fetch_handle; [done|apply Hr|lia|done|].
  intros f s1 Hft Hfr _. by eapply HQ, fetched_obtained.
Qed.

Lemma init_page_runs d :
  len d = PAGE_SIZE → hdr_ok h →
  is_Some (d1 ← wr d OFFSET_NUM_RECORDS (i32 0); d2 ← wr d1 OFFSET_NEXT_FREE (i32 RM_NO_PAGE); Bitmap.init d2 OFFSET_BITMAP (bitmap_size h)).
Proof using Type.
  intros Hl Hh. pose proof (hdr_ok_bounds h Hh) as (? & Hb & ?). pose proof (ho_size _ Hh).
  destruct (wr_is_Some d OFFSET_NUM_RECORDS (i32 0)) as [d1 Hd1]; [done|rewrite Hl; done|]. rewrite Hd1. apply wr_length in Hd1.
  destruct (wr_is_Some d1 OFFSET_NEXT_FREE (i32 RM_NO_PAGE)) as [d2 Hd2]; [done|rewrite Hd1, Hl; done|]. cbn. rewrite Hd2. apply wr_length in Hd2. cbn.
  pose proof (Z.div_pos (num_records_per_page h + 7) 8). unfold Bitmap.init. unfold slots in *.
  apply wr_is_Some; [done|]. rewrite length_replicate. nia.
Qed.

Context (Hfd : 0 ≤ fd < MAX_FD).

Lemma wp_add_page (Q : Z → St → Prop) :
  num_pages h < MAX_TABLE_PAGES →
  (∀ f s1, obtained s (fd, num_pages h) s1 → Q f (set_num_pages (num_pages h + 1) (set_first_free (num_pages h) h), s1)) →
  wp (create_new_page_handle fd) Q io (h, s).
Proof using Hs Hr Hfd.
  intros Hmax HQ. pose proof (so_inv _ Hs) as Hi. pose proof (ri_hdr _ _ _ Hr) as Hh. pose proof (ri_num _ _ _ Hr) as Hnum.
  unfold create_new_page_handle. apply wp_bind, wp_sto. cbn [fst snd]. apply wp_Ok.
  { apply new_page_runs; [done|apply Hs|done|]. rewrite (ri_alloc _ _ _ Hr). apply i32_ok_range. unfold MAX_TABLE_PAGES, PAGE_SIZE in *. lia. }
  intros o s2 Hnew. pose proof (frames_new fd s) as Hfr. rewrite Hnew in Hfr. cbn in Hfr. destruct o as [[f no]|].
  2: { apply new_none in Hnew; [|done]. pose proof (so_room _ Hs). lia. }
  assert (Hfresh : ∀ p, num_pages h ≤ p → table s !! (fd, p) = None) by (intros; apply (ri_uncached _ _ _ Hr); by right).
  apply new_Ok in Hnew as [Hi2 Hv2 Hnv2 Hfd2 Ht2 Hp2 Hno Hpg2 Hpos Hk2 Hlk2 _]; [|done|apply Hr|rewrite (ri_alloc _ _ _ Hr); by apply Hfresh].
  rewrite (ri_alloc _ _ _ Hr) in Hno. subst no.
  assert (working s2 (fd, num_pages h) f reset_memory s2) as Hw.
  { split; [|done]. apply editing_refl; [done..|]. by rewrite Hp2, decide_True. }
  apply wp_bind, wp_of_option; [by eexists|]. intros a [= <-]. apply wp_bind, wp_gets, wp_bind, wp_sto. cbn [fst snd].
  destruct (init_page_runs reset_memory) as [d1 Hd1]; [apply reset_memory_length|done|].
  pose proof (page_init_spec h Hh _ _ (reset_memory_length) Hd1) as ([Hl1 _] & _ & _).
  eapply wp_store_working; [exact Hw|exact Hd1|exact Hl1|]. intros s3 Hw3.
  apply wp_bind, wp_modify, wp_bind, wp_modify, wp_bind. cbn [fst snd].
  eapply wp_write_hdr_working; [exact Hw3| |unfold RM_FILE_HDR_PAGE; lia|].
  { apply Hk2; [|apply (ri_uncached _ _ _ Hr); by left]. unfold RM_FILE_HDR_PAGE. intros [= ?]. lia. }
  intros s4 [He4 Hf4]. apply wp_ret, HQ. split.
  - intros q b Hq Hq0 Hd Hvq. apply (ed_other _ _ _ _ _ He4); [done|done|by apply Hfd2|]. by apply Hv2.
  - intros q. rewrite (ed_pins _ _ _ _ _ He4), Hp2. case_decide as Hq; [|done]. subst q.
    unfold pins, cached. by rewrite Hfresh.
  - intros g Hg. by apply (ed_fds _ _ _ _ _ He4), Hfd2.
  - intros g Hg. unfold get_fd2pageno. rewrite (ed_pageno _ _ _ _ _ He4), Hpg2. by rewrite lookup_insert_ne.
  - intros q Hq Hnq. by apply (ed_keys _ _ _ _ _ He4), Hk2.
  - by etrans.
Qed.

(** The page an insertion works on, and that it works on it. *)
Lemma wp_create_page (Q : Z → St → Prop) :
  num_pages h < MAX_TABLE_PAGES →
  (∀ f h1 s1 p d, handled fd h s f h1 s1 p d → obtained s (fd, p) s1 → working s1 (fd, p) f d s1 →
     num_pages h ≤ num_pages h1 ≤ num_pages h + 1 → Q f (h1, s1)) →
  wp (create_page_handle fd) Q io (h, s).
Proof using Hs Hr Hn Hfd.
  intros Hmax HQ. eapply (wp_run io _ _ (λ _ t, obtained s (fd, first_free_page_no t.1) t.2 ∧ num_pages h ≤ num_pages t.1 ≤ num_pages h + 1)).
  - unfold create_page_handle. apply wp_bind, wp_gets. cbn [fst]. destruct (Z.eqb_spec (first_free_page_no h) (-1)); simpl.
    + apply wp_add_page; [done|]. intros f s1 Hob. split; [exact Hob|]. cbn. lia.
    + apply wp_fetch_head; [done|]. intros f s1 Hob. split; [exact Hob|]. cbn. lia.
  - intros f [h1 s1] Hrun [Hob Hpg]. cbn [fst snd] in *.
    apply create_page_handle_rm in Hrun as (p & d & Hha); [|done|unfold MAX_TABLE_PAGES, INT_MAX in *; lia].
    rewrite (ha_head _ _ _ _ _ _ _ _ Hha) in Hob. apply (HQ f h1 s1 p d); [done|done| |done]. split; [apply Hha|done].
Qed.

Lemma wp_maybe_unlink h1 s1 p f d s2 (b : bool) (Q : unit → St → Prop) :
  working s1 (fd, p) f d s2 → len d = PAGE_SIZE → table s1 !! (fd, RM_FILE_HDR_PAGE) = None → 1 ≤ p →
  (∀ h' d' s', same_layout h1 h' → working s1 (fd, p) f d' s' → len d' = PAGE_SIZE → Q tt (h', s')) →
  wp (if b then unlink_full_page fd f else ret tt) Q io (h1, s2).
Proof using Type.
  intros Hw Hl Hm Hp HQ. destruct b; [|by eapply wp_ret, HQ; [apply same_layout_refl|..]].
  unfold unlink_full_page. destruct (rd_i32_is_Some d OFFSET_NEXT_FREE) as [x Hx]; [done|rewrite Hl; done|].
  apply wp_bind, wp_sto. cbn [fst snd]. eapply wp_load_working; [exact Hw|exact Hx|]. apply wp_bind, wp_modify. cbn [fst snd].
  destruct (wr_is_Some d OFFSET_NEXT_FREE (i32 RM_NO_PAGE)) as [d' Hd']; [done|rewrite Hl; done|].
  apply wp_bind, wp_sto. cbn [fst snd]. eapply wp_store_working; [exact Hw|exact Hd'|apply wr_length in Hd'; lia|].
  intros s3 Hw3. eapply wp_write_hdr_working; [exact Hw3|done|unfold RM_FILE_HDR_PAGE; lia|]. intros s4 Hw4.
  eapply HQ; [by eexists|exact Hw4|apply wr_length in Hd'; lia].
Qed.

(** *** Insertion *)

Lemma wp_insert_touched buf :
  num_pages h < MAX_TABLE_PAGES → record_size h ≤ len buf →
  wp (insert_record fd buf context)
    (λ rid t, touched (fd, page_no rid) s t.2 ∧ num_pages h ≤ num_pages t.1 ≤ num_pages h + 1 ∧ hdr_ok t.1 ∧
       1 ≤ page_no rid < num_pages t.1 ∧ 0 ≤ slot_no rid < num_records_per_page t.1) io (h, s).
Proof using Hs Hr Hn Hfd Hlog.
  intros Hmax Hb. unfold insert_record. apply wp_bind, wp_create_page; [done|].
  intros f h1 s1 p d Hha Hob Hw Hpg. pose proof (ha_rm _ _ _ _ _ _ _ _ Hha) as Hr1. pose proof (ri_hdr _ _ _ Hr1) as Hh.
  pose proof (ha_ok _ _ _ _ _ _ _ _ Hha) as Hok. pose proof (ha_range _ _ _ _ _ _ _ _ Hha) as Hp. pose proof (proj1 Hok) as Hl.
  pose proof (hdr_ok_bounds h1 Hh) as (Hn1 & Hbm & _).
  destruct (Bitmap.next_bit_total false d OFFSET_BITMAP (num_records_per_page h1) (-1)) as [i Hi]; [lia|done| |].
  { rewrite Hl. pose proof (get_slot_range h1 0 Hh) as [? ?]; [lia|]. rewrite (slots_end h1 Hh) in *. pose proof (ho_size _ Hh). lia. }
  pose proof Hi as Hi2. apply (first_free_slot h1 Hh) in Hi2 as [Hir _]; [|done|by apply (ha_room _ _ _ _ _ _ _ _ Hha)].
  destruct (page_insert_is_Some h1 Hh d i buf Hl Hir) as [d2 Hd2]; [by rewrite (ha_size _ _ _ _ _ _ _ _ Hha)|].
  pose proof Hd2 as Hd2l. apply (page_insert_spec h1 Hh) in Hd2l as [[[Hl2 Hc2] _ _] _]; [|done|done|].
  2: { by apply (first_free_slot h1 Hh) in Hi as [_ ?]; [|done|apply (ha_room _ _ _ _ _ _ _ _ Hha)]. }
  apply wp_bind, wp_gets, wp_bind, wp_sto. cbn [fst snd]. eapply wp_load_working; [exact Hw|exact Hi|].
  apply wp_bind, wp_sto. cbn [fst snd]. eapply wp_store_working; [exact Hw|exact Hd2|exact Hl2|]. intros s2 Hw2.
  apply wp_bind, wp_sto. cbn [fst snd]. eapply wp_load_working; [exact Hw2|exact Hc2|]. apply wp_bind.
  eapply wp_maybe_unlink; [exact Hw2|done|apply (ri_uncached _ _ _ Hr1); by left|lia|]. intros h3 d3 s3 [x ->] Hw3 Hl3.
  apply wp_bind, wp_sto. cbn [fst snd].
  eapply (wp_stamp_working h1); [done|exact Hw3|done|by intros; apply (ob_frames _ _ _ Hob), Hlog|]. intros d4 s4 Hw4 Hl4 _.
  apply wp_bind, wp_sto. cbn [fst snd]. eapply wp_page_no_working; [exact Hw4|]. apply wp_bind, wp_sto. cbn [fst snd].
  eapply wp_unpin_obtained; [done| |exact Hob|exact Hw4|]; [lia|]. intros s5 Ht _. apply wp_ret. cbn.
  split_and!; try done; try lia. destruct Hh. by split.
Qed.

Lemma wp_insert_written buf (Q : Rid → St → Prop) :
  num_pages h < MAX_TABLE_PAGES → record_size h ≤ len buf →
  (∀ rid h' s', rows_of fd h s rid = None → row_written fd h h' rid (rd buf 0 (record_size h)) s s' → Q rid (h', s')) →
  wp (insert_record fd buf context) Q io (h, s).
Proof using Hs Hr Hn Hfd Hlog.
  intros Hmax Hb HQ. eapply wp_run; [by apply wp_insert_touched|].
  intros rid [h' s'] Hrun (Ht & Hpg & _ & Hp & Hsl). cbn [fst snd] in *.
  apply insert_record_rm in Hrun as (Hr' & _ & Hsz & Hnone & Hrows); [|done|unfold MAX_TABLE_PAGES, INT_MAX in *; lia].
  apply HQ; [done|]. by split.
Qed.
End file.
End write.
