(* ===== verification/Scan.v ===== *)
(** * The record scan (src/src/record/rm_scan.h and rm_scan.cpp)

    [RmScan] walks over the pages of a record file.  The constructor finds the first
    record and the last page that has one; [next] moves to the next record; the
    client runs [rid] and [next] until [is_end].  The theorem is that this
    enumerates the table of Record.v: every record once, in the order of its place. *)
From Stdlib Require Import Sorting.Sorted.
From S2P Require Import Prelude Bytes Bitmap Disk Log Replacer BufferPool Record.

Record RmScan := mkScan {
  rid_ : Rid;
  scan_pages_ : Z;       (* num_pages_ *)
  scan_records_ : Z;     (* num_records_ *)
  end_page_no_ : Z;
  scan_fd_ : Z;
}.

Section scan.
Context {R : Type} `{Replacer R}.

(** Fetches page [i], finds the next record behind slot [curr] and unpins the page. *)
Definition probe (fd n i curr : Z) : M (Storage R) Z :=
  let! f := fetch_page_handle fd i in
  let! j := load f (λ d, Bitmap.next_bit true d OFFSET_BITMAP n curr) in
  do! unpin_ fd i false in
  ret j.

(** The constructor's two loops, over the page numbers they visit. *)
Fixpoint find_first (fd n num_pages : Z) (pages : list Z) (rid : Rid) : M (Storage R) Rid :=
  match pages with
  | [] => ret rid
  | i :: pages =>
      let! j := probe fd n i (-1) in
      if negb (j =? n) then ret (mkRid i j) else
      let rid := if i =? num_pages - 1 then mkRid i j else rid in
      find_first fd n num_pages pages (mkRid (page_no rid + 1) (-1))
  end.
Fixpoint find_end (fd n : Z) (pages : list Z) (end_page : Z) : M (Storage R) Z :=
  match pages with
  | [] => ret end_page
  | i :: pages =>
      let! j := probe fd n i (-1) in
      if negb (j =? n) then ret i
      else find_end fd n pages (if i =? 1 then INVALID_PAGE_ID else end_page)
  end.

(** [junk] is the uninitialised [rid_]. *)
Definition RmScan_new (fd : Z) (h : RmFileHdr) (junk : Rid) : M (Storage R) RmScan :=
  let n := num_records_per_page h in
  let! rid := find_first fd n (num_pages h) (seqZ 1 (num_pages h - 1)) junk in
  let! e := find_end fd n (reverse (seqZ 1 (num_pages h - 1))) INVALID_PAGE_ID in
  ret (mkScan rid (num_pages h) n e fd).

(** The loop of [next], over the pages from [rid_.page_no] to [end_page_no_]. *)
Fixpoint next_loop (fd n : Z) (pages : list Z) (rid : Rid) : M (Storage R) Rid :=
  match pages with
  | [] => ret rid
  | i :: pages =>
      let! j := probe fd n i (slot_no rid) in
      if negb (j =? n) then ret (mkRid i j)
      else next_loop fd n pages (mkRid (page_no rid + 1) (-1))
  end.
Definition next (sc : RmScan) : M (Storage R) RmScan :=
  let i := page_no (rid_ sc) in
  let! rid := next_loop (scan_fd_ sc) (scan_records_ sc) (seqZ i (end_page_no_ sc - i + 1)) (rid_ sc) in
  ret (mkScan rid (scan_pages_ sc) (scan_records_ sc) (end_page_no_ sc) (scan_fd_ sc)).

Definition is_end (sc : RmScan) : bool :=
  if end_page_no_ sc =? INVALID_PAGE_ID then true
  else page_no (rid_ sc) >? end_page_no_ sc.
Definition rid (sc : RmScan) : Rid := rid_ sc.

(** The client's loop [for (scan; !scan.is_end(); scan.next()) use(scan.rid())];
    [None] is out of fuel. *)
Fixpoint scan_loop (fuel : nat) (sc : RmScan) : M (Storage R) (option (list Rid)) :=
  if is_end sc then ret (Some []) else
  match fuel with
  | O => ret None
  | S fuel =>
      let! sc' := next sc in
      let! o := scan_loop fuel sc' in
      ret ((cons (rid sc)) <$> o)
  end.
Definition scan_all (fuel : nat) (fd : Z) (h : RmFileHdr) (junk : Rid) :
    M (Storage R) (option (list Rid)) :=
  let! sc := RmScan_new fd h junk in scan_loop fuel sc.

End scan.

(** ** The places of the records, in order *)

Section spec.
Context (h : RmFileHdr).
Abbreviation n := (num_records_per_page h).

(** The slots of a page from [i] on that hold a record. *)
Definition slots_from (d : bytes) (i : Z) : list Z :=
  filter (λ j, j ∈ occ h d) (seqZ i (n - i)).
Definition page_rids (V : Z → option bytes) (p i : Z) : list Rid :=
  match V p with Some d => mkRid p <$> slots_from d i | None => [] end.
(** From slot [i] of page [p] on, over [k] pages. *)
Fixpoint rids_from (V : Z → option bytes) (k : nat) (p i : Z) : list Rid :=
  match k with
  | O => []
  | S k => page_rids V p i ++ rids_from V k (p + 1) 0
  end.

Lemma seqZ_cons_lt i m : i < m → seqZ i (m - i) = i :: seqZ (i + 1) (m - (i + 1)).
Proof.
  intros. rewrite seqZ_cons by lia. f_equal. f_equal; lia.
Qed.

Lemma slots_from_step d i :
  i < n → slots_from d i = if decide (i ∈ occ h d) then i :: slots_from d (i + 1) else slots_from d (i + 1).
Proof. intros. unfold slots_from. rewrite seqZ_cons_lt, filter_cons by done. done. Qed.

Lemma slots_from_end d : slots_from d n = [].
Proof. unfold slots_from. by rewrite Z.sub_diag. Qed.

(** The slots behind [curr], from what [next_bit] finds. *)
Lemma slots_from_next d curr j :
  -1 ≤ curr < n → Bitmap.next_bit true d OFFSET_BITMAP n curr = Some j →
  curr < j ≤ n ∧
  slots_from d (curr + 1) = if decide (j = n) then [] else j :: slots_from d (j + 1).
Proof.
  intros Hc Hj. apply Bitmap.next_bit_run in Hj as (Hr & Hno & Hyes); [|lia]. split; [done|].
  assert (Hskip : slots_from d (curr + 1) = slots_from d j).
  { assert (Hk : ∀ k : nat, curr + 1 + Z.of_nat k ≤ j →
      slots_from d (curr + 1) = slots_from d (curr + 1 + Z.of_nat k)).
    { induction k as [|k IH]; intros Hle; [by rewrite Z.add_0_r|]. rewrite IH by lia.
      rewrite slots_from_step by lia. rewrite decide_False; [f_equal; lia|].
      unfold occ. rewrite Bitmap.elem_of_occupied. intros [_ Hset].
      rewrite Hno in Hset by lia. done. }
    rewrite (Hk (Z.to_nat (j - (curr + 1)))) by lia. f_equal. lia. }
  rewrite Hskip. case_decide as Hjn; [subst; apply slots_from_end|].
  rewrite slots_from_step by lia. rewrite decide_True; [done|].
  unfold occ. rewrite Bitmap.elem_of_occupied. split; [lia|]. apply Hyes. lia.
Qed.
End spec.

(** ** The scan enumerates the records *)

Section correctness.
Context {R : Type} `{!Replacer R, !ReplacerLaws R} (fd : Z) (h : RmFileHdr) (V : Z → option bytes).
Implicit Types (s : Storage R).
Abbreviation n := (num_records_per_page h).
Abbreviation N := (num_pages h).

(** The pages of the file are [V]; the scan does not change them. *)
Record scanning s : Prop := {
  sn_rm : rm_inv fd h s;
  sn_view p : 1 ≤ p < N → view s (fd, p) = V p;
}.

Lemma probe_Ok s p curr j s' :
  scanning s → 1 ≤ p < N → probe fd n p curr s = (Ok j, s') →
  scanning s' ∧ ∃ d, V p = Some d ∧ Bitmap.next_bit true d OFFSET_BITMAP n curr = Some j.
Proof.
  intros [Hr Hv] Hp H. unfold probe in H. apply bind_Ok in H as (f & s1 & Hf & H).
  destruct (fetch_rm _ _ _ _ _ _ Hr Hp Hf) as (Hr1 & _ & _ & Hpre & d & Hd & _ & He).
  assert (Hv1 : view_kept s s1).
  { unfold fetch_page_handle in Hf. apply bind_Ok in Hf as (o & ? & Hf & [-> ->]%of_option_Ok).
    by apply fetch_Ok in Hf as [? ? ? ? ? ? ? ? ? ?]; [|apply Hr|apply Hr]. }
  apply bind_Ok in H as (j' & s2 & Hld & H).
  apply (load_editing _ _ _ _ _ _ _ _ He) in Hld as [Hj ->].
  apply bind_Ok in H as ([] & s2 & Hun & [-> ->]%ret_Ok).
  unfold unpin_ in Hun. apply bind_Ok in Hun as (b & s3 & Hu & [_ ->]%ret_Ok).
  apply unpin_unpinned in Hu as [Hi2 Hv2 Hd2 Ht2 _ _]; [|apply Hr1|done].
  destruct (rm_inv_same fd h s1 s3 Hr1 Hi2) as [Hr2 _].
  - intros q b' _ Hb. by rewrite Hv2.
  - intros g Hg. unfold data_fd in *. by rewrite Hd2.
  - by rewrite Hd2.
  - intros q Hq. rewrite Ht2. by apply (ri_uncached _ _ _ Hr1).
  - assert (Hall : ∀ q, 1 ≤ q < N → view s1 (fd, q) = V q).
    { intros q Hq. destruct (ri_page _ _ _ Hr q Hq) as (dq & Hdq & _).
      rewrite <- Hv, Hdq by done. apply Hv1; [apply Hr|done]. }
    split; [split; [done|]|].
    + intros q Hq. by rewrite Hv2, Hall.
    + exists d. split; [|done]. by rewrite <- Hall.
Qed.

(** The records from place [r] on, and behind it. *)
Definition rest (r : Rid) : list Rid :=
  page_rids h V (page_no r) (slot_no r)
  ++ rids_from h V (Z.to_nat (N - page_no r - 1)) (page_no r + 1) 0.
Definition valid (r : Rid) : Prop :=
  1 ≤ page_no r < N ∧ 0 ≤ slot_no r < n ∧
  ∃ d, V (page_no r) = Some d ∧ slot_no r ∈ occ h d.

Lemma rest_valid r : valid r → rest r = r :: rest (mkRid (page_no r) (slot_no r + 1)).
Proof.
  intros (Hp & Hs & d & Hd & Hin). unfold rest, page_rids. simpl. rewrite Hd.
  rewrite slots_from_step by lia. rewrite decide_True by done. simpl. by destruct r.
Qed.

Lemma rids_from_pages p :
  1 ≤ p < N → rids_from h V (Z.to_nat (N - p)) p 0 = rest (mkRid p 0).
Proof.
  intros. unfold rest. simpl.
  replace (Z.to_nat (N - p)) with (S (Z.to_nat (N - p - 1))) by lia. done.
Qed.

(** One probe of page [p] behind slot [curr]. *)
Lemma probe_rest s p curr j s' :
  scanning s → 1 ≤ p < N → -1 ≤ curr < n → probe fd n p curr s = (Ok j, s') →
  scanning s' ∧
  if decide (j = n) then page_rids h V p (curr + 1) = []
  else valid (mkRid p j) ∧ rest (mkRid p (curr + 1)) = rest (mkRid p j).
Proof.
  intros Hs Hp Hc H. apply probe_Ok in H as (Hs' & d & Hd & Hj); [|done..]. split; [done|].
  destruct (slots_from_next h d curr j Hc Hj) as [Hr Hsl]. case_decide as Hjn.
  - unfold page_rids. by rewrite Hd, Hsl.
  - assert (Hin : j ∈ occ h d).
    { apply Bitmap.next_bit_run in Hj as (_ & _ & Hyes); [|lia].
      unfold occ. rewrite Bitmap.elem_of_occupied. split; [lia|]. apply Hyes. lia. }
    split.
    + split_and!; simpl; [lia..|eauto].
    + unfold rest, page_rids. simpl. rewrite Hd, Hsl. rewrite (slots_from_step h d j) by lia.
      by rewrite decide_True.
Qed.

Lemma scanning_pos s : scanning s → 1 ≤ n.
Proof. intros [Hr _]. pose proof (hdr_ok_bounds h (ri_hdr _ _ _ Hr)). lia. Qed.

Lemma find_first_Ok k p r0 s r s' :
  scanning s → 1 ≤ p → N - p = Z.of_nat k →
  find_first fd n N (seqZ p (N - p)) r0 s = (Ok r, s') →
  scanning s' ∧ (valid r ∧ rids_from h V k p 0 = rest r ∨ rids_from h V k p 0 = []).
Proof.
  revert p r0 s. induction k as [|k IH]; intros p r0 s Hs Hp Hk H.
  - rewrite Hk in H. simpl in H. apply ret_Ok in H as [-> ->]. split; [done|by right].
  - rewrite seqZ_cons in H by lia. simpl in H. apply bind_Ok in H as (j & s1 & Hj & H).
    pose proof (scanning_pos s Hs). apply probe_rest in Hj as (Hs1 & Hcase); [|done|lia|lia].
    destruct (Z.eqb_spec j n) as [->|Hjn]; simpl in H.
    + rewrite decide_True in Hcase by done.
      replace (Z.succ p) with (p + 1) in H by lia. replace (Z.pred (N - p)) with (N - (p + 1)) in H by lia.
      apply IH in H as [Hs' Hres]; [|done|lia|lia]. split; [done|].
      simpl. change (page_rids h V p 0) with (page_rids h V p (-1 + 1)). by rewrite Hcase.
    + apply ret_Ok in H as [-> ->]. rewrite decide_False in Hcase by done. destruct Hcase as [Hval Hrest].
      split; [done|]. left. split; [done|]. rewrite <- Hrest.
      replace (S k) with (Z.to_nat (N - p)) by lia. apply rids_from_pages. lia.
Qed.

(** No record behind page [e]. *)
Definition empty_behind (e : Z) : Prop := ∀ p, e < p < N → page_rids h V p 0 = [].

Lemma empty_behind_rids e p k : empty_behind e → e < p → p + Z.of_nat k ≤ N →
  rids_from h V k p 0 = [].
Proof.
  revert p. induction k as [|k IH]; intros p He Hp Hk; [done|]. simpl.
  rewrite He by lia. apply IH; [done|lia|lia].
Qed.

Lemma find_end_Ok k e0 s e s' :
  scanning s → Z.of_nat k < N → empty_behind (Z.of_nat k) → (k = 0%nat → e0 = INVALID_PAGE_ID) →
  find_end fd n (reverse (seqZ 1 (Z.of_nat k))) e0 s = (Ok e, s') →
  scanning s' ∧ (e = INVALID_PAGE_ID ∧ empty_behind 0 ∨ 1 ≤ e < N ∧ empty_behind e ∧ ∃ j, valid (mkRid e j)).
Proof.
  revert e0 s. induction k as [|k IH]; intros e0 s Hs HkN He H0 H.
  - simpl in H. apply ret_Ok in H as [-> ->]. split; [done|]. left. split; [by apply H0|done].
  - rewrite seqZ_S, reverse_snoc in H. simpl in H.
    apply bind_Ok in H as (j & s1 & Hj & H). pose proof (scanning_pos s Hs).
    apply probe_rest in Hj as (Hs1 & Hcase); [|done|lia|lia].
    destruct (Z.eqb_spec j n) as [->|Hjn]; simpl in H.
    + rewrite decide_True in Hcase by done. apply IH in H; [done|done|lia| |].
      * intros p Hp. destruct (decide (p = 1 + Z.of_nat k)) as [->|]; [done|]. apply He. lia.
      * intros ->. done.
    + apply ret_Ok in H as [-> ->]. rewrite decide_False in Hcase by done.
      split; [done|]. right. split_and!; [lia|lia| |exists j; apply Hcase]. intros p Hp. apply He. lia.
Qed.

Lemma next_loop_Ok k q r0 s e r s' :
  scanning s → 1 ≤ q → e < N → e - q + 1 = Z.of_nat k → empty_behind e →
  page_no r0 = q → -1 ≤ slot_no r0 < n →
  next_loop fd n (seqZ q (e - q + 1)) r0 s = (Ok r, s') →
  scanning s' ∧
  (valid r ∧ page_no r ≤ e ∧ rest (mkRid q (slot_no r0 + 1)) = rest r ∧ q ≤ e ∨
   page_no r = e + 1 ∧ (q ≤ e → rest (mkRid q (slot_no r0 + 1)) = [])).
Proof.
  revert q r0 s. induction k as [|k IH]; intros q r0 s Hs Hq HeN Hk He Hpage Hslot H.
  - rewrite Hk in H. simpl in H. apply ret_Ok in H as [-> ->]. split; [done|]. right. split; lia.
  - rewrite seqZ_cons in H by lia. simpl in H. apply bind_Ok in H as (j & s1 & Hj & H).
    apply probe_rest in Hj as (Hs1 & Hcase); [|done|lia|lia].
    destruct (Z.eqb_spec j n) as [->|Hjn]; simpl in H.
    + rewrite decide_True in Hcase by done. pose proof (scanning_pos s Hs).
      replace (Z.succ q) with (q + 1) in H by lia.
      replace (Z.pred (e - q + 1)) with (e - (q + 1) + 1) in H by lia.
      apply IH in H as [Hs' Hres]; [|done|lia|done|lia|done|simpl; lia|simpl; lia].
      split; [done|]. simpl in Hres.
      assert (Hrest : rest (mkRid q (slot_no r0 + 1))
        = rids_from h V (Z.to_nat (N - q - 1)) (q + 1) 0) by (unfold rest; simpl; by rewrite Hcase).
      destruct (decide (q + 1 ≤ e)) as [Hle|].
      * replace (N - q - 1) with (N - (q + 1)) in Hrest by lia.
        rewrite rids_from_pages in Hrest by lia. rewrite Hrest.
        destruct Hres as [(?&?&?&?)|(?&Hnil)]; [left; split_and!; try done; lia|].
        right. split; [done|]. intros _. by apply Hnil.
      * destruct Hres as [(?&?&?&?)|(?&_)]; [lia|]. right. split; [done|]. intros _. rewrite Hrest.
        eapply empty_behind_rids; [exact He|lia|lia].
    + apply ret_Ok in H as [-> ->]. rewrite decide_False in Hcase by done. destruct Hcase as [Hval Hrest].
      split; [done|]. left. split_and!; [done|simpl; lia|done|lia].
Qed.

Lemma scan_loop_Ok fuel sc s o s' :
  scanning s → scan_fd_ sc = fd → scan_records_ sc = n → 1 ≤ end_page_no_ sc < N →
  empty_behind (end_page_no_ sc) → valid (rid_ sc) → (length (rest (rid_ sc)) ≤ fuel)%nat →
  scan_loop fuel sc s = (Ok o, s') → scanning s' ∧ o = Some (rest (rid_ sc)).
Proof.
  revert sc s o. induction fuel as [|fuel IH]; intros [r np nr e g] s o Hs; simpl;
    intros -> -> He Heb Hval Hlen H.
  { rewrite rest_valid in Hlen by done. simpl in Hlen. lia. }
  assert (Hpe : page_no r ≤ e).
  { destruct Hval as (? & ? & d & Hd & Hin). destruct (decide (page_no r ≤ e)); [done|].
    specialize (Heb (page_no r)). unfold page_rids in Heb. rewrite Hd in Heb.
    assert (Hin2 : slot_no r ∈ slots_from h d 0).
    { unfold slots_from. apply list_elem_of_filter. split; [done|]. apply elem_of_seqZ. lia. }
    destruct (slots_from h d 0); [by apply elem_of_nil in Hin2|]. simpl in Heb. specialize (Heb ltac:(lia)). done. }
  unfold is_end in H. simpl in H. destruct (Z.eqb_spec e INVALID_PAGE_ID) as [|Hne]; [unfold INVALID_PAGE_ID in *; lia|].
  rewrite Z.gtb_ltb in H. destruct (Z.ltb_spec e (page_no r)); [lia|].
  apply bind_Ok in H as (sc' & s1 & Hn & H). unfold next in Hn. simpl in Hn.
  apply bind_Ok in Hn as (r' & s2 & Hn & [-> ->]%ret_Ok).
  apply bind_Ok in H as (o' & s3 & Hl & [-> ->]%ret_Ok).
  assert (Hslot : 0 ≤ slot_no r < n) by apply Hval.
  apply (next_loop_Ok (Z.to_nat (e - page_no r + 1))) in Hn as [Hs2 Hres];
    [|done|destruct Hval; lia|lia|lia|done|done|lia].
  pose proof (rest_valid r Hval) as Hrv. destruct Hres as [(Hv' & Hp' & Hr' & _)|(Hp' & Hnil)].
  - rewrite Hr' in Hrv. rewrite Hrv in Hlen. simpl in Hlen.
    apply IH in Hl as [Hs3 ->]; simpl; try done; [|lia]. split; [done|]. simpl. by rewrite Hrv.
  - rewrite Hnil in Hrv by done.
    assert (o' = Some [] ∧ s3 = s2) as [-> ->].
    { destruct fuel; simpl in Hl; unfold is_end in Hl; simpl in Hl;
        (destruct (Z.eqb_spec e INVALID_PAGE_ID); [done|]); rewrite Z.gtb_ltb in Hl;
        (destruct (Z.ltb_spec e (page_no r')); [|lia]); by apply ret_Ok in Hl as [-> ->]. }
    split; [done|]. simpl. by rewrite Hrv.
Qed.
End correctness.

(** ** The list of places *)

Definition rid_lt (a b : Rid) : Prop :=
  page_no a < page_no b ∨ page_no a = page_no b ∧ slot_no a < slot_no b.

Section places.
Context (h : RmFileHdr) (V : Z → option bytes).
Abbreviation n := (num_records_per_page h).

Lemma elem_of_page_rids p r :
  r ∈ page_rids h V p 0 ↔ page_no r = p ∧ ∃ d, V p = Some d ∧ slot_no r ∈ occ h d.
Proof.
  unfold page_rids. destruct (V p) as [d|].
  - rewrite list_elem_of_fmap. split.
    + intros (j & -> & [? _]%list_elem_of_filter). eauto.
    + intros [<- (d' & [= <-] & Hin)]. exists (slot_no r). split; [by destruct r|].
      apply list_elem_of_filter. split; [done|]. apply elem_of_seqZ. apply occ_range in Hin. lia.
  - rewrite elem_of_nil. split; [done|]. by intros [_ (d & ? & _)].
Qed.

Lemma elem_of_rids_from k p r :
  r ∈ rids_from h V k p 0 ↔
  p ≤ page_no r < p + Z.of_nat k ∧ ∃ d, V (page_no r) = Some d ∧ slot_no r ∈ occ h d.
Proof.
  revert p. induction k as [|k IH]; intros p; simpl.
  - rewrite elem_of_nil. split; [done|]. intros [? _]. lia.
  - rewrite elem_of_app, elem_of_page_rids, IH. split.
    + intros [[<- Hd]|[Hp Hd]]; (split; [lia|done]).
    + intros [Hp Hd]. destruct (decide (page_no r = p)) as [<-|]; [by left|right]. split; [lia|done].
Qed.

Lemma seqZ_sorted i m : StronglySorted Z.lt (seqZ i m).
Proof.
  destruct (decide (0 ≤ m)) as [Hm|]; [|rewrite seqZ_nil by lia; constructor].
  replace m with (Z.of_nat (Z.to_nat m)) by lia. generalize (Z.to_nat m) as k. clear m Hm.
  intros k. revert i. induction k as [|k IH]; intros i; [constructor|].
  rewrite seqZ_cons by lia. replace (Z.pred (Z.of_nat (S k))) with (Z.of_nat k) by lia.
  constructor; [apply IH|]. apply Forall_forall. intros j [? _]%elem_of_seqZ. lia.
Qed.

Lemma StronglySorted_filter {A} (Rel : A → A → Prop) (P : A → Prop) `{!∀ x, Decision (P x)} l :
  StronglySorted Rel l → StronglySorted Rel (filter P l).
Proof.
  induction 1 as [|x l Hl IH Hx]; [constructor|]. rewrite filter_cons. case_decide; [|done].
  constructor; [done|]. apply Forall_forall. intros y [_ Hy]%list_elem_of_filter.
  rewrite Forall_forall in Hx. by apply Hx.
Qed.

Lemma StronglySorted_app_intro {A} (Rel : A → A → Prop) l k :
  StronglySorted Rel l → StronglySorted Rel k → (∀ x y, x ∈ l → y ∈ k → Rel x y) →
  StronglySorted Rel (l ++ k).
Proof.
  induction 1 as [|x l Hl IH Hx]; intros Hk Hlk; [done|]. simpl. constructor.
  - apply IH; [done|]. intros. apply Hlk; [by right|done].
  - apply Forall_app. split; [done|]. apply Forall_forall. intros y Hy. apply Hlk; [by left|done].
Qed.

Lemma page_rids_sorted p i : StronglySorted rid_lt (page_rids h V p i).
Proof.
  unfold page_rids. destruct (V p) as [d|]; [|constructor].
  pose proof (StronglySorted_filter Z.lt (λ j, j ∈ occ h d) _ (seqZ_sorted i (n - i))) as Hs.
  fold (slots_from h d i) in Hs. induction Hs as [|j l Hl IH Hj]; [constructor|]. simpl.
  constructor; [done|]. apply Forall_forall. intros r (k & -> & Hk)%list_elem_of_fmap. right.
  rewrite Forall_forall in Hj. split; [done|]. by apply Hj.
Qed.

Lemma rids_from_sorted k p : StronglySorted rid_lt (rids_from h V k p 0).
Proof.
  revert p. induction k as [|k IH]; intros p; [constructor|]. simpl.
  apply StronglySorted_app_intro; [apply page_rids_sorted|apply IH|].
  intros x y [<- _]%elem_of_page_rids [? _]%elem_of_rids_from. left. lia.
Qed.
End places.

(** ** Properties *)

Section properties.
Context {R : Type} `{!Replacer R, !ReplacerLaws R}.
Implicit Types (s : Storage R).

Lemma row_is_Some h d i : hdr_ok h → page_ok h d → (is_Some (row h d i) ↔ i ∈ occ h d).
Proof.
  intros Hh [Hl _]. unfold row. case_decide as Hi; [|split; [by intros [? ?]|done]].
  split; [done|]. intros _. pose proof (occ_range h d i Hi) as Hr.
  pose proof (get_slot_range h i Hh Hr) as [Hs ?]. pose proof (ho_size _ Hh).
  rewrite slots_end in Hs by done. pose proof (Z.div_pos (num_records_per_page h + 7) 8).
  unfold OFFSET_BITMAP, OFFSET_PAGE_HDR in Hs. apply rd_is_Some; lia.
Qed.

Definition places (fd : Z) (h : RmFileHdr) s : list Rid :=
  rids_from h (λ p, view s (fd, p)) (Z.to_nat (num_pages h - 1)) 1 0.

Lemma elem_of_places fd h s r : rm_inv fd h s → (r ∈ places fd h s ↔ is_Some (rows_of fd h s r)).
Proof.
  intros Hr. unfold places. rewrite elem_of_rids_from. pose proof (ri_num _ _ _ Hr). unfold rows_of.
  replace (1 + Z.of_nat (Z.to_nat (num_pages h - 1))) with (num_pages h) by lia.
  destruct (decide (1 ≤ page_no r < num_pages h)) as [Hp|]; [|split; [by intros [? _]|by intros [? ?]]].
  destruct (ri_page _ _ _ Hr _ Hp) as (d & Hd & Hok). rewrite Hd. simpl.
  rewrite (row_is_Some h d _ (ri_hdr _ _ _ Hr) Hok). naive_solver.
Qed.

(** C14: the record scan enumerates the table: with fuel for every record, the loop
    over a fresh [RmScan] ends with the places of exactly the records, each once,
    in the order of pages and slots, and changes no record. *)
Theorem scan_enumerates_table fd h s junk fuel o s' :
  rm_inv fd h s → (length (places fd h s) ≤ fuel)%nat →
  scan_all fuel fd h junk s = (Ok o, s') →
  ∃ l, o = Some l ∧ (∀ r, r ∈ l ↔ is_Some (rows_of fd h s r)) ∧ StronglySorted rid_lt l ∧
  rm_inv fd h s' ∧ ∀ p, 1 ≤ p < num_pages h → view s' (fd, p) = view s (fd, p).
Proof.
  intros Hr Hfuel H. exists (places fd h s). set (V := λ p, view s (fd, p)).
  assert (Hsc : scanning fd h V s) by done. pose proof (ri_num _ _ _ Hr) as Hnum.
  assert (Hres : scanning fd h V s' ∧ o = Some (places fd h s)).
  { unfold scan_all, RmScan_new in H. apply bind_Ok in H as (sc & s3 & Hnew & H).
    apply bind_Ok in Hnew as (r0 & s1 & Hfirst & Hnew). apply bind_Ok in Hnew as (e & s2 & Hend & [-> ->]%ret_Ok).
    apply (find_first_Ok fd h V (Z.to_nat (num_pages h - 1))) in Hfirst as [Hs1 Hrest]; [|done|lia|lia].
    replace (num_pages h - 1) with (Z.of_nat (Z.to_nat (num_pages h - 1))) in Hend by lia.
    apply (find_end_Ok fd h V) in Hend as [Hs2 He]; [|done|lia|intros p Hp; lia|done].
    unfold places. fold V. destruct He as [[-> Hemp]|(He & Hemp & j & Hj)].
    - assert (Hnil : rids_from h V (Z.to_nat (num_pages h - 1)) 1 0 = []).
      { eapply empty_behind_rids; [exact Hemp|lia|lia]. }
      rewrite Hnil. destruct fuel; simpl in H; unfold is_end in H; simpl in H; by apply ret_Ok in H as [-> ->].
    - destruct Hrest as [[Hval Hrest]|Hnil].
      + rewrite Hrest. apply (scan_loop_Ok fd h V) in H as [Hs3 ->]; simpl; try done.
        unfold places in Hfuel. fold V in Hfuel. by rewrite <- Hrest.
      + exfalso. destruct Hj as (Hp & _ & Hd). simpl in Hp, Hd.
        assert (Hin : mkRid e j ∈ rids_from h V (Z.to_nat (num_pages h - 1)) 1 0).
        { apply elem_of_rids_from. simpl. split; [lia|done]. }
        rewrite Hnil in Hin. by apply elem_of_nil in Hin. }
  destruct Hres as [[Hr' Hv'] ->]. split_and!; [done| | |done|done].
  - intros r. by apply elem_of_places.
  - apply rids_from_sorted.
Qed.
End properties.

(** ** Witness: the scan of a file with one record *)

#[local] Existing Instance LRU.lru_replacer.
#[local] Existing Instance LRU.lru_laws.

Lemma scan_enumerates_table_witness :
  ∃ l, scan_all 5 3 demo_inserted.1 (mkRid 0 0) demo_inserted.2
       = (Ok (Some l), (scan_all 5 3 demo_inserted.1 (mkRid 0 0) demo_inserted.2).2) ∧
    ∀ r, r ∈ l ↔ is_Some (rows_of 3 demo_inserted.1 demo_inserted.2 r).
Proof.
  assert (H : scan_all 5 3 demo_inserted.1 (mkRid 0 0) demo_inserted.2
    = (Ok (Some [mkRid 1 0]), (scan_all 5 3 demo_inserted.1 (mkRid 0 0) demo_inserted.2).2)).
  { apply run_outcome; [reflexivity|vm_compute; reflexivity]. }
  exists [mkRid 1 0]. split; [exact H|].
  destruct (scan_enumerates_table 3 demo_inserted.1 demo_inserted.2 (mkRid 0 0) 5 (Some [mkRid 1 0])
    (scan_all 5 3 demo_inserted.1 (mkRid 0 0) demo_inserted.2).2) as (l & Hl & Hin & _).
  - exact demo_inserted_inv.
  - vm_compute. lia.
  - exact H.
  - injection Hl as <-. exact Hin.
Defined.
