(* ===== verification/RowScan.v ===== *)
(** * Scans over open tables

    The scan of Scan.v, in a state that need not keep the counts and the free list of the
    pages: it returns, or meets an error of the file system, goes through the places that
    hold a row, and leaves all rows as they were. *)
From S2P Require Import Prelude Bytes Bitmap Disk Log Replacer BufferPool Record PoolRun Rows Scan.

Section file.
Context {R : Type} `{!Replacer R, !ReplacerLaws R} (fd : Z) (h : RmFileHdr) (V : Z → option bytes).
Implicit Types (s : Storage R).
Abbreviation n := (num_records_per_page h).
Abbreviation N := (num_pages h).
Abbreviation io := fails_io.
Abbreviation table s := (page_table_ (s_bpm s)).

(** The pages of the file have the records of the pages [V]. *)
Record scannable s : Prop := {
  sc_stored : stored s;
  sc_file : file_ok fd h s;
  sc_pages p : 1 ≤ p < N → ∃ d d0, view s (fd, p) = Some d ∧ V p = Some d0 ∧ ∀ i, row h d i = row h d0 i;
  sc_len p d0 : V p = Some d0 → len d0 = PAGE_SIZE;
}.

Lemma occ_row (d : bytes) i : hdr_ok h → len d = PAGE_SIZE → i ∈ occ h d ↔ is_Some (row h d i).
Proof.
  intros Hh Hl. unfold row. split.
  - intros Hin. rewrite decide_True by done. pose proof (get_slot_range h i Hh (occ_range h _ _ Hin)) as [Hs Hs2].
    rewrite (slots_end h Hh) in Hs. pose proof (ho_size _ Hh). pose proof (hdr_ok_bounds h Hh) as (? & _).
    pose proof (Z.div_pos (n + 7) 8). apply rd_is_Some; unfold OFFSET_BITMAP, OFFSET_PAGE_HDR in *; lia.
  - case_decide; [done|]. by intros [? ?].
Qed.

Lemma same_rows_occ (d d0 : bytes) : hdr_ok h → len d = PAGE_SIZE → len d0 = PAGE_SIZE → (∀ i, row h d i = row h d0 i) → occ h d = occ h d0.
Proof. intros Hh Hl Hl0 Hr. apply set_eq. intros i. by rewrite !occ_row, Hr. Qed.

Lemma bitmap_in_page (d : bytes) : hdr_ok h → len d = PAGE_SIZE → OFFSET_BITMAP + (n + 7) / 8 ≤ len d.
Proof.
  intros Hh Hl. pose proof (hdr_ok_bounds h Hh) as (? & ?). pose proof (get_slot_range h 0 Hh) as [Hs Hs2]; [lia|].
  rewrite (slots_end h Hh) in Hs. pose proof (ho_size _ Hh). lia.
Qed.

Lemma wp_probe s p curr d (Q : Z → Storage R → Prop) :
  stored s → file_ok fd h s → 1 ≤ p < N → -1 ≤ curr < n → view s (fd, p) = Some d →
  (∀ j s', Bitmap.next_bit true d OFFSET_BITMAP n curr = Some j → looked_at (fd, p) s s' → Q j s') →
  wp (probe fd n p curr) Q io s.
Proof.
  intros Hs Hf Hp Hc Hv HQ. pose proof (fo_num _ _ _ Hf) as HN. pose proof (view_length _ _ _ (so_inv _ Hs) Hv) as Hl.
  destruct (Bitmap.next_bit_total true d OFFSET_BITMAP n curr) as [j Hj]; [lia|done|apply bitmap_in_page; [apply Hf|done]|].
  unfold probe. apply wp_bind. eapply wp_fetch_handle; [done|apply Hf|lia|done|].
  intros f s1 Hft Hfr Hw. apply wp_bind. eapply wp_load_working; [done|exact Hj|].
  apply wp_bind, wp_Ok.
  { unfold unpin_. apply wp_bind. eapply wp_mono; [apply unpin_page_runs, Hft|done]. }
  intros [] s2 Hun. apply wp_ret, HQ; [done|]. unfold unpin_ in Hun. apply bind_Ok in Hun as (b & s3 & Hun & [_ ->]%ret_Ok).
  assert (same_frames s s3) as [Hfs Hlog].
  { etrans; [exact Hfr|]. pose proof (frames_unpin (fd, p) false s1) as Hu. by rewrite Hun in Hu. }
  apply unpin_unpinned in Hun as [Hi2 Hv2 Hd2 Ht2 Hp2 Hb2 Hl2]; [|apply Hft|apply Hft].
  assert (∀ q, pins s3 q = pins s q) as Hpins.
  { intros q. rewrite Hp2, (ft_pins _ _ _ _ Hft). pose proof (pins_nonneg s q (so_inv _ Hs)). case_decide as Hq; [|done]. subst q.
    assert (b = true) as ->; [|lia]. apply Hb2. rewrite (ft_pins _ _ _ _ Hft), decide_True by done. lia. }
  split.
  - split.
    + split; [done| |].
      * intros q g. rewrite Ht2. destruct (decide (q = (fd, p))) as [->|Hne].
        { intros _. apply i32_ok_range. unfold MAX_TABLE_PAGES, PAGE_SIZE in *. simpl. lia. }
        destruct (table s !! q) as [g'|] eqn:Eq; [intros _; by eapply (so_small _ Hs)|].
        by rewrite (ft_keys _ _ _ _ Hft).
      * rewrite Hfs. eapply Nat.le_lt_trans; [|apply Hs]. apply subseteq_size. intros q. by rewrite !elem_of_pinned, Hpins.
    + intros q b' Hq Hq0 Hdq Hvq. rewrite Hv2. by apply (ft_view _ _ _ _ Hft).
    + exists d. rewrite Hv2. apply (ft_view _ _ _ _ Hft); [apply Hf|done].
    + exact Hpins.
    + intros g Hg. unfold data_fd. rewrite Hd2. by apply (ft_fds _ _ _ _ Hft).
    + intros g _. unfold get_fd2pageno. by rewrite Hd2, (ft_pageno _ _ _ _ Hft).
    + intros q Hq Hn. rewrite Ht2. by apply (ft_keys _ _ _ _ Hft).
    + done.
  - rewrite Hv2, Hv. apply (ft_view _ _ _ _ Hft); [apply Hf|done].
  - by rewrite Hd2, (ft_pageno _ _ _ _ Hft).
Qed.

Lemma looked_at_scannable p s s' : 1 ≤ p → looked_at (fd, p) s s' → scannable s → scannable s'.
Proof.
  intros Hp [Ht Hv _] [Hs Hf Hpg Hl]. split; [apply Ht|eapply touched_file; [|exact Ht|exact Hf]; done|..|done].
  intros q Hq. destruct (Hpg q Hq) as (d & d0 & Hd & Hd0 & Hr). exists d, d0. split; [|done].
  destruct (decide (q = p)) as [->|Hne]; [by rewrite Hv|].
  apply (tc_view _ _ _ Ht); [congruence| |apply Hf|done]. intros [= Hz]. unfold RM_FILE_HDR_PAGE in Hz. lia.
Qed.

(** [looked_at] pages, one after the other. *)
Inductive scanned : relation (Storage R) :=
  | scanned_none s : scanned s s
  | scanned_more p s1 s2 s3 : 1 ≤ p < N → looked_at (fd, p) s1 s2 → scanned s2 s3 → scanned s1 s3.

Lemma scanned_once p s s' : 1 ≤ p < N → looked_at (fd, p) s s' → scanned s s'.
Proof. intros. eapply scanned_more; [done..|apply scanned_none]. Qed.
Lemma scanned_trans s1 s2 s3 : scanned s1 s2 → scanned s2 s3 → scanned s1 s3.
Proof. induction 1 as [|p s1 s2 s4 Hp Hl _ IH]; [done|]. intros H. eapply scanned_more; [done..|by apply IH]. Qed.

(** One probe, in terms of the pages [V]. *)
Lemma wp_probe_rest s p curr (Q : Z → Storage R → Prop) :
  scannable s → 1 ≤ p < N → -1 ≤ curr < n →
  (∀ j s', scannable s' → scanned s s' →
     (if decide (j = n) then page_rids h V p (curr + 1) = []
      else valid h V (mkRid p j) ∧ rest h V (mkRid p (curr + 1)) = rest h V (mkRid p j)) → Q j s') →
  wp (probe fd n p curr) Q io s.
Proof.
  intros Hsc Hp Hc HQ. pose proof (sc_file _ Hsc) as Hf. pose proof (fo_hdr _ _ _ Hf) as Hh.
  destruct (sc_pages _ Hsc p Hp) as (d & d0 & Hd & Hd0 & Hr).
  pose proof (view_length _ _ _ (so_inv _ (sc_stored _ Hsc)) Hd) as Hl. pose proof (sc_len _ Hsc p d0 Hd0) as Hl0.
  pose proof (same_rows_occ d d0 Hh Hl Hl0 Hr) as Hocc.
  eapply wp_probe; [apply Hsc|done|done|done|done|]. intros j s' Hj Hla. apply HQ.
  { eapply looked_at_scannable; [|done..]. lia. }
  { by eapply scanned_once. }
  destruct (slots_from_next h d curr j Hc Hj) as [Hjr Hsl].
  assert (∀ i, slots_from h d0 i = slots_from h d i) as Hsf by (intros i; unfold slots_from; by rewrite Hocc).
  case_decide as Hjn.
  - unfold page_rids. by rewrite Hd0, Hsf, Hsl.
  - assert (Hin : j ∈ occ h d0).
    { rewrite <-Hocc. apply Bitmap.next_bit_run in Hj as (_ & _ & Hyes); [|lia].
      unfold occ. rewrite Bitmap.elem_of_occupied. split; [lia|]. apply Hyes. lia. }
    split.
    + split_and!; simpl; [lia..|eauto].
    + unfold rest, page_rids. simpl. rewrite Hd0, !Hsf, Hsl. rewrite (slots_from_step h d j) by lia.
      rewrite Hocc. by rewrite decide_True.
Qed.

Lemma scannable_pos s : scannable s → 1 ≤ n.
Proof. intros [_ Hf _ _]. pose proof (hdr_ok_bounds h (fo_hdr _ _ _ Hf)). lia. Qed.

Lemma wp_find_first k p r0 s (Q : Rid → Storage R → Prop) :
  scannable s → 1 ≤ p → N - p = Z.of_nat k →
  (∀ r s', scannable s' → scanned s s' →
     (valid h V r ∧ rids_from h V k p 0 = rest h V r ∨ rids_from h V k p 0 = []) → Q r s') →
  wp (find_first fd n N (seqZ p (N - p)) r0) Q io s.
Proof.
  revert p r0 s. induction k as [|k IH]; intros p r0 s Hs Hp Hk HQ.
  { rewrite Hk. apply wp_ret, HQ; [done|apply scanned_none|by right]. }
  rewrite seqZ_cons by lia. simpl. pose proof (scannable_pos s Hs). apply wp_bind, wp_probe_rest; [done|lia|lia|].
  intros j s1 Hs1 Hl1 Hcase. destruct (Z.eqb_spec j n) as [->|Hjn]; simpl.
  - rewrite decide_True in Hcase by done.
    replace (Z.succ p) with (p + 1) by lia. replace (Z.pred (N - p)) with (N - (p + 1)) by lia.
    apply IH; [done|lia|lia|]. intros r s' Hs' Hl' Hres. apply HQ; [done|by eapply scanned_trans|].
    simpl. change (page_rids h V p 0) with (page_rids h V p (-1 + 1)). by rewrite Hcase.
  - rewrite decide_False in Hcase by done. destruct Hcase as [Hval Hrest]. apply wp_ret, HQ; [done..|].
    left. split; [done|]. rewrite <-Hrest. replace (S k) with (Z.to_nat (N - p)) by lia.
    apply (rids_from_pages h V p). lia.
Qed.

Lemma wp_find_end k e0 s (Q : Z → Storage R → Prop) :
  scannable s → Z.of_nat k < N → empty_behind h V (Z.of_nat k) → (k = 0%nat → e0 = INVALID_PAGE_ID) →
  (∀ e s', scannable s' → scanned s s' →
     (e = INVALID_PAGE_ID ∧ empty_behind h V 0 ∨ 1 ≤ e < N ∧ empty_behind h V e ∧ ∃ j, valid h V (mkRid e j)) → Q e s') →
  wp (find_end fd n (reverse (seqZ 1 (Z.of_nat k))) e0) Q io s.
Proof.
  revert e0 s. induction k as [|k IH]; intros e0 s Hs HkN He H0 HQ.
  { apply wp_ret, HQ; [done|apply scanned_none|]. left. split; [by apply H0|done]. }
  rewrite seqZ_S, reverse_snoc. simpl. pose proof (scannable_pos s Hs). apply wp_bind, wp_probe_rest; [done|lia|lia|].
  intros j s1 Hs1 Hl1 Hcase. destruct (Z.eqb_spec j n) as [->|Hjn]; simpl.
  - rewrite decide_True in Hcase by done. apply IH; [done|lia| |by intros ->|].
    + intros p Hp. destruct (decide (p = 1 + Z.of_nat k)) as [->|]; [done|]. apply He. lia.
    + intros e s' Hs' Hl' Hres. apply HQ; [done|by eapply scanned_trans|done].
  - rewrite decide_False in Hcase by done. apply wp_ret, HQ; [done..|]. right. split; [lia|].
    split; [|exists j; apply Hcase]. intros p Hp. apply He. lia.
Qed.

Lemma wp_next_loop k q r0 s e (Q : Rid → Storage R → Prop) :
  scannable s → 1 ≤ q → e < N → e - q + 1 = Z.of_nat k → empty_behind h V e →
  page_no r0 = q → -1 ≤ slot_no r0 < n →
  (∀ r s', scannable s' → scanned s s' →
     (valid h V r ∧ rest h V (mkRid q (slot_no r0 + 1)) = rest h V r ∧ q ≤ e ∨
      page_no r = e + 1 ∧ (q ≤ e → rest h V (mkRid q (slot_no r0 + 1)) = [])) → Q r s') →
  wp (next_loop fd n (seqZ q (e - q + 1)) r0) Q io s.
Proof.
  revert q r0 s. induction k as [|k IH]; intros q r0 s Hs Hq HeN Hk He Hpage Hslot HQ.
  { rewrite Hk. apply wp_ret, HQ; [done|apply scanned_none|]. right. split; lia. }
  rewrite seqZ_cons by lia. simpl. pose proof (scannable_pos s Hs). apply wp_bind, wp_probe_rest; [done|lia|lia|].
  intros j s1 Hs1 Hl1 Hcase. destruct (Z.eqb_spec j n) as [->|Hjn]; simpl.
  - rewrite decide_True in Hcase by done.
    replace (Z.succ q) with (q + 1) by lia. replace (Z.pred (e - q + 1)) with (e - (q + 1) + 1) by lia.
    apply IH; [done|lia|lia|lia|done|simpl; lia|simpl; lia|]. intros r s' Hs' Hl' Hres. apply HQ; [done|by eapply scanned_trans|].
    cbn [slot_no] in Hres. change (-1 + 1) with 0 in Hres.
    assert (Hrest : rest h V (mkRid q (slot_no r0 + 1)) = rids_from h V (Z.to_nat (N - q - 1)) (q + 1) 0)
      by (unfold rest; simpl; by rewrite Hcase).
    destruct (decide (q + 1 ≤ e)) as [Hle|].
    + replace (N - q - 1) with (N - (q + 1)) in Hrest by lia.
      rewrite (rids_from_pages h V) in Hrest by lia. rewrite Hrest.
      destruct Hres as [(?&?&?)|(?&Hnil)]; [left; split_and!; try done; lia|]. right. split; [done|]. intros _. by apply Hnil.
    + destruct Hres as [(?&?&?)|(?&_)]; [lia|]. right. split; [done|]. intros _. rewrite Hrest.
      eapply (empty_behind_rids h V); [exact He|lia|lia].
  - rewrite decide_False in Hcase by done. destruct Hcase as [Hval Hrest]. apply wp_ret, HQ; [done..|].
    left. split_and!; [done|done|lia].
Qed.

(** ** The scan as an iterator *)

(** All places of the file that hold a record. *)
Definition all_rids : list Rid := rids_from h V (Z.to_nat (N - 1)) 1 0.

(** The scan stands before the places [l]. *)
Definition scan_at (sc : RmScan) (l : list Rid) : Prop :=
  scan_fd_ sc = fd ∧ scan_records_ sc = n ∧
  (l = [] ∧ is_end sc = true ∨
   1 ≤ end_page_no_ sc < N ∧ empty_behind h V (end_page_no_ sc) ∧ valid h V (rid_ sc) ∧ l = rest h V (rid_ sc)).

Lemma valid_page e r : empty_behind h V e → valid h V r → page_no r ≤ e.
Proof using Type.
  intros Heb (? & ? & d & Hd & Hin). destruct (decide (page_no r ≤ e)); [done|].
  specialize (Heb (page_no r)). unfold page_rids in Heb. rewrite Hd in Heb.
  assert (Hin2 : slot_no r ∈ slots_from h d 0).
  { unfold slots_from. apply list_elem_of_filter. split; [done|]. apply elem_of_seqZ. lia. }
  destruct (slots_from h d 0); [by apply elem_of_nil in Hin2|]. simpl in Heb. specialize (Heb ltac:(lia)). done.
Qed.

Lemma scan_at_end sc l : scan_at sc l → is_end sc = bool_decide (l = []).
Proof using Type.
  intros (_ & _ & [[-> ->]|(He & Hb & Hv & ->)]); [done|]. pose proof (valid_page _ _ Hb Hv) as Hpe.
  rewrite rest_valid by done. rewrite bool_decide_eq_false_2 by done. unfold is_end.
  destruct (Z.eqb_spec (end_page_no_ sc) INVALID_PAGE_ID) as [Hz|]; [unfold INVALID_PAGE_ID in Hz; lia|].
  rewrite Z.gtb_ltb. by apply Z.ltb_ge.
Qed.

Lemma scan_at_rid sc r l : scan_at sc (r :: l) → rid sc = r ∧ 1 ≤ page_no r < N ∧ l = rest h V (mkRid (page_no r) (slot_no r + 1)).
Proof using Type.
  intros (_ & _ & [[? _]|(He & Hb & Hv & Hl)]); [done|]. rewrite rest_valid in Hl by done. injection Hl as -> ->.
  split; [done|]. split; [apply Hv|done].
Qed.

Lemma wp_scan_new s junk (Q : RmScan → Storage R → Prop) :
  scannable s → (∀ sc s', scannable s' → scanned s s' → scan_at sc all_rids → Q sc s') → wp (RmScan_new fd h junk) Q io s.
Proof.
  intros Hs HQ. pose proof (fo_num _ _ _ (sc_file _ Hs)) as HN. unfold RmScan_new.
  apply wp_bind. eapply (wp_find_first (Z.to_nat (N - 1))); [done|lia|lia|]. intros r s1 Hs1 Hl1 Hr.
  apply wp_bind. replace (N - 1) with (Z.of_nat (Z.to_nat (N - 1))) by lia.
  apply wp_find_end; [done|lia| |lia|].
  { intros p Hp. lia. }
  intros e s2 Hs2 Hl2 He. apply wp_ret, HQ; [done|by eapply scanned_trans|]. split; [done|]. split; [done|].
  unfold all_rids. cbn [end_page_no_ rid_].
  destruct He as [[-> Hb]|(He & Hb & j & Hj)].
  { left. split; [|done]. by apply (empty_behind_rids h V 0); [|lia|lia]. }
  right. destruct Hr as [[Hr ->]|Hnil]; [done|]. exfalso.
  destruct Hj as (Hp & Hslot & d & Hd & Hin). cbn [page_no slot_no] in *.
  assert (mkRid e j ∈ rids_from h V (Z.to_nat (N - 1)) 1 0) as Hel.
  { apply elem_of_rids_from. cbn. split; [lia|]. by exists d. }
  rewrite Hnil in Hel. by apply elem_of_nil in Hel.
Qed.

Lemma wp_scan_next s sc r l (Q : RmScan → Storage R → Prop) :
  scannable s → scan_at sc (r :: l) →
  (∀ sc' s', scannable s' → scanned s s' → scan_at sc' l → Q sc' s') → wp (next sc) Q io s.
Proof.
  intros Hs Hsc HQ. pose proof (scan_at_rid _ _ _ Hsc) as (Hrid & Hp & Hl).
  destruct Hsc as (Hfd & Hn & [[? _]|(He & Hb & Hv & _)]); [done|]. unfold rid in Hrid.
  unfold next. rewrite Hfd, Hn, Hrid in *. pose proof (valid_page _ _ Hb Hv) as Hpe.
  assert (0 ≤ slot_no r < n) as Hslot by apply Hv.
  apply wp_bind. eapply (wp_next_loop (Z.to_nat (end_page_no_ sc - page_no r + 1))); [done|lia|lia|lia|done|done|lia|].
  intros r' s1 Hs1 Hl1 Hres. apply wp_ret, HQ; [done..|]. split; [done|]. split; [done|]. cbn [end_page_no_ rid_].
  destruct Hres as [(Hv' & Hr' & _)|(Hp' & Hnil)].
  - right. rewrite Hl, Hr'. done.
  - left. rewrite Hl, Hnil by done. split; [done|]. unfold is_end. cbn.
    destruct (Z.eqb_spec (end_page_no_ sc) INVALID_PAGE_ID) as [|]; [done|].
    rewrite Z.gtb_ltb. apply Z.ltb_lt. lia.
Qed.
End file.
