(* ===== verification/Recovery.v ===== *)
(** * Crash recovery (src/src/recovery/log_recovery.h and log_recovery.cpp)

    [analyze] reads the log file from its start and builds the table of unfinished
    transactions [ATT], the dirty page table [DPT] and the offsets of the records;
    [redo] repeats the changes of the pages of [DPT] that are not on them yet;
    [undo] rolls the transactions of [ATT] back, newest record first.  [Db] is the
    part of the server they work on: the open record files by table name
    ([SmManager::fhs_]) over the shared storage.  [format_log], a debugging print,
    is left out; the rebuilding of the indexes after [undo] is a parameter. *)
From S2P Require Import Prelude Bytes Bitmap Disk Log Replacer BufferPool Record.

Record RecoveryManager := mkRecovery {
  ATT : gmap Z Z;
  DPT : gmap PageId Z;
  log_offsets_ : gmap Z Z;
  last_lsn_ : Z;
}.

(** The constructor leaves [last_lsn_] uninitialised. *)
Definition RecoveryManager_new (junk : Z) : RecoveryManager := mkRecovery ∅ ∅ ∅ junk.

Record Db (R : Type) := mkDb {
  fhs_ : gmap bytes (Z * RmFileHdr);
  db_storage : Storage R;
}.
Arguments mkDb {R}.
Arguments fhs_ {R}.
Arguments db_storage {R}.

(** ** Analysis, record by record *)

(** What [analyze] does with a record of type [ty] (none for an unknown one), whose
    header has [lsn] and [tid], at [offset]; [page] is the page it changes. *)
Record Analysis := mkAnalysis { an_rec : RecoveryManager; an_aborted : gset Z }.

Definition note_record (lsn offset : Z) (a : Analysis) : Analysis :=
  let r := an_rec a in
  mkAnalysis
    (mkRecovery (ATT r) (DPT r)
       (match log_offsets_ r !! lsn with Some _ => log_offsets_ r | None => <[lsn := offset]> (log_offsets_ r) end)
       lsn)
    (an_aborted a).
Definition set_att (tid lsn : Z) (a : Analysis) : Analysis :=
  let r := an_rec a in
  mkAnalysis (mkRecovery (<[tid := lsn]> (ATT r)) (DPT r) (log_offsets_ r) (last_lsn_ r)) (an_aborted a).
Definition erase_att (tid : Z) (a : Analysis) : Analysis :=
  let r := an_rec a in
  mkAnalysis (mkRecovery (delete tid (ATT r)) (DPT r) (log_offsets_ r) (last_lsn_ r)) (an_aborted a).
Definition note_page (pid : PageId) (lsn : Z) (a : Analysis) : Analysis :=
  let r := an_rec a in
  match DPT r !! pid with
  | Some _ => a
  | None => mkAnalysis (mkRecovery (ATT r) (<[pid := lsn]> (DPT r)) (log_offsets_ r) (last_lsn_ r)) (an_aborted a)
  end.
Definition note_abort (tid : Z) (a : Analysis) : Analysis :=
  mkAnalysis (an_rec a) ({[tid]} ∪ an_aborted a).
Definition checkpoint (a : Analysis) : Analysis :=
  let r := an_rec a in
  mkAnalysis
    (mkRecovery (filter (λ e, e.1 ∉ an_aborted a) (ATT r)) ∅ (log_offsets_ r) (last_lsn_ r)) ∅.

(** The row of an insert, delete or update record. *)
Definition body_row (b : LogBody) : option RowLog :=
  match b with RowBody row => Some row | UpdateBody _ row => Some row | NoBody => None end.

Section recovery.
Context {R : Type} `{Replacer R}.
Abbreviation db := (Db R).

Definition on_storage {A} (m : M (Storage R) A) : M db A :=
  zoom db_storage (λ s d, mkDb (fhs_ d) s) m.
Definition on_disk {A} (m : M DiskManager A) : M db A := on_storage (disk_call m).

(** [read_log] into the buffer [buf]; its return value is not looked at. *)
Definition read_into_buf (buf : bytes) (size offset : Z) : M db bytes := λ d,
  let '(o, (buf', disk)) := read_log size offset (buf, s_disk (db_storage d)) in
  let d' := mkDb (fhs_ d) (set_disk disk (db_storage d)) in
  match o with Ok _ => (Ok buf', d') | Throw e => (Throw e, d') | Stuck => (Stuck, d') end.

(** The record at [offset], read into [log_data]; the bytes of the C++ buffer behind the
    record are left out, and a record larger than the buffer overruns it. *)
Definition read_record (size offset : Z) : M db bytes :=
  do! massert ((0 <=? size) && (size <=? LOG_BUFFER_SIZE)) in
  read_into_buf (replicate (Z.to_nat size) 0) size offset.

(** [sm_manager_->fhs_.at(tab_name)] *)
Definition fhs_at (tab_name : bytes) : M db (Z * RmFileHdr) :=
  let! o := gets (λ d, fhs_ d !! tab_name) in
  match o with None => throw OutOfRange | Some fh => ret fh end.

Definition log_type_of (header : bytes) : option LogType := t ← rd_i32 header OFFSET_LOG_TYPE; LogType_of t.

(** The page of the record in [log_data]. *)
Definition record_page (log_data : bytes) : M db PageId :=
  let! r := of_option (deserialize log_data) in
  let! row := of_option (body_row (log_body r)) in
  let! fh := fhs_at (table_name_ row) in
  ret (fh.1, page_no (rid_ row)).

Fixpoint analyze_loop (fuel : nat) (log_file_size offset : Z) (header : bytes) (a : Analysis) :
    M db (option Analysis) :=
  if negb (offset <? log_file_size) then ret (Some a) else
  match fuel with
  | O => ret None
  | S fuel =>
      let! header := read_into_buf header LOG_HEADER_SIZE offset in
      let! tot := of_option (rd_u32 header OFFSET_LOG_TOT_LEN) in
      let log_tot_len := wrap32 tot in
      let! lsn := of_option (rd_i32 header OFFSET_LSN) in
      let! tid := of_option (rd_i32 header OFFSET_LOG_TID) in
      let a := note_record lsn offset a in
      let! a :=
        match log_type_of header with
        | Some begin_ => do! read_record log_tot_len offset in ret (set_att tid lsn a)
        | Some commit_ => do! read_record log_tot_len offset in ret (erase_att tid a)
        | Some ABORT => do! read_record log_tot_len offset in ret (note_abort tid a)
        | Some (UPDATE | INSERT | DELETE) =>
            let! log_data := read_record log_tot_len offset in
            let! pid := record_page log_data in
            ret (set_att tid lsn (note_page pid lsn a))
        | Some Checkpoint => do! read_record log_tot_len offset in ret (checkpoint a)
        | None => ret a
        end in
      analyze_loop fuel log_file_size (offset + log_tot_len) header a
  end.

Definition analyze (fuel : nat) (r : RecoveryManager) : M db (option RecoveryManager) :=
  let! size := gets (λ d, get_file_size LOG_FILE_NAME (s_disk (db_storage d))) in
  let! o := analyze_loop fuel size 0 (replicate (Z.to_nat LOG_HEADER_SIZE) 0) (mkAnalysis r ∅) in
  ret (an_rec <$> o).

(** ** Redo *)

(** An operation of the record file of a table. *)
Definition on_file {A} (tab_name : bytes) (op : Z → M (RmFileHdr * Storage R) A) : M db A := λ d,
  match fhs_ d !! tab_name with
  | None => (Stuck, d)
  | Some (fd, h) =>
      let '(o, (h', s')) := op fd (h, db_storage d) in
      (o, mkDb (<[tab_name := (fd, h')]> (fhs_ d)) s')
  end.

Definition redo_op (lsn : Z) (r : LogRecord) (row : RowLog) : Z → M (RmFileHdr * Storage R) unit :=
  match log_type_ (log_hdr r) with
  | INSERT => λ fd, insert_redo fd lsn row
  | DELETE => λ fd, delete_redo fd lsn row
  | _ => λ fd, update_redo fd lsn row
  end.

(** One record of the loop of [redo]; the record's own lsn is what it stamps. *)
Definition redo_row (dpt : gmap PageId Z) (lsn : Z) (r : LogRecord) (row : RowLog) : M db unit :=
  let! o := gets (λ d, fhs_ d !! table_name_ row) in
  let! fh := of_option o in
  let page_id := (fh.1, page_no (rid_ row)) in
  match dpt !! page_id with
  | None => ret tt
  | Some _ =>
      let! page := on_storage (fetch_page page_id) in
      let! f := of_option page in
      let! page_lsn := on_storage (load f (λ d, rd_i32 d 0)) in
      if page_lsn >=? lsn then do! on_storage (unpin_page page_id false) in ret tt
      else
        do! on_file (table_name_ row) (redo_op (lsn_ (log_hdr r)) r row) in
        do! on_storage (unpin_page page_id true) in ret tt
  end.
Definition redo_record (dpt : gmap PageId Z) (lsn : Z) (r : LogRecord) : M db unit :=
  match log_type_ (log_hdr r), body_row (log_body r) with
  | (INSERT | DELETE | UPDATE), Some row => redo_row dpt lsn r row
  | _, _ => ret tt
  end.

(** [log_offsets_[lsn]] of a number that is not in the map is 0. *)
Definition offset_of (r : RecoveryManager) (lsn : Z) : Z := default 0 (log_offsets_ r !! lsn).

Fixpoint redo_loop (r : RecoveryManager) (lsns : list Z) (header : bytes) : M db unit :=
  match lsns with
  | [] => ret tt
  | lsn :: lsns =>
      let offset := offset_of r lsn in
      let! header := read_into_buf header LOG_HEADER_SIZE offset in
      do! match log_type_of header with
          | Some (INSERT | DELETE | UPDATE) =>
              let! tot := of_option (rd_u32 header OFFSET_LOG_TOT_LEN) in
              let! log_data := read_record (wrap32 tot) offset in
              let! rec := of_option (deserialize log_data) in
              redo_record (DPT r) lsn rec
          | _ => ret tt
          end in
      redo_loop r lsns header
  end.

Definition redo (r : RecoveryManager) : M db unit :=
  match map_to_list (DPT r) with
  | [] => ret tt
  | (_, first) :: _ =>
      let first_lsn := map_fold (λ _ l acc, Z.min l acc) first (DPT r) in
      redo_loop r (seqZ first_lsn (last_lsn_ r - first_lsn + 1))
        (replicate (Z.to_nat LOG_HEADER_SIZE) 0)
  end.

(** ** Undo *)

(** The priority queue: its elements, largest first. *)
Fixpoint push (lsn : Z) (q : list Z) : list Z :=
  match q with
  | [] => [lsn]
  | l :: q' => if lsn >=? l then lsn :: q else l :: push lsn q'
  end.

Definition undo_op (r : LogRecord) (row : RowLog) : Z → M (RmFileHdr * Storage R) unit :=
  match log_body r with
  | UpdateBody old_value _ => λ fd, update_undo fd (rid_ row) old_value
  | _ => match log_type_ (log_hdr r) with
         | INSERT => λ fd, insert_undo fd (rid_ row)
         | _ => λ fd, delete_undo fd (rid_ row) (value_ row)
         end
  end.

(** The loop; [Some true] is the early [return], [None] is out of fuel. *)
Fixpoint undo_loop (fuel : nat) (r : RecoveryManager) (q : list Z) (header : bytes) : M db (option bool) :=
  match q with
  | [] => ret (Some false)
  | lsn :: q' =>
      if lsn =? -1 then ret (Some true) else
      match fuel with
      | O => ret None
      | S fuel =>
          let offset := offset_of r lsn in
          let! header := read_into_buf header LOG_HEADER_SIZE offset in
          match log_type_of header with
          | Some (INSERT | DELETE | UPDATE) =>
              let! tot := of_option (rd_u32 header OFFSET_LOG_TOT_LEN) in
              let! log_data := read_record (wrap32 tot) offset in
              let! rec := of_option (deserialize log_data) in
              let! row := of_option (body_row (log_body rec)) in
              do! fhs_at (table_name_ row) in
              do! on_file (table_name_ row) (undo_op rec row) in
              undo_loop fuel r (push (prev_lsn_ (log_hdr rec)) q') header
          | Some begin_ => undo_loop fuel r q' header
          | _ => undo_loop fuel r q header
          end
      end
  end.

Definition undo (fuel : nat) (rebuild_indexes : M db unit) (r : RecoveryManager) : M db (option unit) :=
  let q := foldr push [] ((map_to_list (ATT r)).*2) in
  let! o := undo_loop fuel r q (replicate (Z.to_nat LOG_HEADER_SIZE) 0) in
  match o with
  | None => ret None
  | Some true => ret (Some tt)
  | Some false => do! rebuild_indexes in ret (Some tt)
  end.

End recovery.

(** ** What the analysis finds *)

#[local] Opaque serialize deserialize.

Definition log_tid (r : LogRecord) : Z := log_tid_ (log_hdr r).
Definition log_lsn (r : LogRecord) : Z := lsn_ (log_hdr r).
Definition is_type (t : LogType) (r : LogRecord) : bool := LogType_val (log_type_ (log_hdr r)) =? LogType_val t.
Definition is_change (r : LogRecord) : bool := is_type UPDATE r || is_type INSERT r || is_type DELETE r.

(** The records behind the last checkpoint. *)
Definition after_checkpoint (rs : list LogRecord) : list LogRecord :=
  foldl (λ acc r, if is_type Checkpoint r then [] else acc ++ [r]) [] rs.
(** The transactions aborted in front of it. *)
Definition aborted_before_checkpoint (t : Z) (rs : list LogRecord) : bool :=
  existsb (λ r, is_type ABORT r && (log_tid r =? t))
    (take (length rs - length (after_checkpoint rs)) rs).

Definition page_of (fhs : gmap bytes (Z * RmFileHdr)) (r : LogRecord) : option PageId :=
  row ← body_row (log_body r); fh ← fhs !! table_name_ row; Some (fh.1, page_no (rid_ row)).
Definition changes (fhs : gmap bytes (Z * RmFileHdr)) (pid : PageId) (r : LogRecord) : bool :=
  is_change r && bool_decide (page_of fhs r = Some pid).

(** The lsn of the first record behind the last checkpoint that changes the page. *)
Definition first_change fhs (pid : PageId) (rs : list LogRecord) : option Z :=
  log_lsn <$> head (filter (changes fhs pid) (after_checkpoint rs)).

(** The records that move a transaction's entry: it is there after the last of
    them unless that is the commit. *)
Definition moves (t : Z) (r : LogRecord) : bool :=
  (log_tid r =? t) && (is_change r || is_type begin_ r || is_type commit_ r).
Definition unfinished (t : Z) (rs : list LogRecord) : option Z :=
  r ← last (filter (moves t) rs); if is_type commit_ r then None else Some (log_lsn r).

(** The records a log file may hold. *)
Definition in_log (fhs : gmap bytes (Z * RmFileHdr)) (r : LogRecord) : Prop :=
  log_ok r ∧ sized r ∧ len (serialize r) ≤ LOG_BUFFER_SIZE ∧
  (is_change r = true → is_Some (page_of fhs r)).

(** *** The loop, one record at a time *)

Definition analyze_record fhs (offset : Z) (r : LogRecord) (a : Analysis) : Analysis :=
  let lsn := log_lsn r in let tid := log_tid r in
  let a := note_record lsn offset a in
  match log_type_ (log_hdr r) with
  | begin_ => set_att tid lsn a
  | commit_ => erase_att tid a
  | ABORT => note_abort tid a
  | UPDATE | INSERT | DELETE => set_att tid lsn (note_page (default (0, 0) (page_of fhs r)) lsn a)
  | Checkpoint => checkpoint a
  end.

Fixpoint analyze_records fhs (offset : Z) (rs : list LogRecord) (a : Analysis) : Analysis :=
  match rs with
  | [] => a
  | r :: rs => analyze_records fhs (offset + len (serialize r)) rs (analyze_record fhs offset r a)
  end.

Lemma analyze_records_snoc fhs off rs r a :
  analyze_records fhs off (rs ++ [r]) a
  = analyze_record fhs (off + len (log_bytes rs)) r (analyze_records fhs off rs a).
Proof.
  revert off a. induction rs as [|r0 rs IH]; intros off a; simpl.
  - by rewrite Z.add_0_r.
  - rewrite IH. change (log_bytes (r0 :: rs)) with (serialize r0 ++ log_bytes rs).
    by rewrite length_app, Nat2Z.inj_add, Z.add_assoc.
Qed.

Lemma after_checkpoint_snoc rs r :
  after_checkpoint (rs ++ [r]) = if is_type Checkpoint r then [] else after_checkpoint rs ++ [r].
Proof. unfold after_checkpoint. by rewrite foldl_app. Qed.

Lemma after_checkpoint_suffix rs : ∃ pre, rs = pre ++ after_checkpoint rs.
Proof.
  induction rs as [|r rs [pre IH]] using rev_ind; [by exists []|]. rewrite after_checkpoint_snoc.
  destruct (is_type Checkpoint r).
  - exists (rs ++ [r]). by rewrite app_nil_r.
  - exists pre. by rewrite (assoc_L (++)), <- IH.
Qed.

Lemma head_snoc {A} (l : list A) (x : A) :
  head (l ++ [x]) = match head l with Some y => Some y | None => Some x end.
Proof. by destruct l. Qed.

Lemma filter_snoc {A} (P : A → bool) (l : list A) (x : A) :
  filter P (l ++ [x]) = filter P l ++ (if P x then [x] else []).
Proof.
  rewrite filter_app. f_equal. rewrite filter_cons, filter_nil. case_decide as H; destruct (P x); done.
Qed.

(** The dirty page table. *)
Lemma analyze_DPT fhs rs a0 pid :
  DPT (an_rec a0) = ∅ → Forall (in_log fhs) rs →
  DPT (an_rec (analyze_records fhs 0 rs a0)) !! pid = first_change fhs pid rs.
Proof.
  intros H0. induction rs as [|r rs IH] using rev_ind; intros Hrs.
  { simpl. by rewrite H0. }
  apply Forall_app in Hrs as [Hrs Hr]. apply Forall_singleton in Hr as (_ & _ & _ & Hpg).
  specialize (IH Hrs). rewrite analyze_records_snoc. unfold first_change.
  rewrite after_checkpoint_snoc. unfold first_change in IH.
  set (a := analyze_records fhs 0 rs a0) in *. unfold analyze_record, is_type.
  assert (Hch : is_change r = true → ∃ p, page_of fhs r = Some p ∧
    (∀ lsn a', DPT (an_rec (note_page p lsn a')) !! pid
       = if decide (p = pid) then match DPT (an_rec a') !! pid with Some l => Some l | None => Some lsn end
         else DPT (an_rec a') !! pid)).
  { intros [p Hp]%Hpg. exists p. split; [done|]. intros lsn a'. unfold note_page.
    destruct (DPT (an_rec a') !! p) eqn:E; case_decide as Hd; subst; rewrite ?E; simpl; [done..| |].
    - by rewrite lookup_insert_eq.
    - by rewrite lookup_insert_ne. }
  destruct (log_type_ (log_hdr r)) eqn:Et; simpl; [| | | | | |done].
  4, 5, 6: rewrite filter_snoc; replace (changes fhs pid r) with false
    by (unfold changes, is_change, is_type; by rewrite Et); rewrite app_nil_r; exact IH.
  all: assert (Hc : is_change r = true) by (unfold is_change, is_type; rewrite Et; done);
    destruct (Hch Hc) as (p & Hp & Hn); rewrite Hp; simpl; rewrite Hn; simpl; rewrite IH;
    rewrite filter_snoc; replace (changes fhs pid r) with (bool_decide (p = pid))
      by (unfold changes; rewrite Hc, Hp; by apply bool_decide_ext; split; [congruence|intros [=]]);
    destruct (decide (p = pid)) as [->|Hne];
    [rewrite bool_decide_eq_true_2 by done; rewrite head_snoc; by destruct (head (filter _ _))
    |rewrite bool_decide_eq_false_2 by done; by rewrite app_nil_r].
Qed.

(** The table of unfinished transactions. *)
Definition is_abort_of (t : Z) (r : LogRecord) : bool := is_type ABORT r && (log_tid r =? t).
(** A transaction's abort record is its last. *)
Fixpoint abort_is_last (t : Z) (rs : list LogRecord) : bool :=
  match rs with
  | [] => true
  | r :: rs => negb (is_abort_of t r && existsb (moves t) rs) && abort_is_last t rs
  end.

Lemma abort_is_last_prefix t rs r : abort_is_last t (rs ++ [r]) = true → abort_is_last t rs = true.
Proof.
  induction rs as [|x rs IH]; [done|]. simpl. rewrite existsb_app. intros [Hx Hr]%andb_true_iff.
  rewrite IH by done. destruct (is_abort_of t x); [|done]. by destruct (existsb (moves t) rs).
Qed.

Lemma abort_is_last_snoc t rs r :
  abort_is_last t (rs ++ [r]) = true → moves t r = true → existsb (is_abort_of t) rs = false.
Proof.
  intros H Hr. induction rs as [|x rs IH]; [done|]. simpl in *. rewrite existsb_app in H. simpl in H.
  rewrite Hr in H. apply andb_true_iff in H as [Hx H]. rewrite IH by done.
  destruct (is_abort_of t x); [|done]. by destruct (existsb (moves t) rs).
Qed.

Lemma before_checkpoint_snoc rs r :
  take (length (rs ++ [r]) - length (after_checkpoint (rs ++ [r]))) (rs ++ [r])
  = if is_type Checkpoint r then rs ++ [r]
    else take (length rs - length (after_checkpoint rs)) rs.
Proof.
  rewrite after_checkpoint_snoc. destruct (is_type Checkpoint r).
  - simpl. rewrite take_ge; [done|lia].
  - rewrite !length_app. simpl. rewrite take_app_le by lia. f_equal. lia.
Qed.

Lemma existsb_split_checkpoint (P : LogRecord → bool) rs :
  existsb P rs = existsb P (take (length rs - length (after_checkpoint rs)) rs)
                 || existsb P (after_checkpoint rs).
Proof.
  destruct (after_checkpoint_suffix rs) as [pre Hp].
  assert (Hpre : take (length rs - length (after_checkpoint rs)) rs = pre).
  { rewrite Hp at 3. apply (f_equal length) in Hp. rewrite length_app in Hp.
    apply take_app_exact. lia. }
  rewrite Hpre, <- existsb_app. congruence.
Qed.

Lemma analyze_aborted fhs rs a0 t :
  an_aborted a0 = ∅ →
  (t ∈ an_aborted (analyze_records fhs 0 rs a0) ↔ existsb (is_abort_of t) (after_checkpoint rs) = true).
Proof.
  intros H0. induction rs as [|r rs IH] using rev_ind; [simpl; rewrite H0; set_solver|].
  rewrite analyze_records_snoc, after_checkpoint_snoc. set (a := analyze_records fhs 0 rs a0) in *.
  assert (Hn : ∀ p l a', an_aborted (note_page p l a') = an_aborted a').
  { intros p l a'. unfold note_page. by destruct (DPT (an_rec a') !! p). }
  assert (Hs : existsb (is_abort_of t) (after_checkpoint rs ++ [r])
    = existsb (is_abort_of t) (after_checkpoint rs) || is_abort_of t r).
  { rewrite existsb_app. simpl. by rewrite orb_false_r. }
  assert (Hr : is_abort_of t r = (LogType_val (log_type_ (log_hdr r)) =? LogType_val ABORT) && (log_tid r =? t))
    by done.
  rewrite Hr in Hs. clear Hr. unfold analyze_record, is_type.
  destruct (log_type_ (log_hdr r)); simpl in *; rewrite ?Hn, ?Hs, ?orb_false_r; try exact IH.
  2: split; [by intros []%elem_of_empty|done].
  rewrite elem_of_union, elem_of_singleton, IH, orb_true_iff, Z.eqb_eq. naive_solver.
Qed.

Lemma unfinished_snoc t rs r :
  unfinished t (rs ++ [r])
  = if moves t r then (if is_type commit_ r then None else Some (log_lsn r)) else unfinished t rs.
Proof.
  unfold unfinished. rewrite filter_snoc. destruct (moves t r); [by rewrite last_snoc|by rewrite app_nil_r].
Qed.

Lemma analyze_ATT fhs rs a0 t :
  ATT (an_rec a0) = ∅ → an_aborted a0 = ∅ → abort_is_last t rs = true →
  ATT (an_rec (analyze_records fhs 0 rs a0)) !! t
  = if aborted_before_checkpoint t rs then None else unfinished t rs.
Proof.
  intros H0 Ha0. induction rs as [|r rs IH] using rev_ind; intros Hlast; [simpl; by rewrite H0|].
  specialize (IH (abort_is_last_prefix _ _ _ Hlast)). pose proof (abort_is_last_snoc _ _ _ Hlast) as Hno.
  pose proof (analyze_aborted fhs rs a0 t Ha0) as Hab.
  pose proof (existsb_split_checkpoint (is_abort_of t) rs) as Hsp.
  rewrite analyze_records_snoc, unfinished_snoc. unfold aborted_before_checkpoint in *.
  change (λ r, is_type ABORT r && (log_tid r =? t)) with (is_abort_of t) in *.
  rewrite before_checkpoint_snoc. set (a := analyze_records fhs 0 rs a0) in *.
  set (bf := existsb (is_abort_of t) (take _ rs)) in *.
  assert (Hn : ∀ p l a', ATT (an_rec (note_page p l a')) = ATT (an_rec a')).
  { intros p l a'. unfold note_page. by destruct (DPT (an_rec a') !! p). }
  assert (Hset : ∀ a', ATT (an_rec a') = ATT (an_rec a) → moves t r = (log_tid r =? t) →
    ATT (an_rec (set_att (log_tid r) (log_lsn r) a')) !! t
    = if bf then None else if log_tid r =? t then Some (log_lsn r) else unfinished t rs).
  { intros a' Ha' Hm. simpl. rewrite Ha'. destruct (Z.eqb_spec (log_tid r) t) as [->|Hne].
    - rewrite lookup_insert_eq. rewrite (Hno Hm) in Hsp. by destruct bf.
    - by rewrite lookup_insert_ne. }
  assert (Hm : moves t r = (log_tid r =? t) && match log_type_ (log_hdr r) with
    ABORT | Checkpoint => false | _ => true end).
  { unfold moves, is_change, is_type. by destruct (log_type_ (log_hdr r)). }
  rewrite Hm. unfold analyze_record, is_type.
  destruct (log_type_ (log_hdr r)) eqn:Et; rewrite ?andb_true_r, ?andb_false_r in *.
  1-3: refine (Hset (note_page _ _ (note_record _ _ a)) _ Hm); by rewrite Hn.
  - exact (Hset (note_record _ _ a) eq_refl Hm).
  - simpl. destruct (Z.eqb_spec (log_tid r) t) as [->|Hne].
    + rewrite lookup_delete_eq. by destruct (existsb _ _).
    + by rewrite lookup_delete_ne.
  - done.
  - simpl. rewrite existsb_app. simpl. 
    replace (is_abort_of t r) with false by (unfold is_abort_of, is_type; by rewrite Et).
    rewrite map_lookup_filter, IH, Hsp, !orb_false_r. clearbody bf. destruct bf; [done|].
    destruct (unfinished t rs) as [l|]; simpl;
      [|by destruct (existsb (is_abort_of t) (after_checkpoint rs))].
    destruct (existsb (is_abort_of t) (after_checkpoint rs)) eqn:He.
    + rewrite option_guard_False; [done|]. simpl. intros Hx. by apply Hx, Hab.
    + rewrite option_guard_True; [done|]. simpl. intros Hx%Hab. congruence.
Qed.

(** The offsets of the records and the last lsn. *)
Lemma list_find_snoc {A} (P : A → Prop) `{!∀ x, Decision (P x)} l x :
  list_find P (l ++ [x])
  = match list_find P l with Some i => Some i | None => if decide (P x) then Some (length l, x) else None end.
Proof.
  induction l as [|y l IH]; simpl.
  - by destruct (decide (P x)).
  - destruct (decide (P y)); [done|]. rewrite IH. destruct (list_find P l); simpl; [done|].
    by destruct (decide (P x)).
Qed.

Lemma analyze_offsets fhs rs a0 lsn :
  log_offsets_ (an_rec a0) = ∅ →
  log_offsets_ (an_rec (analyze_records fhs 0 rs a0)) !! lsn
  = (λ i, len (log_bytes (take i.1 rs))) <$> list_find (λ r, log_lsn r = lsn) rs.
Proof.
  intros H0. induction rs as [|r rs IH] using rev_ind; [simpl; by rewrite H0|].
  rewrite analyze_records_snoc. set (a := analyze_records fhs 0 rs a0) in *.
  assert (Hn : ∀ p l a', log_offsets_ (an_rec (note_page p l a')) = log_offsets_ (an_rec a')).
  { intros p l a'. unfold note_page. by destruct (DPT (an_rec a') !! p). }
  assert (Hr : log_offsets_ (an_rec (analyze_record fhs (0 + len (log_bytes rs)) r a))
    = log_offsets_ (an_rec (note_record (log_lsn r) (0 + len (log_bytes rs)) a))).
  { unfold analyze_record. destruct (log_type_ (log_hdr r)); cbn -[note_record]; by rewrite ?Hn. }
  rewrite Hr. simpl. rewrite list_find_snoc. destruct (decide (log_lsn r = lsn)) as [<-|Hne].
  - rewrite IH. destruct (list_find _ rs) as [[i x]|] eqn:Hf; simpl.
    + rewrite IH. simpl. apply list_find_Some in Hf as (Hi & _).
      apply lookup_lt_Some in Hi. by rewrite take_app_le by lia.
    + rewrite lookup_insert_eq.
      by rewrite take_app_length.
  - assert (Hx : (match log_offsets_ (an_rec a) !! log_lsn r with
      | Some _ => log_offsets_ (an_rec a)
      | None => <[log_lsn r:=len (log_bytes rs)]> (log_offsets_ (an_rec a)) end) !! lsn
      = log_offsets_ (an_rec a) !! lsn).
    { destruct (log_offsets_ (an_rec a) !! log_lsn r); [done|]. by rewrite lookup_insert_ne. }
    refine (eq_trans Hx _). rewrite IH. destruct (list_find _ rs) as [[i x]|] eqn:Hf; simpl.
    + apply list_find_Some in Hf as (Hi & _). apply lookup_lt_Some in Hi.
      by rewrite take_app_le by lia.
    + done.
Qed.

Lemma analyze_last fhs off rs r a0 :
  last_lsn_ (an_rec (analyze_records fhs off (rs ++ [r]) a0)) = log_lsn r.
Proof.
  rewrite analyze_records_snoc. set (a := analyze_records _ _ _ _).
  unfold analyze_record, note_page. by destruct (log_type_ (log_hdr r)); simpl; try case_match.
Qed.

(** *** The run of the loop *)

Section analysis.
Context {R : Type} `{!Replacer R}.
Implicit Types (d : Db R).

Abbreviation disk_of d := (s_disk (db_storage d)).

(** A state that differs by reading the log file. *)
Record log_read d d' : Prop := {
  lr_fhs : fhs_ d' = fhs_ d;
  lr_storage : db_storage d' = set_disk (disk_of d') (db_storage d);
  lr_step : log_step (disk_of d) (disk_of d');
}.

(** The log can be opened and holds [f], which fits an [int]. *)
Record log_ready (f : bytes) d : Prop := {
  ly_inv : dm_inv (disk_of d);
  ly_fd : log_fd_ok (disk_of d);
  ly_open : ∃ d1 : DiskManager, open_log (disk_of d) = (Ok tt, d1);
  ly_file : log_file (disk_of d) = Some f;
  ly_size : len f ≤ INT_MAX;
}.

Lemma log_read_trans d1 d2 d3 : log_read d1 d2 → log_read d2 d3 → log_read d1 d3.
Proof.
  intros [F1 S1 L1] [F2 S2 L2]. split; [congruence| |by eapply log_step_trans].
  rewrite S2, S1. by destruct (db_storage d1).
Qed.

Lemma log_read_ready f d d' : log_ready f d → log_read d d' → log_ready f d'.
Proof.
  intros [Hi Hf Ho Hl Hs] [_ _ L]. split; [apply L|apply L|exists (disk_of d'); apply L| |done].
  by rewrite (log_step_file _ _ L).
Qed.

Lemma read_into_buf_run f d buf n off :
  log_ready f d → 0 ≤ off ≤ len f → 0 ≤ n ≤ len buf →
  ∃ buf' d', read_into_buf buf n off d = (Ok buf', d') ∧ log_read d d' ∧
    wr buf 0 (take (Z.to_nat n) (drop (Z.to_nat off) f)) = Some buf'.
Proof.
  intros [Hi Hf (d1 & Ho) Hl Hs] Hoff Hn.
  destruct (read_log_run n off buf _ d1 f Hi Hf Ho Hl Hs Hoff Hn) as (r & buf' & dk & Hrun & Hst & Hwr).
  exists buf', (mkDb (fhs_ d) (set_disk dk (db_storage d))).
  unfold read_into_buf. rewrite Hrun. split_and!; [done|by split|done].
Qed.

(** Reading a record and its header at the place where the log has it. *)
Section at_record.
Context (pre : list LogRecord) (r : LogRecord) (post : list LogRecord) (fhs : gmap bytes (Z * RmFileHdr)).
Abbreviation f := (log_bytes (pre ++ r :: post)).
Abbreviation off := (len (log_bytes pre)).

Lemma log_at : f = log_bytes pre ++ serialize r ++ log_bytes post.
Proof. by rewrite log_bytes_app. Qed.

Lemma log_at_bounds : 0 ≤ off ∧ off + len (serialize r) ≤ len f ∧ 20 ≤ len (serialize r).
Proof.
  rewrite log_at, !length_app. pose proof (serialize_length r). lia.
Qed.

Lemma read_header d header :
  log_ready f d → in_log fhs r → len header = LOG_HEADER_SIZE →
  ∃ d', read_into_buf header LOG_HEADER_SIZE off d = (Ok (serialize_header (log_hdr r)), d') ∧
    log_read d d'.
Proof.
  intros Hr _ Hh. destruct log_at_bounds as (? & ? & ?).
  destruct (read_into_buf_run f d header LOG_HEADER_SIZE off) as (buf' & d' & Hrun & Hst & Hwr);
    [done|lia|rewrite Hh; done|].
  exists d'. rewrite Hrun. split; [|done]. do 2 f_equal. rewrite log_at, Nat2Z.id, drop_app_length in Hwr.
  assert (Hs : serialize r = serialize_header (log_hdr r) ++ serialize_body (log_body r)) by done.
  rewrite Hs, <- (assoc_L (++)) in Hwr. rewrite take_app_exact in Hwr by apply serialize_header_length.
  apply wr_all in Hwr as ->; [done|]. rewrite serialize_header_length. change LOG_HEADER_SIZE with 20 in Hh. lia.
Qed.

Lemma read_record_run d :
  log_ready f d → in_log fhs r →
  ∃ d', read_record (len (serialize r)) off d = (Ok (serialize r), d') ∧ log_read d d'.
Proof.
  intros Hr (_ & _ & Hsz & _). destruct log_at_bounds as (? & ? & ?). unfold read_record.
  rewrite (proj2 (Z.leb_le 0 _)), (proj2 (Z.leb_le _ LOG_BUFFER_SIZE)) by lia.
  erewrite bind_run by reflexivity.
  destruct (read_into_buf_run f d (replicate (Z.to_nat (len (serialize r))) 0) (len (serialize r)) off)
    as (buf' & d' & Hrun & Hst & Hwr); [done|lia|rewrite length_replicate; lia|].
  exists d'. rewrite Hrun. split; [|done]. do 2 f_equal. rewrite log_at, !Nat2Z.id, drop_app_length in Hwr.
  rewrite take_app_exact in Hwr by done. apply wr_all in Hwr as ->; [done|]. rewrite length_replicate. lia.
Qed.

Lemma header_fields :
  in_log fhs r →
  let header := serialize_header (log_hdr r) in
  rd_u32 header OFFSET_LOG_TOT_LEN = Some (len (serialize r)) ∧
  wrap32 (len (serialize r)) = len (serialize r) ∧
  rd_i32 header OFFSET_LSN = Some (log_lsn r) ∧ rd_i32 header OFFSET_LOG_TID = Some (log_tid r) ∧
  log_type_of header = Some (log_type_ (log_hdr r)).
Proof.
  intros ((Hok & _) & Hsz & Hbuf & _). simpl. pose proof (deserialize_header_serialize _ [] Hok) as Hd.
  rewrite app_nil_r in Hd. unfold deserialize_header in Hd. unfold log_type_of.
  destruct (rd_i32 _ OFFSET_LOG_TYPE) as [t|]; [|done]. cbn [mbind option_bind] in Hd |- *.
  destruct (LogType_of t) as [ty|]; [|done]. cbn [mbind option_bind] in Hd.
  destruct (rd_i32 _ OFFSET_LSN) as [l|]; [|done]. cbn [mbind option_bind] in Hd.
  destruct (rd_u32 _ OFFSET_LOG_TOT_LEN) as [tot|]; [|done]. cbn [mbind option_bind] in Hd.
  destruct (rd_i32 _ OFFSET_LOG_TID) as [tid|]; [|done]. cbn [mbind option_bind] in Hd.
  destruct (rd_i32 _ OFFSET_PREV_LSN) as [prev|]; [|done]. cbn [mbind option_bind] in Hd.
  injection Hd as Hd. unfold sized in Hsz. unfold log_lsn, log_tid. rewrite <- Hd in *. simpl in *. subst tot.
  split_and!; try done. apply wrap32_id, i32_ok_range. unfold LOG_BUFFER_SIZE, PAGE_SIZE in Hbuf. lia.
Qed.
End at_record.

Lemma deserialize_in_log fhs r : in_log fhs r → deserialize (serialize r) = Some r.
Proof. intros (Hok & _). rewrite <- (app_nil_r (serialize r)). by apply deserialize_serialize. Qed.

Lemma record_page_run fhs r d pid :
  fhs_ d = fhs → in_log fhs r → page_of fhs r = Some pid → record_page (serialize r) d = (Ok pid, d).
Proof.
  intros Hf Hr Hp. unfold record_page. rewrite (deserialize_in_log fhs) by done.
  erewrite bind_run by reflexivity. unfold page_of in Hp.
  destruct (body_row (log_body r)) as [row|]; [|done]. erewrite bind_run by reflexivity.
  simpl in Hp. destruct (fhs !! table_name_ row) as [fh|] eqn:E; [|done]. simpl in Hp. injection Hp as <-.
  unfold fhs_at, bind, gets, ret. simpl. by rewrite Hf, E.
Qed.

(** What [analyze] does with the record at hand, in the state after its header was read. *)
Lemma analyze_step_run fhs pre r post d a :
  fhs_ d = fhs → log_ready (log_bytes (pre ++ r :: post)) d → in_log fhs r →
  ∃ d', (match log_type_of (serialize_header (log_hdr r)) with
         | Some begin_ => do! read_record (len (serialize r)) (len (log_bytes pre)) in
                          ret (set_att (log_tid r) (log_lsn r) a)
         | Some commit_ => do! read_record (len (serialize r)) (len (log_bytes pre)) in
                           ret (erase_att (log_tid r) a)
         | Some ABORT => do! read_record (len (serialize r)) (len (log_bytes pre)) in
                         ret (note_abort (log_tid r) a)
         | Some (UPDATE | INSERT | DELETE) =>
             let! log_data := read_record (len (serialize r)) (len (log_bytes pre)) in
             let! pid := record_page log_data in
             ret (set_att (log_tid r) (log_lsn r) (note_page pid (log_lsn r) a))
         | Some Checkpoint => do! read_record (len (serialize r)) (len (log_bytes pre)) in
                              ret (checkpoint a)
         | None => ret a
         end) d
    = (Ok (match log_type_ (log_hdr r) with
           | begin_ => set_att (log_tid r) (log_lsn r) a
           | commit_ => erase_att (log_tid r) a
           | ABORT => note_abort (log_tid r) a
           | UPDATE | INSERT | DELETE =>
               set_att (log_tid r) (log_lsn r) (note_page (default (0, 0) (page_of fhs r)) (log_lsn r) a)
           | Checkpoint => checkpoint a
           end), d') ∧ log_read d d'.
Proof.
  intros Hf Hr Hin. destruct (read_record_run pre r post fhs d Hr Hin) as (d1 & Hrun & Hrd).
  pose proof (header_fields r fhs Hin) as (_ & _ & _ & _ & ->).
  exists d1. destruct Hin as (Hok & Hsz & Hlen & Hpg).
  assert (Hp : is_change r = true → record_page (serialize r) d1 = (Ok (default (0, 0) (page_of fhs r)), d1)).
  { intros Hc. destruct (Hpg Hc) as [pid Hpid]. rewrite Hpid. apply (record_page_run fhs); [|by split_and!|done].
    rewrite (lr_fhs _ _ Hrd). done. }
  destruct (log_type_ (log_hdr r)) eqn:Et; (rewrite (bind_run _ _ _ _ _ Hrun); try done);
    rewrite (bind_run _ _ _ _ _ (Hp (ltac:(unfold is_change, is_type; by rewrite Et)))); done.
Qed.

Lemma analyze_loop_run fhs post : ∀ pre d header a fuel,
  fhs_ d = fhs → log_ready (log_bytes (pre ++ post)) d → Forall (in_log fhs) post →
  len header = LOG_HEADER_SIZE → (length post ≤ fuel)%nat →
  ∃ d', analyze_loop fuel (len (log_bytes (pre ++ post))) (len (log_bytes pre)) header a d
        = (Ok (Some (analyze_records fhs (len (log_bytes pre)) post a)), d') ∧
    (d' = d ∨ log_read d d').
Proof.
  induction post as [|r post IH]; intros pre d header a fuel Hf Hr Hin Hh Hfuel.
  { exists d. rewrite app_nil_r. split; [|by left]. destruct fuel; simpl; by rewrite Z.ltb_irrefl. }
  apply Forall_cons in Hin as [Hin Hpost]. simpl in Hfuel.
  destruct fuel as [|fuel]; [lia|]. destruct (log_at_bounds pre r post) as (Hb1 & Hb2 & Hb3).
  cbn [analyze_loop]. rewrite (proj2 (Z.ltb_lt _ _)) by lia. cbn [negb].
  destruct (read_header pre r post fhs d header Hr Hin Hh) as (d1 & Hrun & Hrd1).
  rewrite (bind_run _ _ _ _ _ Hrun). clear Hrun.
  destruct (header_fields r fhs Hin) as (Htot & Hwrap & Hlsn & Htid & _).
  rewrite Htot. erewrite bind_run by reflexivity. rewrite Hwrap.
  rewrite Hlsn. erewrite bind_run by reflexivity. rewrite Htid. erewrite bind_run by reflexivity.
  destruct (analyze_step_run fhs pre r post d1 (note_record (log_lsn r) (len (log_bytes pre)) a))
    as (d2 & Hrun & Hrd2); [by rewrite (lr_fhs _ _ Hrd1)|by eapply log_read_ready|done|].
  rewrite (bind_run _ _ _ _ _ Hrun). clear Hrun.
  pose proof (log_read_trans _ _ _ Hrd1 Hrd2) as Hrd.
  assert (Happ : pre ++ r :: post = (pre ++ [r]) ++ post) by by rewrite <- (assoc_L (++)).
  assert (Hoff : len (log_bytes pre) + len (serialize r) = len (log_bytes (pre ++ [r]))).
  { rewrite log_bytes_app, length_app, Nat2Z.inj_add. unfold log_bytes at 3. simpl. by rewrite app_nil_r. }
  destruct (IH (pre ++ [r]) d2 (serialize_header (log_hdr r))
    (analyze_record fhs (len (log_bytes pre)) r a) fuel) as (d3 & Hrun & Hd3); [| |done| |lia|].
  - by rewrite (lr_fhs _ _ Hrd).
  - rewrite <- Happ. by eapply log_read_ready.
  - rewrite serialize_header_length. done.
  - exists d3. rewrite Hoff, Happ. split.
    + rewrite <- Hoff in Hrun at 2. simpl. by rewrite <- Hrun.
    + right. destruct Hd3 as [->|Hrd3]; [done|by eapply log_read_trans].
Qed.
End analysis.

Lemma list_find_NoDup {A} (f : A → Z) (l : list A) i x :
  NoDup (f <$> l) → l !! i = Some x → list_find (λ y, f y = f x) l = Some (i, x).
Proof.
  intros Hnd Hi. apply list_find_Some. split_and!; [done|done|]. intros j y Hj Hlt Heq.
  assert (j = i); [|lia]. eapply NoDup_lookup; [exact Hnd| |]; rewrite list_lookup_fmap.
  - by rewrite Hj.
  - rewrite Hi. simpl. by rewrite Heq.
Qed.

Section analyze_run.
Context {R : Type} `{!Replacer R}.
Lemma analyze_run (fhs : gmap bytes (Z * RmFileHdr)) (rs : list LogRecord)
    (junk : Z) (fuel : nat) (d : Db R) :
  fhs_ d = fhs → log_ready (log_bytes rs) d → Forall (in_log fhs) rs → (length rs ≤ fuel)%nat →
  ∃ r d', analyze fuel (RecoveryManager_new junk) d = (Ok (Some r), d') ∧
    (d' = d ∨ log_read d d') ∧
    (∀ pid, DPT r !! pid = first_change fhs pid rs) ∧
    (∀ t, abort_is_last t rs = true →
       ATT r !! t = if aborted_before_checkpoint t rs then None else unfinished t rs) ∧
    (∀ i x, NoDup (log_lsn <$> rs) → rs !! i = Some x →
       log_offsets_ r !! log_lsn x = Some (len (log_bytes (take i rs)))) ∧
    last_lsn_ r = default junk (log_lsn <$> last rs).
Proof.
  intros Hf Hr Hin Hfuel.
  set (a0 := mkAnalysis (RecoveryManager_new junk) ∅).
  destruct (analyze_loop_run fhs rs [] d (replicate (Z.to_nat LOG_HEADER_SIZE) 0) a0 fuel)
    as (d' & Hrun & Hd'); [done..|].
  exists (an_rec (analyze_records fhs 0 rs a0)), d'. split_and!; [|done| | | |].
  - unfold analyze. rewrite bind_gets.
    assert (Hsz : get_file_size LOG_FILE_NAME (s_disk (db_storage d)) = len (log_bytes rs)).
    { destruct Hr as [_ _ _ Hl Hs]. unfold log_file in Hl. unfold get_file_size, k_stat. rewrite Hl. simpl.
      apply wrap32_id, i32_ok_range. unfold INT_MAX in *. lia. }
    rewrite Hsz. rewrite (bind_run _ _ _ _ _ Hrun). done.
  - intros pid. by apply analyze_DPT.
  - intros t Ht. by apply analyze_ATT.
  - intros i x Hnd Hi. rewrite analyze_offsets by done. by rewrite (list_find_NoDup log_lsn rs i x).
  - destruct rs as [|x rs _] using rev_ind; [done|]. by rewrite analyze_last, last_snoc.
Qed.
End analyze_run.

(** ** Properties *)

Section properties.
Context {R : Type} `{!Replacer R}.

(** C13: the analysis pass reads every record of a well-formed log, whatever its
    length, and returns with the tables that restart needs.  The dirty page table maps a
    page to the first record behind the last checkpoint that changes it; the table of
    unfinished transactions maps a transaction to the last record of it unless that is its
    commit, where a transaction that was aborted is left in the table until a checkpoint;
    and the place of every record is known by its lsn. *)
Theorem analyze_builds_the_tables (fhs : gmap bytes (Z * RmFileHdr)) (rs : list LogRecord)
    (junk : Z) (fuel : nat) (d : Db R) :
  fhs_ d = fhs → log_ready (log_bytes rs) d → Forall (in_log fhs) rs → (length rs ≤ fuel)%nat →
  ∃ r d', analyze fuel (RecoveryManager_new junk) d = (Ok (Some r), d') ∧
    (d' = d ∨ log_read d d') ∧
    (∀ pid, DPT r !! pid = first_change fhs pid rs) ∧
    (∀ t, abort_is_last t rs = true →
       ATT r !! t = if aborted_before_checkpoint t rs then None else unfinished t rs) ∧
    (∀ i x, NoDup (log_lsn <$> rs) → rs !! i = Some x →
       log_offsets_ r !! log_lsn x = Some (len (log_bytes (take i rs)))) ∧
    last_lsn_ r = default junk (log_lsn <$> last rs).
Proof. apply analyze_run. Qed.

End properties.

#[local] Existing Instance LRU.lru_replacer.
#[local] Existing Instance LRU.lru_laws.

(** *** A crash

    Transaction 1 inserted a record and committed.  Transaction 2 inserted another one and
    was rolled back, so that its place became free; transaction 3 inserted a record there
    and committed.  The log is on disk and, of the table, only the page's allocation. *)

Definition demo_table : bytes := [116].
Definition demo_insert (t prev : Z) (b : Z) (slot : Z) : LogRecord :=
  InsertLogRecord t prev (mkRow (replicate 100 b) (mkRid 1 slot) demo_table 1 2).
Definition demo_records : list LogRecord :=
  stamp 0 [BeginLogRecord 1; demo_insert 1 0 7 0; CommitLogRecord 1;
           BeginLogRecord 2; demo_insert 2 3 8 1; AbortLogRecord 2;
           BeginLogRecord 3; demo_insert 3 6 9 1; CommitLogRecord 3].
Definition demo_hdr2 : RmFileHdr := set_num_pages 2 (set_first_free 1 demo_hdr).
Definition demo_fhs : gmap bytes (Z * RmFileHdr) := {[ demo_table := (3, demo_hdr2) ]}.
Definition demo_crash_disk : DiskManager :=
  dm_exec (OpWriteLog (log_bytes demo_records)) (s_disk demo_inserted.2).
Definition demo_db (disk : DiskManager) : Db LRU.LRUReplacer :=
  mkDb demo_fhs (mkStorage disk None (BufferPoolManager_new 4 0 (LRU.LRUReplacer_new 4))).
Definition demo_crashed : Db LRU.LRUReplacer := demo_db demo_crash_disk.

Lemma demo_disk_inv : dm_inv demo_crash_disk.
Proof. apply dm_exec_inv, demo_inserted_inv. Qed.

Lemma demo_log_fd : log_fd_ok demo_crash_disk.
Proof. right. vm_compute. reflexivity. Qed.

Lemma demo_log_opens : ∃ d1 : DiskManager, open_log demo_crash_disk = (Ok tt, d1).
Proof. eexists. apply run_outcome; [reflexivity|vm_compute; reflexivity]. Qed.

Lemma demo_log_file : log_file demo_crash_disk = Some (log_bytes demo_records).
Proof. vm_compute. reflexivity. Qed.

Lemma demo_log_size : len (log_bytes demo_records) ≤ INT_MAX.
Proof. vm_compute. congruence. Qed.

Lemma demo_ready : log_ready (log_bytes demo_records) demo_crashed.
Proof.
  split; [apply demo_disk_inv|apply demo_log_fd|apply demo_log_opens|apply demo_log_file|apply demo_log_size].
Qed.

Lemma demo_in_log : Forall (in_log demo_fhs) demo_records.
Proof.
  repeat constructor; try (vm_compute; congruence); vm_compute; try reflexivity; eauto.
Qed.

Lemma analyze_builds_the_tables_witness :
  ∃ r d', analyze 10 (RecoveryManager_new 0) demo_crashed = (Ok (Some r), d') ∧
    DPT r !! (3, 1) = Some 1 ∧ ATT r !! 1 = None ∧ ATT r !! 2 = Some 4.
Proof.
  destruct (analyze_builds_the_tables demo_fhs demo_records 0 10 demo_crashed)
    as (r & d' & Hrun & _ & Hdpt & Hatt & _ & _).
  - reflexivity.
  - exact demo_ready.
  - exact demo_in_log.
  - vm_compute. lia.
  - exists r, d'. split_and!; [exact Hrun|rewrite Hdpt; vm_compute; reflexivity| |].
    + rewrite Hatt; vm_compute; reflexivity.
    + rewrite Hatt; vm_compute; reflexivity.
Defined.
