(* ===== verification/Restart.v ===== *)
(** * Restart: what redo and undo do (src/src/recovery/log_recovery.cpp)

    The theorems about the [redo] and [undo] of Recovery.v: redo as the replay, page by
    page, of the records behind the checkpoint, what that makes of the rows, that it can
    be repeated after a crash in its middle; and that undo ends. *)
From S2P Require Import Prelude Bytes Bitmap Disk Log Replacer BufferPool Record Recovery.

#[local] Opaque serialize deserialize.

(** ** Redo, page by page *)

(** What redoing a record makes of the page it is about; [h] gives the layout. *)
Definition redo_insert_bytes (h : RmFileHdr) (row : RowLog) (lsn : Z) (d : bytes) : option bytes :=
  d ← (d ← Bitmap.set d OFFSET_BITMAP (slot_no (rid_ row));
       d ← copy_to_slot h (slot_no (rid_ row)) (value_ row) d;
       add_num_records 1 d);
  n ← rd_i32 d OFFSET_NUM_RECORDS;
  d ← (if n >=? num_records_per_page h then wr d OFFSET_NEXT_FREE (i32 RM_NO_PAGE) else Some d);
  set_page_lsn lsn d.
Definition redo_delete_bytes (h : RmFileHdr) (row : RowLog) (lsn : Z) (d : bytes) : option bytes :=
  d ← (d ← Bitmap.reset d OFFSET_BITMAP (slot_no (rid_ row)); add_num_records (-1) d);
  n ← rd_i32 d OFFSET_NUM_RECORDS;
  d ← (if (n =? num_records_per_page h - 1) && negb (page_no (rid_ row) =? first_free_page_no_ row)
       then wr d OFFSET_NEXT_FREE (i32 (first_free_page_no_ row)) else Some d);
  set_page_lsn lsn d.
Definition redo_update_bytes (h : RmFileHdr) (row : RowLog) (lsn : Z) (d : bytes) : option bytes :=
  d ← copy_to_slot h (slot_no (rid_ row)) (value_ row) d; set_page_lsn lsn d.
Definition redo_bytes (h : RmFileHdr) (r : LogRecord) (row : RowLog) (d : bytes) : option bytes :=
  match log_type_ (log_hdr r) with
  | INSERT => redo_insert_bytes h row (log_lsn r) d
  | DELETE => redo_delete_bytes h row (log_lsn r) d
  | _ => redo_update_bytes h row (log_lsn r) d
  end.

(** Pages keep their size. *)
Lemma copy_to_slot_length h i buf d d' : copy_to_slot h i buf d = Some d' → length d' = length d.
Proof. unfold copy_to_slot. destruct (rd _ _ _); [|done]. simpl. apply wr_length. Qed.
Lemma add_num_records_length k d d' : add_num_records k d = Some d' → length d' = length d.
Proof. unfold add_num_records. destruct (rd_i32 _ _); [|done]. simpl. apply wr_length. Qed.
Lemma bit_set_length d b i d' : Bitmap.set d b i = Some d' → length d' = length d.
Proof. unfold Bitmap.set. destruct (Bitmap.rd_char _ _); [|done]. apply wr_length. Qed.
Lemma bit_reset_length d b i d' : Bitmap.reset d b i = Some d' → length d' = length d.
Proof. unfold Bitmap.reset. destruct (Bitmap.rd_char _ _); [|done]. apply wr_length. Qed.

Section redo.
Context {R : Type} `{!Replacer R, !ReplacerLaws R}.
Implicit Types (s : Storage R) (d : bytes).
Abbreviation table s := (page_table_ (s_bpm s)).

(** [s'] is [s] with the page [pid] holding [d], and maybe the header page of the file
    written; no pin is left. *)
Record page_redone s pid d s' : Prop := {
  pr_inv : pool_inv s';
  pr_view : view s' pid = Some d;
  pr_other q b : q ≠ pid → q ≠ (pid.1, RM_FILE_HDR_PAGE) → data_fd s q.1 →
    view s q = Some b → view s' q = Some b;
  pr_pins q : pins s' q = pins s q;
  pr_fds : fds_kept s s';
  pr_keys q : q ≠ pid → table s !! q = None → table s' !! q = None;
  pr_log : log_kept s s';
}.

(** The page of a record, fetched for an edit. *)
Lemma fetch_editing s fd p f s1 d :
  pool_inv s → data_fd s fd → view s (fd, p) = Some d → fetch_page_handle fd p s = (Ok f, s1) →
  fetched s (fd, p) f s1 ∧ editing s1 (fd, p) f d s1.
Proof.
  intros Hi Hfd Hv H. unfold fetch_page_handle in H.
  apply bind_Ok in H as (o & s2 & H & [-> ->]%of_option_Ok).
  apply fetch_Ok in H as Hf; [|done..]. split; [done|].
  apply editing_refl; [apply Hf|apply Hf|by apply (ft_view _ _ _ _ Hf)|].
  rewrite (ft_pins _ _ _ _ Hf), decide_True by done. pose proof (pins_nonneg s (fd, p) Hi). lia.
Qed.

Lemma edited_redone s fd p f s1 d s' :
  pool_inv s → fetched s (fd, p) f s1 → edited s1 (fd, p) d s' → page_redone s (fd, p) d s'.
Proof.
  intros Hi Hf He. split; try apply He.
  - intros q b Hq Hq0 Hfd Hb. apply (dn_other _ _ _ _ He); [done..|by apply (ft_fds _ _ _ _ Hf)|].
    by apply (ft_view _ _ _ _ Hf).
  - intros q. rewrite (dn_pins _ _ _ _ He), (ft_pins _ _ _ _ Hf). case_decide; lia.
  - intros g Hg. by apply (dn_fds _ _ _ _ He), (ft_fds _ _ _ _ Hf).
  - intros q Hq Hk. apply (dn_keys _ _ _ _ He); [done|]. by apply (ft_keys _ _ _ _ Hf).
  - etrans; [apply (ft_log _ _ _ _ Hf)|apply (dn_log _ _ _ _ He)].
Qed.

Lemma restore_hdr_run row h s :
  restore_hdr row (h, s)
  = (Ok tt, (set_num_pages (num_pages_ row) (set_first_free (first_free_page_no_ row) h), s)).
Proof. done. Qed.

(** One change of the page being edited. *)
Lemma store_step s0 pid f d s g s' :
  editing s0 pid f d s → store f g s = (Ok tt, s') → (∀ d', g d = Some d' → length d' = length d) →
  ∃ d', g d = Some d' ∧ editing s0 pid f d' s'.
Proof.
  intros He H Hl. pose proof (view_length s pid d (ed_inv _ _ _ _ _ He) (ed_view _ _ _ _ _ He)) as Hlen.
  apply (store_editing _ _ _ _ _ _ _ He) in H as (d' & Hg & He'). exists d'. split; [done|].
  apply He'. rewrite (Hl d' Hg). lia.
Qed.

(** What stays of a header: the layout of the pages. *)
Definition layout (h : RmFileHdr) : RmFileHdr := set_num_pages 0 (set_first_free 0 h).

Lemma unlink_step s0 fd p f d h s t' :
  editing s0 (fd, p) f d s → table s0 !! (fd, RM_FILE_HDR_PAGE) = None → p ≠ RM_FILE_HDR_PAGE →
  unlink_full_page fd f (h, s) = (Ok tt, t') →
  ∃ d', wr d OFFSET_NEXT_FREE (i32 RM_NO_PAGE) = Some d' ∧ layout t'.1 = layout h ∧
    editing s0 (fd, p) f d' t'.2.
Proof.
  intros He Hm Hp H. unfold unlink_full_page in H.
  sto_step H s9 Hld. apply (load_editing _ _ _ _ _ _ _ _ He) in Hld as [Hx ->].
  apply bind_Ok in H as ([] & ? & ->%modify_Ok & H). simpl in H.
  apply bind_Ok in H as ([] & ? & (s2 & Hst & ->)%zoom_Ok & H). simpl in Hst, H.
  apply (store_step _ _ _ _ _ _ _ He) in Hst as (d2 & Hw & He2); [|intros d'; apply wr_length].
  apply (write_file_hdr_editing s0 fd p f d2) in H as (s3 & -> & He3); [|done..]. eauto.
Qed.

Lemma release_step s0 fd p f d h s t' :
  editing s0 (fd, p) f d s → table s0 !! (fd, RM_FILE_HDR_PAGE) = None → p ≠ RM_FILE_HDR_PAGE →
  release_page_handle fd f (h, s) = (Ok tt, t') →
  ∃ d', (if p =? first_free_page_no h then Some d
         else wr d OFFSET_NEXT_FREE (i32 (first_free_page_no h))) = Some d' ∧
    layout t'.1 = layout h ∧ editing s0 (fd, p) f d' t'.2.
Proof.
  intros He Hm Hp H. unfold release_page_handle in H. get_hdr H.
  sto_step H s9 Hno. apply (frame_page_no_editing _ _ _ _ _ _ _ He) in Hno as [-> ->]. simpl in H.
  destruct (Z.eqb_spec p (first_free_page_no h)).
  { apply ret_Ok in H as [_ ->]. eauto. }
  apply bind_Ok in H as ([] & ? & (s2 & Hst & ->)%zoom_Ok & H). simpl in Hst, H.
  apply (store_step _ _ _ _ _ _ _ He) in Hst as (d2 & Hw & He2); [|intros d'; apply wr_length].
  apply bind_Ok in H as ([] & ? & ->%modify_Ok & H). simpl in H.
  apply (write_file_hdr_editing s0 fd p f d2) in H as (s3 & -> & He3); [|done..]. eauto.
Qed.

(** The common start of the three: restore the header, fetch the page. *)
Lemma redo_start {A} s fd row h d (k : Z → M (RmFileHdr * Storage R) A) a t' :
  pool_inv s → data_fd s fd → view s (fd, page_no (rid_ row)) = Some d →
  (do! restore_hdr row in
   let! f := sto (fetch_page_handle fd (page_no (rid_ row))) in k f) (h, s) = (Ok a, t') →
  ∃ f s1, fetched s (fd, page_no (rid_ row)) f s1 ∧
    editing s1 (fd, page_no (rid_ row)) f d s1 ∧
    k f (set_num_pages (num_pages_ row) (set_first_free (first_free_page_no_ row) h), s1) = (Ok a, t').
Proof.
  intros Hi Hfd Hv H. apply bind_Ok in H as ([] & t1 & Hr & H). rewrite restore_hdr_run in Hr.
  injection Hr as <-. apply bind_Ok in H as (f & ? & (s1 & Hf & ->)%zoom_Ok & H). simpl in Hf, H.
  destruct (fetch_editing s fd (page_no (rid_ row)) f s1 d) as [Hft He]; [done..|]. eauto.
Qed.

Section redo_op.
Context (s : Storage R) (fd lsn : Z) (row : RowLog) (h : RmFileHdr) (d : bytes).
Context (Hi : pool_inv s) (Hfd : data_fd s fd) (Hp : page_no (rid_ row) ≠ RM_FILE_HDR_PAGE)
  (Hm : table s !! (fd, RM_FILE_HDR_PAGE) = None)
  (Hv : view s (fd, page_no (rid_ row)) = Some d).
Abbreviation p := (page_no (rid_ row)).

Lemma fetched_header f s1 : fetched s (fd, p) f s1 → table s1 !! (fd, RM_FILE_HDR_PAGE) = None.
Proof. intros Hf. apply (ft_keys _ _ _ _ Hf); [congruence|done]. Qed.

Lemma insert_redo_run t' :
  insert_redo fd lsn row (h, s) = (Ok tt, t') →
  ∃ d', redo_insert_bytes h row lsn d = Some d' ∧ page_redone s (fd, p) d' t'.2 ∧ layout t'.1 = layout h.
Proof.
  intros (f & s1 & Hf & He & H)%(redo_start s fd row h d); [|done..].
  pose proof (fetched_header f s1 Hf) as Hm1. get_hdr H.
  apply bind_Ok in H as ([] & ? & (s2 & Hst & ->)%zoom_Ok & H). simpl in Hst, H.
  apply (store_step _ _ _ _ _ _ _ He) in Hst as (d2 & Hg & He2).
  2: { intros d' Hd. apply bind_Some in Hd as (e1 & ?%bit_set_length & Hd).
       apply bind_Some in Hd as (e2 & ?%copy_to_slot_length & ?%add_num_records_length). congruence. }
  apply bind_Ok in H as (n & ? & (s9 & Hld & ->)%zoom_Ok & H). simpl in Hld, H.
  apply (load_editing _ _ _ _ _ _ _ _ He2) in Hld as [Hn ->].
  apply bind_Ok in H as ([] & t3 & H3 & H).
  set (full := n >=? num_records_per_page h).
  assert (Hu : ∃ d3, (if full then wr d2 OFFSET_NEXT_FREE (i32 RM_NO_PAGE) else Some d2) = Some d3 ∧
    layout t3.1 = layout h ∧ editing s1 (fd, p) f d3 t3.2).
  { change (num_records_per_page _) with (num_records_per_page h) in H3. fold full in H3. destruct full.
    - apply (unlink_step _ _ _ _ _ _ _ _ He2) in H3 as (d3 & ? & Hl & ?); eauto.
    - apply ret_Ok in H3 as [_ ->]. eauto. }
  destruct Hu as (d3 & Hd3 & Hlay & He3). destruct t3 as [h3 s3]. simpl in *.
  apply bind_Ok in H as ([] & ? & (s4 & Hst & ->)%zoom_Ok & H). simpl in Hst, H.
  apply (store_step _ _ _ _ _ _ _ He3) in Hst as (d4 & Hd4 & He4); [|intros d'; apply wr_length].
  apply bind_Ok in H as (pg & ? & (s5 & Hpg & ->)%zoom_Ok & H). simpl in Hpg, H.
  apply get_frame_Ok in Hpg as [Hpg ->].
  destruct (editing_frame _ _ _ _ _ He4) as (pg' & Hpg' & _ & Hid). rewrite Hpg in Hpg'. injection Hpg' as <-.
  apply bind_Ok in H as (b & ? & (s6 & Hun & ->)%zoom_Ok & [_ ->]%ret_Ok). simpl in Hun. rewrite Hid in Hun.
  exists d4. split_and!; [| |done].
  - unfold redo_insert_bytes. change (copy_to_slot (set_num_pages _ _)) with (copy_to_slot h) in Hg. rewrite Hg. simpl. rewrite Hn. simpl. fold full. by rewrite Hd3.
  - simpl. eapply (edited_redone s fd p f s1); [done..|]. eapply unpin_editing; [exact He4|].
    unfold unpin_. by rewrite (bind_run _ _ _ _ _ Hun).
Qed.

Lemma update_redo_run t' :
  update_redo fd lsn row (h, s) = (Ok tt, t') →
  ∃ d', redo_update_bytes h row lsn d = Some d' ∧ page_redone s (fd, p) d' t'.2 ∧ layout t'.1 = layout h.
Proof.
  intros (f & s1 & Hf & He & H)%(redo_start s fd row h d); [|done..]. get_hdr H.
  apply bind_Ok in H as ([] & ? & (s2 & Hst & ->)%zoom_Ok & H). simpl in Hst, H.
  apply (store_step _ _ _ _ _ _ _ He) in Hst as (d2 & Hg & He2); [|intros d'; apply copy_to_slot_length].
  apply bind_Ok in H as ([] & ? & (s4 & Hst & ->)%zoom_Ok & H). simpl in Hst, H.
  apply (store_step _ _ _ _ _ _ _ He2) in Hst as (d4 & Hd4 & He4); [|intros d'; apply wr_length].
  apply zoom_Ok in H as (s6 & Hun & ->). simpl in Hun. exists d4. split_and!; [| |done].
  - unfold redo_update_bytes. change (copy_to_slot (set_num_pages _ _)) with (copy_to_slot h) in Hg. by rewrite Hg.
  - simpl. eapply (edited_redone s fd p f s1); [done..|]. by eapply unpin_editing.
Qed.

Lemma delete_redo_run t' :
  delete_redo fd lsn row (h, s) = (Ok tt, t') →
  ∃ d', redo_delete_bytes h row lsn d = Some d' ∧ page_redone s (fd, p) d' t'.2 ∧ layout t'.1 = layout h.
Proof.
  intros (f & s1 & Hf & He & H)%(redo_start s fd row h d); [|done..].
  pose proof (fetched_header f s1 Hf) as Hm1. get_hdr H.
  apply bind_Ok in H as ([] & ? & (s2 & Hst & ->)%zoom_Ok & H). simpl in Hst, H.
  apply (store_step _ _ _ _ _ _ _ He) in Hst as (d2 & Hg & He2).
  2: { intros d' Hd. apply bind_Some in Hd as (e1 & ?%bit_reset_length & ?%add_num_records_length). congruence. }
  apply bind_Ok in H as (n & ? & (s9 & Hld & ->)%zoom_Ok & H). simpl in Hld, H.
  apply (load_editing _ _ _ _ _ _ _ _ He2) in Hld as [Hn ->].
  apply bind_Ok in H as ([] & t3 & H3 & H).
  set (freed := n =? num_records_per_page h - 1).
  assert (Hu : ∃ d3, (if freed && negb (p =? first_free_page_no_ row)
      then wr d2 OFFSET_NEXT_FREE (i32 (first_free_page_no_ row)) else Some d2) = Some d3 ∧
    layout t3.1 = layout h ∧ editing s1 (fd, p) f d3 t3.2).
  { change (num_records_per_page _) with (num_records_per_page h) in H3. fold freed in H3. destruct freed.
    - apply (release_step _ _ _ _ _ _ _ _ He2) in H3 as (d3 & Hd & Hl & ?); [|done..]. simpl in Hd.
      exists d3. by destruct (p =? _).
    - apply ret_Ok in H3 as [_ ->]. eauto. }
  destruct Hu as (d3 & Hd3 & Hlay & He3). destruct t3 as [h3 s3]. simpl in *.
  apply bind_Ok in H as ([] & ? & (s4 & Hst & ->)%zoom_Ok & H). simpl in Hst, H.
  apply (store_step _ _ _ _ _ _ _ He3) in Hst as (d4 & Hd4 & He4); [|intros d'; apply wr_length].
  apply zoom_Ok in H as (s6 & Hun & ->). simpl in Hun. exists d4. split_and!; [| |done].
  - unfold redo_delete_bytes. rewrite Hg. simpl. rewrite Hn. simpl. fold freed. by rewrite Hd3.
  - simpl. eapply (edited_redone s fd p f s1); [done..|]. by eapply unpin_editing.
Qed.
End redo_op.
End redo.


(** *** A record of the log *)

Definition page_lsn (d : bytes) : option Z := rd_i32 d 0.

(** A page that has the record's change already has the record's lsn or a later one. *)
Definition redo_page (h : RmFileHdr) (r : LogRecord) (row : RowLog) (d : bytes) : option bytes :=
  l ← page_lsn d; if l >=? log_lsn r then Some d else redo_bytes h r row d.
Definition redo_rec (fhs : gmap bytes (Z * RmFileHdr)) (dpt : gmap PageId Z) (pid : PageId)
    (d : bytes) (r : LogRecord) : option bytes :=
  match row ← body_row (log_body r); fh ← fhs !! table_name_ row; Some (row, fh) with
  | Some (row, fh) =>
      if is_change r && bool_decide (pid = (fh.1, page_no (rid_ row))) && bool_decide (is_Some (dpt !! pid))
      then redo_page (layout fh.2) r row d else Some d
  | None => Some d
  end.

(** A change of a page by each of the records in turn. *)
Fixpoint each (f : bytes → LogRecord → option bytes) (d : bytes) (rs : list LogRecord) : option bytes :=
  match rs with
  | [] => Some d
  | r :: rs => d' ← f d r; each f d' rs
  end.

Lemma each_app f d rs1 rs2 : each f d (rs1 ++ rs2) = d' ← each f d rs1; each f d' rs2.
Proof. revert d. induction rs1 as [|r rs1 IH]; intros d; simpl; [done|]. destruct (f d r); simpl; [apply IH|done]. Qed.

Lemma each_same f g d rs : (∀ c r, r ∈ rs → f c r = g c r) → each f d rs = each g d rs.
Proof.
  revert d. induction rs as [|r rs IH]; intros d H; simpl; [done|]. rewrite H by by left.
  destruct (g d r); simpl; [|done]. apply IH. intros c x Hx. apply H. by right.
Qed.

(** The same files with the same page layouts. *)
Definition same_files (fhs fhs' : gmap bytes (Z * RmFileHdr)) : Prop :=
  ∀ tab, (λ x, (x.1, layout x.2)) <$> fhs' !! tab = (λ x, (x.1, layout x.2)) <$> fhs !! tab.
#[export] Instance same_files_equiv : Equivalence same_files.
Proof.
  split; [by intros f t|by intros f g H t; rewrite H|].
  intros f1 f2 f3 H1 H2 t. by rewrite H2, H1.
Qed.

#[export] Instance redo_rec_proper : Proper (same_files ==> eq ==> eq ==> eq ==> eq ==> eq) redo_rec.
Proof.
  intros f f' Hf ? dpt -> ? pid -> ? d -> ? r ->. unfold redo_rec.
  destruct (body_row (log_body r)) as [row|]; simpl; [|done]. specialize (Hf (table_name_ row)).
  destruct (f !! table_name_ row) as [[fd h]|], (f' !! table_name_ row) as [[fd' h']|]; simpl in Hf |- *; try done.
  apply (inj Some) in Hf. apply (inj2 pair) in Hf as [-> Hl]. by rewrite Hl.
Qed.

Section redo_record.
Context {R : Type} `{!Replacer R, !ReplacerLaws R}.
Implicit Types (d : Db R).
Abbreviation pool d := (db_storage d).
Abbreviation table s := (page_table_ (s_bpm s)).

(** The open record files are data files whose header page is not in the pool. *)
Record db_inv d : Prop := {
  di_pool : pool_inv (pool d);
  di_file tab fd h : fhs_ d !! tab = Some (fd, h) →
    data_fd (pool d) fd ∧ table (pool d) !! (fd, RM_FILE_HDR_PAGE) = None;
}.

(** What a step of redo does: [f pid] is what it makes of the page [pid]. *)
Record db_step (f : PageId → bytes → option bytes) d d' : Prop := {
  ds_inv : db_inv d';
  ds_files : same_files (fhs_ d) (fhs_ d');
  ds_log : log_kept (pool d) (pool d');
  ds_fds : fds_kept (pool d) (pool d');
  ds_pins q : pins (pool d') q = pins (pool d) q;
  ds_view q b : q.2 ≠ RM_FILE_HDR_PAGE → data_fd (pool d) q.1 →
    view (pool d) q = Some b → ∃ b', f q b = Some b' ∧ view (pool d') q = Some b';
}.

Lemma db_step_refl d : db_inv d → db_step (λ _ b, Some b) d d.
Proof. intros Hd. split; [done|done|done|by intros ?|done|eauto]. Qed.

Lemma db_step_ext f g d d' : db_step f d d' → (∀ q b, f q b = g q b) → db_step g d d'.
Proof. intros [? ? ? ? ? Hv] He. split; try done. intros q b ? ? ?. rewrite <- He. by apply Hv. Qed.

Lemma db_step_trans f g d1 d2 d3 :
  db_step f d1 d2 → db_step g d2 d3 → db_step (λ q b, b' ← f q b; g q b') d1 d3.
Proof.
  intros [I1 F1 L1 D1 P1 V1] [I2 F2 L2 D2 P2 V2]. split; [done|by etrans|by etrans| | |].
  - intros q Hq. by apply D2, D1.
  - intros q. by rewrite P2.
  - intros q b Hq Hfd Hv. destruct (V1 q b Hq Hfd Hv) as (b' & Hf & Hv'). rewrite Hf. simpl.
    apply V2; [done|by apply D1|done].
Qed.

(** The pages a table of dirty pages names are there. *)
Definition pages_there (dpt : gmap PageId Z) d : Prop :=
  ∀ pid, is_Some (dpt !! pid) →
    pid.2 ≠ RM_FILE_HDR_PAGE ∧ data_fd (pool d) pid.1 ∧ is_Some (view (pool d) pid).

Lemma set_storage_same d : mkDb (fhs_ d) (pool d) = d.
Proof. by destruct d. Qed.

Lemma on_storage_Ok {A} (m : M (Storage R) A) d a d' :
  on_storage m d = (Ok a, d') ↔ ∃ s, m (pool d) = (Ok a, s) ∧ d' = mkDb (fhs_ d) s.
Proof. apply zoom_Ok. Qed.

Lemma redo_op_run s fd row h r b t' :
  pool_inv s → data_fd s fd → page_no (rid_ row) ≠ RM_FILE_HDR_PAGE →
  table s !! (fd, RM_FILE_HDR_PAGE) = None → view s (fd, page_no (rid_ row)) = Some b →
  redo_op (log_lsn r) r row fd (h, s) = (Ok tt, t') →
  ∃ b', redo_bytes (layout h) r row b = Some b' ∧ page_redone s (fd, page_no (rid_ row)) b' t'.2 ∧
    layout t'.1 = layout h.
Proof.
  intros Hi Hfd Hp Hm Hv H. unfold redo_op, redo_bytes in *.
  destruct (log_type_ (log_hdr r)); first
    [exact (insert_redo_run s fd (log_lsn r) row h b Hi Hfd Hp Hm Hv t' H)
    |exact (delete_redo_run s fd (log_lsn r) row h b Hi Hfd Hp Hm Hv t' H)
    |exact (update_redo_run s fd (log_lsn r) row h b Hi Hfd Hv t' H)].
Qed.
Lemma is_change_type r : is_change r = match log_type_ (log_hdr r) with UPDATE | INSERT | DELETE => true | _ => false end.
Proof. unfold is_change, is_type. by destruct (log_type_ (log_hdr r)). Qed.

(** The record [r] changes the page [pid] of the file [(fd, h)]; the page, which holds [b],
    was fetched. *)
Section redo_row.
Context (dpt : gmap PageId Z) (r : LogRecord) (row : RowLog) (fd : Z) (h : RmFileHdr) (d : Db R) (b : bytes).
Context (Hrow : body_row (log_body r) = Some row) (Hch : is_change r = true)
  (Hfh : fhs_ d !! table_name_ row = Some (fd, h)) (Hp0 : page_no (rid_ row) ≠ RM_FILE_HDR_PAGE).
Abbreviation pid := (fd, page_no (rid_ row)).

Lemma redo_rec_row q c :
  redo_rec (fhs_ d) dpt q c r
  = if decide (q = pid ∧ is_Some (dpt !! pid)) then redo_page (layout h) r row c else Some c.
Proof.
  unfold redo_rec. rewrite Hrow. simpl. rewrite Hfh. simpl. rewrite Hch. simpl. case_decide as Hc.
  - destruct Hc as [-> Hc]. by rewrite !bool_decide_eq_true_2.
  - destruct (bool_decide (q = pid)) eqn:E1; [|done]. apply bool_decide_eq_true in E1 as ->.
    rewrite bool_decide_eq_false_2; [done|]. by intros ?; apply Hc.
Qed.

Context (s1 : Storage R) (f l : Z) (Hd : db_inv d) (Hdpt : is_Some (dpt !! pid))
  (Hft : fetched (pool d) pid f s1) (Hv1 : view s1 pid = Some b) (Hl : page_lsn b = Some l).

Lemma fetched_files tab fd' h' : fhs_ d !! tab = Some (fd', h') →
  data_fd s1 fd' ∧ table s1 !! (fd', RM_FILE_HDR_PAGE) = None.
Proof using Hd Hft Hp0.
  intros [? ?]%(di_file _ Hd). split; [by apply (ft_fds _ _ _ _ Hft)|].
  apply (ft_keys _ _ _ _ Hft); [|done]. intros [= _ ?]. done.
Qed.

Lemma fetched_pinned : 0 < pins s1 pid.
Proof using Hd Hft.
  rewrite (ft_pins _ _ _ _ Hft), decide_True by done.
  pose proof (pins_nonneg (pool d) pid (di_pool _ Hd)). lia.
Qed.

(** The page has the change. *)
Lemma redo_skip_step u s2 :
  l >=? log_lsn r = true → unpin_page pid false s1 = (Ok u, s2) →
  db_step (λ q b, redo_rec (fhs_ d) dpt q b r) d (mkDb (fhs_ d) s2).
Proof.
  intros Hge Hu. apply unpin_unpinned in Hu as [Ui Uv Ud Ut Up Ub Ul]; [|apply Hft|apply Hft].
  pose proof fetched_pinned as Hpin. apply Ub in Hpin as ->. split; simpl; try done.
  - split; [done|]. simpl. intros tab fd' h' Ht. destruct (fetched_files _ _ _ Ht) as [? ?].
    split; [|by rewrite Ut]. unfold data_fd in *. by rewrite Ud.
  - etrans; [apply (ft_log _ _ _ _ Hft)|]. apply log_kept_same; [done|by rewrite Ud].
  - intros g Hg. apply (ft_fds _ _ _ _ Hft) in Hg. unfold data_fd in *. by rewrite Ud.
  - intros q. rewrite Up, (ft_pins _ _ _ _ Hft). case_decide; lia.
  - intros q c Hq Hqfd Hqv. rewrite Uv, redo_rec_row.
    assert (Hc : view s1 q = Some c) by (by apply (ft_view _ _ _ _ Hft)). exists c. split; [|done].
    case_decide as Hq2; [|done]. destruct Hq2 as [-> _]. rewrite Hv1 in Hc. injection Hc as <-.
    unfold redo_page. rewrite Hl. simpl. by rewrite Hge.
Qed.

(** The page is changed. *)
Lemma redo_apply_step b' h2 s2 u s3 :
  l >=? log_lsn r = false → redo_bytes (layout h) r row b = Some b' →
  page_redone s1 pid b' s2 → layout h2 = layout h → unpin_page pid true s2 = (Ok u, s3) →
  db_step (λ q b, redo_rec (fhs_ d) dpt q b r) d (mkDb (<[table_name_ row := (fd, h2)]> (fhs_ d)) s3).
Proof.
  intros Hge Hb' Hpr Hlay Hu. pose proof fetched_pinned as Hpin2. rewrite <- (pr_pins _ _ _ _ Hpr) in Hpin2.
  apply unpin_unpinned in Hu as [Ui Uv Ud Ut Up Ub Ul]; [|apply Hpr|by left].
  apply Ub in Hpin2 as ->. assert (Hfds : fds_kept (pool d) s3).
  { intros g Hg. apply (ft_fds _ _ _ _ Hft), (pr_fds _ _ _ _ Hpr) in Hg. unfold data_fd in *. by rewrite Ud. }
  assert (Hsame : same_files (fhs_ d) (<[table_name_ row:=(fd, h2)]> (fhs_ d))).
  { intros tab. destruct (decide (tab = table_name_ row)) as [->|Hne].
    - rewrite lookup_insert_eq, Hfh. simpl. by rewrite Hlay.
    - by rewrite lookup_insert_ne. }
  split; simpl; try done.
  - split; [done|]. simpl. intros tab fd' h' Ht.
    assert (Ht2 : ∃ h0, fhs_ d !! tab = Some (fd', h0)).
    { specialize (Hsame tab). rewrite Ht in Hsame. simpl in Hsame.
      destruct (fhs_ d !! tab) as [[fd0 h0]|]; [|done]. simpl in Hsame.
      apply (inj Some), (inj2 pair) in Hsame as [-> _]. eauto. }
    destruct Ht2 as [h0 Ht2]. destruct (fetched_files _ _ _ Ht2) as [? Hk].
    split; [apply Hfds; by apply (di_file _ Hd) in Ht2 as [? _]|].
    rewrite Ut. apply (pr_keys _ _ _ _ Hpr); [|done]. intros [= _ ?]. done.
  - etrans; [apply (ft_log _ _ _ _ Hft)|]. etrans; [apply (pr_log _ _ _ _ Hpr)|].
    apply log_kept_same; [done|by rewrite Ud].
  - intros q. rewrite Up, (pr_pins _ _ _ _ Hpr), (ft_pins _ _ _ _ Hft). case_decide; lia.
  - intros q c Hq Hqfd Hqv. rewrite Uv, redo_rec_row.
    assert (Hc : view s1 q = Some c) by (by apply (ft_view _ _ _ _ Hft)). case_decide as Hq2.
    + destruct Hq2 as [-> _]. rewrite Hv1 in Hc. injection Hc as <-. exists b'.
      split; [|apply (pr_view _ _ _ _ Hpr)]. unfold redo_page. rewrite Hl. simpl. by rewrite Hge, Hb'.
    + exists c. split; [done|]. apply (pr_other _ _ _ _ Hpr); [|intros ->; done|by apply (ft_fds _ _ _ _ Hft)|done].
      intros ->. by apply Hq2.
Qed.
End redo_row.

Lemma redo_row_run dpt r row d d' :
  db_inv d → pages_there dpt d → page_no (rid_ row) ≠ RM_FILE_HDR_PAGE →
  body_row (log_body r) = Some row → is_change r = true →
  redo_row dpt (log_lsn r) r row d = (Ok tt, d') →
  db_step (λ q b, redo_rec (fhs_ d) dpt q b r) d d'.
Proof.
  intros Hd Hthere Hp0 Hrow Hch H. unfold redo_row in H.
  apply bind_Ok in H as (? & ? & [-> ->]%gets_Ok & H).
  apply bind_Ok in H as ([fd h] & ? & [Hfh ->]%of_option_Ok & H). simpl in H.
  set (p := page_no (rid_ row)) in *. set (pid := (fd, p)) in *.
  destruct (dpt !! pid) as [l0|] eqn:Hdpt.
  2: { apply ret_Ok in H as [_ ->]. eapply db_step_ext; [by apply db_step_refl|].
       intros q b. rewrite (redo_rec_row dpt r row fd h d Hrow Hch Hfh), decide_False; [done|].
       intros [-> [? Hx]]. unfold pid, p in Hdpt. congruence. }
  destruct (di_file _ Hd _ _ _ Hfh) as [Hfd Hm].
  destruct (Hthere pid) as (_ & _ & b & Hv); [by rewrite Hdpt|].
  apply bind_Ok in H as (o & ? & (s1 & Hf & ->)%on_storage_Ok & H).
  apply bind_Ok in H as (f & ? & [-> ->]%of_option_Ok & H).
  apply fetch_Ok in Hf as Hft; [|apply Hd|done].
  assert (Hv1 : view s1 pid = Some b) by (by apply (ft_view _ _ _ _ Hft)).
  assert (He : editing s1 pid f b s1).
  { apply editing_refl; [apply Hft|apply Hft|done|]. by eapply fetched_pinned. }
  apply bind_Ok in H as (l & ? & (s1' & Hl & ->)%on_storage_Ok & H). simpl in Hl.
  apply (load_editing _ _ _ _ _ _ _ _ He) in Hl as [Hl ->]. change (page_lsn b = Some l) in Hl.
  destruct (l >=? log_lsn r) eqn:Hge.
  - apply bind_Ok in H as (u & ? & (s2 & Hu & ->)%on_storage_Ok & [_ ->]%ret_Ok). simpl in Hu.
    by apply (redo_skip_step dpt r row fd h d b) with (s1 := s1) (f := f) (l := l) (u := u).
  - apply bind_Ok in H as ([] & d2 & Hop & H). unfold on_file in Hop. simpl in Hop. rewrite Hfh in Hop.
    change (lsn_ (log_hdr r)) with (log_lsn r) in Hop.
    destruct (redo_op (log_lsn r) r row fd (h, s1)) as [o [h2 s2]] eqn:Hrun.
    injection Hop as -> <-.
    destruct (fetched_files row fd d Hp0 s1 f Hd Hft _ _ _ Hfh) as [Hfd1 Hmm].
    destruct (redo_op_run s1 fd row h r b (h2, s2)) as (b' & Hb' & Hpr & Hlay); [apply Hft|done..|].
    apply bind_Ok in H as (u & ? & (s3 & Hu & ->)%on_storage_Ok & [_ ->]%ret_Ok). simpl in Hu.
    by apply (redo_apply_step dpt r row fd h d b) with (s1 := s1) (f := f) (l := l) (b' := b') (s2 := s2) (u := u).
Qed.

Lemma redo_record_run dpt r d d' :
  db_inv d → pages_there dpt d →
  (∀ row, body_row (log_body r) = Some row → page_no (rid_ row) ≠ RM_FILE_HDR_PAGE) →
  is_change r = true →
  redo_record dpt (log_lsn r) r d = (Ok tt, d') →
  db_step (λ q b, redo_rec (fhs_ d) dpt q b r) d d'.
Proof.
  intros Hd Ht Hp Hch H. unfold redo_record in H. pose proof Hch as Hty. rewrite is_change_type in Hty.
  destruct (body_row (log_body r)) as [row|] eqn:Hrow.
  2: { assert (d' = d) as -> by (by destruct (log_type_ (log_hdr r)); apply ret_Ok in H as [_ ->]).
       eapply db_step_ext; [by apply db_step_refl|]. intros q b. unfold redo_rec. by rewrite Hrow. }
  apply (redo_row_run dpt r row d d'); try done; [by apply Hp|].
  by destruct (log_type_ (log_hdr r)).
Qed.

Lemma redo_rec_other fhs dpt q b r : is_change r = false → redo_rec fhs dpt q b r = Some b.
Proof. intros Hc. unfold redo_rec. rewrite Hc. simpl. by repeat case_match. Qed.

(** Reading the log changes no page. *)
Lemma log_step_pool s dk : pool_inv s → log_step (s_disk s) dk → pool_inv (set_disk dk s).
Proof.
  intros Hi Hs. apply disk_step_pool; [done|apply Hs..|]. apply data_kept_pages, log_step_data_kept, Hs.
Qed.

Lemma log_read_step d d' : db_inv d → log_read d d' → db_step (λ _ b, Some b) d d'.
Proof.
  intros [Hi Hfile] [Hf Hst Hs]. pose proof (data_kept_pages _ _ (log_step_data_kept _ _ Hs)) as Hk.
  assert (Hfds : fds_kept (pool d) (pool d')) by (intros fd Hfd; by eapply pages_kept_data_fd).
  assert (Htab : table (pool d') = table (pool d)) by (by rewrite Hst).
  split.
  - split; [rewrite Hst; by apply log_step_pool|]. rewrite Hf, Htab. intros tab fd h [? ?]%Hfile.
    split; [by apply Hfds|done].
  - by rewrite Hf.
  - apply log_kept_same; [by rewrite Hst|by apply log_step_file].
  - done.
  - intros q. rewrite Hst. done.
  - intros q b _ (path & Hpath & Hne) Hv. exists b. split; [done|]. unfold view in *. rewrite Htab.
    destruct (table (pool d) !! q) as [f|].
    + rewrite Hst. exact Hv.
    + apply (Hk _ _ Hpath Hne); [by intros []|done].
Qed.

(** The log the database restarts from: [f], with nothing in the log buffer. *)
Record restart_log (f : bytes) d : Prop := {
  rl_file : log_file (s_disk (pool d)) = Some f;
  rl_size : len f ≤ INT_MAX;
  rl_quiet : log_quiet (pool d);
}.

Lemma restart_log_step f g d d' : restart_log f d → db_step g d d' → restart_log f d'.
Proof.
  intros [Hf Hs Hq] Hst. destruct (ds_log _ _ _ Hst Hq) as [? E]. split; [|done|done]. by rewrite E.
Qed.

Lemma read_opens f buf n off d buf' d' :
  db_inv d → restart_log f d → read_into_buf buf n off d = (Ok buf', d') → log_ready f d.
Proof.
  intros [Hi _] [Hf Hs _] H. split; [apply Hi|apply Hi| |done|done].
  unfold read_into_buf, read_log in H.
  destruct (open_log (s_disk (pool d))) as [[[]|e|] d1] eqn:E; [by eexists| |];
    unfold bind at 1, zoom at 1 in H; simpl in H; rewrite E in H; done.
Qed.

(** Reads of a header and of a record, in a run that succeeds. *)
Lemma read_header_Ok fhs pre x post header d header' d' :
  db_inv d → restart_log (log_bytes (pre ++ x :: post)) d → in_log fhs x → len header = LOG_HEADER_SIZE →
  read_into_buf header LOG_HEADER_SIZE (len (log_bytes pre)) d = (Ok header', d') →
  header' = serialize_header (log_hdr x) ∧ db_step (λ _ b, Some b) d d'.
Proof.
  intros Hd Hlog Hin Hh H. pose proof (read_opens _ _ _ _ _ _ _ Hd Hlog H) as Hr.
  destruct (read_header pre x post fhs d header Hr Hin Hh) as (d2 & Hrun & Hrd).
  rewrite H in Hrun. injection Hrun as -> ->. split; [done|by apply log_read_step].
Qed.

Lemma read_record_Ok fhs pre x post d data d' :
  db_inv d → restart_log (log_bytes (pre ++ x :: post)) d → in_log fhs x →
  read_record (len (serialize x)) (len (log_bytes pre)) d = (Ok data, d') →
  data = serialize x ∧ db_step (λ _ b, Some b) d d'.
Proof.
  intros Hd Hlog Hin H. assert (Hr : log_ready (log_bytes (pre ++ x :: post)) d).
  { unfold read_record in H. apply bind_Ok in H as (? & ? & [_ ->]%massert_Ok & H). by eapply read_opens. }
  destruct (read_record_run pre x post fhs d Hr Hin) as (d2 & Hrun & Hrd).
  rewrite H in Hrun. injection Hrun as -> ->. split; [done|by apply log_read_step].
Qed.

Lemma pages_there_step dpt g d d' : pages_there dpt d → db_step g d d' → pages_there dpt d'.
Proof.
  intros Ht Hst pid Hpid. destruct (Ht pid Hpid) as (? & Hfd & [b Hb]).
  split_and!; [done|by apply (ds_fds _ _ _ Hst)|].
  destruct (ds_view _ _ _ Hst pid b) as (b' & _ & Hb'); eauto.
Qed.

(** Records that redo can be given: their pages are not header pages. *)
Definition redoable fhs (x : LogRecord) : Prop :=
  in_log fhs x ∧ ∀ row, body_row (log_body x) = Some row → page_no (rid_ row) ≠ RM_FILE_HDR_PAGE.

Lemma redo_loop_run fhs r post : ∀ pre d header d',
  db_inv d → restart_log (log_bytes (pre ++ post)) d → pages_there (DPT r) d →
  Forall (redoable fhs) post → len header = LOG_HEADER_SIZE →
  (∀ i x, post !! i = Some x → offset_of r (log_lsn x) = len (log_bytes (pre ++ take i post))) →
  redo_loop r (log_lsn <$> post) header d = (Ok tt, d') →
  db_step (λ q b, each (redo_rec (fhs_ d) (DPT r) q) b post) d d'.
Proof.
  induction post as [|x post IH]; intros pre d header d' Hd Hlog Hthere Hin Hh Hoff H.
  { apply ret_Ok in H as [_ ->]. by apply db_step_refl. }
  apply Forall_cons in Hin as [[Hin Hp] Hpost]. simpl in H.
  pose proof (Hoff 0%nat x eq_refl) as Hoff0. simpl in Hoff0. rewrite app_nil_r in Hoff0.
  rewrite Hoff0 in H. apply bind_Ok in H as (header' & d1 & Hrd & H).
  apply (read_header_Ok fhs pre x post) in Hrd as [-> S1]; [|done..].
  destruct (header_fields x fhs Hin) as (Htot & Hwrap & _ & _ & Hty). rewrite Hty, Htot in H.
  pose proof (restart_log_step _ _ _ _ Hlog S1) as Hlog1.
  pose proof (pages_there_step _ _ _ _ Hthere S1) as Hthere1. pose proof (ds_inv _ _ _ S1) as Hd1.
  apply bind_Ok in H as ([] & d3 & Hx & H).
  assert (S2 : db_step (λ q b, redo_rec (fhs_ d) (DPT r) q b x) d1 d3).
  { destruct (is_change x) eqn:Hc; rewrite is_change_type in Hc.
    - assert (Hx' : (let! tot := of_option (Some (len (serialize x))) in
        let! log_data := read_record (wrap32 tot) (len (log_bytes pre)) in
        let! rec := of_option (deserialize log_data) in redo_record (DPT r) (log_lsn x) rec) d1 = (Ok tt, d3))
        by by destruct (log_type_ (log_hdr x)).
      apply bind_Ok in Hx' as (tot & ? & [[= <-] ->]%of_option_Ok & Hx'). rewrite Hwrap in Hx'.
      apply bind_Ok in Hx' as (data & d2 & Hrd & Hx').
      apply (read_record_Ok fhs pre x post) in Hrd as [-> S2]; [|done..].
      rewrite (deserialize_in_log fhs x Hin) in Hx'.
      apply bind_Ok in Hx' as (rec & ? & [[= <-] ->]%of_option_Ok & Hx').
      apply redo_record_run in Hx' as S3; [|apply S2|by eapply pages_there_step|done|by rewrite is_change_type].
      eapply db_step_ext; [eapply db_step_trans; [exact S2|exact S3]|]. intros q b. simpl.
      pose proof (db_step_trans _ _ _ _ _ S1 S2) as S12. by rewrite (ds_files _ _ _ S12).
    - assert (d3 = d1) as -> by (by destruct (log_type_ (log_hdr x)); try done; apply ret_Ok in Hx as [_ ->]).
      eapply db_step_ext; [by apply db_step_refl|]. intros q b. simpl.
      by rewrite redo_rec_other by by rewrite is_change_type. }
  pose proof (db_step_trans _ _ _ _ _ S1 S2) as S12.
  assert (Happ : pre ++ x :: post = (pre ++ [x]) ++ post) by by rewrite <- (assoc_L (++)).
  apply (IH (pre ++ [x])) in H as S3; [|apply S12|rewrite <- Happ; by eapply restart_log_step
    |by eapply pages_there_step|done|by rewrite serialize_header_length|].
  - eapply db_step_ext; [eapply db_step_trans; [exact S12|exact S3]|]. intros q b. simpl.
    destruct (redo_rec _ _ _ _ _) as [c|]; [simpl|done]. apply each_same. intros c' y _.
    by rewrite (ds_files _ _ _ S12).
  - intros i y Hy. rewrite <- (assoc_L (++)). by apply (Hoff (S i)).
Qed.
End redo_record.

(** *** The records redo replays *)

(** The page [pid] after redoing those of the records that change it. *)
Definition replay_rec (fhs : gmap bytes (Z * RmFileHdr)) (pid : PageId) (b : bytes) (r : LogRecord) : option bytes :=
  match row ← body_row (log_body r); fh ← fhs !! table_name_ row; Some (row, fh) with
  | Some (row, fh) => if changes fhs pid r then redo_page (layout fh.2) r row b else Some b
  | None => Some b
  end.
Definition replay fhs (pid : PageId) (b : bytes) (rs : list LogRecord) : option bytes :=
  each (replay_rec fhs pid) b rs.

Lemma redo_rec_replay fhs dpt pid b r :
  (changes fhs pid r = true → is_Some (dpt !! pid)) → redo_rec fhs dpt pid b r = replay_rec fhs pid b r.
Proof.
  intros Hd. unfold redo_rec, replay_rec, changes, page_of in *.
  destruct (body_row (log_body r)) as [row|]; simpl in *; [|done].
  destruct (fhs !! table_name_ row) as [[fd h]|]; simpl in *; [|done].
  destruct (is_change r); simpl in *; [|done].
  assert (E : bool_decide (Some (fd, page_no (rid_ row)) = Some pid) = bool_decide (pid = (fd, page_no (rid_ row)))).
  { apply bool_decide_ext. split; [by intros [= <-]|by intros ->]. }
  rewrite E in *. destruct (bool_decide (pid = _)); [|done]. simpl.
  rewrite (bool_decide_eq_true_2 (is_Some (dpt !! pid))); [done|by apply Hd].
Qed.

Lemma replay_rec_other fhs pid b r : changes fhs pid r = false → replay_rec fhs pid b r = Some b.
Proof. intros Hr. unfold replay_rec. rewrite Hr. by repeat case_match. Qed.

Lemma replay_other fhs pid b rs : existsb (changes fhs pid) rs = false → replay fhs pid b rs = Some b.
Proof.
  intros H. induction rs as [|r rs IH]; [done|]. simpl in H. apply orb_false_iff in H as [Hr H].
  unfold replay. simpl. rewrite replay_rec_other by done. by apply IH.
Qed.

Lemma head_filter_split {A} (P : A → bool) (l : list A) x :
  head (filter P l) = Some x → ∃ l1 l2, l = l1 ++ x :: l2 ∧ P x = true ∧ existsb P l1 = false.
Proof.
  induction l as [|y l IH]; [done|]. rewrite filter_cons. case_decide as Hy; simpl.
  - intros [= ->]. exists [], l. split_and!; [done| |done]. by apply Is_true_true.
  - intros (l1 & l2 & -> & Hx & Hl)%IH. exists (y :: l1), l2. split_and!; [done..|]. simpl. rewrite Hl.
    destruct (P y); [by destruct Hy|done].
Qed.

Lemma head_filter_None {A} (P : A → bool) (l : list A) : head (filter P l) = None → existsb P l = false.
Proof.
  induction l as [|y l IH]; [done|]. rewrite filter_cons. case_decide as Hy; [done|]. intros H. simpl.
  rewrite IH by done. destruct (P y); [by destruct Hy|done].
Qed.

(** The log's sequence numbers are consecutive. *)
Section consecutive.
Context (fhs : gmap bytes (Z * RmFileHdr)) (rs : list LogRecord) (n0 : Z)
  (Hseq : log_lsn <$> rs = seqZ n0 (len rs)).

Lemma lsn_at i x : rs !! i = Some x → log_lsn x = n0 + Z.of_nat i.
Proof using Hseq.
  intros Hi. assert (Hl : (log_lsn <$> rs) !! i = Some (log_lsn x)) by (by rewrite list_lookup_fmap, Hi).
  rewrite Hseq in Hl. by apply lookup_seqZ in Hl as [-> _].
Qed.

Lemma lsn_split pre x post : rs = pre ++ x :: post → log_lsn x = n0 + len pre.
Proof using Hseq. intros E. apply lsn_at. rewrite E. by rewrite list_lookup_middle. Qed.

Lemma lsns_from pre x post : rs = pre ++ x :: post →
  log_lsn <$> x :: post = seqZ (log_lsn x) (n0 + len rs - log_lsn x).
Proof using Hseq.
  intros E. pose proof (lsn_split _ _ _ E) as Hx. apply list_eq. intros i.
  rewrite list_lookup_fmap. destruct ((x :: post) !! i) as [y|] eqn:Hi; simpl.
  - assert (Hy : rs !! (length pre + i)%nat = Some y) by (rewrite E, lookup_app_r by lia; by rewrite Nat.add_sub' ).
    apply lsn_at in Hy as Hl. rewrite Hl. symmetry. apply lookup_seqZ.
    apply lookup_lt_Some in Hy. lia.
  - symmetry. apply lookup_seqZ_ge. apply lookup_ge_None in Hi. rewrite E, length_app. simpl in *. lia.
Qed.

(** The dirty page table names the first change, so every change is at or behind it. *)
Lemma first_change_le pid pre x post :
  after_checkpoint rs = pre ++ x :: post → changes fhs pid x = true →
  ∃ l, first_change fhs pid rs = Some l ∧ l ≤ log_lsn x.
Proof using Hseq.
  intros E Hx. destruct (after_checkpoint_suffix rs) as [p0 E0]. unfold first_change.
  destruct (head (filter (changes fhs pid) (after_checkpoint rs))) as [y|] eqn:Hh.
  - exists (log_lsn y). split; [done|]. apply head_filter_split in Hh as (l1 & l2 & E2 & _ & Hl1).
    rewrite (lsn_split (p0 ++ l1) y l2), (lsn_split (p0 ++ pre) x post)
      by (rewrite <- (assoc_L (++)); congruence).
    rewrite !length_app. enough (length l1 ≤ length pre)%nat by lia.
    apply not_gt. intros Hgt. rewrite E in E2.
    assert (Hin : l1 !! length pre = Some x).
    { assert (H1 : (pre ++ x :: post) !! length pre = Some x) by by rewrite list_lookup_middle.
      rewrite E2, lookup_app_l in H1 by lia. done. }
    apply list_elem_of_lookup_2, list_elem_of_In in Hin.
    assert (existsb (changes fhs pid) l1 = true) by (apply existsb_exists; eauto). congruence.
  - apply head_filter_None in Hh. rewrite E, existsb_app in Hh. simpl in Hh. rewrite Hx in Hh.
    by destruct (existsb _ pre).
Qed.
End consecutive.

(** [first_lsn] is the least lsn of the table. *)
Definition min_lsn (dpt : gmap PageId Z) (first : Z) : Z := map_fold (λ _ l acc, Z.min l acc) first dpt.
Lemma min_lsn_spec dpt first :
  (min_lsn dpt first = first ∨ ∃ pid, dpt !! pid = Some (min_lsn dpt first)) ∧
  min_lsn dpt first ≤ first ∧ ∀ pid l, dpt !! pid = Some l → min_lsn dpt first ≤ l.
Proof.
  unfold min_lsn.
  apply (map_fold_weak_ind (λ m dpt, (m = first ∨ ∃ pid, dpt !! pid = Some m) ∧ m ≤ first ∧
    ∀ pid l, dpt !! pid = Some l → m ≤ l)).
  - split_and!; [by left|done|]. intros pid l. by rewrite lookup_empty.
  - intros pid l m r Hn (Hr & Hle & Hall). split_and!; [|lia|].
    + destruct (Z.min_spec l r) as [[? ->]|[? ->]].
      * right. exists pid. by rewrite lookup_insert_eq.
      * destruct Hr as [?|[q Hq]]; [by left|right]. exists q. rewrite lookup_insert_ne; [done|congruence].
    + intros q l'. destruct (decide (q = pid)) as [->|].
      * rewrite lookup_insert_eq. intros [= ->]. lia.
      * rewrite lookup_insert_ne by done. intros ?%Hall. lia.
Qed.

(** The tables [analyze] leaves, as far as redo uses them. *)
Record tables_of fhs (rs : list LogRecord) (r : RecoveryManager) : Prop := {
  to_dpt pid : DPT r !! pid = first_change fhs pid rs;
  to_offset i x : rs !! i = Some x → log_offsets_ r !! log_lsn x = Some (len (log_bytes (take i rs)));
  to_last x : last rs = Some x → last_lsn_ r = log_lsn x;
}.

Section redo_run.
Context {R : Type} `{!Replacer R, !ReplacerLaws R}.
Context (fhs : gmap bytes (Z * RmFileHdr)) (rs : list LogRecord) (n0 : Z) (r : RecoveryManager).
Context (Hseq : log_lsn <$> rs = seqZ n0 (len rs)) (Hin : Forall (redoable fhs) rs) (Htab : tables_of fhs rs r).

(** Where redo starts: every change of a page behind the checkpoint is at or behind it. *)
Lemma redo_start_split pid0 l0 : DPT r !! pid0 = Some l0 →
  ∃ pre x post, rs = pre ++ x :: post ∧ log_lsn x = min_lsn (DPT r) l0 ∧
    ∃ a1, after_checkpoint rs = a1 ++ x :: post ∧ ∀ pid, existsb (changes fhs pid) a1 = false.
Proof using Hseq Htab.
  intros H0. destruct (min_lsn_spec (DPT r) l0) as (Hat & _ & Hall). set (m := min_lsn _ _) in *.
  assert (Hpid : ∃ pid, DPT r !! pid = Some m) by (destruct Hat as [->|?]; eauto). destruct Hpid as [pid Hpid].
  rewrite (to_dpt _ _ _ Htab) in Hpid. unfold first_change in Hpid.
  destruct (head _) as [x|] eqn:Hh; [|done]. injection Hpid as Hx.
  apply head_filter_split in Hh as (a1 & post & E & _ & _).
  destruct (after_checkpoint_suffix rs) as [p0 E0].
  exists (p0 ++ a1), x, post. rewrite E, (assoc_L (++)) in E0. split_and!; [done..|]. exists a1. split; [done|].
  intros q. apply not_true_iff_false. intros (y & Hy & Hc)%existsb_exists.
  apply list_elem_of_In, list_elem_of_split in Hy as (b1 & b2 & ->).
  rewrite <- (assoc_L (++)) in E. simpl in E.
  destruct (first_change_le fhs rs n0 Hseq q b1 y (b2 ++ x :: post)) as (l & Hl & Hle); [done..|].
  rewrite <- (to_dpt _ _ _ Htab) in Hl. apply Hall in Hl.
  assert (Hly : log_lsn y < log_lsn x); [|lia].
  rewrite (lsn_split rs n0 Hseq ((p0 ++ b1 ++ y :: b2)) x post E0).
  rewrite (lsn_split rs n0 Hseq (p0 ++ b1) y (b2 ++ x :: post)).
  - rewrite !length_app. simpl. lia.
  - rewrite E0. by rewrite <- !(assoc_L (++)).
Qed.

Lemma redo_run (d d' : Db R) :
  db_inv d → restart_log (log_bytes rs) d → same_files fhs (fhs_ d) → pages_there (DPT r) d →
  redo r d = (Ok tt, d') → db_step (λ q b, replay fhs q b (after_checkpoint rs)) d d'.
Proof using Hseq Hin Htab.
  intros Hd Hlog Hsame Hthere H. unfold redo in H.
  destruct (map_to_list (DPT r)) as [|[pid0 l0] rest] eqn:Hm.
  - apply ret_Ok in H as [_ ->]. eapply db_step_ext; [by apply db_step_refl|]. intros q b.
    apply map_to_list_empty_iff in Hm. symmetry. apply replay_other.
    pose proof (to_dpt _ _ _ Htab q) as Hq. rewrite Hm, lookup_empty in Hq. unfold first_change in Hq.
    destruct (head _) eqn:Hh; [done|]. by apply head_filter_None in Hh.
  - assert (H0 : DPT r !! pid0 = Some l0) by (apply elem_of_map_to_list; rewrite Hm; by left).
    destruct (redo_start_split pid0 l0 H0) as (pre & x & post & E & Hx & a1 & Ea & Ha1).
    fold (min_lsn (DPT r) l0) in H. rewrite <- Hx in H.
    destruct (last rs) as [z|] eqn:Hlast; [|apply last_None in Hlast; by destruct pre; rewrite Hlast in E].
    rewrite (to_last _ _ _ Htab z Hlast) in H. apply last_Some in Hlast as [l' El].
    rewrite (lsn_split rs n0 Hseq l' z [] El) in H.
    replace (n0 + len l' - log_lsn x + 1) with (n0 + len rs - log_lsn x) in H
      by (rewrite El, length_app; simpl; lia).
    rewrite <- (lsns_from rs n0 Hseq pre x post E) in H. rewrite E in Hlog.
    apply (redo_loop_run fhs) with (pre := pre) in H; [|done..| | |].
    + eapply db_step_ext; [exact H|]. intros q b. rewrite Ea. unfold replay. rewrite each_app.
      change (each (replay_rec fhs q) b a1) with (replay fhs q b a1). rewrite replay_other by done.
      change (each (redo_rec (fhs_ d) (DPT r) q) b (x :: post) = each (replay_rec fhs q) b (x :: post)).
      assert (Hc : ∀ y, y ∈ x :: post → changes fhs q y = true → is_Some (DPT r !! q)).
      { intros y Hy Hyc. apply list_elem_of_split in Hy as (c1 & c2 & Ec).
        destruct (first_change_le fhs rs n0 Hseq q (a1 ++ c1) y c2) as (l & Hl & _); [|done|].
        - rewrite Ea, Ec. by rewrite <- (assoc_L (++)).
        - rewrite (to_dpt _ _ _ Htab). eauto. }
      apply each_same. intros c y Hy. rewrite <- redo_rec_replay with (dpt := DPT r) by by apply Hc.
      symmetry. by apply redo_rec_proper.
    + rewrite E in Hin. by apply Forall_app in Hin as [_ ?].
    + by rewrite length_replicate.
    + intros i y Hy. assert (Hiy : rs !! (length pre + i)%nat = Some y).
      { rewrite E, lookup_app_r by lia. by rewrite Nat.add_sub'. }
      unfold offset_of. rewrite (to_offset _ _ _ Htab _ _ Hiy). simpl. rewrite E.
      rewrite take_app_ge by lia. by rewrite Nat.add_sub'.
Qed.
End redo_run.

(** *** Redo can be repeated *)

Lemma redo_bytes_lsn h r row d d' :
  i32_ok (log_lsn r) = true → redo_bytes h r row d = Some d' → page_lsn d' = Some (log_lsn r).
Proof.
  intros Hok H. assert (Hs : ∃ d0, set_page_lsn (log_lsn r) d0 = Some d').
  { unfold redo_bytes, redo_insert_bytes, redo_delete_bytes, redo_update_bytes in H.
    destruct (log_type_ (log_hdr r)); repeat (apply bind_Some in H as (? & _ & H)); eauto. }
  destruct Hs as [d0 Hs]. unfold set_page_lsn in Hs. by eapply rd_i32_wr.
Qed.

(** What replaying a record does to the page's lsn: it never falls, and it is not below
    that of a record that changes the page. *)
Lemma replay_rec_lsn fhs pid b r b' :
  i32_ok (log_lsn r) = true → replay_rec fhs pid b r = Some b' →
  (∀ m, page_lsn b = Some m → ∃ m', page_lsn b' = Some m' ∧ m ≤ m') ∧
  (changes fhs pid r = true → ∃ m', page_lsn b' = Some m' ∧ log_lsn r ≤ m').
Proof.
  intros Hok H. destruct (changes fhs pid r) eqn:Hc.
  2: { rewrite replay_rec_other in H by done. injection H as <-. split; [eauto using Z.le_refl|done]. }
  unfold replay_rec in H. rewrite Hc in H. unfold changes, page_of in Hc.
  destruct (body_row (log_body r)) as [row|]; simpl in *; [|by rewrite andb_false_r in Hc].
  destruct (fhs !! table_name_ row) as [fh|]; simpl in *; [|by rewrite andb_false_r in Hc].
  unfold redo_page in H. apply bind_Some in H as (l & Hl & H).
  destruct (Z.geb_spec l (log_lsn r)).
  - injection H as <-. split; [eauto using Z.le_refl|eauto].
  - apply redo_bytes_lsn in H; [|done]. rewrite H. split.
    + intros m Hm. exists (log_lsn r). split; [done|]. rewrite Hl in Hm. injection Hm as <-. lia.
    + intros _. exists (log_lsn r). split; [done|lia].
Qed.

Lemma replay_lsn fhs pid rs : ∀ b b',
  Forall (λ r, i32_ok (log_lsn r) = true) rs → replay fhs pid b rs = Some b' →
  (∀ m, page_lsn b = Some m → ∃ m', page_lsn b' = Some m' ∧ m ≤ m') ∧
  ∀ r, r ∈ rs → changes fhs pid r = true → ∃ m', page_lsn b' = Some m' ∧ log_lsn r ≤ m'.
Proof.
  induction rs as [|x rs IH]; intros b b' Hok H.
  { injection H as <-. split; [eauto using Z.le_refl|by intros r ?%elem_of_nil]. }
  apply Forall_cons in Hok as [Hx Hok]. unfold replay in H. simpl in H.
  apply bind_Some in H as (c & Hc & H). apply replay_rec_lsn in Hc as [Hc1 Hc2]; [|done].
  destruct (IH c b' Hok H) as [H1 H2]. split.
  - intros m (m1 & Hm1 & ?)%Hc1. destruct (H1 _ Hm1) as (m2 & ? & ?). exists m2. split; [done|lia].
  - intros r [->|Hr]%elem_of_cons Hch; [|by apply H2].
    destruct (Hc2 Hch) as (m1 & Hm1 & ?). destruct (H1 _ Hm1) as (m2 & ? & ?). exists m2. split; [done|lia].
Qed.

(** A page that has all the changes is left alone. *)
Lemma replay_done fhs pid rs b m :
  page_lsn b = Some m → (∀ r, r ∈ rs → changes fhs pid r = true → log_lsn r ≤ m) →
  replay fhs pid b rs = Some b.
Proof.
  intros Hm. induction rs as [|r rs IH]; intros Hle; [done|]. unfold replay. simpl.
  assert (Hr : replay_rec fhs pid b r = Some b).
  { destruct (changes fhs pid r) eqn:Hc; [|by apply replay_rec_other].
    unfold replay_rec. rewrite Hc. destruct (row ← _; _) as [[row fh]|]; [|done].
    unfold redo_page. rewrite Hm. simpl. destruct (Z.geb_spec m (log_lsn r)); [done|].
    assert (log_lsn r ≤ m) by (apply Hle; [by left|done]). lia. }
  rewrite Hr. simpl. apply IH. intros x Hx. apply Hle. by right.
Qed.

Lemma replay_again fhs pid rs k b c :
  Forall (λ r, i32_ok (log_lsn r) = true) rs → is_Some (page_lsn b) →
  replay fhs pid b (take k rs) = Some c → replay fhs pid c rs = replay fhs pid b rs.
Proof.
  intros Hok [m Hm] H. destruct (replay_lsn fhs pid (take k rs) b c) as [H1 H2];
    [by apply Forall_take|done|]. destruct (H1 _ Hm) as (m' & Hm' & _).
  assert (Hc : replay fhs pid c (take k rs) = Some c).
  { apply (replay_done fhs pid _ c m'); [done|]. intros r Hr Hch.
    destruct (H2 r Hr Hch) as (m2 & Hm2 & ?). congruence. }
  rewrite <- (take_drop k rs). unfold replay in *. by rewrite !each_app, Hc, H.
Qed.

(** *** Redo rebuilds the rows *)

Section rows.
Context (h : RmFileHdr) (Hh : hdr_ok h).
Abbreviation n := (num_records_per_page h).

(** What the record says happened to the rows of its page. *)
Definition row_change (rows : Z → option bytes) (r : LogRecord) : Z → option bytes :=
  match body_row (log_body r) with
  | None => rows
  | Some w => λ i, if decide (i = slot_no (rid_ w))
                   then (if is_type DELETE r then None else rd (value_ w) 0 (record_size h)) else rows i
  end.
(** The record describes a change these rows admit. *)
Definition admits (rows : Z → option bytes) (r : LogRecord) : Prop :=
  ∀ w, body_row (log_body r) = Some w →
    0 ≤ slot_no (rid_ w) < n ∧ i32_ok (first_free_page_no_ w) = true ∧
    (if is_type INSERT r then rows (slot_no (rid_ w)) = None else is_Some (rows (slot_no (rid_ w)))).

Lemma row_None d i : len d = PAGE_SIZE → 0 ≤ i < n → row h d i = None → i ∉ occ h d.
Proof.
  intros Hl Hi Hr Hin. unfold row in Hr. rewrite decide_True in Hr by done.
  destruct (get_slot_range h i Hh Hi) as [Hs He]. destruct (rd_is_Some d (get_slot h i) (record_size h)) as [? ?].
  - unfold slots, OFFSET_BITMAP, OFFSET_PAGE_HDR in Hs. pose proof (hdr_ok_bounds h Hh) as (? & Hb & _).
    rewrite Hb in Hs. pose proof (Z.div_pos (n + 7) 8). lia.
  - pose proof (ho_size _ Hh). lia.
  - lia.
  - congruence.
Qed.

Lemma redo_insert_rows d w lsn d' :
  page_ok h d → 0 ≤ slot_no (rid_ w) < n → row h d (slot_no (rid_ w)) = None →
  redo_insert_bytes h w lsn d = Some d' →
  page_ok h d' ∧ ∀ i, row h d' i = if decide (i = slot_no (rid_ w)) then rd (value_ w) 0 (record_size h) else row h d i.
Proof.
  intros Hok Hi Hnone H. set (i := slot_no (rid_ w)) in *. pose proof (row_None d i (proj1 Hok) Hi Hnone) as Hnot.
  unfold redo_insert_bytes in H. fold i in H. apply bind_Some in H as (d3 & H3 & H).
  apply bind_Some in H as (c & _ & H). apply bind_Some in H as (d4 & H4 & H).
  apply bind_Some in H3 as (d1 & H1 & H3). apply bind_Some in H3 as (d2 & H2 & H3).
  destruct Hok as [Hl Hc]. pose proof H1 as H1l.
  assert (O1 : occ h d1 = {[i]} ∪ occ h d) by (by eapply Bitmap.occupied_set).
  apply bit_set_length in H1l. apply Bitmap.set_wr in H1 as [bb Hb]; [|lia].
  apply (bit_write_spec h Hh) in Hb as (L1 & F1 & N1 & R1); [|done].
  apply (copy_to_slot_spec h Hh) in H2 as (L2 & O2 & F2 & N2 & Rn & Ro); [|lia|done].
  apply (add_num_records_spec h Hh 1 d2 d3 (Z.of_nat (size (occ h d)))) in H3 as (L3 & O3 & R3 & F3 & N3);
    [|congruence|apply (count_ok h Hh); [by apply size_occ_bounds|lia]].
  assert (Hok3 : page_ok h d3).
  { split; [congruence|]. rewrite N3, O3, O2, O1, size_union, size_singleton by set_solver. f_equal. lia. }
  assert (Hr3 : ∀ j, row h d3 j = if decide (j = i) then rd (value_ w) 0 (record_size h) else row h d j).
  { intros j. rewrite R3. unfold row. rewrite O2, O1. destruct (decide (j = i)) as [->|Hj].
    - rewrite decide_True by set_solver. done.
    - destruct (decide (j ∈ occ h d)) as [Hin|].
      + rewrite decide_True by set_solver. rewrite Ro by done. apply R1. by apply (occ_range h) in Hin.
      + by rewrite decide_False by set_solver. }
  assert (Hok4 : page_ok h d4 ∧ ∀ j, row h d4 j = row h d3 j).
  { destruct (c >=? n); [|by injection H4 as <-].
    apply (page_link_spec h Hh) in H4 as (? & ? & _); done. }
  destruct Hok4 as [Hok4 Hr4]. apply (page_stamp_spec h Hh) in H as [[Hok' Hr' _] _]; [|done].
  split; [done|]. intros j. by rewrite Hr', Hr4, Hr3.
Qed.

Lemma redo_delete_rows d w lsn d' :
  page_ok h d → is_Some (row h d (slot_no (rid_ w))) → i32_ok (first_free_page_no_ w) = true →
  redo_delete_bytes h w lsn d = Some d' →
  page_ok h d' ∧ ∀ i, row h d' i = if decide (i = slot_no (rid_ w)) then None else row h d i.
Proof.
  intros Hok [b Hb] Hff H. set (i := slot_no (rid_ w)) in *. apply row_Some in Hb as [Hin _].
  unfold redo_delete_bytes in H. fold i in H. apply bind_Some in H as (d3 & H3 & H).
  apply bind_Some in H as (c & _ & H). apply bind_Some in H as (d4 & H4 & H).
  apply (page_delete_spec h Hh) in H3 as [[Hok3 Hr3 _] _]; [|done|done].
  assert (Hok4 : page_ok h d4 ∧ ∀ j, row h d4 j = row h d3 j).
  { destruct (_ && _); [|by injection H4 as <-].
    apply (page_link_spec h Hh) in H4 as (? & ? & _); done. }
  destruct Hok4 as [Hok4 Hr4]. apply (page_stamp_spec h Hh) in H as [[Hok' Hr' _] _]; [|done].
  split; [done|]. intros j. by rewrite Hr', Hr4, Hr3.
Qed.

Lemma redo_update_rows d w lsn d' :
  page_ok h d → is_Some (row h d (slot_no (rid_ w))) → redo_update_bytes h w lsn d = Some d' →
  page_ok h d' ∧ ∀ i, row h d' i = if decide (i = slot_no (rid_ w)) then rd (value_ w) 0 (record_size h) else row h d i.
Proof.
  intros Hok [b Hb] H. apply row_Some in Hb as [Hin _]. unfold redo_update_bytes in H.
  apply bind_Some in H as (d3 & H3 & H). apply (page_update_spec h Hh) in H3 as [[Hok3 Hr3 _] _]; [|done|done].
  apply (page_stamp_spec h Hh) in H as [[Hok' Hr' _] _]; [|done]. split; [done|]. intros j. by rewrite Hr', Hr3.
Qed.

Lemma redo_bytes_rows d r w d' :
  body_row (log_body r) = Some w → is_change r = true → page_ok h d → admits (row h d) r →
  redo_bytes h r w d = Some d' → page_ok h d' ∧ ∀ i, row h d' i = row_change (row h d) r i.
Proof.
  intros Hw Hch Hok Had H. destruct (Had w Hw) as (Hi & Hff & Hrow). unfold redo_bytes in H.
  unfold row_change. rewrite Hw. unfold is_type in *. rewrite is_change_type in Hch.
  destruct (log_type_ (log_hdr r)); simpl in *; try done.
  - by eapply redo_update_rows.
  - by eapply redo_insert_rows.
  - by eapply redo_delete_rows.
Qed.
End rows.

(** *** The rows along the log *)

Section history.
Context (h : RmFileHdr) (Hh : hdr_ok h).

Definition rows_after (rows : Z → option bytes) (rs : list LogRecord) : Z → option bytes :=
  foldl (row_change h) rows rs.
Fixpoint admitted (rows : Z → option bytes) (rs : list LogRecord) : Prop :=
  match rs with [] => True | r :: rs => admits h rows r ∧ admitted (row_change h rows r) rs end.

Lemma row_change_ext f g r : (∀ i, f i = g i) → ∀ i, row_change h f r i = row_change h g r i.
Proof. intros H i. unfold row_change. destruct (body_row _); [by case_decide|done]. Qed.

Lemma rows_after_ext rs : ∀ f g, (∀ i, f i = g i) → ∀ i, rows_after f rs i = rows_after g rs i.
Proof. induction rs as [|r rs IH]; intros f g H i; [done|]. apply IH. by apply row_change_ext. Qed.

Lemma admitted_ext rs : ∀ f g, (∀ i, f i = g i) → admitted f rs → admitted g rs.
Proof.
  induction rs as [|r rs IH]; intros f g H; [done|]. intros [Ha Hr]. split.
  - intros w Hw. destruct (Ha w Hw) as (? & ? & ?). by rewrite <- H.
  - eapply IH; [|exact Hr]. by apply row_change_ext.
Qed.

(** The table's files have the layout [h]. *)
Definition file_layout (fhs : gmap bytes (Z * RmFileHdr)) (fd : Z) : Prop :=
  ∀ tab fh, fhs !! tab = Some fh → fh.1 = fd → layout fh.2 = layout h.

(** The records that change a page, later than what it has. *)
Fixpoint later (m : Z) (rs : list LogRecord) : Prop :=
  match rs with [] => True | r :: rs => m < log_lsn r ∧ later (log_lsn r) rs end.

Lemma replay_rows fhs pid rs : ∀ b b' m,
  file_layout fhs pid.1 → Forall (λ r, i32_ok (log_lsn r) = true) rs →
  page_ok h b → page_lsn b = Some m → later m (filter (changes fhs pid) rs) →
  admitted (row h b) (filter (changes fhs pid) rs) → replay fhs pid b rs = Some b' →
  page_ok h b' ∧ ∀ i, row h b' i = rows_after (row h b) (filter (changes fhs pid) rs) i.
Proof.
  induction rs as [|r rs IH]; intros b b' m Hlay Hlsn Hok Hm Hlat Hadm H; [by injection H as <-|].
  apply Forall_cons in Hlsn as [Hr Hlsn]. unfold replay in H. simpl in H. apply bind_Some in H as (c & Hc & H).
  rewrite filter_cons in *. case_decide as Hch; apply Is_true_true in Hch || apply Is_true_false in Hch.
  2: { rewrite replay_rec_other in Hc by done. injection Hc as <-. by eapply IH. }
  destruct Hlat as [Hlt Hlat]. destruct Hadm as [Hadm Hadms].
  unfold replay_rec in Hc. rewrite Hch in Hc. unfold changes, page_of in Hch.
  destruct (body_row (log_body r)) as [w|] eqn:Hw; simpl in *; [|by rewrite andb_false_r in Hch].
  destruct (fhs !! table_name_ w) as [fh|] eqn:Hfh; simpl in *; [|by rewrite andb_false_r in Hch].
  apply andb_true_iff in Hch as [Hc1 Hpid]. apply bool_decide_eq_true in Hpid. injection Hpid as Hpid.
  unfold redo_page in Hc. rewrite Hm in Hc. simpl in Hc. destruct (Z.geb_spec m (log_lsn r)); [lia|].
  rewrite (Hlay _ _ Hfh) in Hc by by rewrite <- Hpid.
  change (redo_bytes (layout h) r w b) with (redo_bytes h r w b) in Hc.
  apply redo_bytes_lsn in Hc as Hcl; [|done].
  apply (redo_bytes_rows h Hh) in Hc as [Hokc Hrowc]; [|done..].
  destruct (IH c b' (log_lsn r)) as [? Hrow]; [done..| |done|].
  - eapply admitted_ext; [|exact Hadms]. intros i. by rewrite Hrowc.
  - split; [done|]. intros i. rewrite Hrow. by apply rows_after_ext.
Qed.
End history.

(** ** Restart: analysis, then redo *)

Section restart.
Context {R : Type} `{!Replacer R, !ReplacerLaws R}.

(** A database to restart: its record files are open, and the log holds [rs]. *)
Record restartable fhs (rs : list LogRecord) (n0 : Z) (d : Db R) : Prop := {
  ra_inv : db_inv d;
  ra_fhs : fhs_ d = fhs;
  ra_log : restart_log (log_bytes rs) d;
  ra_open : ∃ d1 : DiskManager, open_log (s_disk (db_storage d)) = (Ok tt, d1);
  ra_records : Forall (redoable fhs) rs;
  ra_seq : log_lsn <$> rs = seqZ n0 (len rs);
  ra_pages pid : is_Some (first_change fhs pid rs) → is_Some (view (db_storage d) pid);
}.

Definition analyze_redo (fuel : nat) (junk : Z) : M (Db R) (option unit) :=
  let! o := analyze fuel (RecoveryManager_new junk) in
  match o with None => ret None | Some r => do! redo r in ret (Some tt) end.

Lemma restartable_ready fhs rs n0 d : restartable fhs rs n0 d → log_ready (log_bytes rs) d.
Proof.
  intros [[Hi _] _ [Hl Hs _] Ho _ _ _]. split; [apply Hi|apply Hi|done|done|done].
Qed.

Lemma seqZ_NoDup_lsn rs n0 : log_lsn <$> rs = seqZ n0 (len rs) → NoDup (log_lsn <$> rs).
Proof. intros ->. apply NoDup_seqZ. Qed.

Lemma analyze_tables fhs rs n0 junk fuel (d : Db R) :
  restartable fhs rs n0 d → (length rs ≤ fuel)%nat →
  ∃ r d1, analyze fuel (RecoveryManager_new junk) d = (Ok (Some r), d1) ∧ (d1 = d ∨ log_read d d1) ∧
    tables_of fhs rs r ∧
    (∀ t, abort_is_last t rs = true →
       ATT r !! t = if aborted_before_checkpoint t rs then None else unfinished t rs).
Proof.
  intros Hd Hfuel. pose proof (restartable_ready _ _ _ _ Hd) as Hr.
  destruct (analyze_run fhs rs junk fuel d) as (r & d1 & Hrun & Hd1 & Hdpt & Hatt & Hoff & Hlast);
    [apply Hd|done| |done|].
  - eapply Forall_impl; [apply Hd|]. by intros x [? _].
  - exists r, d1. split_and!; [done|done| |done]. split; [done| |].
    + intros i x. apply Hoff. by eapply seqZ_NoDup_lsn, Hd.
    + intros x Hx. by rewrite Hlast, Hx.
Qed.

Lemma after_checkpoint_lsns fhs rs n0 (d : Db R) :
  restartable fhs rs n0 d → Forall (λ r, i32_ok (log_lsn r) = true) (after_checkpoint rs).
Proof.
  intros Hd. destruct (after_checkpoint_suffix rs) as [pre E]. pose proof (ra_records _ _ _ _ Hd) as Hin.
  rewrite E in Hin. apply Forall_app in Hin as [_ Hin]. eapply Forall_impl; [exact Hin|].
  intros x [[[[Hl _] _] _] _]. exact Hl.
Qed.

Lemma restart_run fhs rs n0 junk fuel (d d2 : Db R) :
  restartable fhs rs n0 d → (length rs ≤ fuel)%nat →
  analyze_redo fuel junk d = (Ok (Some tt), d2) →
  db_step (λ q b, replay fhs q b (after_checkpoint rs)) d d2.
Proof.
  intros Hd Hfuel H. destruct (analyze_tables fhs rs n0 junk fuel d Hd Hfuel) as (r & d1 & Hrun & Hd1 & Htab & _).
  unfold analyze_redo in H. rewrite (bind_run _ _ _ _ _ Hrun) in H.
  apply bind_Ok in H as ([] & d3 & H & [_ ->]%ret_Ok).
  assert (S1 : db_step (λ _ b, Some b) d d1).
  { destruct Hd1 as [->|Hrd]; [by apply db_step_refl, Hd|by apply log_read_step; [apply Hd|]]. }
  assert (Hthere : pages_there (DPT r) d).
  { intros pid Hpid. rewrite (to_dpt _ _ _ Htab) in Hpid. pose proof (ra_pages _ _ _ _ Hd pid Hpid) as Hv.
    destruct Hpid as [l Hl]. unfold first_change in Hl. destruct (head _) as [x|] eqn:Hh; [|done].
    apply head_filter_split in Hh as (l1 & l2 & E & Hx & _). destruct (after_checkpoint_suffix rs) as [p0 E0].
    pose proof (ra_records _ _ _ _ Hd) as Hin. rewrite E0, E in Hin.
    apply Forall_app in Hin as [_ Hin]. apply Forall_app in Hin as [_ Hin]. apply Forall_cons in Hin as [[_ Hp] _].
    unfold changes, page_of in Hx. apply andb_true_iff in Hx as [_ Hx]. apply bool_decide_eq_true in Hx.
    apply bind_Some in Hx as (w & Hw & Hx). apply bind_Some in Hx as ([fd h] & Hfh & [= <-]).
    split_and!; [by apply Hp| |done]. simpl. rewrite <- (ra_fhs _ _ _ _ Hd) in Hfh.
    by apply (di_file _ (ra_inv _ _ _ _ Hd)) in Hfh as [? _]. }
  apply (redo_run fhs rs n0 r) in H as S2; [| | |done|apply S1| | |].
  - eapply db_step_ext; [eapply db_step_trans; [exact S1|exact S2]|]. done.
  - apply Hd.
  - apply Hd.
  - eapply restart_log_step; [apply Hd|exact S1].
  - rewrite <- (ra_fhs _ _ _ _ Hd). apply (ds_files _ _ _ S1).
  - by eapply pages_there_step.
Qed.
End restart.

(** ** Undo *)

Section undo.
Context {R : Type} `{!Replacer R, !ReplacerLaws R}.
Implicit Types (s : Storage R) (d : Db R).
Abbreviation pool d := (db_storage d).
Abbreviation table s := (page_table_ (s_bpm s)).

(** The operations of undo, on a page there is: they edit that page. *)
Section undo_op.
Context (s : Storage R) (fd : Z) (rid : Rid) (h : RmFileHdr) (b : bytes).
Context (Hi : pool_inv s) (Hfd : data_fd s fd) (Hp : page_no rid ≠ RM_FILE_HDR_PAGE)
  (Hm : table s !! (fd, RM_FILE_HDR_PAGE) = None) (Hv : view s (fd, page_no rid) = Some b).
Abbreviation p := (page_no rid).

Lemma insert_undo_run t' :
  insert_undo fd rid (h, s) = (Ok tt, t') → ∃ b', page_redone s (fd, p) b' t'.2 ∧ layout t'.1 = layout h.
Proof.
  intros H. unfold insert_undo, delete_record in H.
  apply bind_Ok in H as (f & ? & (s1 & Hf & ->)%zoom_Ok & H). simpl in Hf, H.
  destruct (fetch_editing s fd p f s1 b) as [Hft He]; [done..|].
  assert (Hm1 : table s1 !! (fd, RM_FILE_HDR_PAGE) = None) by (apply (ft_keys _ _ _ _ Hft); [congruence|done]).
  get_hdr H. apply bind_Ok in H as ([] & ? & (s2 & Hst & ->)%zoom_Ok & H). simpl in Hst, H.
  apply (store_step _ _ _ _ _ _ _ He) in Hst as (d2 & Hg & He2).
  2: { intros d' Hd. apply bind_Some in Hd as (e1 & ?%bit_reset_length & ?%add_num_records_length). congruence. }
  apply bind_Ok in H as (n & ? & (s9 & Hld & ->)%zoom_Ok & H). simpl in Hld, H.
  apply (load_editing _ _ _ _ _ _ _ _ He2) in Hld as [Hn ->].
  apply bind_Ok in H as ([] & t3 & H3 & H).
  assert (Hu : ∃ d3 : bytes, layout t3.1 = layout h ∧ editing s1 (fd, p) f d3 t3.2).
  { destruct (n =? num_records_per_page h - 1).
    - apply (release_step _ _ _ _ _ _ _ _ He2) in H3 as (d3 & _ & Hl & ?); [eauto|done..].
    - apply ret_Ok in H3 as [_ ->]. eauto. }
  destruct Hu as (d3 & Hlay & He3). destruct t3 as [h3 s3]. simpl in *.
  sto_step H s8 Hno. apply (frame_page_no_editing _ _ _ _ _ _ _ He3) in Hno as [-> ->]. simpl in H.
  apply bind_Ok in H as ([] & ? & (s4 & [_ ->]%ret_Ok & ->)%zoom_Ok & H). simpl in H.
  apply zoom_Ok in H as (s6 & Hun & ->). simpl in Hun. exists d3. split; [|done].
  simpl. eapply (edited_redone s fd p f s1); [done..|]. by eapply unpin_editing.
Qed.

Lemma delete_undo_run buf t' :
  delete_undo fd rid buf (h, s) = (Ok tt, t') → ∃ b', page_redone s (fd, p) b' t'.2 ∧ layout t'.1 = layout h.
Proof.
  intros H. unfold delete_undo, insert_record_at in H.
  apply bind_Ok in H as (f & ? & (s1 & Hf & ->)%zoom_Ok & H). simpl in Hf, H.
  destruct (fetch_editing s fd p f s1 b) as [Hft He]; [done..|].
  get_hdr H. apply bind_Ok in H as ([] & ? & (s2 & Hst & ->)%zoom_Ok & H). simpl in Hst, H.
  apply (store_step _ _ _ _ _ _ _ He) in Hst as (d2 & Hg & He2).
  2: { intros d' Hd. apply bind_Some in Hd as (e1 & ?%bit_set_length & ?%copy_to_slot_length). congruence. }
  sto_step H s8 Hno. apply (frame_page_no_editing _ _ _ _ _ _ _ He2) in Hno as [-> ->]. simpl in H.
  apply zoom_Ok in H as (s6 & Hun & ->). simpl in Hun. exists d2. split; [|done].
  simpl. eapply (edited_redone s fd p f s1); [done..|]. by eapply unpin_editing.
Qed.

Lemma update_undo_run buf t' :
  update_undo fd rid buf (h, s) = (Ok tt, t') → ∃ b', page_redone s (fd, p) b' t'.2 ∧ layout t'.1 = layout h.
Proof.
  intros H. unfold update_undo in H.
  apply bind_Ok in H as (f & ? & (s1 & Hf & ->)%zoom_Ok & H). simpl in Hf, H.
  destruct (fetch_editing s fd p f s1 b) as [Hft He]; [done..|].
  get_hdr H. apply bind_Ok in H as ([] & ? & (s2 & Hst & ->)%zoom_Ok & H). simpl in Hst, H.
  apply (store_step _ _ _ _ _ _ _ He) in Hst as (d2 & Hg & He2); [|intros d'; apply copy_to_slot_length].
  apply zoom_Ok in H as (s6 & Hun & ->). simpl in Hun. exists d2. split; [|done].
  simpl. eapply (edited_redone s fd p f s1); [done..|]. by eapply unpin_editing.
Qed.
End undo_op.

Lemma undo_op_run s fd row h r b t' :
  pool_inv s → data_fd s fd → page_no (rid_ row) ≠ RM_FILE_HDR_PAGE →
  table s !! (fd, RM_FILE_HDR_PAGE) = None → view s (fd, page_no (rid_ row)) = Some b →
  undo_op r row fd (h, s) = (Ok tt, t') →
  ∃ b', page_redone s (fd, page_no (rid_ row)) b' t'.2 ∧ layout t'.1 = layout h.
Proof.
  intros Hi Hfd Hp Hm Hv H. unfold undo_op in H.
  destruct (log_body r) as [|?|old ?]; [..|by eapply update_undo_run];
    (destruct (log_type_ (log_hdr r)); first [by eapply insert_undo_run|by eapply delete_undo_run]).
Qed.

(** What undo keeps. *)
Record db_kept d d' : Prop := {
  dk_inv : db_inv d';
  dk_files : same_files (fhs_ d) (fhs_ d');
  dk_log : log_kept (pool d) (pool d');
  dk_fds : fds_kept (pool d) (pool d');
  dk_pages q : q.2 ≠ RM_FILE_HDR_PAGE → data_fd (pool d) q.1 →
    is_Some (view (pool d) q) → is_Some (view (pool d') q);
}.

Lemma db_step_kept f d d' : db_step f d d' → db_kept d d'.
Proof.
  intros [? ? ? ? _ Hv]. split; try done. intros q Hq Hfd [b Hb].
  destruct (Hv q b Hq Hfd Hb) as (b' & _ & ?). eauto.
Qed.

Lemma db_kept_trans d1 d2 d3 : db_kept d1 d2 → db_kept d2 d3 → db_kept d1 d3.
Proof.
  intros [I1 F1 L1 D1 V1] [I2 F2 L2 D2 V2]. split; [done|by etrans|by etrans| |].
  - intros q Hq. by apply D2, D1.
  - intros q Hq Hfd Hv. apply V2; [done|by apply D1|by apply V1].
Qed.

Lemma on_file_kept tab op d d' p :
  db_inv d → p ≠ RM_FILE_HDR_PAGE → on_file tab op d = (Ok tt, d') →
  (∀ fd h, fhs_ d !! tab = Some (fd, h) → ∀ t', op fd (h, pool d) = (Ok tt, t') →
    ∃ b', page_redone (pool d) (fd, p) b' t'.2 ∧ layout t'.1 = layout h) →
  db_kept d d'.
Proof.
  intros Hd Hp H Hop. unfold on_file in H. destruct (fhs_ d !! tab) as [[fd h]|] eqn:Hfh; [|done].
  destruct (op fd (h, pool d)) as [o [h2 s2]] eqn:Hrun. injection H as -> <-.
  destruct (Hop fd h eq_refl (h2, s2) Hrun) as (b' & Hpr & Hlay). simpl in Hpr, Hlay.
  assert (Hsame : same_files (fhs_ d) (<[tab:=(fd, h2)]> (fhs_ d))).
  { intros t. destruct (decide (t = tab)) as [->|Hne].
    - rewrite lookup_insert_eq, Hfh. simpl. by rewrite Hlay.
    - by rewrite lookup_insert_ne. }
  split; simpl; [|done|apply Hpr|apply Hpr|].
  - split; [apply Hpr|]. simpl. intros t fd' h' Ht.
    assert (Ht2 : ∃ h0, fhs_ d !! t = Some (fd', h0)).
    { specialize (Hsame t). rewrite Ht in Hsame. simpl in Hsame.
      destruct (fhs_ d !! t) as [[fd0 h0]|]; [|done]. simpl in Hsame.
      apply (inj Some), (inj2 pair) in Hsame as [-> _]. eauto. }
    destruct Ht2 as [h0 Ht2]. apply (di_file _ Hd) in Ht2 as [? ?].
    split; [by apply (pr_fds _ _ _ _ Hpr)|]. apply (pr_keys _ _ _ _ Hpr); [congruence|done].
  - intros q Hq Hfd [b Hb]. destruct (decide (q = (fd, p))) as [->|Hne].
    + rewrite (pr_view _ _ _ _ Hpr). eauto.
    + exists b. apply (pr_other _ _ _ _ Hpr); [done| |done|done]. intros ->. done.
Qed.

(** *** The loop ends *)

(** A record that undo can go back over: its predecessor is earlier, and there. *)
Definition chained (rs : list LogRecord) (x : LogRecord) : Prop :=
  is_change x = true → prev_lsn_ (log_hdr x) < log_lsn x ∧
    (prev_lsn_ (log_hdr x) = -1 ∨ ∃ j y, rs !! j = Some y ∧ log_lsn y = prev_lsn_ (log_hdr x) ∧
       is_change y || is_type begin_ y = true).

(** An entry of the queue: -1 or the lsn of a begin record or of a change. *)
Definition queued (rs : list LogRecord) (l : Z) : Prop :=
  l = -1 ∨ ∃ i x, rs !! i = Some x ∧ log_lsn x = l ∧ is_change x || is_type begin_ x = true.

Lemma unfinished_queued rs t l : unfinished t rs = Some l → queued rs l.
Proof.
  unfold unfinished. intros H. apply bind_Some in H as (x & Hx & H). right.
  apply last_Some_elem_of, list_elem_of_filter in Hx as [Hm Hx]. apply list_elem_of_lookup in Hx as [i Hi].
  destruct (is_type commit_ x) eqn:Hc; [done|]. injection H as <-. exists i, x. split_and!; [done..|].
  apply Is_true_true in Hm. unfold moves in Hm. apply andb_true_iff in Hm as [_ Hm]. rewrite Hc in Hm.
  by rewrite orb_false_r in Hm.
Qed.

Definition weight (q : list Z) : Z := foldr (λ l n, (l + 2) + n) 0 q.

Lemma weight_push l q : weight (push l q) = (l + 2) + weight q.
Proof. induction q as [|a q IH]; simpl; [done|]. destruct (l >=? a); simpl; [done|]. rewrite IH. lia. Qed.

Lemma push_queued rs l q : queued rs l → Forall (queued rs) q → Forall (queued rs) (push l q).
Proof.
  intros Hl. induction q as [|a q IH]; intros Hq; simpl; [by constructor|].
  apply Forall_cons in Hq as [Ha Hq]. destruct (l >=? a); [by apply Forall_cons_2; [|apply Forall_cons_2]|].
  constructor; [done|by apply IH].
Qed.

Lemma weight_nonneg rs n0 q : 0 ≤ n0 → log_lsn <$> rs = seqZ n0 (len rs) → Forall (queued rs) q → 0 ≤ weight q.
Proof.
  intros Hn Hseq. induction 1 as [|l q [->|(i & x & Hi & <- & _)] Hq IH]; simpl; [lia..|].
  rewrite (lsn_at rs n0 Hseq i x Hi). lia.
Qed.

Section undo_loop.
Context (fhs : gmap bytes (Z * RmFileHdr)) (rs : list LogRecord) (n0 : Z) (r : RecoveryManager).
Context (Hn0 : 0 ≤ n0) (Hseq : log_lsn <$> rs = seqZ n0 (len rs)) (Hin : Forall (redoable fhs) rs)
  (Hchain : Forall (chained rs) rs)
  (Hoff : ∀ i x, rs !! i = Some x → log_offsets_ r !! log_lsn x = Some (len (log_bytes (take i rs)))).

(** The state undo works on. *)
Record undoing d : Prop := {
  un_inv : db_inv d;
  un_log : restart_log (log_bytes rs) d;
  un_files : same_files fhs (fhs_ d);
  un_pages x pid : x ∈ rs → is_change x = true → page_of fhs x = Some pid → is_Some (view (pool d) pid);
}.

Lemma page_of_files fd x pid : page_of fhs x = Some (fd, pid) → ∃ w h,
  body_row (log_body x) = Some w ∧ fhs !! table_name_ w = Some (fd, h) ∧ pid = page_no (rid_ w).
Proof.
  unfold page_of. intros Hx. apply bind_Some in Hx as (w & Hw & Hx).
  apply bind_Some in Hx as ([fd' h] & Hfh & [= <- <-]). eauto.
Qed.

Lemma same_files_lookup fhs' tab fd h : same_files fhs fhs' → fhs' !! tab = Some (fd, h) →
  ∃ h0, fhs !! tab = Some (fd, h0).
Proof.
  intros Hs Ht. specialize (Hs tab). rewrite Ht in Hs. simpl in Hs.
  destruct (fhs !! tab) as [[fd0 h0]|]; [|done]. simpl in Hs. apply (inj Some), (inj2 pair) in Hs as [-> _]. eauto.
Qed.

Lemma undoing_kept d d' : undoing d → db_kept d d' → undoing d'.
Proof using Hin.
  intros [Hd Hlog Hf Hpg] Hk. split; [apply Hk| |etrans; [exact Hf|apply Hk]|].
  - destruct Hlog as [Hl Hs Hq]. destruct (dk_log _ _ Hk Hq) as [? E]. split; [by rewrite E|done|done].
  - intros x [fd p] Hx Hc Hp. pose proof (page_of_files _ _ _ Hp) as (w & h & Hw & Hfh & ->).
    apply (dk_pages _ _ Hk); [| |by eapply Hpg].
    + simpl. rewrite Forall_forall in Hin. destruct (Hin x Hx) as [_ Hne]. by apply Hne.
    + simpl. pose proof (Hf (table_name_ w)) as Hs. rewrite Hfh in Hs. simpl in Hs.
      destruct (fhs_ d !! table_name_ w) as [[fd' h']|] eqn:Hd2; [|done]. simpl in Hs.
      apply (inj Some), (inj2 pair) in Hs as [-> _]. by apply (di_file _ Hd) in Hd2 as [? _].
Qed.

(** One record that undo rolls back. *)
Lemma undo_record_kept x row d d' :
  undoing d → x ∈ rs → is_change x = true → body_row (log_body x) = Some row →
  on_file (table_name_ row) (undo_op x row) d = (Ok tt, d') → undoing d'.
Proof using Hin.
  intros Hu Hx Hc Hrow H. eapply undoing_kept; [exact Hu|].
  pose proof Hin as Hin2. rewrite Forall_forall in Hin2. destruct (Hin2 x Hx) as [_ Hne].
  eapply (on_file_kept _ _ _ _ (page_no (rid_ row))); [apply Hu|by apply Hne|exact H|].
  intros fd h Hfh t' Hrun. destruct (same_files_lookup _ _ _ _ (un_files _ Hu) Hfh) as [h0 Hfh0].
  destruct (di_file _ (un_inv _ Hu) _ _ _ Hfh) as [Hfd Hm].
  destruct (un_pages _ Hu x (fd, page_no (rid_ row)) Hx Hc) as [b Hb].
  { unfold page_of. rewrite Hrow. simpl. by rewrite Hfh0. }
  eapply undo_op_run; [apply Hu|done|by apply Hne|done|exact Hb|exact Hrun].
Qed.

Lemma undo_loop_ends fuel : ∀ q d header d',
  undoing d → len header = LOG_HEADER_SIZE → Forall (queued rs) q → weight q ≤ Z.of_nat fuel →
  undo_loop fuel r q header d ≠ (Ok None, d').
Proof using Hn0 Hseq Hin Hchain Hoff.
  induction fuel as [|fuel IH]; intros q d header d' Hu Hh Hq Hw H.
  - destruct q as [|l q]; [by apply ret_Ok in H as [? _]|]. simpl in H.
    apply Forall_cons in Hq as [Hl Hq]. destruct (Z.eqb_spec l (-1)); [by apply ret_Ok in H as [? _]|].
    pose proof (weight_nonneg rs n0 q Hn0 Hseq Hq). simpl in Hw.
    destruct Hl as [?|(i & x & Hi & <- & _)]; [done|]. rewrite (lsn_at rs n0 Hseq i x Hi) in Hw. lia.
  - destruct q as [|l q]; [by apply ret_Ok in H as [? _]|]. simpl in H.
    apply Forall_cons in Hq as [Hl Hq]. destruct (Z.eqb_spec l (-1)) as [|Hl1]; [by apply ret_Ok in H as [? _]|].
    destruct Hl as [?|(i & x & Hi & <- & Hty)]; [done|]. pose proof (lsn_at rs n0 Hseq i x Hi) as Hlx.
    pose proof (list_elem_of_lookup_2 _ _ _ Hi) as Hx. pose proof Hin as Hin2. rewrite Forall_forall in Hin2.
    destruct (Hin2 x Hx) as [Hinx _]. unfold offset_of in H. rewrite (Hoff _ _ Hi) in H. simpl in H.
    assert (E : rs = take i rs ++ x :: drop (S i) rs) by (symmetry; by apply take_drop_middle).
    apply bind_Ok in H as (header' & d1 & Hrd & H).
    assert (Hlog : restart_log (log_bytes (take i rs ++ x :: drop (S i) rs)) d) by (rewrite <- E; apply Hu).
    apply (read_header_Ok fhs _ x (drop (S i) rs)) in Hrd as [-> S1]; [|apply Hu|done..].
    pose proof (undoing_kept _ _ Hu (db_step_kept _ _ _ S1)) as Hu1.
    destruct (header_fields x fhs Hinx) as (Htot & Hwrap & _ & _ & Hlty). rewrite Hlty, Htot in H.
    destruct (is_change x) eqn:Hc; rewrite is_change_type in Hc.
    + assert (Hx' : (let! tot := of_option (Some (len (serialize x))) in
        let! log_data := read_record (wrap32 tot) (len (log_bytes (take i rs))) in
        let! rec := of_option (deserialize log_data) in
        let! row := of_option (body_row (log_body rec)) in
        do! fhs_at (table_name_ row) in
        do! on_file (table_name_ row) (undo_op rec row) in
        undo_loop fuel r (push (prev_lsn_ (log_hdr rec)) q) (serialize_header (log_hdr x))) d1 = (Ok None, d'))
        by by destruct (log_type_ (log_hdr x)).
      apply bind_Ok in Hx' as (tot & ? & [[= <-] ->]%of_option_Ok & Hx'). rewrite Hwrap in Hx'.
      apply bind_Ok in Hx' as (data & d2 & Hrd & Hx').
      apply (read_record_Ok fhs _ x (drop (S i) rs)) in Hrd as [-> S2]; [|apply Hu1|rewrite <- E; apply Hu1|done].
      pose proof (undoing_kept _ _ Hu1 (db_step_kept _ _ _ S2)) as Hu2.
      rewrite (deserialize_in_log fhs x Hinx) in Hx'.
      apply bind_Ok in Hx' as (rec & ? & [[= <-] ->]%of_option_Ok & Hx').
      apply bind_Ok in Hx' as (row & ? & [Hrow ->]%of_option_Ok & Hx').
      apply bind_Ok in Hx' as (fh & d3 & Hat & Hx').
      assert (d3 = d2) as ->.
      { unfold fhs_at in Hat. apply bind_Ok in Hat as (o & ? & [-> ->]%gets_Ok & Hat).
        destruct (fhs_ d2 !! table_name_ row); [by apply ret_Ok in Hat as [_ ->]|done]. }
      apply bind_Ok in Hx' as ([] & d4 & Hop & Hx').
      assert (Hcx : is_change x = true) by by rewrite is_change_type.
      apply (undo_record_kept x row) in Hop as Hu4; [|done..].
      rewrite Forall_forall in Hchain. destruct (Hchain x Hx Hcx) as [Hprev Hpl].
      revert Hx'. apply IH; [done|by rewrite serialize_header_length| |].
      * apply push_queued; [|done]. destruct Hpl as [?|(j & y & Hy & <- & Hyt)]; [by left|right; eauto].
      * rewrite weight_push. simpl in Hw. lia.
    + assert (Hb : log_type_ (log_hdr x) = begin_).
      { unfold is_type in Hty. by destruct (log_type_ (log_hdr x)). }
      rewrite Hb in H. revert H. apply IH; [done|by rewrite serialize_header_length|done|].
      simpl in Hw. lia.
Qed.
End undo_loop.
End undo.

(** ** Properties *)

Section properties.
Context {R : Type} `{!Replacer R, !ReplacerLaws R}.

(** C9: a restart whose analysis and redo return has replayed, on every page of every
    table, exactly the records behind the last checkpoint that change the page, in the
    order of the log, each of them only if the page's lsn says that it lacks the change;
    all other pages and all pins are as before. *)
Theorem restart_replays_the_log fhs rs n0 junk fuel (d d2 : Db R) pid b :
  restartable fhs rs n0 d → (length rs ≤ fuel)%nat →
  analyze_redo fuel junk d = (Ok (Some tt), d2) →
  pid.2 ≠ RM_FILE_HDR_PAGE → data_fd (db_storage d) pid.1 → view (db_storage d) pid = Some b →
  db_inv d2 ∧ pins (db_storage d2) pid = pins (db_storage d) pid ∧
  ∃ b', replay fhs pid b (after_checkpoint rs) = Some b' ∧ view (db_storage d2) pid = Some b'.
Proof.
  intros Hd Hfuel H Hp Hfd Hv. pose proof (restart_run _ _ _ _ _ _ _ Hd Hfuel H) as Hs.
  split_and!; [apply Hs|apply Hs|by apply (ds_view _ _ _ Hs)].
Qed.

(** C17: redo can be repeated.  If the system crashes while it restarts, so that some pages
    are as the first [k] records left them (with a [k] for each page), then the next
    restart makes of every such page what an undisturbed restart makes of it. *)
Theorem restart_can_be_repeated fhs rs n0 junk fuel (d d2 a a2 : Db R) pid b c k :
  restartable fhs rs n0 d → restartable fhs rs n0 a → (length rs ≤ fuel)%nat →
  analyze_redo fuel junk d = (Ok (Some tt), d2) → analyze_redo fuel junk a = (Ok (Some tt), a2) →
  pid.2 ≠ RM_FILE_HDR_PAGE → data_fd (db_storage d) pid.1 → data_fd (db_storage a) pid.1 →
  view (db_storage d) pid = Some b → is_Some (page_lsn b) →
  replay fhs pid b (take k (after_checkpoint rs)) = Some c → view (db_storage a) pid = Some c →
  view (db_storage a2) pid = view (db_storage d2) pid.
Proof.
  intros Hd Ha Hfuel Hrd Hra Hp Hfd Hfa Hb Hl Hc Hv.
  pose proof (restart_run _ _ _ _ _ _ _ Hd Hfuel Hrd) as Hsd.
  pose proof (restart_run _ _ _ _ _ _ _ Ha Hfuel Hra) as Hsa.
  destruct (ds_view _ _ _ Hsd pid b Hp Hfd Hb) as (b' & Hb' & ->).
  destruct (ds_view _ _ _ Hsa pid c Hp Hfa Hv) as (c' & Hc' & ->).
  rewrite (replay_again fhs pid _ k b c) in Hc'; [congruence| |done|done].
  by eapply after_checkpoint_lsns.
Qed.

(** C2: redo rebuilds the rows.  Of the records behind the checkpoint, a page's lsn [m]
    says that it has those of [l1]; those of [l2] that change it are later, and each
    describes a change the rows at that point admit.  Then the restarted page is well
    formed and its rows are the old ones with the inserts, deletes and updates of [l2]
    applied in order. *)
Theorem restart_rebuilds_the_rows h fhs rs n0 junk fuel (d d2 : Db R) pid b m l1 l2 :
  restartable fhs rs n0 d → (length rs ≤ fuel)%nat →
  analyze_redo fuel junk d = (Ok (Some tt), d2) →
  hdr_ok h → file_layout h fhs pid.1 → pid.2 ≠ RM_FILE_HDR_PAGE → data_fd (db_storage d) pid.1 →
  view (db_storage d) pid = Some b → page_ok h b → page_lsn b = Some m →
  after_checkpoint rs = l1 ++ l2 →
  (∀ r, r ∈ l1 → changes fhs pid r = true → log_lsn r ≤ m) →
  later m (filter (changes fhs pid) l2) → admitted h (row h b) (filter (changes fhs pid) l2) →
  ∃ b', view (db_storage d2) pid = Some b' ∧ page_ok h b' ∧
    ∀ i, row h b' i = rows_after h (row h b) (filter (changes fhs pid) l2) i.
Proof.
  intros Hd Hfuel H Hh Hlay Hp Hfd Hb Hok Hm E Hl1 Hlat Hadm.
  pose proof (restart_run _ _ _ _ _ _ _ Hd Hfuel H) as Hs.
  destruct (ds_view _ _ _ Hs pid b Hp Hfd Hb) as (b' & Hb' & Hv'). exists b'. split; [done|].
  rewrite E in Hb'. unfold replay in Hb'. rewrite each_app in Hb'.
  change (each (replay_rec fhs pid) b l1) with (replay fhs pid b l1) in Hb'.
  rewrite (replay_done fhs pid l1 b m) in Hb' by done.
  eapply (replay_rows h Hh fhs pid l2 b b' m); try done.
  pose proof (after_checkpoint_lsns _ _ _ _ Hd) as Hl. rewrite E in Hl. by apply Forall_app in Hl as [_ ?].
Qed.

(** C18: undo ends.  With the tables of the analysis and a log in which every change
    points back to an earlier begin record or change, or to none, the loop pops its queue
    empty or meets its early return within a number of rounds bounded by the lsns in the
    table of unfinished transactions; it never spins on a commit or abort record. *)
Theorem undo_terminates fhs rs n0 (r : RecoveryManager) (d : Db R) rebuild_indexes fuel o d' :
  0 ≤ n0 → log_lsn <$> rs = seqZ n0 (len rs) → Forall (redoable fhs) rs → Forall (chained rs) rs →
  tables_of fhs rs r →
  (∀ t, ATT r !! t = if aborted_before_checkpoint t rs then None else unfinished t rs) →
  undoing fhs rs d →
  weight ((map_to_list (ATT r)).*2) ≤ Z.of_nat fuel →
  undo fuel rebuild_indexes r d = (o, d') → o ≠ Ok None.
Proof.
  intros Hn Hseq Hin Hch Htab Hatt Hu Hw H ->. unfold undo in H.
  set (q := foldr push [] _) in H.
  assert (Hq : weight q = weight ((map_to_list (ATT r)).*2)).
  { unfold q. clear. induction ((map_to_list (ATT r)).*2) as [|l ls IH]; [done|]. cbn [foldr]. rewrite weight_push, IH. done. }
  apply bind_Ok in H as (o & d1 & Hl & H).
  destruct o as [[]|].
  - by apply ret_Ok in H as [? _].
  - by apply bind_Ok in H as (? & ? & _ & [? _]%ret_Ok).
  - revert Hl. apply (undo_loop_ends fhs rs n0 r Hn Hseq Hin Hch (to_offset _ _ _ Htab)); [done| | |lia].
    + by rewrite length_replicate.
    + assert (Hall : Forall (queued rs) ((map_to_list (ATT r)).*2)).
      { apply Forall_fmap, Forall_forall. intros [t l] Htl%elem_of_map_to_list.
      rewrite Hatt in Htl. destruct (aborted_before_checkpoint t rs); [done|]. by eapply unfinished_queued. }
      unfold q. clear -Hall. induction Hall as [|l ls Hl Hls IH]; [constructor|]. cbn [foldr]. by apply push_queued.
Qed.
End properties.

#[local] Existing Instance LRU.lru_replacer.
#[local] Existing Instance LRU.lru_laws.

Lemma demo_redoable : Forall (redoable demo_fhs) demo_records.
Proof.
  pose proof demo_in_log as Hin. apply Forall_forall. intros x Hx. split; [by eapply Forall_forall|].
  assert (Hp : Forall (λ r, match body_row (log_body r) with
    Some w => page_no (rid_ w) = 1 | None => True end) demo_records) by (repeat constructor).
  intros w Hw. eapply Forall_forall in Hp; [|exact Hx]. simpl in Hp. rewrite Hw in Hp. rewrite Hp. discriminate.
Qed.

(** The only page of the table's records. *)
Lemma demo_page x pid : x ∈ demo_records → page_of demo_fhs x = Some pid → pid = (3, 1).
Proof.
  intros Hx Hp. assert (H : Forall (λ r, page_of demo_fhs r = None ∨ page_of demo_fhs r = Some (3, 1)) demo_records).
  { repeat (apply Forall_cons_2; [vm_compute; auto|]). constructor. }
  eapply Forall_forall in H; [|exact Hx]. destruct H; congruence.
Qed.

(** The database on some disk, whose log holds a first part of these records. *)
Section demo_at.
Context (n : nat) (disk : DiskManager) (b : bytes).
Abbreviation rs := (take n demo_records).
Context (Hd : dm_inv disk) (Hl : log_fd_ok disk) (Ho : ∃ d1 : DiskManager, open_log disk = (Ok tt, d1))
  (Hf : log_file disk = Some (log_bytes rs)) (Hs : len (log_bytes rs) ≤ INT_MAX)
  (Hseq : log_lsn <$> rs = seqZ 0 (len rs)) (Hp : fd_path disk 3 = Some "t"%string)
  (Hv : page_at disk 3 1 = Some b).

Lemma demo_crash_data_fd : data_fd (db_storage (demo_db disk)) 3.
Proof using Hp. exists "t"%string. split; [exact Hp|discriminate]. Qed.

Lemma demo_view : view (db_storage (demo_db disk)) (3, 1) = Some b.
Proof using Hv. unfold view. simpl. rewrite lookup_empty. exact Hv. Qed.

Lemma demo_db_inv : db_inv (demo_db disk).
Proof using Hd Hl Hp.
  split.
  - exact (BufferPoolManager_new_inv disk None 4 0 (LRU.LRUReplacer_new 4) Hd Hl (LRU.lru_new_inv 4) eq_refl).
  - intros tab fd h Ht. change (fhs_ (demo_db disk)) with demo_fhs in Ht. unfold demo_fhs in Ht.
    apply lookup_singleton_Some in Ht as [_ [= <- _]]. split; [apply demo_crash_data_fd|apply lookup_empty].
Qed.

Lemma demo_restart_log : restart_log (log_bytes rs) (demo_db disk).
Proof using Hf Hs. split; [exact Hf|exact Hs|by intros ?]. Qed.

Lemma demo_in x : x ∈ rs → x ∈ demo_records.
Proof. intros Hx. rewrite <- (take_drop n demo_records). apply elem_of_app. by left. Qed.

Lemma demo_restartable : restartable demo_fhs rs 0 (demo_db disk).
Proof using Hd Hl Ho Hf Hs Hseq Hp Hv.
  split; [apply demo_db_inv|reflexivity|apply demo_restart_log|exact Ho|apply Forall_take, demo_redoable
    |exact Hseq|].
  intros pid [l Hl']. unfold first_change in Hl'. destruct (head _) as [x|] eqn:Hh; [|done].
  apply head_filter_split in Hh as (l1 & l2 & E & Hx & _). unfold changes in Hx.
  apply andb_true_iff in Hx as [_ Hx]. apply bool_decide_eq_true, demo_page in Hx as ->.
  - rewrite demo_view. eauto.
  - apply demo_in. destruct (after_checkpoint_suffix rs) as [pre ->]. rewrite E. set_solver.
Qed.

Lemma demo_undoing : undoing demo_fhs rs (demo_db disk).
Proof using Hd Hl Hf Hs Hp Hv.
  split; [apply demo_db_inv|apply demo_restart_log|reflexivity|].
  intros x pid Hx%demo_in _ Hpg. rewrite (demo_page x pid Hx Hpg), demo_view. eauto.
Qed.
End demo_at.

(** At the crash the page is as it was allocated. *)
Definition demo_zero_page : bytes := replicate (Z.to_nat PAGE_SIZE) 0.
Lemma demo_crash_path : fd_path demo_crash_disk 3 = Some "t"%string.
Proof. vm_compute. reflexivity. Qed.
Lemma demo_crash_page : page_at demo_crash_disk 3 1 = Some demo_zero_page.
Proof. vm_compute. reflexivity. Qed.
Lemma demo_crash_restartable : restartable demo_fhs demo_records 0 demo_crashed.
Proof.
  apply (demo_restartable 9 demo_crash_disk demo_zero_page demo_disk_inv demo_log_fd demo_log_opens demo_log_file
    demo_log_size); [vm_compute; reflexivity|exact demo_crash_path|exact demo_crash_page].
Qed.

(** Or the system crashed again, with the first insertion redone and flushed. *)
Definition demo_half_page : bytes :=
  default [] (replay demo_fhs (3, 1) demo_zero_page (take 2 (after_checkpoint demo_records))).
Definition demo_half_disk : DiskManager := dm_exec (OpWritePage 3 1 demo_half_page) demo_crash_disk.
Lemma demo_half_path : fd_path demo_half_disk 3 = Some "t"%string.
Proof. vm_compute. reflexivity. Qed.
Lemma demo_half_at : page_at demo_half_disk 3 1 = Some demo_half_page.
Proof. vm_compute. reflexivity. Qed.
Lemma demo_half_restartable : restartable demo_fhs demo_records 0 (demo_db demo_half_disk).
Proof.
  apply (demo_restartable 9 demo_half_disk demo_half_page).
  - apply dm_exec_inv, demo_disk_inv.
  - right. vm_compute. reflexivity.
  - eexists. apply run_outcome; [reflexivity|vm_compute; reflexivity].
  - vm_compute. reflexivity.
  - exact demo_log_size.
  - vm_compute. reflexivity.
  - exact demo_half_path.
  - exact demo_half_at.
Qed.

Lemma demo_chained : Forall (chained demo_records) demo_records.
Proof.
  repeat (apply Forall_cons_2; [intros Hc|]); [..|constructor];
    try (vm_compute in Hc; discriminate); (split; [vm_compute; reflexivity|right]).
  - exists 0%nat. eexists. split_and!; reflexivity.
  - exists 3%nat. eexists. split_and!; reflexivity.
  - exists 6%nat. eexists. split_and!; reflexivity.
Qed.

Definition demo_redone : Db LRU.LRUReplacer := (analyze_redo 10 0 demo_crashed).2.
Lemma demo_redone_run : analyze_redo 10 0 demo_crashed = (Ok (Some tt), demo_redone).
Proof. apply run_outcome; [reflexivity|vm_compute; reflexivity]. Qed.

Lemma restart_replays_the_log_witness :
  ∃ b', replay demo_fhs (3, 1) demo_zero_page (after_checkpoint demo_records) = Some b' ∧
    view (db_storage demo_redone) (3, 1) = Some b'.
Proof.
  apply (restart_replays_the_log demo_fhs demo_records 0 0 10 demo_crashed demo_redone (3, 1) demo_zero_page).
  - exact demo_crash_restartable.
  - vm_compute. lia.
  - exact demo_redone_run.
  - discriminate.
  - exact (demo_crash_data_fd _ demo_crash_path).
  - exact (demo_view _ _ demo_crash_page).
Defined.

Definition demo_redone2 : Db LRU.LRUReplacer := (analyze_redo 10 0 (demo_db demo_half_disk)).2.
Lemma demo_redone2_run : analyze_redo 10 0 (demo_db demo_half_disk) = (Ok (Some tt), demo_redone2).
Proof. apply run_outcome; [reflexivity|vm_compute; reflexivity]. Qed.

Lemma restart_can_be_repeated_witness :
  view (db_storage demo_redone2) (3, 1) = view (db_storage demo_redone) (3, 1).
Proof.
  apply (restart_can_be_repeated demo_fhs demo_records 0 0 10 demo_crashed demo_redone
    (demo_db demo_half_disk) demo_redone2 (3, 1) demo_zero_page demo_half_page 2).
  - exact demo_crash_restartable.
  - exact demo_half_restartable.
  - vm_compute. lia.
  - exact demo_redone_run.
  - exact demo_redone2_run.
  - discriminate.
  - exact (demo_crash_data_fd _ demo_crash_path).
  - exact (demo_crash_data_fd _ demo_half_path).
  - exact (demo_view _ _ demo_crash_page).
  - exists 0. vm_compute. reflexivity.
  - vm_compute. reflexivity.
  - exact (demo_view _ _ demo_half_at).
Defined.

(** A crash after the second insertion: transaction 2 is still running. *)
Definition demo_early_disk : DiskManager :=
  dm_exec (OpWriteLog (log_bytes (take 5 demo_records))) (s_disk demo_inserted.2).
Lemma demo_early_path : fd_path demo_early_disk 3 = Some "t"%string.
Proof. vm_compute. reflexivity. Qed.
Lemma demo_early_page : page_at demo_early_disk 3 1 = Some demo_zero_page.
Proof. vm_compute. reflexivity. Qed.
Lemma demo_early_inv : dm_inv demo_early_disk.
Proof. apply dm_exec_inv, demo_inserted_inv. Qed.
Lemma demo_early_fd : log_fd_ok demo_early_disk.
Proof. right. vm_compute. reflexivity. Qed.
Lemma demo_early_file : log_file demo_early_disk = Some (log_bytes (take 5 demo_records)).
Proof. vm_compute. reflexivity. Qed.
Lemma demo_early_size : len (log_bytes (take 5 demo_records)) ≤ INT_MAX.
Proof. vm_compute. congruence. Qed.
Lemma demo_early_restartable : restartable demo_fhs (take 5 demo_records) 0 (demo_db demo_early_disk).
Proof.
  apply (demo_restartable 5 demo_early_disk demo_zero_page demo_early_inv demo_early_fd).
  - eexists. apply run_outcome; [reflexivity|vm_compute; reflexivity].
  - exact demo_early_file.
  - exact demo_early_size.
  - vm_compute. reflexivity.
  - exact demo_early_path.
  - exact demo_early_page.
Qed.
Definition demo_early_redone : Db LRU.LRUReplacer := (analyze_redo 10 0 (demo_db demo_early_disk)).2.
Lemma demo_early_run : analyze_redo 10 0 (demo_db demo_early_disk) = (Ok (Some tt), demo_early_redone).
Proof. apply run_outcome; [reflexivity|vm_compute; reflexivity]. Qed.

Lemma restart_rebuilds_the_rows_witness :
  ∃ b', view (db_storage demo_early_redone) (3, 1) = Some b' ∧
    row demo_hdr2 b' 0 = Some (replicate 100 7) ∧ row demo_hdr2 b' 1 = Some (replicate 100 8).
Proof.
  destruct (restart_rebuilds_the_rows demo_hdr2 demo_fhs (take 5 demo_records) 0 0 10 (demo_db demo_early_disk)
    demo_early_redone (3, 1) demo_zero_page 0 [] (take 5 demo_records)) as (b' & Hb' & _ & Hrows).
  - exact demo_early_restartable.
  - vm_compute. lia.
  - exact demo_early_run.
  - split; [split; discriminate|reflexivity|reflexivity].
  - intros tab fh Ht _. unfold demo_fhs in Ht. apply lookup_singleton_Some in Ht as [_ <-]. reflexivity.
  - discriminate.
  - exact (demo_crash_data_fd _ demo_early_path).
  - exact (demo_view _ _ demo_early_page).
  - split; vm_compute; reflexivity.
  - vm_compute. reflexivity.
  - vm_compute. reflexivity.
  - intros r []%elem_of_nil.
  - vm_compute. split_and!; reflexivity.
  - split; [|split; [|exact I]]; intros w [= <-]; split_and!; try (vm_compute; congruence); vm_compute; eauto.
  - exists b'. split; [exact Hb'|]. rewrite !Hrows. split; vm_compute; reflexivity.
Defined.

(** The tables of the analysis of the first crash. *)
Definition demo_tables : RecoveryManager :=
  match (analyze 10 (RecoveryManager_new 0) demo_crashed).1 with
  | Ok (Some r) => r
  | _ => RecoveryManager_new 0
  end.

Lemma demo_abort_is_last t : abort_is_last t demo_records = true.
Proof.
  destruct (Z.eqb_spec 2 t) as [<-|Hne]; [vm_compute; reflexivity|].
  assert (H : Forall (λ r, is_abort_of t r = false) demo_records).
  { repeat (apply Forall_cons_2; [try reflexivity|]); [|constructor].
    change ((2 =? t) = false). by apply Z.eqb_neq. }
  induction H as [|x rs Hx _ IH]; [done|]. simpl. by rewrite Hx.
Qed.

Lemma demo_tables_spec :
  tables_of demo_fhs demo_records demo_tables ∧
  ∀ t, ATT demo_tables !! t
       = if aborted_before_checkpoint t demo_records then None else unfinished t demo_records.
Proof.
  destruct (analyze_tables demo_fhs demo_records 0 0 10 demo_crashed demo_crash_restartable)
    as (r & d1 & Hrun & _ & Htab & Hatt); [vm_compute; lia|].
  assert (demo_tables = r) as -> by (unfold demo_tables; by rewrite Hrun).
  split; [done|]. intros t. apply Hatt, demo_abort_is_last.
Qed.

Lemma undo_terminates_witness :
  (undo 6 (ret tt) demo_tables demo_crashed).1 ≠ Ok None.
Proof.
  destruct demo_tables_spec as [Htab Hatt].
  destruct (undo 6 (ret tt) demo_tables demo_crashed) as [o d'] eqn:E.
  apply (undo_terminates demo_fhs demo_records 0 demo_tables demo_crashed (ret tt) 6 o d').
  - lia.
  - vm_compute. reflexivity.
  - exact demo_redoable.
  - exact demo_chained.
  - exact Htab.
  - exact Hatt.
  - exact (demo_undoing 9 demo_crash_disk demo_zero_page demo_disk_inv demo_log_fd demo_log_file demo_log_size
      demo_crash_path demo_crash_page).
  - vm_compute. congruence.
  - exact E.
Defined.

(** *** A rollback that the log does not show

    [abort] writes the changes of its rollback to no log record, and the analysis keeps an
    aborted transaction in the table of unfinished ones until a checkpoint. *)

Definition restart (fuel : nat) (junk : Z) : M (Db LRU.LRUReplacer) (option unit) :=
  let! o := analyze fuel (RecoveryManager_new junk) in
  let! r := of_option o in
  do! redo r in
  undo fuel (ret tt) r.

Definition table_row (d : Db LRU.LRUReplacer) (tab : bytes) (rid : Rid) : option bytes :=
  fh ← fhs_ d !! tab; rows_of fh.1 fh.2 (db_storage d) rid.

(** A restart can lose a committed record.  The log of [demo_crashed] has an
    insertion at place (1, 1) by transaction 2, which aborts, then one at the same place,
    free again, by transaction 3, which commits; nothing deletes it.  Redo inserts both,
    so that the page counts three records for its two rows, and undo rolls the aborted
    transaction back a second time, which deletes the record of transaction 3. *)
Theorem restart_loses_committed_record :
  (∃ b, view (db_storage (analyze_redo 10 0 demo_crashed).2) (3, 1) = Some b ∧
     num_records b = Some 3 ∧ size (occ demo_hdr2 b) = 2%nat) ∧
  table_row (analyze_redo 10 0 demo_crashed).2 demo_table (mkRid 1 1) = Some (replicate 100 9) ∧
  (restart 10 0 demo_crashed).1 = Ok (Some tt) ∧
  table_row (restart 10 0 demo_crashed).2 demo_table (mkRid 1 1) = None ∧
  existsb (λ r, is_type DELETE r) demo_records = false ∧
  unfinished 3 demo_records = None.
Proof.
  split; [|split_and!; vm_compute; reflexivity].
  exists (default [] (view (db_storage (analyze_redo 10 0 demo_crashed).2) (3, 1))).
  split_and!; vm_compute; reflexivity.
Qed.
