(* ===== verification/Streams.v ===== *)
(** * Text streams: what [operator<<] and [operator>>] do with strings and integers

    The catalogue is stored as text.  A [std::string] is a list of [char]s; an input
    stream is the list of the characters that are left, and an extraction that would set
    [failbit] is [Stuck], since the code never looks at the state of its streams.
    [reads p out a] says that the extraction [p] reads [a] back from the text [out],
    between white space; its closure properties are what a round trip is proved with. *)
From S2P Require Import Prelude Bytes.

Abbreviation istream := (M bytes).

Definition SPACE : Z := 32.
Definition NEWLINE : Z := 10.
Definition is_space (c : Z) : bool := (c =? 32) || ((9 <=? c) && (c <=? 13)).
Definition is_digit (c : Z) : bool := (48 <=? c) && (c <=? 57).

Fixpoint skip_ws (s : bytes) : bytes :=
  match s with
  | c :: s' => if is_space c then skip_ws s' else s
  | [] => []
  end.

(** The longest prefix of characters with [p], and the rest. *)
Fixpoint span (p : Z → bool) (s : bytes) : bytes * bytes :=
  match s with
  | c :: s' => if p c then let '(w, r) := span p s' in (c :: w, r) else ([], s)
  | [] => ([], [])
  end.

(** [is >> str] *)
Definition in_string : istream bytes := λ s,
  match span (λ c, negb (is_space c)) (skip_ws s) with
  | ([], r) => (Stuck, r)
  | (w, r) => (Ok w, r)
  end.

Definition num_of (n : Z) (ds : bytes) : Z := fold_left (λ n c, 10 * n + (c - 48)) ds n.

(** The integer at the head of the stream. *)
Definition in_number : istream Z := λ s,
  let s := skip_ws s in
  let '(neg, s) := match s with
    | 45 :: s' => (true, s') | 43 :: s' => (false, s') | _ => (false, s) end in
  match span is_digit s with
  | ([], r) => (Stuck, r)
  | (ds, r) => (Ok (if neg : bool then - num_of 0 ds else num_of 0 ds), r)
  end.

(** [is >> n] for an [int], a [size_t] (which negates in its width) and a [bool]. *)
Definition in_int : istream Z :=
  let! n := in_number in do! massert (i32_ok n) in ret n.
Definition in_size : istream Z :=
  let! n := in_number in do! massert (Z.abs n <? 2 ^ 64) in ret (n mod 2 ^ 64).
Definition in_bool : istream bool :=
  let! n := in_number in do! massert ((n =? 0) || (n =? 1)) in ret (n =? 1).

(** [os << n] in decimal. *)
Fixpoint digits (fuel : nat) (z : Z) (acc : bytes) : bytes :=
  match fuel with
  | O => acc
  | S fuel =>
      let acc := (48 + z mod 10) :: acc in
      if z / 10 =? 0 then acc else digits fuel (z / 10) acc
  end.
Definition out_nat (z : Z) : bytes := digits (S (Z.to_nat (Z.log2 z))) z [].
Definition out_int (z : Z) : bytes := if z <? 0 then 45 :: out_nat (- z) else out_nat z.
Definition out_bool (b : bool) : bytes := out_int (if b then 1 else 0).

(** [for (i = 0; i < n; i++) { is >> x; v.push_back(x); }] *)
Fixpoint in_list {A} (p : istream A) (n : nat) : istream (list A) :=
  match n with
  | O => ret []
  | S n => let! a := p in let! l := in_list p n in ret (a :: l)
  end.

(** ** Reading back what was written *)

Definition spaces (s : bytes) : Prop := Forall (λ c, is_space c = true) s.
Definition ends (s : bytes) : Prop := match s with [] => True | c :: _ => is_space c = true end.

(** [p] reads [a] from [out], whatever white space stands before it and provided that
    something that ends a token stands behind it; white space behind may be left. *)
Definition reads {A} (p : istream A) (out : bytes) (a : A) : Prop :=
  ∀ ws rest, spaces ws → ends rest →
  ∃ ws', spaces ws' ∧ p (ws ++ out ++ rest) = (Ok a, ws' ++ rest).

(** A word: not empty, and without white space. *)
Definition word (s : bytes) : Prop := s ≠ [] ∧ Forall (λ c, is_space c = false) s.

Lemma skip_ws_spaces ws s : spaces ws → skip_ws (ws ++ s) = skip_ws s.
Proof. induction 1 as [|c ws Hc Hws IH]; simpl; [done|]. by rewrite Hc. Qed.

Lemma skip_ws_head c s : is_space c = false → skip_ws (c :: s) = c :: s.
Proof. simpl. by intros ->. Qed.

Lemma span_app (p : Z → bool) w r :
  Forall (λ c, p c = true) w → match r with [] => True | c :: _ => p c = false end →
  span p (w ++ r) = (w, r).
Proof.
  intros Hw Hr. induction Hw as [|c w Hc Hw IH]; simpl.
  - destruct r; simpl; [done|]. by rewrite Hr.
  - by rewrite Hc, IH.
Qed.

Lemma spaces_app a b : spaces a → spaces b → spaces (a ++ b).
Proof. intros. by apply Forall_app. Qed.

Lemma spaces_ends a b : spaces a → ends b → ends (a ++ b).
Proof. by destruct 1. Qed.

Lemma reads_string s : word s → reads in_string s s.
Proof.
  intros [Hne Hs] ws rest Hws Hrest. exists []. split; [constructor|].
  unfold in_string. rewrite skip_ws_spaces by done.
  destruct s as [|c s]; [done|]. pose proof (Forall_inv Hs) as Hc. simpl in Hc.
  rewrite <-app_comm_cons, skip_ws_head by done. rewrite app_comm_cons, span_app; [done| |].
  - eapply Forall_impl; [exact Hs|]. simpl. by intros x ->.
  - destruct rest as [|x rest]; [done|]. simpl in Hrest. by rewrite Hrest.
Qed.

Lemma digits_num fuel z acc n0 :
  0 ≤ z < 10 ^ Z.of_nat fuel → (0 < fuel)%nat → n0 = 0 →
  num_of n0 (digits fuel z acc) = num_of z acc.
Proof.
  revert z acc. induction fuel as [|fuel IH]; intros z acc Hz Hf ->; [lia|]. simpl.
  rewrite Nat2Z.inj_succ, Z.pow_succ_r in Hz by lia.
  pose proof (Z.div_mod z 10 ltac:(lia)) as Hd. pose proof (Z.mod_pos_bound z 10 ltac:(lia)).
  assert (0 ≤ z / 10 < 10 ^ Z.of_nat fuel) as Hq.
  { split; [apply Z.div_pos; lia|]. apply Z.div_lt_upper_bound; lia. }
  case_match eqn:E.
  - unfold num_of. simpl. apply Z.eqb_eq in E. f_equal. lia.
  - apply Z.eqb_neq in E. destruct fuel as [|fuel'].
    { simpl in Hq. lia. }
    rewrite IH by (done || lia). unfold num_of. simpl. f_equal. lia.
Qed.

Lemma digits_digit fuel z acc :
  Forall (λ c, is_digit c = true) acc → Forall (λ c, is_digit c = true) (digits fuel z acc).
Proof.
  revert z acc. induction fuel as [|fuel IH]; intros z acc Hacc; [done|]. simpl.
  assert (Forall (λ c, is_digit c = true) ((48 + z mod 10) :: acc)).
  { constructor; [|done]. unfold is_digit. pose proof (Z.mod_pos_bound z 10 ltac:(lia)). lia. }
  case_match; auto.
Qed.

Lemma digits_ne fuel z acc : acc ≠ [] → digits fuel z acc ≠ [].
Proof. revert z acc. induction fuel as [|fuel IH]; intros z acc H; simpl; [done|]. case_match; auto. Qed.

Lemma out_nat_spec z :
  0 ≤ z → num_of 0 (out_nat z) = z ∧ Forall (λ c, is_digit c = true) (out_nat z) ∧ out_nat z ≠ [].
Proof.
  intros Hz. unfold out_nat. split_and!.
  - rewrite digits_num; [done| |lia|done]. split; [done|].
    rewrite Nat2Z.inj_succ, Z2Nat.id by apply Z.log2_nonneg.
    destruct (decide (z = 0)) as [->|]; [done|].
    apply Z.lt_le_trans with (2 ^ Z.succ (Z.log2 z)); [apply Z.log2_spec; lia|].
    apply Z.pow_le_mono_l. lia.
  - by apply digits_digit.
  - simpl. case_match; [done|]. by apply digits_ne.
Qed.

Lemma digit_not_space c : is_digit c = true → is_space c = false.
Proof. unfold is_digit, is_space. lia. Qed.

Lemma span_digits ds rest :
  Forall (λ c, is_digit c = true) ds → ends rest → span is_digit (ds ++ rest) = (ds, rest).
Proof.
  intros Hd Hr. apply span_app; [done|]. destruct rest as [|c rest]; [done|]. simpl in Hr.
  destruct (is_digit c) eqn:E; [|done]. apply digit_not_space in E. congruence.
Qed.

Lemma reads_number z : reads in_number (out_int z) z.
Proof.
  intros ws rest Hws Hrest. exists []. split; [constructor|]. unfold in_number, out_int.
  rewrite skip_ws_spaces by done. destruct (z <? 0) eqn:Ez.
  - destruct (out_nat_spec (- z)) as (Hn & Hd & Hne); [lia|].
    rewrite <-app_comm_cons, skip_ws_head, span_digits, Hn by done.
    case_match; [done|]. simpl. do 2 f_equal. lia.
  - destruct (out_nat_spec z) as (Hn & Hd & Hne); [lia|].
    destruct (out_nat z) as [|c ds] eqn:E; [done|]. pose proof (Forall_inv Hd) as Hc. simpl in Hc.
    rewrite <-app_comm_cons, skip_ws_head by (by apply digit_not_space).
    replace (match c :: ds ++ rest with 45 :: s' => (true, s') | 43 :: s' => (false, s')
      | _ => (false, c :: ds ++ rest) end) with (false, c :: ds ++ rest).
    2:{ unfold is_digit in Hc. assert (48 ≤ c ≤ 57) as Hc' by lia. clear - Hc'.
        assert (c = 48 ∨ c = 49 ∨ c = 50 ∨ c = 51 ∨ c = 52 ∨ c = 53 ∨ c = 54 ∨ c = 55 ∨ c = 56 ∨ c = 57)
          as Hcase by lia.
        by repeat (destruct Hcase as [->|Hcase]; [done|]); subst. }
    rewrite app_comm_cons, span_digits by done. by rewrite Hn.
Qed.

(** *** Composition *)

Lemma reads_ret {A} (a : A) : reads (ret a) [] a.
Proof. intros ws rest Hws Hrest. by exists ws. Qed.

Lemma reads_checked {A B} (p : istream A) out a (f : A → istream B) b :
  reads p out a → (∀ s, f a s = (Ok b, s)) → reads (let! x := p in f x) out b.
Proof.
  intros Hp Hf ws rest Hws Hrest. destruct (Hp ws rest Hws Hrest) as (ws' & Hws' & Hrun).
  exists ws'. split; [done|]. rewrite (bind_run _ _ _ _ _ Hrun). apply Hf.
Qed.

Lemma reads_int z : i32_ok z = true → reads in_int (out_int z) z.
Proof.
  intros Hz. apply (reads_checked _ _ z); [apply reads_number|]. intros s. by rewrite Hz.
Qed.

Lemma reads_size z : 0 ≤ z < 2 ^ 64 → reads in_size (out_int z) z.
Proof.
  intros Hz. apply (reads_checked _ _ z); [apply reads_number|]. intros s.
  assert (Z.abs z <? 2 ^ 64 = true) as -> by (apply Z.ltb_lt; lia). cbn. unfold ret.
  by rewrite Z.mod_small by lia.
Qed.

Lemma reads_bool b : reads in_bool (out_bool b) b.
Proof.
  unfold out_bool. apply (reads_checked _ _ (if b then 1 else 0)); [apply reads_number|].
  intros s. by destruct b.
Qed.

(** A token, its separator, and what is read after it. *)
Lemma reads_bind {A B} (p : istream A) (q : A → istream B) out1 a sep out2 b :
  reads p out1 a → reads (q a) out2 b → spaces sep → sep ≠ [] →
  reads (let! x := p in q x) (out1 ++ sep ++ out2) b.
Proof.
  intros Hp Hq Hsep Hne ws rest Hws Hrest.
  destruct (Hp ws (sep ++ out2 ++ rest)) as (ws1 & Hws1 & Hrun1); [done| |].
  { destruct Hsep; done. }
  destruct (Hq (ws1 ++ sep) rest) as (ws2 & Hws2 & Hrun2); [by apply spaces_app|done|].
  exists ws2. split; [done|]. rewrite <-!app_assoc in *. by rewrite (bind_run _ _ _ _ _ Hrun1).
Qed.

(** White space behind an output belongs to it. *)
Lemma reads_space {A} (p : istream A) out a sep :
  reads p out a → spaces sep → reads p (out ++ sep) a.
Proof.
  intros Hp Hsep ws rest Hws Hrest.
  destruct (Hp ws (sep ++ rest)) as (ws1 & Hws1 & Hrun); [done|by apply spaces_ends|].
  exists (ws1 ++ sep). split; [by apply spaces_app|]. by rewrite <-!app_assoc.
Qed.

Lemma reads_map {A B} (p : istream A) (f : A → B) out a :
  reads p out a → reads (let! x := p in ret (f x)) out (f a).
Proof. intros Hp. by apply (reads_checked _ _ a). Qed.

(** The output ends in white space of its own, so that anything may follow. *)
Definition reads_closed {A} (p : istream A) (out : bytes) (a : A) : Prop :=
  ∀ ws rest, spaces ws → ∃ ws', spaces ws' ∧ p (ws ++ out ++ rest) = (Ok a, ws' ++ rest).

Lemma closed_reads {A} (p : istream A) out a : reads_closed p out a → reads p out a.
Proof. intros Hp ws rest Hws _. by apply Hp. Qed.

Lemma reads_closed_bind {A B} (p : istream A) (q : A → istream B) out1 a out2 b :
  reads_closed p out1 a → reads (q a) out2 b → reads (let! x := p in q x) (out1 ++ out2) b.
Proof.
  intros Hp Hq ws rest Hws Hrest.
  destruct (Hp ws (out2 ++ rest) Hws) as (ws1 & Hws1 & Hrun1).
  destruct (Hq ws1 rest Hws1 Hrest) as (ws2 & Hws2 & Hrun2).
  exists ws2. split; [done|]. rewrite <-app_assoc. by rewrite (bind_run _ _ _ _ _ Hrun1).
Qed.

(** A list whose items are written with a separator behind each. *)
Lemma reads_list {A} (p : istream A) (out : A → bytes) (l : list A) sep :
  Forall (λ a, reads p (out a) a) l → spaces sep → sep ≠ [] →
  reads_closed (in_list p (length l)) (concat ((λ a, out a ++ sep) <$> l)) l.
Proof.
  intros Hl Hsep Hne. induction Hl as [|a l Ha Hl IH]; simpl; intros ws rest Hws.
  { by exists ws. }
  destruct (Ha ws (sep ++ concat ((λ a, out a ++ sep) <$> l) ++ rest)) as (ws1 & Hws1 & Hrun1); [done| |].
  { destruct Hsep; done. }
  destruct (IH (ws1 ++ sep) rest) as (ws2 & Hws2 & Hrun2); [by apply spaces_app|].
  exists ws2. split; [done|]. rewrite <-!app_assoc in *.
  by rewrite (bind_run _ _ _ _ _ Hrun1), (bind_run _ _ _ _ _ Hrun2).
Qed.

(** The same with a separator before each item. *)
Lemma reads_list_before {A B} (p : istream A) (q : istream B) (out : A → bytes) (l : list A) sep
    out1 b :
  reads q out1 b → Forall (λ a, reads p (out a) a) l → spaces sep → sep ≠ [] →
  reads (let! x := q in let! l := in_list p (length l) in ret (x, l))
    (out1 ++ concat ((λ a, sep ++ out a) <$> l)) (b, l).
Proof.
  intros Hq Hl Hsep Hne. revert B b q out1 Hq. induction Hl as [|a l Ha Hl IH]; intros B b q out1 Hq; simpl.
  - rewrite app_nil_r. by apply (reads_checked _ _ b).
  - pose proof (IH (B * A)%type (b, a) (let! x := q in let! y := p in ret (x, y)) (out1 ++ sep ++ out a)) as H.
    ospecialize (H _).
    { apply (reads_bind _ _ _ b); [done| |done..]. by apply reads_map. }
    intros ws rest Hws Hrest. destruct (H ws rest Hws Hrest) as (ws' & Hws' & Hrun).
    exists ws'. split; [done|]. rewrite <-!app_assoc in *.
    apply bind_Ok in Hrun as ([x y] & s1 & H1 & Hrun).
    apply bind_Ok in H1 as (x' & s2 & Hx & H1). apply bind_Ok in H1 as (y' & s3 & Hy & H1).
    apply ret_Ok in H1 as [[= -> ->] ->].
    apply bind_Ok in Hrun as (l' & s4 & Hl' & Hrun). apply ret_Ok in Hrun as [[= <- <- <-] <-].
    rewrite (bind_run _ _ _ _ _ Hx). unfold bind at 1 2 3. by rewrite Hy, Hl'.
Qed.
