(* ===== verification/Meta.v ===== *)
(** * Values, conditions and the catalogue (src/src/defs.h, common/common.h and
      system/sm_meta.h)

    A [Value] is a constant of a query with its raw bytes; the metadata records describe
    columns, indexes, tables and the database.  The catalogue's text form is that of the
    [operator<<] and [operator>>] of the records.  A [std::map] keyed by names is a list
    sorted by name; a [std::string] is a list of [char]s. *)
From Stdlib Require Import Floats.SpecFloat Sorting.Sorted.
From S2P Require Import Prelude Bytes Streams.

(** ** Column types, values and comparisons *)

Inductive ColType : Type := TYPE_INT | TYPE_FLOAT | TYPE_STRING | TYPE_DATETIME.
#[export] Instance ColType_eq_dec : EqDecision ColType.
Proof. solve_decision. Defined.

Definition ColType_val (t : ColType) : Z :=
  match t with TYPE_INT => 0 | TYPE_FLOAT => 1 | TYPE_STRING => 2 | TYPE_DATETIME => 3 end.
Definition ColType_of (z : Z) : option ColType :=
  match z with
  | 0 => Some TYPE_INT | 1 => Some TYPE_FLOAT | 2 => Some TYPE_STRING | 3 => Some TYPE_DATETIME
  | _ => None
  end.

Inductive CompOp : Type := OP_EQ | OP_NE | OP_LT | OP_GT | OP_LE | OP_GE.
#[export] Instance CompOp_eq_dec : EqDecision CompOp.
Proof. solve_decision. Defined.

(** [val_bits] is the union of [int_val] and [float_val]. *)
Record Value := mkValue {
  val_type : ColType;
  val_bits : Z;
  str_val : bytes;
  raw : option bytes;
}.
Definition int_val (v : Value) : Z := wrap32 (val_bits v).

Definition set_int (n : Z) (v : Value) : Value := mkValue TYPE_INT (n mod 2 ^ 32) (str_val v) (raw v).
Definition set_float (bits : Z) (v : Value) : Value := mkValue TYPE_FLOAT bits (str_val v) (raw v).
Definition set_str (s : bytes) (v : Value) : Value := mkValue TYPE_STRING (val_bits v) s (raw v).
Definition set_datetime (s : bytes) (v : Value) : Value := mkValue TYPE_STRING (val_bits v) s (raw v).

(** A [float] from its bits (binary32) and from an [int], rounded to nearest even. *)
Definition float_of_bits (bits : Z) : spec_float :=
  let s := Z.testbit bits 31 in
  let e := Z.shiftr bits 23 mod 256 in
  let m := bits mod 2 ^ 23 in
  if e =? 255 then (if m =? 0 then S754_infinity s else S754_nan)
  else if e =? 0 then (match m with Zpos p => S754_finite s p (-149) | _ => S754_zero s end)
  else match m + 2 ^ 23 with Zpos p => S754_finite s p (e - 150) | _ => S754_nan end.
Definition float_of_int (n : Z) : spec_float := binary_normalize 24 128 n 0 false.
Definition float_val (v : Value) : spec_float := float_of_bits (val_bits v).

(** [std::string]'s order: [char]s as unsigned, then the length. *)
Fixpoint str_compare (a b : bytes) : comparison :=
  match a, b with
  | [], [] => Eq
  | [], _ => Lt
  | _, [] => Gt
  | x :: a, y :: b => match x ?= y with Eq => str_compare a b | c => c end
  end.

(** [ValueComp] on values with the comparison [c], which a NaN does not have. *)
Definition comp_holds (c : option comparison) (op : CompOp) : bool :=
  match op, c with
  | OP_EQ, Some Eq => true
  | OP_NE, Some Eq => false
  | OP_NE, _ => true
  | OP_GE, Some (Eq | Gt) => true
  | OP_LE, Some (Eq | Lt) => true
  | OP_GT, Some Gt => true
  | OP_LT, Some Lt => true
  | _, _ => false
  end.
Definition ValueComp (left right : Value) (op : CompOp) : outcome bool :=
  match val_type left, val_type right with
  | TYPE_INT, TYPE_INT => Ok (comp_holds (Some (int_val left ?= int_val right)) op)
  | TYPE_FLOAT, TYPE_FLOAT => Ok (comp_holds (SFcompare (float_val left) (float_val right)) op)
  | TYPE_STRING, TYPE_STRING => Ok (comp_holds (Some (str_compare (str_val left) (str_val right))) op)
  | TYPE_FLOAT, TYPE_INT =>
      Ok (comp_holds (SFcompare (float_val left) (float_of_int (int_val right))) op)
  | TYPE_INT, TYPE_FLOAT =>
      Ok (comp_holds (SFcompare (float_of_int (int_val left)) (float_val right)) op)
  | _, _ => Throw IncompatibleTypeError
  end.

Definition TypeCompatible (left right : ColType) : bool :=
  if decide (left = right) then true
  else match left, right with
       | TYPE_INT, TYPE_FLOAT | TYPE_FLOAT, TYPE_INT => true
       | _, _ => false
       end.

(** [raw] of a fresh [RmRecord] is uninitialised; a [DATETIME] leaves it so. *)
Definition init_raw (length : Z) (v : Value) : outcome Value :=
  match raw v with
  | Some _ => Stuck
  | None =>
      let done bs := Ok (mkValue (val_type v) (val_bits v) (str_val v) (Some bs)) in
      match val_type v with
      | TYPE_INT | TYPE_FLOAT => if length =? 4 then done (u32 (val_bits v)) else Stuck
      | TYPE_STRING =>
          if length <? len (str_val v) then Throw StringOverflowError
          else done (str_val v ++ replicate (Z.to_nat (length - len (str_val v))) 0)
      | TYPE_DATETIME => Stuck
      end
  end.

Definition FLT_MAX : Z := 2139095039.
Definition FLT_MIN : Z := 8388608.

(** The largest and the smallest value of a column; neither case of [DATETIME] exists. *)
Definition generate_max (type : ColType) (length : Z) (v : Value) : outcome Value :=
  match type with
  | TYPE_INT => init_raw length (mkValue type INT_MAX (str_val v) (raw v))
  | TYPE_FLOAT => init_raw length (mkValue type FLT_MAX (str_val v) (raw v))
  | TYPE_STRING =>
      if length <? 0 then Stuck
      else Ok (mkValue type (val_bits v)
                (take (Z.to_nat length) (str_val v)
                 ++ replicate (Z.to_nat length - base.length (str_val v)) 126)
                (Some (replicate (Z.to_nat length) 126)))
  | TYPE_DATETIME => Ok (mkValue type (val_bits v) (str_val v) (raw v))
  end.
Definition generate_min (type : ColType) (length : Z) (v : Value) : outcome Value :=
  match type with
  | TYPE_INT => init_raw length (mkValue type (INT_MIN mod 2 ^ 32) (str_val v) (raw v))
  | TYPE_FLOAT => init_raw length (mkValue type FLT_MIN (str_val v) (raw v))
  | TYPE_STRING =>
      if length <? 0 then Stuck
      else Ok (mkValue type (val_bits v) [] (Some (replicate (Z.to_nat length) 0)))
  | TYPE_DATETIME => Ok (mkValue type (val_bits v) (str_val v) (raw v))
  end.

Record TabCol := mkTabCol { tc_tab_name : bytes; tc_col_name : bytes }.
#[export] Instance TabCol_eq_dec : EqDecision TabCol.
Proof. solve_decision. Defined.
Definition TabCol_lt (x y : TabCol) : bool :=
  match str_compare (tc_tab_name x) (tc_tab_name y) with
  | Lt => true
  | Eq => match str_compare (tc_col_name x) (tc_col_name y) with Lt => true | _ => false end
  | Gt => false
  end.

Record Condition := mkCond {
  lhs_col : TabCol;
  cond_op : CompOp;
  is_rhs_val : bool;
  rhs_col : TabCol;
  rhs_val : Value;
}.
Definition lhs_name (c : Condition) : bytes := tc_col_name (lhs_col c).

(** ** The records of the catalogue *)

Record ColMeta := mkCol {
  col_tab : bytes;
  col_name : bytes;
  col_type : ColType;
  col_len : Z;
  col_offset : Z;
  col_index : bool;
}.
#[export] Instance ColMeta_eq_dec : EqDecision ColMeta.
Proof. solve_decision. Defined.

Record IndexMeta := mkIndex {
  ix_tab : bytes;
  col_tot_len : Z;
  col_num : Z;
  ix_cols : list ColMeta;
}.
#[export] Instance IndexMeta_eq_dec : EqDecision IndexMeta.
Proof. solve_decision. Defined.

Record TabMeta := mkTab { tab_name : bytes; tab_cols : list ColMeta; tab_indexes : list IndexMeta }.
Record DbMeta := mkDbMeta { db_name : bytes; tabs_ : list (bytes * TabMeta) }.

(** *** Matching conditions with an index *)

(** [new_conds]: the conditions on a prefix of the columns, one each, up to the first
    that is no equality. *)
Fixpoint match_cols (cols : list ColMeta) (conds : list Condition) : list Condition :=
  match cols with
  | [] => []
  | col :: cols =>
      match filter (λ c, lhs_name c = col_name col) conds with
      | [c] => c :: (if decide (cond_op c = OP_EQ) then match_cols cols conds else [])
      | _ => []
      end
  end.
(** The result and the conditions it leaves behind. *)
Definition MatchIndex (ix : IndexMeta) (conds : list Condition) : bool * list Condition :=
  let new_conds := match_cols (ix_cols ix) conds in
  if (length new_conds =? length conds)%nat then (true, new_conds) else (false, conds).

(** *** Looking up columns, indexes and tables *)

Definition is_col (name : bytes) (t : TabMeta) : bool :=
  existsb (λ c, bool_decide (col_name c = name)) (tab_cols t).

(** [cols[i].name] against [col_names[i]]; [None] runs past the end of [cols]. *)
Fixpoint names_match (cols : list ColMeta) (names : list bytes) : option bool :=
  match names with
  | [] => Some true
  | name :: names =>
      match cols with
      | [] => None
      | c :: cols => if decide (col_name c = name) then names_match cols names else Some false
      end
  end.
Fixpoint find_index (names : list bytes) (indexes : list IndexMeta) : option (option IndexMeta) :=
  match indexes with
  | [] => Some None
  | ix :: indexes =>
      if col_num ix mod 2 ^ 64 =? len names then
        b ← names_match (ix_cols ix) names;
        if b : bool then Some (Some ix) else find_index names indexes
      else find_index names indexes
  end.
Definition is_index (names : list bytes) (t : TabMeta) : outcome bool :=
  match find_index names (tab_indexes t) with
  | None => Stuck | Some None => Ok false | Some (Some _) => Ok true end.
Definition get_index_meta (names : list bytes) (t : TabMeta) : outcome IndexMeta :=
  match find_index names (tab_indexes t) with
  | None => Stuck
  | Some None => Throw (IndexNotFoundError (tab_name t) names)
  | Some (Some ix) => Ok ix
  end.
Definition get_col (name : bytes) (t : TabMeta) : outcome ColMeta :=
  match list_find (λ c, col_name c = name) (tab_cols t) with
  | None => Throw (ColumnNotFoundError name)
  | Some (_, c) => Ok c
  end.

Definition valid_pair (a b : CompOp) : bool :=
  match a, b with
  | OP_LE, (OP_GE | OP_GT) | OP_LT, (OP_GE | OP_GT)
  | OP_GE, (OP_LE | OP_LT) | OP_GT, (OP_LT | OP_LE) => true
  | _, _ => false
  end.
(** The answer and [index_col_names] as the call leaves it. *)
Definition MatchIndexSingle (conds : list Condition) (names : list bytes) (t : TabMeta) :
    outcome bool * list bytes :=
  match conds with
  | [c] => let names := names ++ [lhs_name c] in (is_index names t, names)
  | [c; c'] =>
      if valid_pair (cond_op c) (cond_op c')
      then let names := names ++ [lhs_name c] in (is_index names t, names)
      else (Ok false, names)
  | _ => (Ok false, names)
  end.

Definition IX_MAX_COL_LEN : Z := 512.
(** The names of the columns of the smallest index that matches, none if there is none. *)
Fixpoint match_indexes (indexes : list IndexMeta) (max_match_num : Z) (meta : option IndexMeta)
    (conds : list Condition) : option IndexMeta * list Condition :=
  match indexes with
  | [] => (meta, conds)
  | ix :: indexes =>
      if col_num ix <? max_match_num then
        let '(b, conds) := MatchIndex ix conds in
        if b : bool then match_indexes indexes (col_num ix) (Some ix) conds
        else match_indexes indexes max_match_num meta conds
      else match_indexes indexes max_match_num meta conds
  end.
Definition MatchIndexMultiple (conds : list Condition) (t : TabMeta) : list bytes * list Condition :=
  let '(meta, conds) := match_indexes (tab_indexes t) (IX_MAX_COL_LEN + 1) None conds in
  (match meta with Some ix => col_name <$> ix_cols ix | None => [] end, conds).

(** [std::map]: lookup, and [operator[]] with an assignment. *)
Fixpoint map_find {A} (k : bytes) (m : list (bytes * A)) : option A :=
  match m with
  | [] => None
  | (k', a) :: m => match str_compare k k' with Eq => Some a | Lt => None | Gt => map_find k m end
  end.
Fixpoint map_assign {A} (k : bytes) (a : A) (m : list (bytes * A)) : list (bytes * A) :=
  match m with
  | [] => [(k, a)]
  | (k', a') :: m' =>
      match str_compare k k' with
      | Lt => (k, a) :: m
      | Eq => (k', a) :: m'
      | Gt => (k', a') :: map_assign k a m'
      end
  end.

Definition is_table (name : bytes) (db : DbMeta) : bool :=
  match map_find name (tabs_ db) with Some _ => true | None => false end.
Definition SetTabMeta (name : bytes) (t : TabMeta) (db : DbMeta) : DbMeta :=
  mkDbMeta (db_name db) (map_assign name t (tabs_ db)).
Definition get_table (name : bytes) (db : DbMeta) : outcome TabMeta :=
  match map_find name (tabs_ db) with Some t => Ok t | None => Throw (TableNotFoundError name) end.
Definition get_all_indexes (db : DbMeta) : list IndexMeta :=
  concat ((λ e, tab_indexes e.2) <$> tabs_ db).

(** *** The text form *)

Definition sp : bytes := [SPACE].
Definition nl : bytes := [NEWLINE].

Definition out_col (c : ColMeta) : bytes :=
  col_tab c ++ sp ++ col_name c ++ sp ++ out_int (ColType_val (col_type c)) ++ sp ++
  out_int (col_len c) ++ sp ++ out_int (col_offset c) ++ sp ++ out_bool (col_index c).
Definition in_type : istream ColType := let! n := in_int in of_option (ColType_of n).
Definition in_col : istream ColMeta :=
  let! tab := in_string in
  let! name := in_string in
  let! type := in_type in
  let! length := in_int in
  let! offset := in_int in
  let! index := in_bool in
  ret (mkCol tab name type length offset index).

Definition out_index (ix : IndexMeta) : bytes :=
  (ix_tab ix ++ sp ++ out_int (col_tot_len ix) ++ sp ++ out_int (col_num ix)) ++
  concat ((λ c, nl ++ out_col c) <$> ix_cols ix).
Definition in_index : istream IndexMeta :=
  let! head :=
    (let! tab := in_string in
     let! tot := in_int in
     let! num := in_int in
     ret (tab, tot, num)) in
  let! cols := in_list in_col (Z.to_nat head.2) in
  ret (mkIndex head.1.1 head.1.2 head.2 cols).

Definition out_tab (t : TabMeta) : bytes :=
  tab_name t ++ nl ++ out_int (len (tab_cols t)) ++ nl ++
  concat ((λ c, out_col c ++ nl) <$> tab_cols t) ++
  out_int (len (tab_indexes t)) ++ nl ++ concat ((λ ix, out_index ix ++ nl) <$> tab_indexes t).
Definition in_tab : istream TabMeta :=
  let! name := in_string in
  let! n := in_size in
  let! cols := in_list in_col (Z.to_nat n) in
  let! n := in_size in
  let! indexes := in_list in_index (Z.to_nat n) in
  ret (mkTab name cols indexes).

Definition out_db (db : DbMeta) : bytes :=
  db_name db ++ nl ++ out_int (len (tabs_ db)) ++ nl ++
  concat ((λ e, out_tab e.2 ++ nl) <$> tabs_ db).
(** Into a new [DbMeta], whose map is empty. *)
Definition in_db : istream DbMeta :=
  let! name := in_string in
  let! n := in_size in
  let! ts := in_list in_tab (Z.to_nat n) in
  ret (mkDbMeta name (foldl (λ m t, map_assign (tab_name t) t m) [] ts)).

(** ** The text form can be read back *)

Record col_ok (c : ColMeta) : Prop := {
  co_tab : word (col_tab c);
  co_name : word (col_name c);
  co_len : i32_ok (col_len c) = true;
  co_offset : i32_ok (col_offset c) = true;
}.
Record index_ok (ix : IndexMeta) : Prop := {
  io_tab : word (ix_tab ix);
  io_tot : i32_ok (col_tot_len ix) = true;
  io_num : col_num ix = len (ix_cols ix);
  io_num_ok : i32_ok (col_num ix) = true;
  io_cols : Forall col_ok (ix_cols ix);
}.
Record tab_ok (t : TabMeta) : Prop := {
  to_name : word (tab_name t);
  to_num : len (tab_cols t) < 2 ^ 64;
  to_cols : Forall col_ok (tab_cols t);
  to_num_ix : len (tab_indexes t) < 2 ^ 64;
  to_indexes : Forall index_ok (tab_indexes t);
}.
(** The map is sorted and its keys are the names of its tables. *)
Definition key_lt (e e' : bytes * TabMeta) : Prop := str_compare e.1 e'.1 = Lt.
Record db_ok (db : DbMeta) : Prop := {
  do_name : word (db_name db);
  do_num : len (tabs_ db) < 2 ^ 64;
  do_sorted : StronglySorted key_lt (tabs_ db);
  do_keys : Forall (λ e, e.1 = tab_name e.2) (tabs_ db);
  do_tabs : Forall (λ e, tab_ok e.2) (tabs_ db);
}.

Lemma sp_spaces : spaces sp. Proof. by repeat constructor. Qed.
Lemma nl_spaces : spaces nl. Proof. by repeat constructor. Qed.
#[local] Hint Resolve sp_spaces nl_spaces reads_string reads_int reads_size reads_bool : rmdb.

(** One token and its separator. *)
Ltac reads_token := eapply reads_bind; [eauto with rmdb| |auto with rmdb|done].

Lemma reads_type t : reads in_type (out_int (ColType_val t)) t.
Proof. apply (reads_checked _ _ (ColType_val t)); [apply reads_int|]; by destruct t. Qed.
#[local] Hint Resolve reads_type : rmdb.

Lemma reads_col c : col_ok c → reads in_col (out_col c) c.
Proof.
  intros []. unfold in_col, out_col. do 5 reads_token.
  destruct c. apply (reads_map _ (λ b, mkCol _ _ _ _ _ b)). apply reads_bool.
Qed.

Lemma reads_index ix : index_ok ix → reads in_index (out_index ix) ix.
Proof.
  intros [? ? Hnum ? Hcols]. destruct ix as [tab tot num cols]; simpl in *.
  pose proof (reads_list_before in_col
    (let! tab := in_string in let! tot := in_int in let! num := in_int in ret (tab, tot, num))
    out_col cols nl (tab ++ sp ++ out_int tot ++ sp ++ out_int num) (tab, tot, num)) as H.
  ospecialize (H _ _ nl_spaces _); [| |done|].
  - do 2 reads_token. apply (reads_map _ (λ n, (tab, tot, n))). auto with rmdb.
  - eapply Forall_impl; [exact Hcols|]. apply reads_col.
  - intros ws rest Hws Hrest. destruct (H ws rest Hws Hrest) as (ws' & Hws' & Hrun).
    exists ws'. split; [done|]. unfold in_index, out_index. cbn [ix_tab col_tot_len col_num ix_cols].
    apply bind_Ok in Hrun as (hd & s1 & Hhd & Hrun).
    apply bind_Ok in Hrun as (l & s2 & Hl & Hrun). apply ret_Ok in Hrun as [[= <- <-] <-].
    rewrite (bind_run _ _ _ _ _ Hhd). cbn [fst snd].
    replace (Z.to_nat num) with (length cols) by lia.
    by rewrite (bind_run _ _ _ _ _ Hl).
Qed.

Lemma reads_tab t : tab_ok t → reads in_tab (out_tab t) t.
Proof.
  intros [? ? Hcols ? Hixs]. destruct t as [name cols indexes]; simpl in *.
  unfold in_tab, out_tab. cbn [tab_name tab_cols tab_indexes].
  do 2 (eapply reads_bind; [eauto using reads_size, reads_string with lia| |auto with rmdb|done]).
  rewrite Nat2Z.id.
  assert (reads_closed (in_list in_col (length cols)) (concat ((λ c, out_col c ++ nl) <$> cols)) cols) as Hc.
  { apply reads_list; [|auto with rmdb|done]. eapply Forall_impl; [exact Hcols|]. apply reads_col. }
  assert (reads_closed (in_list in_index (length indexes)) (concat ((λ c, out_index c ++ nl) <$> indexes)) indexes) as Hi.
  { apply reads_list; [|auto with rmdb|done]. eapply Forall_impl; [exact Hixs|]. apply reads_index. }
  eapply reads_closed_bind; [exact Hc|].
  eapply reads_bind; [eauto using reads_size with lia| |auto with rmdb|done].
  rewrite Nat2Z.id. apply (reads_map _ (λ l, mkTab name cols l)). by apply closed_reads.
Qed.

Lemma str_compare_antisym a b : str_compare b a = CompOpp (str_compare a b).
Proof.
  revert b. induction a as [|x a IH]; intros [|y b]; simpl; [done..|].
  rewrite (Z.compare_antisym x y). destruct (x ?= y) eqn:E; simpl; [apply IH|done..].
Qed.

(** Assigning behind all keys appends. *)
Lemma map_assign_last {A} k (a : A) m :
  Forall (λ e, str_compare e.1 k = Lt) m → map_assign k a m = m ++ [(k, a)].
Proof.
  induction 1 as [|[k' a'] m Hk Hm IH]; simpl in *; [done|].
  rewrite str_compare_antisym, Hk. simpl. by rewrite IH.
Qed.

Lemma map_assign_sorted (pre l : list (bytes * TabMeta)) :
  StronglySorted key_lt (pre ++ l) → Forall (λ e, e.1 = tab_name e.2) l →
  foldl (λ m t, map_assign (tab_name t) t m) pre (snd <$> l) = pre ++ l.
Proof.
  revert pre. induction l as [|[k t] l IH]; intros pre Hs Hk; simpl; [by rewrite app_nil_r|].
  apply Forall_cons in Hk as [Hkt Hk]. simpl in Hkt. subst k.
  rewrite map_assign_last.
  - rewrite IH; [by rewrite <-app_assoc|by rewrite <-app_assoc|done].
  - clear IH Hk. induction pre as [|e pre IH]; [constructor|].
    simpl in Hs. apply StronglySorted_inv in Hs as [Hs He]. constructor; [|by apply IH].
    apply Forall_app in He as [_ He]. by apply Forall_cons in He as [He _].
Qed.

Lemma reads_db db : db_ok db → reads in_db (out_db db) db.
Proof.
  intros [? ? Hs Hkeys Htabs]. destruct db as [name ts]; simpl in *. unfold in_db, out_db. cbn [db_name tabs_].
  do 2 (eapply reads_bind; [eauto using reads_size, reads_string with lia| |auto with rmdb|done]).
  rewrite Nat2Z.id.
  pose proof (map_assign_sorted [] ts Hs Hkeys) as Hm. simpl in Hm.
  pose proof (reads_map (in_list in_tab (length ts))
    (λ l, mkDbMeta name (foldl (λ m t, map_assign (tab_name t) t m) [] l))) as H.
  specialize (H (concat ((λ e, out_tab e.2 ++ nl) <$> ts)) (snd <$> ts)). simpl in H. rewrite Hm in H.
  apply H. apply closed_reads. clear H Hm Hs Hkeys.
  pose proof (reads_list in_tab out_tab (snd <$> ts) nl) as H. rewrite length_fmap, <-list_fmap_compose in H.
  apply H; [|auto with rmdb|done]. apply Forall_fmap.
  eapply Forall_impl; [exact Htabs|]. intros e. apply reads_tab.
Qed.

(** ** Which conditions an index can answer *)

(** [l] has one condition on each column of a prefix, all but the last an equality. *)
Fixpoint lined_up (cols : list ColMeta) (l : list Condition) : Prop :=
  match l, cols with
  | [], _ => True
  | _, [] => False
  | c :: l, col :: cols =>
      lhs_name c = col_name col ∧ (l = [] ∨ cond_op c = OP_EQ) ∧ lined_up cols l
  end.

Lemma lined_up_names cols l : lined_up cols l → lhs_name <$> l = take (length l) (col_name <$> cols).
Proof.
  revert l. induction cols as [|col cols IH]; intros [|c l]; simpl; [done..|].
  intros (-> & _ & H). by rewrite <-IH.
Qed.

Lemma match_cols_lined_up cols conds :
  lined_up cols (match_cols cols conds) ∧ ∀ c, c ∈ match_cols cols conds → c ∈ conds.
Proof.
  induction cols as [|col cols [IH1 IH2]]; simpl; [split; [done|intros c Hc; by apply elem_of_nil in Hc]|].
  destruct (filter _ conds) as [|c [|c' l]] eqn:E;
    [split; [done|intros ? Hc; by apply elem_of_nil in Hc]| |split; [done|intros ? Hc; by apply elem_of_nil in Hc]].
  assert (c ∈ filter (λ c, lhs_name c = col_name col) conds) as Hc by (rewrite E; set_solver).
  apply list_elem_of_filter in Hc as [Hn Hc].
  case_decide as Heq.
  - split; [by split_and!; auto|]. intros x [->|Hx]%elem_of_cons; auto.
  - split; [by split_and!; auto; destruct cols|]. intros x [->|Hx]%elem_of_cons; [done|by apply elem_of_nil in Hx].
Qed.

Lemma lined_up_elem cols l x : lined_up cols l → x ∈ l → lhs_name x ∈ col_name <$> cols.
Proof.
  revert l. induction cols as [|col cols IH]; intros [|c l]; simpl; try done.
  - intros _ Hx. by apply elem_of_nil in Hx.
  - intros _ Hx. by apply elem_of_nil in Hx.
  - intros (Hn & _ & Hl) [->|Hx]%elem_of_cons; [rewrite Hn; left|right; by apply (IH l)].
Qed.

(** The conditions that are lined up are found. *)
Lemma match_cols_complete cols conds pre l :
  NoDup (col_name <$> cols) → conds ≡ₚ pre ++ l → lined_up cols l →
  (∀ c, c ∈ pre → lhs_name c ∉ col_name <$> cols) → match_cols cols conds = l.
Proof.
  revert pre l. induction cols as [|col cols IH]; intros pre l Hnd Hp Hl Hpre.
  { by destruct l. }
  rewrite fmap_cons in Hnd. apply NoDup_cons in Hnd as [Hcol Hnd]. cbn [match_cols].
  pose proof (filter_Permutation (λ c, lhs_name c = col_name col) _ _ Hp) as Hf.
  rewrite filter_app, (filter_none _ pre) in Hf.
  2:{ intros c Hc Hn. apply (Hpre c Hc). rewrite Hn, fmap_cons. left. }
  destruct l as [|c l].
  { apply Permutation_nil_r in Hf. by rewrite Hf. }
  destruct Hl as (Hn & Hop & Hl). simpl in Hf.
  rewrite filter_cons_True, (filter_none _ l) in Hf; [|intros x Hx Hx'|done].
  2:{ apply Hcol. rewrite <-Hx'. by eapply lined_up_elem. }
  apply Permutation_singleton_r in Hf. rewrite Hf. f_equal.
  case_decide as Heq; [|by destruct Hop].
  apply (IH (pre ++ [c])); [done|by rewrite <-app_assoc|done|].
  intros x [Hx| ->%list_elem_of_singleton]%elem_of_app.
  - intros Hx'. apply (Hpre x Hx). rewrite fmap_cons. by right.
  - by rewrite Hn.
Qed.

Lemma MatchIndex_lined_up ix conds conds' :
  NoDup (col_name <$> ix_cols ix) → MatchIndex ix conds = (true, conds') →
  conds' ≡ₚ conds ∧ lined_up (ix_cols ix) conds'.
Proof.
  intros Hnd. unfold MatchIndex. destruct (_ =? _)%nat eqn:E; [|done]. intros [= <-].
  apply Nat.eqb_eq in E. destruct (match_cols_lined_up (ix_cols ix) conds) as [Hl Hin].
  split; [|done]. apply submseteq_length_Permutation; [|lia]. apply NoDup_submseteq; [|done].
  apply (NoDup_fmap_1 lhs_name). rewrite (lined_up_names (ix_cols ix)) by done.
  rewrite <-(take_drop (length (match_cols (ix_cols ix) conds)) (col_name <$> ix_cols ix)) in Hnd.
  by apply NoDup_app in Hnd as [? _].
Qed.

(** ** Properties *)

(** C38: the catalogue survives a shutdown: reading the text that [operator<<] writes of a
    database description gives the description back, tables in the order of their names,
    columns and indexes included, and leaves the stream behind it; names must be words
    without white space, and the counts those of the lists. *)
Theorem catalogue_roundtrip (db : DbMeta) (rest : bytes) :
  db_ok db → ends rest → ∃ ws, spaces ws ∧ in_db (out_db db ++ rest) = (Ok db, ws ++ rest).
Proof. intros Hdb Hrest. apply (reads_db db Hdb [] rest); [constructor|done]. Qed.

(** C39: [MatchIndex] answers true exactly when the conditions can be reordered to stand
    one each on a prefix of the index's columns, all but the last of them equalities; and
    then it leaves them in that order. *)
Theorem MatchIndex_iff_lined_up (ix : IndexMeta) (conds conds' : list Condition) :
  NoDup (col_name <$> ix_cols ix) →
  (MatchIndex ix conds = (true, conds') ↔ conds' ≡ₚ conds ∧ lined_up (ix_cols ix) conds').
Proof.
  intros Hnd. split; [by apply MatchIndex_lined_up|]. intros [Hp Hl]. unfold MatchIndex.
  rewrite (match_cols_complete _ conds [] conds'); [|done|by symmetry|done|by intros c Hc; apply elem_of_nil in Hc].
  by rewrite (Permutation_length Hp), Nat.eqb_refl.
Qed.

(** ** Examples *)

Definition demo_col (name : Z) (type : ColType) (offset : Z) : ColMeta :=
  mkCol [116] [name] type 4 offset false.
Definition demo_index : IndexMeta := mkIndex [116] 8 2 [demo_col 97 TYPE_INT 0; demo_col 98 TYPE_FLOAT 4].
Definition demo_tab : TabMeta := mkTab [116] [demo_col 97 TYPE_INT 0; demo_col 98 TYPE_FLOAT 4] [demo_index].
Definition demo_meta : DbMeta := mkDbMeta [100; 98] [([116], demo_tab); ([117], mkTab [117] [] [])].
Definition demo_cond (name : Z) (op : CompOp) : Condition :=
  mkCond (mkTabCol [116] [name]) op true (mkTabCol [] []) (mkValue TYPE_INT 5 [] (Some (i32 5))).

Lemma catalogue_roundtrip_witness :
  ∃ ws, spaces ws ∧ in_db (out_db demo_meta ++ [NEWLINE; 120]) = (Ok demo_meta, ws ++ [NEWLINE; 120]).
Proof.
  apply (catalogue_roundtrip demo_meta [NEWLINE; 120]); [|reflexivity].
  assert (∀ n t o, is_space n = false → i32_ok o = true → col_ok (demo_col n t o)) as Hcol.
  { intros n t o Hn Ho. split; [by repeat constructor|by repeat constructor|done|done]. }
  split; [by repeat constructor|done|by repeat constructor|by repeat constructor|].
  assert (col_ok (demo_col 97 TYPE_INT 0)) as H1 by by apply Hcol.
  assert (col_ok (demo_col 98 TYPE_FLOAT 4)) as H2 by by apply Hcol.
  assert (index_ok demo_index) as Hix.
  { split; [by repeat constructor|done..|]. by repeat (constructor; [done|]). }
  constructor; [|constructor; [|constructor]].
  - split; [by repeat constructor|done| |done|]; by repeat (constructor; [done|]).
  - split; [by repeat constructor|done|constructor|done|constructor].
Defined.

Lemma MatchIndex_iff_lined_up_witness :
  MatchIndex demo_index [demo_cond 98 OP_GT; demo_cond 97 OP_EQ]
  = (true, [demo_cond 97 OP_EQ; demo_cond 98 OP_GT]).
Proof.
  refine (proj2 (MatchIndex_iff_lined_up demo_index _ _ _) _).
  - apply (bool_decide_unpack _). vm_compute. exact I.
  - split; [apply perm_swap|]. split; [reflexivity|]. split; [right; reflexivity|].
    split; [reflexivity|]. split; [left; reflexivity|exact I].
Defined.
