(* ===== verification/Keys.v ===== *)
(** * Comparing index keys ([ix_compare], src/src/index/ix_index_handle.h)

    A key of an index is the concatenation of the raw values of its columns.
    [ix_compare] compares two keys column by column, an [int] as an integer, a [float] as
    a float and a string as bytes.  Of [memcmp]'s result only the sign is kept.  On keys
    without NaN it is a total preorder; the B+ tree and the gap locks rest on that. *)
From Stdlib Require Import Floats.SpecFloat.
From S2P Require Import Prelude Bytes Streams Meta.

(** A place in the leaves of an index (src/src/index/ix_defs.h). *)
Record Iid := mkIid { iid_page_no : Z; iid_slot_no : Z }.
#[export] Instance Iid_eq_dec : EqDecision Iid.
Proof. solve_decision. Defined.

Definition sign_of (c : comparison) : Z := match c with Lt => -1 | Eq => 0 | Gt => 1 end.

(** One column: [a] and [b] point to its first byte. *)
Definition ix_compare_col (a b : bytes) (type : ColType) (col_len : Z) : outcome Z :=
  match type with
  | TYPE_INT =>
      match rd_i32 a 0, rd_i32 b 0 with
      | Some ia, Some ib => Ok (if ia <? ib then -1 else if ia >? ib then 1 else 0)
      | _, _ => Stuck
      end
  | TYPE_FLOAT =>
      match rd_u32 a 0, rd_u32 b 0 with
      | Some fa, Some fb =>
          let c := SFcompare (float_of_bits fa) (float_of_bits fb) in
          Ok (if comp_holds c OP_LT then -1 else if comp_holds c OP_GT then 1 else 0)
      | _, _ => Stuck
      end
  | TYPE_STRING =>
      match rd a 0 col_len, rd b 0 col_len with
      | Some sa, Some sb => Ok (sign_of (str_compare sa sb))
      | _, _ => Stuck
      end
  | TYPE_DATETIME => Throw (InternalError "Unexpected data type")
  end.

Fixpoint ix_compare (a b : bytes) (cols : list ColMeta) : outcome Z :=
  match cols with
  | [] => Ok 0
  | c :: cols =>
      match ix_compare_col a b (col_type c) (col_len c) with
      | Ok res =>
          if negb (res =? 0) then Ok res
          else ix_compare (drop (Z.to_nat (col_len c)) a) (drop (Z.to_nat (col_len c)) b) cols
      | o => o
      end
  end.

(** The [Value] of a column of a key; the cases of the [switch] fall through, which for
    an [int] or a [float] stores the same four bytes twice. *)
Definition value_of_key (a : bytes) (type : ColType) (col_len : Z) : option Value :=
  let str := s ← rd a 0 col_len; Some (span (λ c, negb (c =? 0)) s).1 in
  match type with
  | TYPE_INT | TYPE_FLOAT =>
      bits ← rd_u32 a 0; s ← str; Some (mkValue type bits s None)
  | TYPE_STRING => s ← str; Some (mkValue type 0 s None)
  | TYPE_DATETIME => Some (mkValue type 0 [] None)
  end.
Definition ix_compare_value (a : bytes) (b_val : Value) (type : ColType) (col_len : Z) : outcome Z :=
  match value_of_key a type col_len with
  | None => Stuck
  | Some a_val =>
      match ValueComp a_val b_val OP_LT, ValueComp a_val b_val OP_GT with
      | Ok lt, Ok gt => Ok (if lt : bool then -1 else if gt : bool then 1 else 0)
      | Throw e, _ => Throw e
      | _, o => match o with Throw e => Throw e | _ => Stuck end
      end
  end.

(** ** Floats order like sign and magnitude *)

Definition nan_bits (x : Z) : Prop := x mod 2 ^ 31 > 255 * 2 ^ 23.
(** The bits below the sign, negated for a negative float; both zeroes have 0. *)
Definition float_rank (x : Z) : Z := if Z.testbit x 31 then - (x mod 2 ^ 31) else x mod 2 ^ 31.

(** A finite magnitude other than 0: its mantissa and exponent. *)
Definition magnitude (x : Z) : Z * Z :=
  let e := x / 2 ^ 23 in let m := x mod 2 ^ 23 in
  if e =? 0 then (m, -149) else (m + 2 ^ 23, e - 150).

Lemma magnitude_compare x y :
  0 ≤ x → 0 ≤ y →
  let '(m, e) := magnitude x in let '(m', e') := magnitude y in
  (x ?= y) = match e ?= e' with Eq => m ?= m' | c => c end.
Proof.
  intros Hx Hy. unfold magnitude.
  pose proof (Z.div_mod x (2 ^ 23) ltac:(lia)). pose proof (Z.mod_pos_bound x (2 ^ 23) ltac:(lia)).
  pose proof (Z.div_mod y (2 ^ 23) ltac:(lia)). pose proof (Z.mod_pos_bound y (2 ^ 23) ltac:(lia)).
  assert (0 ≤ x / 2 ^ 23) by (apply Z.div_pos; lia). assert (0 ≤ y / 2 ^ 23) by (apply Z.div_pos; lia).
  set (q := x / 2 ^ 23) in *. set (r := x mod 2 ^ 23) in *.
  set (q' := y / 2 ^ 23) in *. set (r' := y mod 2 ^ 23) in *.
  destruct (q =? 0) eqn:Eq, (q' =? 0) eqn:Eq';
    (match goal with |- _ = match ?a ?= ?b with _ => _ end => destruct (Z.compare_spec a b) end);
    try (apply Z.compare_lt_iff; lia); try (apply Z.compare_gt_iff; lia);
    (match goal with |- _ = (?a ?= ?b) => destruct (Z.compare_spec a b) end);
    (apply Z.compare_eq_iff || apply Z.compare_lt_iff || apply Z.compare_gt_iff); lia.
Qed.

(** What a float that is no NaN decodes to. *)
Inductive decoded (s : bool) (g : Z) : spec_float → Prop :=
  | decoded_zero : g = 0 → decoded s g (S754_zero s)
  | decoded_inf : g = 255 * 2 ^ 23 → decoded s g (S754_infinity s)
  | decoded_finite p e :
      0 < g < 255 * 2 ^ 23 → magnitude g = (Zpos p, e) → decoded s g (S754_finite s p e).

Lemma float_decoded x : ¬ nan_bits x → decoded (Z.testbit x 31) (x mod 2 ^ 31) (float_of_bits x).
Proof.
  unfold nan_bits. intros Hn. set (g := x mod 2 ^ 31) in *.
  pose proof (Z.mod_pos_bound x (2 ^ 31) ltac:(lia)) as Hg. fold g in Hg.
  assert (Z.shiftr x 23 mod 256 = g / 2 ^ 23) as He.
  { rewrite Z.shiftr_div_pow2 by lia. unfold g.
    replace (2 ^ 31) with (2 ^ 23 * 256) by lia.
    rewrite Z.rem_mul_r by lia. rewrite Z.mul_comm, Z.div_add by lia.
    rewrite (Z.div_small (x mod 2 ^ 23)) by (apply Z.mod_pos_bound; lia). lia. }
  assert (x mod 2 ^ 23 = g mod 2 ^ 23) as Hm.
  { unfold g. replace (2 ^ 31) with (2 ^ 23 * 256) by lia.
    rewrite Z.rem_mul_r by lia. rewrite Z.mul_comm, Z.mod_add by lia. by rewrite Z.mod_mod by lia. }
  unfold float_of_bits. rewrite He, Hm.
  pose proof (Z.div_mod g (2 ^ 23) ltac:(lia)) as Hd.
  pose proof (Z.mod_pos_bound g (2 ^ 23) ltac:(lia)) as Hb.
  destruct (g / 2 ^ 23 =? 255) eqn:E1.
  { assert (g mod 2 ^ 23 =? 0 = true) as -> by lia. apply decoded_inf. lia. }
  assert (0 ≤ g / 2 ^ 23) by (apply Z.div_pos; lia).
  assert (magnitude g = if g / 2 ^ 23 =? 0 then (g mod 2 ^ 23, -149) else (g mod 2 ^ 23 + 2 ^ 23, g / 2 ^ 23 - 150))
    as Hmag by done.
  destruct (g / 2 ^ 23 =? 0) eqn:E2.
  - destruct (g mod 2 ^ 23) as [|p|p] eqn:E3; [apply decoded_zero; lia| |lia].
    apply decoded_finite; [lia|done].
  - destruct (g mod 2 ^ 23 + 2 ^ 23) as [|p|p] eqn:E3; [lia| |lia].
    apply decoded_finite; [lia|done].
Qed.

Lemma SFcompare_finite s p e p' e' g g' :
  0 ≤ g → 0 ≤ g' → magnitude g = (Zpos p, e) → magnitude g' = (Zpos p', e') →
  SFcompare (S754_finite s p e) (S754_finite s p' e') = Some (if s then g' ?= g else g ?= g').
Proof.
  intros Hg Hg' Hm Hm'. pose proof (magnitude_compare g g' Hg Hg') as H. rewrite Hm, Hm' in H. simpl.
  rewrite (Z.compare_antisym g g'), H. clear. change (Z.pos p ?= Z.pos p') with (Pos.compare p p').
  destruct s, (e ?= e'); done.
Qed.

Lemma SFcompare_rank x y :
  ¬ nan_bits x → ¬ nan_bits y →
  SFcompare (float_of_bits x) (float_of_bits y) = Some (float_rank x ?= float_rank y).
Proof.
  intros Hx Hy. apply float_decoded in Hx, Hy. unfold float_rank.
  set (g := x mod 2 ^ 31) in *. set (g' := y mod 2 ^ 31) in *.
  assert (∀ a b, - a ?= - b = (b ?= a)) as Hopp.
  { intros a b. by rewrite Z.compare_opp. }
  destruct Hx as [Hg|Hg|p e Hg Hm], Hy as [Hg'|Hg'|p' e' Hg' Hm'];
    destruct (Z.testbit x 31), (Z.testbit y 31);
    try (rewrite (SFcompare_finite _ _ _ _ _ g g') by (done || lia); by rewrite ?Hopp);
    simpl; f_equal; symmetry;
    (apply Z.compare_eq_iff || apply Z.compare_lt_iff || apply Z.compare_gt_iff); lia.
Qed.

(** ** A total preorder *)

(** Comparison functions that are total preorders. *)
Record total_preorder {A} (cmp : A → A → comparison) : Prop := {
  tp_antisym a b : cmp b a = CompOpp (cmp a b);
  tp_eq a b c : cmp a b = Eq → cmp a c = cmp b c;
  tp_lt a b c : cmp a b = Lt → cmp b c = Lt → cmp a c = Lt;
}.

Definition lex (c1 c2 : comparison) : comparison := match c1 with Eq => c2 | c => c end.

Lemma total_preorder_Z {A} (f : A → Z) : total_preorder (λ a b, f a ?= f b).
Proof.
  split.
  - intros a b. apply Z.compare_antisym.
  - intros a b c ->%Z.compare_eq_iff. done.
  - intros a b c. rewrite !Z.compare_lt_iff. lia.
Qed.

Lemma total_preorder_lex {A} (f g : A → A → comparison) :
  total_preorder f → total_preorder g → total_preorder (λ a b, lex (f a b) (g a b)).
Proof.
  intros Hf Hg. split.
  - intros a b. rewrite (tp_antisym _ Hf a b), (tp_antisym _ Hg a b). by destruct (f a b).
  - intros a b c. destruct (f a b) eqn:E; try done. simpl. intros E'.
    by rewrite (tp_eq _ Hf _ _ c E), (tp_eq _ Hg _ _ c E').
  - intros a b c. destruct (f a b) eqn:E; simpl; try done.
    + intros E'. rewrite (tp_eq _ Hf _ _ c E). destruct (f b c); simpl; try done. by apply (tp_lt _ Hg).
    + intros _. destruct (f b c) eqn:E'; simpl; try done.
      * intros _. apply (tp_eq _ Hf b c a) in E'. rewrite (tp_antisym _ Hf a b), E in E'. simpl in E'.
        by rewrite (tp_antisym _ Hf c a), <-E'.
      * intros _. by rewrite (tp_lt _ Hf _ _ _ E E').
Qed.

Lemma total_preorder_map {A B} (f : A → A → comparison) (h : B → A) :
  total_preorder f → total_preorder (λ a b, f (h a) (h b)).
Proof. intros Hf. split; intros *; [apply (tp_antisym _ Hf)|apply (tp_eq _ Hf)|apply (tp_lt _ Hf)]. Qed.

Lemma str_compare_eq a b : str_compare a b = Eq → a = b.
Proof.
  revert b. induction a as [|x a IH]; intros [|y b]; simpl; try done.
  destruct (x ?= y) eqn:E; try done. intros H%IH. apply Z.compare_eq_iff in E. by subst.
Qed.

Lemma total_preorder_str : total_preorder str_compare.
Proof.
  split.
  - intros a b. apply str_compare_antisym.
  - by intros a b c ->%str_compare_eq.
  - intros a. induction a as [|x a IH]; intros [|y b] [|z c]; simpl; try done.
    destruct (x ?= y) eqn:E; try done.
    + apply Z.compare_eq_iff in E. subst y. destruct (x ?= z); try done. apply IH.
    + intros _. destruct (y ?= z) eqn:E'; try done.
      * apply Z.compare_eq_iff in E'. subst z. by rewrite E.
      * intros _. assert (x ?= z = Lt) as -> by (rewrite Z.compare_lt_iff in *; lia). done.
Qed.

Section preorder.
Context {A : Type} (cmp : A → A → comparison) (Ht : total_preorder cmp).

Lemma tp_refl a : cmp a a = Eq.
Proof. pose proof (tp_antisym _ Ht a a) as H. by destruct (cmp a a). Qed.

Lemma tp_lt_le a b c : cmp a b = Lt → cmp b c ≠ Gt → cmp a c = Lt.
Proof.
  intros Hab Hbc. destruct (cmp b c) eqn:E; [|by eapply (tp_lt _ Ht)|done].
  apply (tp_eq _ Ht b c a) in E. by rewrite (tp_antisym _ Ht c a), <-E, (tp_antisym _ Ht a b), Hab.
Qed.

Lemma tp_le_trans a b c : cmp a b ≠ Gt → cmp b c ≠ Gt → cmp a c ≠ Gt.
Proof.
  intros Hab Hbc. destruct (cmp a b) eqn:E; [|by rewrite (tp_lt_le a b c)|done].
  by rewrite (tp_eq _ Ht _ _ c E).
Qed.
End preorder.

(** The order of keys, and the keys it is the order of. *)
Definition col_cmp (type : ColType) (col_len : Z) (a b : bytes) : comparison :=
  match type with
  | TYPE_INT => default 0 (rd_i32 a 0) ?= default 0 (rd_i32 b 0)
  | TYPE_FLOAT => float_rank (default 0 (rd_u32 a 0)) ?= float_rank (default 0 (rd_u32 b 0))
  | _ => str_compare (default [] (rd a 0 col_len)) (default [] (rd b 0 col_len))
  end.
Fixpoint key_cmp (cols : list ColMeta) (a b : bytes) : comparison :=
  match cols with
  | [] => Eq
  | c :: cols =>
      lex (col_cmp (col_type c) (col_len c) a b)
        (key_cmp cols (drop (Z.to_nat (col_len c)) a) (drop (Z.to_nat (col_len c)) b))
  end.

Definition col_key_ok (type : ColType) (col_len : Z) (a : bytes) : Prop :=
  match type with
  | TYPE_INT => is_Some (rd_i32 a 0)
  | TYPE_FLOAT => ∃ x, rd_u32 a 0 = Some x ∧ ¬ nan_bits x
  | TYPE_STRING => is_Some (rd a 0 col_len)
  | TYPE_DATETIME => False
  end.
(** Every column is there, of a type that compares, and no float is NaN. *)
Fixpoint key_ok (cols : list ColMeta) (a : bytes) : Prop :=
  match cols with
  | [] => True
  | c :: cols => col_key_ok (col_type c) (col_len c) a ∧ key_ok cols (drop (Z.to_nat (col_len c)) a)
  end.

Lemma sign_of_Z x y : (if x <? y then -1 else if x >? y then 1 else 0) = sign_of (x ?= y).
Proof. unfold sign_of, Z.gtb, Z.ltb. by destruct (x ?= y). Qed.

Lemma ix_compare_col_spec a b type n :
  col_key_ok type n a → col_key_ok type n b → ix_compare_col a b type n = Ok (sign_of (col_cmp type n a b)).
Proof.
  unfold col_key_ok, ix_compare_col, col_cmp. destruct type.
  - intros [x ->] [y ->]. by rewrite sign_of_Z.
  - intros (x & -> & Hx) (y & -> & Hy). cbv zeta. rewrite SFcompare_rank by done.
    unfold default, id. by destruct (float_rank x ?= float_rank y).
  - by intros [x ->] [y ->].
  - done.
Qed.

Lemma ix_compare_spec cols a b :
  key_ok cols a → key_ok cols b → ix_compare a b cols = Ok (sign_of (key_cmp cols a b)).
Proof.
  revert a b. induction cols as [|c cols IH]; intros a b; simpl; [done|].
  intros [Ha Ha'] [Hb Hb']. rewrite ix_compare_col_spec by done.
  destruct (col_cmp _ _ a b) eqn:E; simpl; [by apply IH|done..].
Qed.

Lemma key_cmp_preorder cols : total_preorder (key_cmp cols).
Proof.
  induction cols as [|c cols IH]; [by split|].
  apply (total_preorder_lex (col_cmp (col_type c) (col_len c))
    (λ a b, key_cmp cols (drop (Z.to_nat (col_len c)) a) (drop (Z.to_nat (col_len c)) b))).
  - unfold col_cmp. destruct (col_type c).
    + apply total_preorder_Z.
    + apply (total_preorder_Z (λ a, float_rank (default 0 (rd_u32 a 0)))).
    + apply (total_preorder_map str_compare (λ a, default [] (rd a 0 (col_len c)))), total_preorder_str.
    + apply (total_preorder_map str_compare (λ a, default [] (rd a 0 (col_len c)))), total_preorder_str.
  - by apply (total_preorder_map (key_cmp cols)).
Qed.
#[export] Hint Resolve key_cmp_preorder : rmdb.

(** *** The order of keys, said without comparing

    A key read column by column, and the lexicographic order of what is read: the first
    column in which two keys differ decides, an [int] by its value, a [float] as a float,
    a string by its first byte that differs. *)
Inductive key_col := KInt (z : Z) | KFloat (f : spec_float) | KStr (s : bytes).

Definition read_col (c : ColMeta) (a : bytes) : key_col :=
  match col_type c with
  | TYPE_INT => KInt (default 0 (rd_i32 a 0))
  | TYPE_FLOAT => KFloat (float_of_bits (default 0 (rd_u32 a 0)))
  | _ => KStr (default [] (rd a 0 (col_len c)))
  end.
Fixpoint read_key (cols : list ColMeta) (a : bytes) : list key_col :=
  match cols with
  | [] => []
  | c :: cols => read_col c a :: read_key cols (drop (Z.to_nat (col_len c)) a)
  end.

Inductive bytes_before : bytes → bytes → Prop :=
  | bytes_end y s : bytes_before [] (y :: s)
  | bytes_here x y s s' : x < y → bytes_before (x :: s) (y :: s')
  | bytes_later x s s' : bytes_before s s' → bytes_before (x :: s) (x :: s').
Definition col_before (x y : key_col) : Prop :=
  match x, y with
  | KInt x, KInt y => x < y
  | KFloat x, KFloat y => SFltb x y = true
  | KStr x, KStr y => bytes_before x y
  | _, _ => False
  end.
(** The two zeroes of [float] are the same. *)
Definition col_same (x y : key_col) : Prop :=
  match x, y with
  | KFloat x, KFloat y => SFeqb x y = true
  | _, _ => x = y
  end.
Inductive key_before : list key_col → list key_col → Prop :=
  | key_here x y ks ks' : col_before x y → key_before (x :: ks) (y :: ks')
  | key_later x y ks ks' : col_same x y → key_before ks ks' → key_before (x :: ks) (y :: ks').

(** [c] is how [x] and [y] stand to each other. *)
Definition decides {A} (before same : A → A → Prop) (x y : A) (c : comparison) : Prop :=
  (c = Lt ↔ before x y) ∧ (c = Eq ↔ same x y) ∧ (c = Gt ↔ before y x).

Lemma bytes_before_compare x y : bytes_before x y ↔ str_compare x y = Lt.
Proof.
  split.
  - induction 1 as [|x y s s' H|x s s' _ IH]; cbn; [done| |by rewrite Z.compare_refl].
    by apply Z.compare_lt_iff in H as ->.
  - revert y. induction x as [|x s IH]; intros [|y s']; cbn; try done; [constructor|].
    destruct (Z.compare_spec x y) as [->|H|H]; [|by constructor|done]. intros. by constructor; apply IH.
Qed.

Lemma str_compare_decides x y : decides bytes_before eq x y (str_compare x y).
Proof.
  unfold decides. rewrite !bytes_before_compare. pose proof (tp_antisym _ total_preorder_str x y) as Ha.
  split_and!; [done| |rewrite Ha; destruct (str_compare x y); cbn; split; congruence].
  split; [apply str_compare_eq|]. intros ->. apply (tp_refl _ total_preorder_str).
Qed.

Lemma col_cmp_decides c a b :
  col_key_ok (col_type c) (col_len c) a → col_key_ok (col_type c) (col_len c) b →
  decides col_before col_same (read_col c a) (read_col c b) (col_cmp (col_type c) (col_len c) a b).
Proof.
  unfold col_key_ok, read_col, col_cmp, decides. destruct (col_type c); cbn.
  - intros [x ->] [y ->]. cbn. rewrite Z.compare_lt_iff, Z.compare_eq_iff, Z.compare_gt_iff. naive_solver.
  - intros (x & -> & Hx) (y & -> & Hy). cbn. unfold SFltb, SFeqb. rewrite !SFcompare_rank by done.
    rewrite (Z.compare_antisym (float_rank x) (float_rank y)).
    destruct (float_rank x ?= float_rank y); cbn; naive_solver.
  - intros _ _. destruct (str_compare_decides (default [] (rd a 0 (col_len c))) (default [] (rd b 0 (col_len c))))
      as (H1 & H2 & H3). split_and!; [exact H1| |exact H3]. rewrite H2. split; [by intros ->|by intros [= ->]].
  - done.
Qed.

Lemma key_cmp_decides cols a b :
  key_ok cols a → key_ok cols b →
  decides key_before (Forall2 col_same) (read_key cols a) (read_key cols b) (key_cmp cols a b).
Proof.
  revert a b. induction cols as [|c cols IH]; intros a b; cbn.
  { intros _ _. split_and!; split; intros H; try done; by inversion H. }
  intros [Ha Ha'] [Hb Hb']. pose proof (IH _ _ Ha' Hb') as (L & E & G).
  pose proof (col_cmp_decides c a b Ha Hb) as (l & e & g). pose proof (col_cmp_decides c b a Hb Ha) as (_ & e' & _).
  pose proof (tp_antisym _ (key_cmp_preorder [c]) a b) as Hanti. cbn in Hanti.
  assert (col_cmp (col_type c) (col_len c) b a = CompOpp (col_cmp (col_type c) (col_len c) a b)) as Ho
    by (by destruct (col_cmp _ _ b a), (col_cmp _ _ a b)).
  rewrite Ho in e'. clear Hanti Ho.
  unfold decides. destruct (col_cmp (col_type c) (col_len c) a b) eqn:Ec; cbn in *.
  - split_and!; [rewrite L|rewrite E|rewrite G]; split; intros H;
      [apply key_later; tauto| |by constructor; intuition| |apply key_later; tauto|]; inversion H; subst; intuition discriminate.
  - split_and!; (split; [try done; intros _|intros H; try done]); try (by apply key_here, l);
      inversion H; subst; intuition discriminate.
  - split_and!; (split; [try done; intros _|intros H; try done]); try (by apply key_here, g);
      inversion H; subst; intuition discriminate.
Qed.

(** ** Properties *)

(** C40: on keys whose columns are present and hold no NaN, [ix_compare] always answers: below
    0, 0 or above 0 exactly if, read column by column, the first key is before the second,
    the same, or after it in the lexicographic order.  So its answers are those of a total
    preorder: equal keys compare as 0, swapping the keys negates the answer, and "not
    above" is transitive, strictly if one step is strict. *)
Theorem ix_compare_total_preorder (cols : list ColMeta) (a b c : bytes) :
  key_ok cols a → key_ok cols b → key_ok cols c →
  ∃ ab bc ac, ix_compare a b cols = Ok ab ∧ ix_compare b c cols = Ok bc ∧ ix_compare a c cols = Ok ac ∧
    ((ab < 0 ↔ key_before (read_key cols a) (read_key cols b)) ∧
     (ab = 0 ↔ Forall2 col_same (read_key cols a) (read_key cols b)) ∧
     (0 < ab ↔ key_before (read_key cols b) (read_key cols a))) ∧
    ix_compare a a cols = Ok 0 ∧ ix_compare b a cols = Ok (- ab) ∧
    (ab ≤ 0 → bc ≤ 0 → ac ≤ 0) ∧ (ab < 0 → bc ≤ 0 → ac < 0).
Proof.
  intros Ha Hb Hc. pose proof (key_cmp_preorder cols) as Ht.
  exists (sign_of (key_cmp cols a b)), (sign_of (key_cmp cols b c)), (sign_of (key_cmp cols a c)).
  rewrite !ix_compare_spec by done. rewrite (tp_refl _ Ht a), (tp_antisym _ Ht a b).
  destruct (key_cmp_decides cols a b Ha Hb) as (<- & <- & <-).
  pose proof (tp_le_trans _ Ht a b c). pose proof (tp_lt_le _ Ht a b c).
  split_and!; try done; destruct (key_cmp cols a b), (key_cmp cols b c), (key_cmp cols a c);
    simpl; naive_solver lia.
Qed.

Lemma str_compare_min n s :
  length s = n → Forall byte_ok s → str_compare (replicate n 0) s ≠ Gt.
Proof.
  intros <-. induction 1 as [|c s Hc Hs IH]; [done|]. unfold byte_ok in Hc.
  cbn [length replicate str_compare]. destruct (Z.compare_spec 0 c); [exact IH|done|lia].
Qed.

Lemma str_compare_max n s :
  length s = n → Forall (λ c, 0 ≤ c ≤ 126) s → str_compare s (replicate n 126) ≠ Gt.
Proof.
  intros <-. induction 1 as [|c s Hc Hs IH]; [done|].
  cbn [length replicate str_compare]. destruct (Z.compare_spec c 126); [exact IH|done|lia].
Qed.

Lemma sign_of_le c : c ≠ Gt → sign_of c ≤ 0.
Proof. by destruct c. Qed.

Lemma rd_u32_key z : rd (u32 z) 0 4 = Some (u32 z).
Proof. reflexivity. Qed.

(** For an [int] column, and for a string column whose strings are printable,
    [generate_min] and [generate_max] make the lower and the upper bound of all keys that
    a range condition leaves open. *)
Theorem generated_bounds (type : ColType) (n : Z) (k s : bytes) (v lo hi : Value) :
  type = TYPE_INT ∨ type = TYPE_STRING ∧ rd k 0 n = Some s ∧ Forall (λ c, 0 ≤ c ≤ 126) s →
  col_key_ok type n k →
  generate_min type n v = Ok lo → generate_max type n v = Ok hi →
  ∃ l h r r', raw lo = Some l ∧ raw hi = Some h ∧
    ix_compare_col l k type n = Ok r ∧ r ≤ 0 ∧ ix_compare_col k h type n = Ok r' ∧ r' ≤ 0.
Proof.
  intros [->|(-> & Hs & Hp)] Hk.
  - destruct Hk as [x Hx]. pose proof (rd_i32_range _ _ _ Hx) as Hr. apply i32_ok_range in Hr.
    unfold generate_min, generate_max, init_raw. cbn [val_type val_bits str_val raw].
    destruct (raw v) eqn:Ev; [done|]. case_match; [|done]. intros [= <-] [= <-]. cbn [raw].
    assert (rd_i32 (u32 (INT_MIN mod 2 ^ 32)) 0 = Some INT_MIN) as Hlo by reflexivity.
    assert (rd_i32 (u32 INT_MAX) 0 = Some INT_MAX) as Hhi by reflexivity.
    eexists _, _, (sign_of (INT_MIN ?= x)), (sign_of (x ?= INT_MAX)). do 2 (split; [reflexivity|]).
    unfold ix_compare_col. rewrite Hx, Hlo, Hhi, !sign_of_Z. unfold INT_MIN, INT_MAX.
    split; [reflexivity|]. split; [|split; [reflexivity|]]; apply sign_of_le; rewrite Z.compare_gt_iff; lia.
  - unfold generate_min, generate_max. destruct (n <? 0) eqn:En; [done|].
    intros [= <-] [= <-]. cbn [raw]. pose proof (rd_length _ _ _ _ Hs) as Hl.
    assert (length s = Z.to_nat n) as Hn by lia.
    assert (∀ x, rd (replicate (Z.to_nat n) x) 0 n = Some (replicate (Z.to_nat n) x)) as Hrd.
    { intros x. apply rd_Some. rewrite length_replicate. split_and!; try lia.
      rewrite drop_0, firstn_all2; [done|]. rewrite length_replicate. lia. }
    do 4 eexists. do 2 (split; [reflexivity|]). unfold ix_compare_col. rewrite Hs, !Hrd.
    split; [reflexivity|]. split; [|split; [reflexivity|]]; apply sign_of_le.
    + apply str_compare_min; [done|]. eapply Forall_impl; [exact Hp|]. unfold byte_ok. lia.
    + by apply str_compare_max.
Qed.

(** For [float] columns [generate_min] gives [FLT_MIN], the smallest positive [float], so
    that a range open to below leaves out the negative keys; and [generate_max] of a string
    column is below the strings that start with a byte above 126, as those of UTF-8 text. *)
Theorem generated_bounds_miss_keys (v : Value) :
  raw v = None →
  (∃ lo l, generate_min TYPE_FLOAT 4 v = Ok lo ∧ raw lo = Some l ∧
    ix_compare_col l (u32 3212836864) TYPE_FLOAT 4 = Ok 1) ∧
  (∃ hi h, generate_max TYPE_STRING 4 v = Ok hi ∧ raw hi = Some h ∧
    ix_compare_col [228; 184; 173; 0] h TYPE_STRING 4 = Ok 1).
Proof.
  intros Hv. unfold generate_min, generate_max, init_raw. cbn [val_type raw]. rewrite Hv. split.
  - do 2 eexists. split; [reflexivity|]. split; [reflexivity|]. vm_compute. reflexivity.
  - do 2 eexists. split; [reflexivity|]. split; [reflexivity|]. vm_compute. reflexivity.
Qed.

(** ** Examples *)

Definition demo_key (n bits : Z) : bytes := i32 n ++ u32 bits.

Lemma demo_key_ok n bits :
  is_Some (rd_i32 (demo_key n bits) 0) → ¬ nan_bits (default 0 (rd_u32 (drop 4 (demo_key n bits)) 0)) →
  is_Some (rd_u32 (drop 4 (demo_key n bits)) 0) → key_ok (ix_cols demo_index) (demo_key n bits).
Proof.
  intros H1 H2 [x Hx]. split; [exact H1|]. split; [|exact I]. exists x.
  split; [exact Hx|]. rewrite Hx in H2. exact H2.
Qed.

(** (5, 1.0) < (5, 2.0) < (6, -1.0) *)
Lemma ix_compare_total_preorder_witness :
  ∃ ab bc ac,
    ix_compare (demo_key 5 1065353216) (demo_key 5 1073741824) (ix_cols demo_index) = Ok ab ∧
    ix_compare (demo_key 5 1073741824) (demo_key 6 3212836864) (ix_cols demo_index) = Ok bc ∧
    ix_compare (demo_key 5 1065353216) (demo_key 6 3212836864) (ix_cols demo_index) = Ok ac ∧
    (ab < 0 → bc ≤ 0 → ac < 0).
Proof.
  destruct (ix_compare_total_preorder (ix_cols demo_index) (demo_key 5 1065353216)
    (demo_key 5 1073741824) (demo_key 6 3212836864)) as (ab & bc & ac & H1 & H2 & H3 & _ & _ & _ & _ & H4).
  - apply demo_key_ok; [by eexists|vm_compute; discriminate|by eexists].
  - apply demo_key_ok; [by eexists|vm_compute; discriminate|by eexists].
  - apply demo_key_ok; [by eexists|vm_compute; discriminate|by eexists].
  - exists ab, bc, ac. split; [exact H1|]. split; [exact H2|]. split; [exact H3|exact H4].
Defined.

Definition demo_value : Value := mkValue TYPE_INT 0 [] None.

Lemma generated_bounds_witness :
  ∃ lo l r, generate_min TYPE_INT 4 demo_value = Ok lo ∧ raw lo = Some l ∧
    ix_compare_col l (i32 (-7)) TYPE_INT 4 = Ok r ∧ r ≤ 0.
Proof.
  destruct (generated_bounds TYPE_INT 4 (i32 (-7)) [] demo_value
    (mkValue TYPE_INT (INT_MIN mod 2 ^ 32) [] (Some (u32 (INT_MIN mod 2 ^ 32))))
    (mkValue TYPE_INT INT_MAX [] (Some (u32 INT_MAX)))) as (l & h & r & r' & H1 & _ & H3 & H4 & _).
  - left. reflexivity.
  - by eexists.
  - reflexivity.
  - reflexivity.
  - eexists _, l, r. split; [reflexivity|]. split; [exact H1|]. split; [exact H3|exact H4].
Defined.

Lemma generated_bounds_miss_keys_witness :
  ∃ lo l, generate_min TYPE_FLOAT 4 demo_value = Ok lo ∧ raw lo = Some l ∧
    ix_compare_col l (u32 3212836864) TYPE_FLOAT 4 = Ok 1.
Proof. apply (generated_bounds_miss_keys demo_value). reflexivity. Defined.
