(* ===== verification/IxNode.v ===== *)
(** * The header and the nodes of an index file (src/src/index/ix_defs.h,
      ix_index_handle.h and the [IxNodeHandle] part of ix_index_handle.cpp)

    A node is a page: the page header, then an array of keys, then an array of [Rid]s.
    A method of [IxNodeHandle] is a call on the bytes of the node's page; the pointers
    [keys] and [rids] are offsets into the page.  Arguments of type [const char *] and
    [const Rid *] are the memory they point to. *)
From S2P Require Import Prelude Bytes Disk Log Meta Keys.

Definition IX_NO_PAGE : Z := -1.
Definition IX_FILE_HDR_PAGE : Z := 0.
Definition IX_LEAF_HEADER_PAGE : Z := 1.
Definition IX_INIT_ROOT_PAGE : Z := 2.
Definition IX_INIT_NUM_PAGES : Z := 3.
Definition IX_MAX_COL_LEN : Z := 512.

(** ** The file header *)

Record IxFileHdr := mkIxFileHdr {
  first_free_page_no_ : Z;
  num_pages_ : Z;
  root_page_ : Z;
  col_num_ : Z;
  col_types_ : list ColType;
  col_lens_ : list Z;
  col_tot_len_ : Z;
  btree_order_ : Z;
  keys_size_ : Z;
  first_leaf_ : Z;
  last_leaf_ : Z;
  tot_len_ : Z;
}.

Definition IxFileHdr_new (first_free num_pages root col_num col_tot_len btree_order keys_size first_leaf last_leaf : Z) :
    IxFileHdr :=
  mkIxFileHdr first_free num_pages root col_num [] [] col_tot_len btree_order keys_size first_leaf last_leaf 0.

Definition set_root (p : Z) (h : IxFileHdr) : IxFileHdr :=
  mkIxFileHdr (first_free_page_no_ h) (num_pages_ h) p (col_num_ h) (col_types_ h) (col_lens_ h)
    (col_tot_len_ h) (btree_order_ h) (keys_size_ h) (first_leaf_ h) (last_leaf_ h) (tot_len_ h).
Definition set_first_leaf (p : Z) (h : IxFileHdr) : IxFileHdr :=
  mkIxFileHdr (first_free_page_no_ h) (num_pages_ h) (root_page_ h) (col_num_ h) (col_types_ h) (col_lens_ h)
    (col_tot_len_ h) (btree_order_ h) (keys_size_ h) p (last_leaf_ h) (tot_len_ h).
Definition set_last_leaf (p : Z) (h : IxFileHdr) : IxFileHdr :=
  mkIxFileHdr (first_free_page_no_ h) (num_pages_ h) (root_page_ h) (col_num_ h) (col_types_ h) (col_lens_ h)
    (col_tot_len_ h) (btree_order_ h) (keys_size_ h) (first_leaf_ h) p (tot_len_ h).
Definition add_pages (k : Z) (h : IxFileHdr) : IxFileHdr :=
  mkIxFileHdr (first_free_page_no_ h) (wrap32 (num_pages_ h + k)) (root_page_ h) (col_num_ h) (col_types_ h)
    (col_lens_ h) (col_tot_len_ h) (btree_order_ h) (keys_size_ h) (first_leaf_ h) (last_leaf_ h) (tot_len_ h).
Definition set_columns (types : list ColType) (lens : list Z) (h : IxFileHdr) : IxFileHdr :=
  mkIxFileHdr (first_free_page_no_ h) (num_pages_ h) (root_page_ h) (col_num_ h) types lens (col_tot_len_ h)
    (btree_order_ h) (keys_size_ h) (first_leaf_ h) (last_leaf_ h) (tot_len_ h).

Definition update_tot_len (h : IxFileHdr) : IxFileHdr :=
  mkIxFileHdr (first_free_page_no_ h) (num_pages_ h) (root_page_ h) (col_num_ h) (col_types_ h) (col_lens_ h)
    (col_tot_len_ h) (btree_order_ h) (keys_size_ h) (first_leaf_ h) (last_leaf_ h)
    (wrap32 (4 * 4 + 4 * 6 + 4 * col_num_ h + 4 * col_num_ h)).

(** What [serialize] writes to [dest]. *)
Definition hdr_bytes (h : IxFileHdr) : bytes :=
  let n := Z.to_nat (col_num_ h) in
  i32 (tot_len_ h) ++ i32 (first_free_page_no_ h) ++ i32 (num_pages_ h) ++ i32 (root_page_ h) ++
  i32 (col_num_ h) ++ concat ((λ t, i32 (ColType_val t)) <$> take n (col_types_ h)) ++
  concat (i32 <$> take n (col_lens_ h)) ++ i32 (col_tot_len_ h) ++ i32 (btree_order_ h) ++
  i32 (keys_size_ h) ++ i32 (first_leaf_ h) ++ i32 (last_leaf_ h).

(** [dest] has [tot_len_] bytes; the vectors must have [col_num_] elements. *)
Definition ix_serialize (h : IxFileHdr) : outcome bytes :=
  if (col_num_ h <=? len (col_types_ h)) && (col_num_ h <=? len (col_lens_ h)) &&
     (len (hdr_bytes h) =? tot_len_ h)
  then Ok (hdr_bytes h) else Stuck.

(** [n] consecutive [int]s *)
Fixpoint rd_ints (n : nat) (src : bytes) (offset : Z) : option (list Z) :=
  match n with
  | O => Some []
  | S n => z ← rd_i32 src offset; zs ← rd_ints n src (offset + 4); Some (z :: zs)
  end.

Definition ix_deserialize (src : bytes) : option IxFileHdr :=
  tot_len ← rd_i32 src 0;
  first_free ← rd_i32 src 4;
  num_pages ← rd_i32 src 8;
  root ← rd_i32 src 12;
  n ← rd_i32 src 16;
  let k := 4 * Z.max 0 n in
  types ← rd_ints (Z.to_nat n) src 20;
  types ← mapM ColType_of types;
  lens ← rd_ints (Z.to_nat n) src (20 + k);
  let offset := 20 + k + k in
  col_tot_len ← rd_i32 src offset;
  order ← rd_i32 src (offset + 4);
  keys_size ← rd_i32 src (offset + 8);
  first_leaf ← rd_i32 src (offset + 12);
  last_leaf ← rd_i32 src (offset + 16);
  if offset + 20 =? tot_len then
    Some (mkIxFileHdr first_free num_pages root n types lens col_tot_len order keys_size first_leaf last_leaf tot_len)
  else None.

(** ** The page of a node *)

(** [sizeof(IxPageHdr)] and the offsets of its fields; [is_leaf] is one byte. *)
Definition SIZEOF_IxPageHdr : Z := 24.
Definition OFF_next_free_page_no : Z := 0.
Definition OFF_parent : Z := 4.
Definition OFF_num_key : Z := 8.
Definition OFF_is_leaf : Z := 12.
Definition OFF_prev_leaf : Z := 16.
Definition OFF_next_leaf : Z := 20.

Definition SIZEOF_Rid : Z := 8.
Definition rid_bytes (r : Rid) : bytes := i32 (page_no r) ++ i32 (slot_no r).
Definition rid_at (d : bytes) (off : Z) : option Rid :=
  p ← rd_i32 d off; s ← rd_i32 d (off + 4); Some (mkRid p s).

(** The memory from a pointer into [d] on. *)
Definition mem_at (d : bytes) (off : Z) : option bytes :=
  if (0 <=? off) && (off <=? len d) then Some (drop (Z.to_nat off) d) else None.

(** Reads and writes of the page. *)
Definition reads {A} (g : bytes → option A) : M bytes A := let! d := gets id in of_option (g d).
Definition writes (g : bytes → option bytes) : M bytes unit :=
  let! d := gets id in let! d' := of_option (g d) in modify (λ _, d').

(** [memmove(dst, src, n)] inside of the page *)
Definition memmove (dst src n : Z) : M bytes unit := writes (λ d, bs ← rd d src n; wr d dst bs).

(** [ix_compare] of two keys with the columns of the file header *)
Fixpoint ix_compare_types (a b : bytes) (types : list ColType) (lens : list Z) : outcome Z :=
  match types with
  | [] => Ok 0
  | t :: types =>
      match lens with
      | [] => Stuck
      | n :: lens =>
          match ix_compare_col a b t n with
          | Ok res =>
              if negb (res =? 0) then Ok res
              else ix_compare_types (drop (Z.to_nat n) a) (drop (Z.to_nat n) b) types lens
          | o => o
          end
      end
  end.

(** [ix_compare] of a key with the values of a condition *)
Fixpoint ix_compare_values (a : bytes) (b : list Value) (types : list ColType) (lens : list Z) : outcome Z :=
  match types with
  | [] => Ok 0
  | t :: types =>
      match b, lens with
      | v :: b, n :: lens =>
          match ix_compare_value a v t n with
          | Ok res => if negb (res =? 0) then Ok res else ix_compare_values (drop (Z.to_nat n) a) b types lens
          | o => o
          end
      | _, _ => Stuck
      end
  end.

Module IxNodeHandle.
Section node.
Context (file_hdr : IxFileHdr).

Definition field (off : Z) : M bytes Z := reads (λ d, rd_i32 d off).
Definition set_field (off v : Z) : M bytes unit := writes (λ d, wr d off (i32 v)).

Definition get_size : M bytes Z := field OFF_num_key.
Definition set_size (size : Z) : M bytes unit := set_field OFF_num_key size.
Definition get_max_size : Z := btree_order_ file_hdr + 1.
Definition get_min_size : Z := Z.quot get_max_size 2.
Definition get_next_leaf : M bytes Z := field OFF_next_leaf.
Definition get_prev_leaf : M bytes Z := field OFF_prev_leaf.
Definition get_parent_page_no : M bytes Z := field OFF_parent.
Definition is_leaf_page : M bytes bool :=
  reads (λ d, b ← rd d OFF_is_leaf 1; Some (negb (bool_decide (b = [0])))).
Definition is_root_page : M bytes bool := let! p := get_parent_page_no in ret (p =? -1).
Definition set_next_leaf (page_no : Z) : M bytes unit := set_field OFF_next_leaf page_no.
Definition set_prev_leaf (page_no : Z) : M bytes unit := set_field OFF_prev_leaf page_no.
Definition set_parent_page_no (parent : Z) : M bytes unit := set_field OFF_parent parent.
Definition set_is_leaf (b : bool) : M bytes unit := writes (λ d, wr d OFF_is_leaf [if b then 1 else 0]).

(** [get_key] and [get_rid] are pointers: their offsets in the page. *)
Definition get_key (key_idx : Z) : Z := SIZEOF_IxPageHdr + key_idx * col_tot_len_ file_hdr.
Definition get_rid (rid_idx : Z) : Z := SIZEOF_IxPageHdr + keys_size_ file_hdr + rid_idx * SIZEOF_Rid.
(** The key and the [Rid] they point to. *)
Definition key_ (key_idx : Z) : M bytes bytes := reads (λ d, rd d (get_key key_idx) (col_tot_len_ file_hdr)).
Definition rid_ (rid_idx : Z) : M bytes Rid := reads (λ d, rid_at d (get_rid rid_idx)).
Definition set_key (key_idx : Z) (key : bytes) : M bytes unit :=
  writes (λ d, k ← rd key 0 (col_tot_len_ file_hdr); wr d (get_key key_idx) k).
Definition set_rid (rid_idx : Z) (rid : Rid) : M bytes unit := writes (λ d, wr d (get_rid rid_idx) (rid_bytes rid)).

Definition key_at (i : Z) : M bytes Z := reads (λ d, rd_i32 d (get_key i)).
Definition value_at (i : Z) : M bytes Z := let! r := rid_ i in ret (page_no r).

(** [ix_compare(get_key(i), target, ...)] and [memcmp(get_key(i), key, key_size) == 0] *)
Definition judge (target : bytes) (i : Z) : M bytes Z :=
  let! a := reads (λ d, mem_at d (get_key i)) in
  of_outcome (ix_compare_types a target (col_types_ file_hdr) (col_lens_ file_hdr)).
Definition judge_values (target : list Value) (i : Z) : M bytes Z :=
  let! a := reads (λ d, mem_at d (get_key i)) in
  of_outcome (ix_compare_values a target (col_types_ file_hdr) (col_lens_ file_hdr)).
Definition memcmp_key (i : Z) (key : bytes) : M bytes bool :=
  let! a := key_ i in
  let! b := of_option (rd key 0 (col_tot_len_ file_hdr)) in
  ret (bool_decide (a = b)).

(** The binary search of the four bounds: the interval shrinks in every round, and
    [fuel] rounds are enough for an interval of [fuel] keys. *)
Fixpoint bsearch (fuel : nat) (right : Z → bool) (jdg : Z → M bytes Z) (l r : Z) : M bytes Z :=
  if l <? r then
    match fuel with
    | O => stuck
    | S fuel =>
        let m := Z.quot (l + r) 2 in
        let! j := jdg m in
        if right j then bsearch fuel right jdg (m + 1) r else bsearch fuel right jdg l m
    end
  else ret l.

(** [right j]: the key [jdg] answers [j] for is left of the bound. *)
Definition bound (right : Z → bool) (jdg : Z → M bytes Z) : M bytes Z :=
  let! leaf := is_leaf_page in
  let l := if leaf : bool then 0 else 1 in
  let! n := get_size in
  let r := n - 1 in
  let! l := bsearch (Z.to_nat (r - l)) right jdg l r in
  let! j := jdg l in
  if right j then ret (-1) else ret l.

Definition lower_bound (target : bytes) : M bytes Z := bound (λ j, j <? 0) (judge target).
Definition lower_bound_values (target : list Value) : M bytes Z := bound (λ j, j <? 0) (judge_values target).
Definition upper_bound (target : bytes) : M bytes Z := bound (λ j, j <=? 0) (judge target).
Definition upper_bound_values (target : list Value) : M bytes Z := bound (λ j, j <=? 0) (judge_values target).

(** [Some] is the [Rid] the out-parameter points to. *)
Definition leaf_lookup (key : bytes) : M bytes (option Rid) :=
  let! rid_idx := lower_bound key in
  if rid_idx =? -1 then ret None else
  let! j := judge key rid_idx in
  if negb (j =? 0) then ret None else
  let! r := rid_ rid_idx in ret (Some r).

Definition internal_lookup (key : bytes) : M bytes Z :=
  let! pos := lower_bound key in
  let! pos :=
    (if pos =? -1 then let! n := get_size in ret (n - 1)
     else let! same := memcmp_key pos key in ret (if same : bool then pos else pos - 1)) in
  value_at pos.

Definition internal_lookup_values (key : list Value) : M bytes Z :=
  let! pos := lower_bound_values key in
  let! pos :=
    (if pos =? -1 then let! n := get_size in ret (n - 1)
     else let! j := judge_values key pos in ret (if negb (j =? 0) then pos - 1 else pos)) in
  value_at pos.

(** [key] and [rid] point to [n] keys and [n] [Rid]s. *)
Definition insert_pairs (pos : Z) (key rid : bytes) (n : Z) : M bytes unit :=
  let key_size := col_tot_len_ file_hdr in
  let! num := get_size in
  let num_keys := Z.max 0 (num - pos) in
  do! memmove (get_key pos + key_size * pos) (get_key pos) (num_keys * key_size) in
  do! memmove (get_rid pos + SIZEOF_Rid * pos) (get_rid pos) (num_keys * SIZEOF_Rid) in
  do! writes (λ d, k ← rd key 0 (n * key_size); wr d (get_key pos) k) in
  do! writes (λ d, r ← rd rid 0 (n * SIZEOF_Rid); wr d (get_rid pos) r) in
  let! num := get_size in
  set_size (wrap32 (num + n)).

Definition insert_pair (pos : Z) (key : bytes) (rid : Rid) : M bytes unit := insert_pairs pos key (rid_bytes rid) 1.

(** The end of [insert]: the pairs from [pos] on move up by one, the new pair is stored. *)
Definition store_pair (pos : Z) (key : bytes) (value : Rid) : M bytes unit :=
  let key_size := col_tot_len_ file_hdr in
  let! num := get_size in
  let num_keys := num - pos in
  do! memmove (get_key pos + key_size) (get_key pos) (num_keys * key_size) in
  do! memmove (get_rid pos + SIZEOF_Rid) (get_rid pos) (num_keys * SIZEOF_Rid) in
  do! set_key pos key in
  do! set_rid pos value in
  let! num := get_size in
  set_size (wrap32 (num + 1)).

Definition insert (key : bytes) (value : Rid) : M bytes Z :=
  let! n := get_size in
  let! pos :=
    (if n =? 0 then ret 0 else
     let! pos := lower_bound key in
     if pos =? -1 then get_size else
     let! same := memcmp_key pos key in
     if same : bool then throw IndexEntryExistsError else ret pos) in
  do! store_pair pos key value in
  get_size.

Definition erase_pair (pos : Z) : M bytes unit :=
  let key_size := col_tot_len_ file_hdr in
  let! num := get_size in
  let key_nums := num - pos - 1 in
  do! memmove (get_key pos) (get_key pos + key_size) (key_nums * key_size) in
  do! memmove (get_rid pos) (get_rid pos + SIZEOF_Rid) (key_nums * SIZEOF_Rid) in
  let! num := get_size in
  set_size (wrap32 (num - 1)).

Definition remove (key : bytes) : M bytes Z :=
  let! pos := lower_bound key in
  let! b := reads (λ d, mem_at d (get_key pos)) in
  let! j := of_outcome (ix_compare_types key b (col_types_ file_hdr) (col_lens_ file_hdr)) in
  do! (if j =? 0 then erase_pair pos else ret tt) in
  get_size.

Definition remove_and_return_only_child : M bytes Z :=
  let! n := get_size in
  do! massert (n =? 1) in
  let! child_page_no := value_at 0 in
  do! erase_pair 0 in
  let! n := get_size in
  do! massert (n =? 0) in
  ret child_page_no.

(** The loop of [find_child] from [rid_idx] on, [fuel] children before the end. *)
Fixpoint find_child_loop (fuel : nat) (child rid_idx : Z) : M bytes Z :=
  match fuel with
  | O => ret rid_idx
  | S fuel =>
      let! p := value_at rid_idx in
      if p =? child then ret rid_idx else find_child_loop fuel child (rid_idx + 1)
  end.
Definition find_child (child : Z) : M bytes Z :=
  let! num := get_size in
  let! rid_idx := find_child_loop (Z.to_nat num) child 0 in
  do! massert (rid_idx <? num) in
  ret rid_idx.

End node.
End IxNodeHandle.
