(* ===== verification/IxOrder.v ===== *)
(** * The order of an index

    The keys an index holds, and sorted lists of entries.  [plain_key cols k]: [k] is the
    concatenation of one value per column, without NaN and without -0.0; on plain keys the
    order of [ix_compare] is a strict total order and agrees with [memcmp] on equality.
    [index_insert] and [index_delete] on sorted lists are what the B+ tree implements. *)
From Stdlib Require Import Sorting.Sorted.
From S2P Require Import Prelude Bytes Log Streams Meta Keys IxNode.

(** ** Plain keys *)

Definition plain_col (type : ColType) (x : bytes) : Prop :=
  match type with
  | TYPE_INT => len x = 4 ∧ Forall byte_ok x
  | TYPE_FLOAT => len x = 4 ∧ Forall byte_ok x ∧ ¬ nan_bits (le_uint x) ∧ le_uint x ≠ 2 ^ 31
  | TYPE_STRING => True
  | TYPE_DATETIME => False
  end.

Fixpoint plain_key (cols : list ColMeta) (k : bytes) : Prop :=
  match cols with
  | [] => k = []
  | c :: cols => ∃ x k', k = x ++ k' ∧ len x = col_len c ∧ plain_col (col_type c) x ∧ plain_key cols k'
  end.

Definition cols_len (cols : list ColMeta) : Z := foldr (λ c n, col_len c + n) 0 cols.

Lemma plain_key_len cols k : plain_key cols k → len k = cols_len cols.
Proof.
  revert k. induction cols as [|c cols IH]; intros k; simpl; [by intros ->|].
  intros (x & k' & -> & Hx & _ & Hk%IH). rewrite length_app. lia.
Qed.

(** The columns an index can have: the comparison knows their type, and their length is that
    of the type. *)
Definition col_ok (c : ColMeta) : Prop :=
  match col_type c with
  | TYPE_INT | TYPE_FLOAT => col_len c = 4
  | TYPE_STRING => 0 ≤ col_len c
  | TYPE_DATETIME => False
  end.

Lemma zero_key_plain cols : Forall col_ok cols → plain_key cols (replicate (Z.to_nat (cols_len cols)) 0).
Proof.
  induction 1 as [|c cols Hc Hcs IH]; [done|]. cbn [plain_key cols_len foldr]. fold (cols_len cols).
  assert (0 ≤ col_len c) by (unfold col_ok in Hc; destruct (col_type c); lia).
  assert (0 ≤ cols_len cols) by (apply plain_key_len in IH; lia).
  exists (replicate (Z.to_nat (col_len c)) 0), (replicate (Z.to_nat (cols_len cols)) 0). split_and!.
  - by rewrite <-replicate_add, <-Z2Nat.inj_add.
  - rewrite length_replicate. lia.
  - unfold col_ok, plain_col in *. destruct (col_type c); try done; rewrite Hc; vm_compute; (split_and!; try done);
      by repeat constructor.
  - done.
Qed.

Lemma rd_prefix x r n : n = len x → rd (x ++ r) 0 n = Some x.
Proof. intros ->. by apply (rd_field [] x r). Qed.

Lemma le_uint_inj x y :
  length x = length y → Forall byte_ok x → Forall byte_ok y → le_uint x = le_uint y → x = y.
Proof.
  revert y. induction x as [|a x IH]; intros [|b y]; try done. intros [= Hl] [Ha Hx]%Forall_cons [Hb Hy]%Forall_cons Heq.
  change (a + 256 * le_uint x = b + 256 * le_uint y) in Heq. unfold byte_ok in *.
  pose proof (le_uint_range x Hx). pose proof (le_uint_range y Hy).
  assert (a = b) as -> by lia. f_equal. apply IH; [done..|lia].
Qed.

Lemma wrap32_inj x y : 0 ≤ x < 2 ^ 32 → 0 ≤ y < 2 ^ 32 → wrap32 x = wrap32 y → x = y.
Proof.
  unfold wrap32. intros Hx Hy Heq.
  assert ((x + 2 ^ 31) mod 2 ^ 32 = (y + 2 ^ 31) mod 2 ^ 32) as H by lia.
  pose proof (Z.div_mod (x + 2 ^ 31) (2 ^ 32)). pose proof (Z.div_mod (y + 2 ^ 31) (2 ^ 32)). lia.
Qed.

Lemma float_rank_inj x y :
  0 ≤ x < 2 ^ 32 → 0 ≤ y < 2 ^ 32 → x ≠ 2 ^ 31 → y ≠ 2 ^ 31 → float_rank x = float_rank y → x = y.
Proof.
  intros Hx Hy Hx0 Hy0. unfold float_rank.
  assert (∀ z, 0 ≤ z < 2 ^ 32 → Z.testbit z 31 = (2 ^ 31 <=? z)) as Hbit.
  { intros z Hz. rewrite Z.testbit_eqb by lia.
    pose proof (Z.div_mod z (2 ^ 31) ltac:(lia)). pose proof (Z.mod_pos_bound z (2 ^ 31) ltac:(lia)).
    destruct (Z.leb_spec (2 ^ 31) z).
    - assert (z / 2 ^ 31 = 1) as -> by lia. done.
    - assert (z / 2 ^ 31 = 0) as -> by lia. done. }
  rewrite !Hbit by done.
  pose proof (Z.div_mod x (2 ^ 31) ltac:(lia)). pose proof (Z.mod_pos_bound x (2 ^ 31) ltac:(lia)).
  pose proof (Z.div_mod y (2 ^ 31) ltac:(lia)). pose proof (Z.mod_pos_bound y (2 ^ 31) ltac:(lia)).
  destruct (Z.leb_spec (2 ^ 31) x), (Z.leb_spec (2 ^ 31) y); lia.
Qed.

(** The comparison of a column looks at the column's bytes only. *)
Lemma col_cmp_prefix type n x y r r' :
  len x = n → len y = n → plain_col type x → plain_col type y →
  col_cmp type n (x ++ r) (y ++ r') = col_cmp type n x y ∧
  col_key_ok type n (x ++ r) ∧ col_key_ok type n (y ++ r').
Proof.
  intros Hx Hy. unfold plain_col, col_cmp, col_key_ok, rd_i32, rd_u32.
  pose proof (rd_prefix x [] n (eq_sym Hx)) as Hx0. pose proof (rd_prefix y [] n (eq_sym Hy)) as Hy0.
  rewrite app_nil_r in Hx0, Hy0.
  pose proof (rd_prefix x r n (eq_sym Hx)) as Hxr. pose proof (rd_prefix y r' n (eq_sym Hy)) as Hyr.
  destruct type; try done.
  - intros [Hx4 _] [Hy4 _]. rewrite <-Hx in Hy. assert (n = 4) as -> by lia.
    rewrite Hx0, Hy0, Hxr, Hyr. cbn. split_and!; [done|by eexists..].
  - intros (Hx4 & _ & Hn & _) (Hy4 & _ & Hn' & _). assert (n = 4) as -> by lia.
    rewrite Hx0, Hy0, Hxr, Hyr. cbn. split_and!; eauto.
  - intros _ _. rewrite Hx0, Hy0, Hxr, Hyr. split_and!; [done|by eexists..].
Qed.

Lemma col_cmp_eq type n x y :
  len x = n → len y = n → plain_col type x → plain_col type y → col_cmp type n x y = Eq → x = y.
Proof.
  intros Hx Hy. unfold plain_col, col_cmp, rd_i32, rd_u32.
  pose proof (rd_prefix x [] n (eq_sym Hx)) as Hx0. pose proof (rd_prefix y [] n (eq_sym Hy)) as Hy0.
  rewrite app_nil_r in Hx0, Hy0.
  destruct type; try done.
  - intros [Hx4 Hbx] [Hy4 Hby]. assert (n = 4) as -> by lia. rewrite Hx0, Hy0. cbn.
    intros Heq%Z.compare_eq. apply le_uint_inj; [lia|done..|].
    pose proof (le_uint_range x Hbx) as H1. pose proof (le_uint_range y Hby) as H2. rewrite Hx4 in H1. rewrite Hy4 in H2.
    apply wrap32_inj; done.
  - intros (Hx4 & Hbx & _ & Hz) (Hy4 & Hby & _ & Hz'). assert (n = 4) as -> by lia. rewrite Hx0, Hy0. cbn.
    intros Heq%Z.compare_eq. apply le_uint_inj; [lia|done..|].
    pose proof (le_uint_range x Hbx) as H1. pose proof (le_uint_range y Hby) as H2. rewrite Hx4 in H1. rewrite Hy4 in H2.
    apply float_rank_inj; done.
  - intros _ _. rewrite Hx0, Hy0. apply str_compare_eq.
Qed.

(** [ix_compare] of plain keys, whatever memory lies behind them. *)
Lemma ix_compare_types_plain cols a b r r' :
  plain_key cols a → plain_key cols b →
  ix_compare_types (a ++ r) (b ++ r') (col_type <$> cols) (col_len <$> cols) = Ok (sign_of (key_cmp cols a b)).
Proof.
  revert a b r r'. induction cols as [|c cols IH]; intros a b r r'; simpl; [done|].
  intros (x & a' & -> & Hx & Hpx & Ha) (y & b' & -> & Hy & Hpy & Hb). rewrite <-!(assoc_L (++)).
  destruct (col_cmp_prefix (col_type c) (col_len c) x y (a' ++ r) (b' ++ r')) as (Hc & Hok & Hok'); [done..|].
  destruct (col_cmp_prefix (col_type c) (col_len c) x y a' b') as (Hc' & _ & _); [done..|].
  rewrite (ix_compare_col_spec _ _ _ _ Hok Hok'), Hc, Hc'.
  rewrite !drop_app_exact by lia. destruct (col_cmp (col_type c) (col_len c) x y) eqn:E; simpl; [by apply IH|done..].
Qed.

Lemma key_cmp_eq cols a b : plain_key cols a → plain_key cols b → key_cmp cols a b = Eq → a = b.
Proof.
  revert a b. induction cols as [|c cols IH]; intros a b; simpl; [by intros -> ->|].
  intros (x & a' & -> & Hx & Hpx & Ha) (y & b' & -> & Hy & Hpy & Hb).
  destruct (col_cmp_prefix (col_type c) (col_len c) x y a' b') as (Hc & _ & _); [done..|].
  rewrite Hc, !drop_app_exact by lia. destruct (col_cmp (col_type c) (col_len c) x y) eqn:E; simpl; try done.
  apply col_cmp_eq in E as ->; [|done..]. intros H. f_equal. by apply IH.
Qed.

(** ** The order *)

Section order.
Context (cols : list ColMeta).
Implicit Types (a b c k : bytes).

Definition klt a b : Prop := key_cmp cols a b = Lt.
#[export] Instance klt_dec a b : Decision (klt a b).
Proof using Type. unfold klt. solve_decision. Defined.

Lemma klt_irrefl a : ¬ klt a a.
Proof using Type. unfold klt. by rewrite (tp_refl _ (key_cmp_preorder cols)). Qed.

Lemma klt_trans a b c : klt a b → klt b c → klt a c.
Proof using Type. apply (tp_lt _ (key_cmp_preorder cols)). Qed.

Lemma klt_gt a b : key_cmp cols a b = Gt ↔ klt b a.
Proof using Type.
  unfold klt. pose proof (tp_antisym _ (key_cmp_preorder cols) b a) as H. split; intros E; rewrite E in H;
    [by destruct (key_cmp cols b a)|done].
Qed.

Lemma klt_asym a b : klt a b → ¬ klt b a.
Proof using Type. intros H1 H2. by apply (klt_irrefl a), (klt_trans a b a). Qed.

Lemma klt_total a b : plain_key cols a → plain_key cols b → klt a b ∨ a = b ∨ klt b a.
Proof using Type.
  intros Ha Hb. unfold klt at 1. destruct (key_cmp cols a b) eqn:E.
  - right. left. by eapply key_cmp_eq.
  - by left.
  - right. right. by apply klt_gt.
Qed.

Lemma klt_not a b : plain_key cols a → plain_key cols b → ¬ klt a b → a ≠ b → klt b a.
Proof using Type. intros Ha Hb H1 H2. destruct (klt_total a b Ha Hb) as [?|[?|?]]; done. Qed.

Lemma not_klt_trans a b c :
  plain_key cols a → plain_key cols b → plain_key cols c → ¬ klt a b → ¬ klt b c → ¬ klt a c.
Proof using Type.
  intros Ha Hb Hc H1 H2 H3. destruct (klt_total b c Hb Hc) as [?|[->|?]]; [done..|].
  apply H1. by apply (klt_trans a c b).
Qed.

(** The sign [ix_compare] answers. *)
Lemma sign_lt a b : sign_of (key_cmp cols a b) < 0 ↔ klt a b.
Proof using Type. unfold klt. destruct (key_cmp cols a b); simpl; split; (done || lia). Qed.
Lemma sign_gt a b : 0 < sign_of (key_cmp cols a b) ↔ klt b a.
Proof using Type. rewrite <-klt_gt. destruct (key_cmp cols a b); simpl; split; (done || lia). Qed.
Lemma sign_zero a b : plain_key cols a → plain_key cols b → sign_of (key_cmp cols a b) = 0 ↔ a = b.
Proof using Type.
  intros Ha Hb. split.
  - intros H. eapply key_cmp_eq; [done..|]. by destruct (key_cmp cols a b).
  - intros ->. by rewrite (tp_refl _ (key_cmp_preorder cols)).
Qed.

(** ** Sorted lists of keys and of entries *)

Abbreviation entry := (bytes * Rid)%type.
Definition sorted_keys (ks : list bytes) : Prop := StronglySorted klt ks.
Definition sorted (l : list entry) : Prop := sorted_keys l.*1.

Lemma sorted_keys_app ks ks' :
  sorted_keys (ks ++ ks') ↔ sorted_keys ks ∧ sorted_keys ks' ∧ ∀ a b, a ∈ ks → b ∈ ks' → klt a b.
Proof using Type.
  induction ks as [|k ks IH]; simpl.
  - split; [|naive_solver]. intros H. split; [constructor|]. split; [done|]. intros a b Ha. by apply elem_of_nil in Ha.
  - split.
    + intros (H & Hk)%StronglySorted_inv. apply IH in H as (H1 & H2 & H3). apply Forall_app in Hk as [Hk Hk'].
      split; [by constructor|]. split; [done|]. intros a b [->|Ha]%elem_of_cons Hb; [by eapply Forall_forall in Hk'; eauto|auto].
    + intros (H1 & H2 & H3). apply StronglySorted_inv in H1 as [H1 Hk]. constructor.
      * apply IH. split; [done|]. split; [done|]. intros a b Ha. apply H3. by right.
      * apply Forall_app. split; [done|]. apply Forall_forall. intros b Hb. apply H3; [by left|done].
Qed.

Lemma sorted_keys_cons k ks : sorted_keys (k :: ks) ↔ sorted_keys ks ∧ ∀ b, b ∈ ks → klt k b.
Proof using Type.
  split.
  - intros [? Hk]%StronglySorted_inv. split; [done|]. by apply Forall_forall.
  - intros [? Hk]. constructor; [done|]. by apply Forall_forall.
Qed.

(** The reference definitions. *)
Definition index_insert (k : bytes) (v : Rid) (l : list entry) : list entry :=
  filter (λ e, klt e.1 k) l ++ (k, v) :: filter (λ e, klt k e.1) l.
Definition index_delete (k : bytes) (l : list entry) : list entry := filter (λ e, e.1 ≠ k) l.

(** In a sorted list they act at one place. *)
Lemma index_insert_at k v (A B : list entry) :
  (∀ e, e ∈ A → klt e.1 k) → (∀ e, e ∈ B → klt k e.1) → index_insert k v (A ++ B) = A ++ (k, v) :: B.
Proof using Type.
  intros HA HB. unfold index_insert. rewrite !filter_app.
  rewrite (filter_all _ A), (filter_none _ B), (filter_none _ A), (filter_all _ B), app_nil_r; [done|..].
  - intros e He. by apply HB.
  - intros e He. by apply klt_asym, HA.
  - intros e He. by apply klt_asym, HB.
  - intros e He. by apply HA.
Qed.

Lemma index_delete_at k v (A B : list entry) :
  (∀ e, e ∈ A → klt e.1 k) → (∀ e, e ∈ B → klt k e.1) → index_delete k (A ++ (k, v) :: B) = A ++ B.
Proof using Type.
  intros HA HB. unfold index_delete. rewrite filter_app, filter_cons_False by naive_solver.
  rewrite !filter_all; [done|..]; intros e He <-; [by apply (klt_irrefl e.1), HB|by apply (klt_irrefl e.1), HA].
Qed.

Lemma index_insert_sorted k v l : sorted l → sorted (index_insert k v l).
Proof using Type.
  intros Hs. unfold sorted, index_insert in *. rewrite fmap_app, fmap_cons, sorted_keys_app, sorted_keys_cons.
  assert (∀ P `{!∀ x, Decision (P x)}, sorted_keys (filter P l).*1) as Hf.
  { intros P HP. unfold sorted_keys in *. induction l as [|e l IH]; [constructor|]. cbn in Hs.
    apply StronglySorted_inv in Hs as [Hs He]. rewrite filter_cons. case_decide; [|by apply IH].
    cbn. constructor; [by apply IH|]. apply Forall_forall. intros b (e' & -> & He')%list_elem_of_fmap.
    apply list_elem_of_filter in He' as [_ He']. eapply Forall_forall; [exact He|]. by apply list_elem_of_fmap_2. }
  assert (∀ b, b ∈ (filter (λ e, klt k e.1) l).*1 → klt k b) as Hgt.
  { intros b (e & -> & He)%list_elem_of_fmap. by apply list_elem_of_filter in He as [? _]. }
  split; [apply Hf|]. split; [by split; [apply Hf|]|].
  intros a b (e & -> & He)%list_elem_of_fmap Hb. apply list_elem_of_filter in He as [He _].
  apply elem_of_cons in Hb as [->|Hb]; [done|]. by apply (klt_trans _ k _), Hgt.
Qed.

End order.
