(* ===== verification/IxPage.v ===== *)
(** * The contents of a node's page

    The abstract node [inode] of an index page: the fields of its header and its two arrays
    with all their slots, those behind the last key too, which the code reads at times.  The
    rules of this file say what the reads and writes of IxNode.v do to it; [node_wp] chains
    them, so that the methods of [IxNodeHandle] are reasoned about without their bytes. *)
From S2P Require Import Prelude Bytes Disk Log Meta Keys IxNode IxOrder.
Import IxNodeHandle.

(** ** Arrays of items of one width *)

Definition splice {A} (b : nat) (xs l : list A) : list A := take b l ++ xs ++ drop (b + length xs) l.

Lemma splice_length {A} b (xs l : list A) : (b + length xs ≤ length l)%nat → length (splice b xs l) = length l.
Proof. intros H. unfold splice. rewrite !length_app, length_take, length_drop. lia. Qed.

Lemma splice_lookup {A} b (xs l : list A) i :
  (b + length xs ≤ length l)%nat →
  splice b xs l !! i = if decide (b ≤ i < b + length xs)%nat then xs !! (i - b)%nat else l !! i.
Proof.
  intros H. unfold splice. case_decide as D.
  - rewrite lookup_app_r; rewrite length_take; [|lia]. rewrite lookup_app_l by lia. f_equal. lia.
  - destruct (decide (i < b)%nat).
    + rewrite lookup_app_l by (rewrite length_take; lia). apply lookup_take_lt. lia.
    + rewrite lookup_app_r; rewrite length_take; [|lia]. rewrite lookup_app_r by lia. rewrite lookup_drop. f_equal. lia.
Qed.

Lemma splice_one {A} b (x : A) l : (b < length l)%nat → splice b [x] l = <[b := x]> l.
Proof.
  intros Hb. apply list_eq. intros i. rewrite splice_lookup by (simpl; lia). simpl.
  case_decide as D.
  - assert (i = b) as -> by lia. rewrite Nat.sub_diag, list_lookup_insert_eq by lia. done.
  - rewrite list_lookup_insert_ne by lia. done.
Qed.

Lemma splice_forall {A} (P : A → Prop) b xs l : Forall P xs → Forall P l → Forall P (splice b xs l).
Proof. intros. repeat apply Forall_app_2; [by apply Forall_take|done|by apply Forall_drop]. Qed.

Definition uniform {A} (w : nat) (l : list (list A)) : Prop := Forall (λ x, length x = w) l.

Section uniform.
Context {A : Type} (w : nat).
Implicit Types (l : list (list A)).

Lemma concat_length l : uniform w l → length (concat l) = (length l * w)%nat.
Proof. induction 1 as [|x l Hx _ IH]; [done|]. simpl. rewrite length_app, IH, Hx. done. Qed.

Lemma concat_take l a : uniform w l → take (a * w) (concat l) = concat (take a l).
Proof.
  intros Hl. revert a. induction Hl as [|x l Hx _ IH]; intros a; [by destruct a; simpl; rewrite ?take_nil|].
  destruct a as [|a]; [done|]. simpl. rewrite take_app_ge by lia. rewrite Hx.
  replace (w + a * w - w)%nat with (a * w)%nat by lia. by rewrite IH.
Qed.

Lemma concat_drop l a : uniform w l → drop (a * w) (concat l) = concat (drop a l).
Proof.
  intros Hl. revert a. induction Hl as [|x l Hx _ IH]; intros a; [by destruct a; simpl; rewrite ?drop_nil|].
  destruct a as [|a]; [done|]. simpl. rewrite drop_app_ge by lia. rewrite Hx.
  replace (w + a * w - w)%nat with (a * w)%nat by lia. by rewrite IH.
Qed.

Lemma uniform_slice l a n : uniform w l → uniform w (take n (drop a l)).
Proof. intros H. by apply Forall_take, Forall_drop. Qed.
End uniform.

(** A block in the middle of memory. *)
Lemma rd_mid d o n x :
  rd d o n = Some x ↔ ∃ pre post, d = pre ++ x ++ post ∧ len pre = o ∧ len x = n.
Proof.
  split.
  - intros H. pose proof (rd_length _ _ _ _ H) as Hl. apply rd_Some in H as (? & ? & ? & ->).
    exists (take (Z.to_nat o) d), (drop (Z.to_nat n) (drop (Z.to_nat o) d)).
    rewrite take_drop, take_drop, length_take. split_and!; [done|lia|done].
  - intros (pre & post & -> & <- & <-). by apply rd_field.
Qed.

Lemma wr_mid pre x y post :
  length y = length x → wr (pre ++ x ++ post) (len pre) y = Some (pre ++ y ++ post).
Proof.
  intros Hl. apply wr_Some. rewrite !length_app. split_and!; [lia|lia|].
  rewrite Nat2Z.id, take_app_length. f_equal. f_equal. rewrite Hl, <-length_app, (assoc_L (++)).
  symmetry. apply drop_app_length.
Qed.

Section array.
Context (d : bytes) (o : Z) (w : nat) (l : list bytes).
Context (Hl : uniform w l) (Hrd : rd d o (len l * Z.of_nat w) = Some (concat l)).

Lemma array_read a n :
  (a + n ≤ length l)%nat →
  rd d (o + Z.of_nat a * Z.of_nat w) (Z.of_nat n * Z.of_nat w) = Some (concat (take n (drop a l))).
Proof using Hl Hrd.
  intros Han. apply rd_mid in Hrd as (pre & post & -> & <- & _). apply rd_mid.
  exists (pre ++ concat (take a l)), (concat (drop n (drop a l)) ++ post). split_and!.
  - rewrite <-!(assoc_L (++)). f_equal. rewrite !(assoc_L (++)). f_equal.
    rewrite <-(assoc_L (++)). rewrite <-(concat_app (take n _)), take_drop, <-concat_app, take_drop. done.
  - rewrite length_app, (concat_length w) by by apply Forall_take.
    rewrite length_take, Nat.min_l by lia. lia.
  - rewrite (concat_length w) by by apply uniform_slice. rewrite length_take, length_drop, Nat.min_l by lia. lia.
Qed.

Lemma array_write b xs :
  uniform w xs → (b + length xs ≤ length l)%nat →
  ∃ d', wr d (o + Z.of_nat b * Z.of_nat w) (concat xs) = Some d' ∧ length d' = length d ∧
    rd d' o (len l * Z.of_nat w) = Some (concat (splice b xs l)) ∧
    ∀ o2 n2, o2 + n2 ≤ o ∨ o + len l * Z.of_nat w ≤ o2 → rd d' o2 n2 = rd d o2 n2.
Proof using Hl Hrd.
  intros Hxs Hb. pose proof (array_read b (length xs) Hb) as Hold.
  apply rd_mid in Hold as (pre & post & Hd & Hpre & Hmid).
  assert (length (concat xs) = length (concat (take (length xs) (drop b l)))) as Hlen.
  { rewrite !(concat_length w); [|by apply uniform_slice|done]. rewrite length_take, length_drop, Nat.min_l by lia. done. }
  pose proof (wr_mid pre _ (concat xs) post Hlen) as Hw. rewrite <-Hd, Hpre in Hw.
  eexists. split; [exact Hw|]. pose proof (wr_length _ _ _ _ Hw) as HL. split; [done|]. split.
  - apply rd_mid in Hrd as (pre0 & post0 & Hd0 & Hpre0 & Hlen0).
    rewrite <-(take_drop b l), concat_app, <-(take_drop (length xs) (drop b l)), concat_app in Hd0.
    rewrite Hd in Hd0. rewrite <-!(assoc_L (++)) in Hd0. rewrite (assoc_L (++) pre0) in Hd0.
    apply app_inj_1 in Hd0 as [-> Hd0].
    2: { rewrite length_app, (concat_length w) by by apply Forall_take. rewrite length_take, Nat.min_l by lia. lia. }
    apply app_inv_head in Hd0 as ->. apply rd_mid. exists pre0, post0. split_and!.
    + unfold splice. rewrite !concat_app, <-drop_drop, <-!(assoc_L (++)). done.
    + done.
    + rewrite (concat_length w); [|by apply splice_forall]. rewrite splice_length by done. lia.
  - intros o2 n2 Ho. eapply rd_wr_disjoint; [exact Hw|]. rewrite (concat_length w) by done.
    assert (Z.of_nat b * Z.of_nat w + len xs * Z.of_nat w ≤ len l * Z.of_nat w) by nia. nia.
Qed.
End array.

Lemma rid_bytes_length r : length (rid_bytes r) = 8%nat.
Proof. unfold rid_bytes, i32. by rewrite length_app, !le_bytes_length. Qed.

Lemma rids_uniform rs : uniform 8 (rid_bytes <$> rs).
Proof. apply Forall_fmap, Forall_true. intros r. apply rid_bytes_length. Qed.

Definition rid_ok (r : Rid) : Prop := i32_ok (page_no r) = true ∧ i32_ok (slot_no r) = true.

Lemma rid_at_bytes d off r : rd d off 8 = Some (rid_bytes r) → rid_ok r → rid_at d off = Some r.
Proof.
  intros (pre & post & -> & <- & _)%rd_mid [Hp Hs]. unfold rid_at, rd_i32, rid_bytes, i32.
  rewrite <-(assoc_L (++)), (rd_field pre _ _ (len pre) 4) by (rewrite ?le_bytes_length; done). cbn.
  rewrite (assoc_L (++) pre), (rd_field (pre ++ _) _ post (len pre + 4) 4);
    [|rewrite length_app, le_bytes_length; lia|by rewrite le_bytes_length].
  cbn. rewrite !wrap32_le_uint_i32 by done. by destruct r.
Qed.

(** ** The abstract node *)

Record inode := mkNode {
  nd_parent : Z;
  nd_num : Z;
  nd_leaf : bool;
  nd_prev : Z;
  nd_next : Z;
  nd_keys : list bytes;
  nd_rids : list Rid;
}.

Definition with_parent p n := mkNode p (nd_num n) (nd_leaf n) (nd_prev n) (nd_next n) (nd_keys n) (nd_rids n).
Definition with_num k n := mkNode (nd_parent n) k (nd_leaf n) (nd_prev n) (nd_next n) (nd_keys n) (nd_rids n).
Definition with_leaf b n := mkNode (nd_parent n) (nd_num n) b (nd_prev n) (nd_next n) (nd_keys n) (nd_rids n).
Definition with_prev p n := mkNode (nd_parent n) (nd_num n) (nd_leaf n) p (nd_next n) (nd_keys n) (nd_rids n).
Definition with_next p n := mkNode (nd_parent n) (nd_num n) (nd_leaf n) (nd_prev n) p (nd_keys n) (nd_rids n).
Definition with_keys ks n := mkNode (nd_parent n) (nd_num n) (nd_leaf n) (nd_prev n) (nd_next n) ks (nd_rids n).
Definition with_rids rs n := mkNode (nd_parent n) (nd_num n) (nd_leaf n) (nd_prev n) (nd_next n) (nd_keys n) rs.

Section page.
(** The columns of the index; [tot] and [order] are [col_tot_len_] and [btree_order_]. *)
Context (cols : list ColMeta) (tot order : Z).

Definition cap : nat := Z.to_nat (order + 1).

(** The parts of the file header the layout of the pages depends on. *)
Record fits (h : IxFileHdr) : Prop := {
  fi_tot : col_tot_len_ h = tot;
  fi_order : btree_order_ h = order;
  fi_keys : keys_size_ h = (order + 1) * tot;
  fi_types : col_types_ h = col_type <$> cols;
  fi_lens : col_lens_ h = col_len <$> cols;
}.

(** The columns fill the keys, and the arrays lie inside of the page. *)
Record layout_ok : Prop := {
  la_types : Forall col_ok cols;
  la_cols : cols_len cols = tot;
  la_tot : 0 < tot;
  la_order : 2 < order;
  la_fit : SIZEOF_IxPageHdr + (order + 1) * (tot + SIZEOF_Rid) ≤ PAGE_SIZE;
}.

Record node_ok (d : bytes) (n : inode) : Prop := {
  no_len : len d = PAGE_SIZE;
  no_parent : rd_i32 d OFF_parent = Some (nd_parent n);
  no_num : rd_i32 d OFF_num_key = Some (nd_num n);
  no_leaf : (b ← rd d OFF_is_leaf 1; Some (negb (bool_decide (b = [0])))) = Some (nd_leaf n);
  no_prev : rd_i32 d OFF_prev_leaf = Some (nd_prev n);
  no_next : rd_i32 d OFF_next_leaf = Some (nd_next n);
  no_keys : rd d SIZEOF_IxPageHdr ((order + 1) * tot) = Some (concat (nd_keys n));
  no_rids : rd d (SIZEOF_IxPageHdr + (order + 1) * tot) ((order + 1) * SIZEOF_Rid)
    = Some (concat (rid_bytes <$> nd_rids n));
  no_nkeys : length (nd_keys n) = cap;
  no_nrids : length (nd_rids n) = cap;
  no_plain : Forall (plain_key cols) (nd_keys n);
  no_rok : Forall rid_ok (nd_rids n);
}.

Definition node_wp {A} (m : M bytes A) (n : inode) (Q : A → inode → Prop) (E : exn → inode → Prop) : Prop :=
  ∀ d, node_ok d n → wp m (λ a d', ∃ n', node_ok d' n' ∧ Q a n') (λ e d', ∃ n', node_ok d' n' ∧ E e n') d.

Section rules.
Context (Hlay : layout_ok) (h : IxFileHdr) (Hfit : fits h) (E : exn → inode → Prop).
Implicit Types (n : inode).

Lemma cap_Z : Z.of_nat cap = order + 1.
Proof using Hlay. unfold cap. pose proof (la_order Hlay). lia. Qed.

Lemma nw_bind {A B} (m : M bytes B) (k : B → M bytes A) n Q :
  node_wp m n (λ b n', node_wp (k b) n' Q E) E → node_wp (bind m k) n Q E.
Proof using Type.
  intros Hm d Hd. apply wp_bind. eapply wp_mono; [by apply Hm|]. intros b d' (n' & Hd' & Hk). by apply Hk.
Qed.

Lemma nw_ret {A} (a : A) n (Q : A → inode → Prop) : Q a n → node_wp (ret a) n Q E.
Proof using Type. intros HQ d Hd. apply wp_ret. eauto. Qed.

Lemma nw_throw {A} e n (Q : A → inode → Prop) : E e n → node_wp (throw e) n Q E.
Proof using Type. intros HQ d Hd. apply wp_throw. eauto. Qed.

Lemma nw_mono {A} (m : M bytes A) n (Q Q' : A → inode → Prop) :
  node_wp m n Q E → (∀ a n', Q a n' → Q' a n') → node_wp m n Q' E.
Proof using Type.
  intros Hm HQ d Hd. eapply wp_mono; [by apply Hm|]. intros a d' (n' & ? & ?). eauto.
Qed.

Lemma nw_massert b n (Q : unit → inode → Prop) : b = true → Q tt n → node_wp (massert b) n Q E.
Proof using Type. intros -> HQ d Hd. apply wp_ret. eauto. Qed.

(** Reads that leave the page as it is. *)
Lemma nw_reads {A} (g : bytes → option A) n a (Q : A → inode → Prop) :
  (∀ d, node_ok d n → g d = Some a) → Q a n → node_wp (reads g) n Q E.
Proof using Type.
  intros Hg HQ d Hd. unfold reads. apply wp_bind, wp_gets. unfold id. rewrite (Hg d Hd).
  apply wp_ret. eauto.
Qed.

Lemma nw_get_size n (Q : Z → inode → Prop) : Q (nd_num n) n → node_wp get_size n Q E.
Proof using Type. exact (nw_reads _ n _ Q (λ d, no_num d n)). Qed.
Lemma nw_get_parent n (Q : Z → inode → Prop) : Q (nd_parent n) n → node_wp get_parent_page_no n Q E.
Proof using Type. exact (nw_reads _ n _ Q (λ d, no_parent d n)). Qed.
Lemma nw_get_next n (Q : Z → inode → Prop) : Q (nd_next n) n → node_wp get_next_leaf n Q E.
Proof using Type. exact (nw_reads _ n _ Q (λ d, no_next d n)). Qed.
Lemma nw_get_prev n (Q : Z → inode → Prop) : Q (nd_prev n) n → node_wp get_prev_leaf n Q E.
Proof using Type. exact (nw_reads _ n _ Q (λ d, no_prev d n)). Qed.
Lemma nw_is_leaf n (Q : bool → inode → Prop) : Q (nd_leaf n) n → node_wp is_leaf_page n Q E.
Proof using Type. exact (nw_reads _ n _ Q (λ d, no_leaf d n)). Qed.
Lemma nw_is_root n (Q : bool → inode → Prop) : Q (nd_parent n =? -1) n → node_wp is_root_page n Q E.
Proof using Type. intros HQ. by apply nw_bind, nw_get_parent, nw_ret. Qed.

(** A write into the page header changes the other fields and the arrays in nothing. *)
Lemma nw_writes_hdr off bs n n' (Q : unit → inode → Prop) :
  0 ≤ off → off + len bs ≤ SIZEOF_IxPageHdr → nd_keys n' = nd_keys n → nd_rids n' = nd_rids n →
  (∀ d d', node_ok d n → wr d off bs = Some d' →
    rd_i32 d' OFF_parent = Some (nd_parent n') ∧ rd_i32 d' OFF_num_key = Some (nd_num n') ∧
    (b ← rd d' OFF_is_leaf 1; Some (negb (bool_decide (b = [0])))) = Some (nd_leaf n') ∧
    rd_i32 d' OFF_prev_leaf = Some (nd_prev n') ∧ rd_i32 d' OFF_next_leaf = Some (nd_next n')) →
  Q tt n' → node_wp (writes (λ d, wr d off bs)) n Q E.
Proof using Hlay.
  intros Ho Hb Hk Hr Hf HQ d Hd. unfold writes. apply wp_bind, wp_gets, wp_bind. unfold id.
  apply wp_of_option.
  { apply wr_is_Some; [done|]. rewrite (no_len _ _ Hd). unfold SIZEOF_IxPageHdr, PAGE_SIZE in *. lia. }
  intros d' Hw. apply wp_modify. exists n'. split; [|done].
  destruct (Hf d d' Hd Hw) as (? & ? & ? & ? & ?). pose proof (wr_length _ _ _ _ Hw).
  pose proof Hlay as [_ _ Ht Hord _]. unfold SIZEOF_IxPageHdr in *.
  split; try done; rewrite ?Hk, ?Hr; try apply Hd.
  - rewrite <-(no_len _ _ Hd). lia.
  - erewrite rd_wr_disjoint; [apply Hd|exact Hw|]. unfold SIZEOF_IxPageHdr. lia.
  - erewrite rd_wr_disjoint; [apply Hd|exact Hw|]. unfold SIZEOF_IxPageHdr. nia.
Qed.

Ltac hdr_write :=
  eapply nw_writes_hdr; cycle 5; [eassumption|done|unfold i32; rewrite ?le_bytes_length; done|done|done|];
  let d := fresh "d" in let d' := fresh "d'" in intros d d' Hd Hw;
  split_and!; cbn [nd_parent nd_num nd_leaf nd_prev nd_next with_parent with_num with_leaf with_prev with_next];
  match goal with
  | Hd : node_ok _ _, Hw : wr _ _ _ = Some _ |- _ =>
      first [by eapply rd_i32_wr
            |rewrite (rd_i32_disjoint _ _ _ _ _ Hw); [apply Hd|unfold i32; rewrite ?le_bytes_length;
               unfold OFF_parent, OFF_num_key, OFF_is_leaf, OFF_prev_leaf, OFF_next_leaf; cbn; lia]
            |rewrite (rd_wr_disjoint _ _ _ _ _ _ Hw); [apply Hd|unfold i32; rewrite ?le_bytes_length;
               unfold OFF_parent, OFF_num_key, OFF_is_leaf, OFF_prev_leaf, OFF_next_leaf; cbn; lia]
            |idtac]
  end.

Lemma nw_set_size k n (Q : unit → inode → Prop) : i32_ok k = true → Q tt (with_num k n) → node_wp (set_size k) n Q E.
Proof using Hlay. intros Hk HQ. unfold set_size, set_field. hdr_write. Qed.
Lemma nw_set_parent k n (Q : unit → inode → Prop) :
  i32_ok k = true → Q tt (with_parent k n) → node_wp (set_parent_page_no k) n Q E.
Proof using Hlay. intros Hk HQ. unfold set_parent_page_no, set_field. hdr_write. Qed.
Lemma nw_set_next k n (Q : unit → inode → Prop) :
  i32_ok k = true → Q tt (with_next k n) → node_wp (set_next_leaf k) n Q E.
Proof using Hlay. intros Hk HQ. unfold set_next_leaf, set_field. hdr_write. Qed.
Lemma nw_set_prev k n (Q : unit → inode → Prop) :
  i32_ok k = true → Q tt (with_prev k n) → node_wp (set_prev_leaf k) n Q E.
Proof using Hlay. intros Hk HQ. unfold set_prev_leaf, set_field. hdr_write. Qed.
Lemma nw_set_leaf b n (Q : unit → inode → Prop) : Q tt (with_leaf b n) → node_wp (set_is_leaf b) n Q E.
Proof using Hlay.
  intros HQ. unfold set_is_leaf. hdr_write.
  rewrite (rd_wr_same _ _ _ _ 1 Hw) by done. by destruct b.
Qed.

(** *** The arrays *)

Lemma tot_nat : Z.of_nat (Z.to_nat tot) = tot.
Proof using Hlay. pose proof (la_tot Hlay). lia. Qed.

Lemma plain_uniform ks : Forall (plain_key cols) ks → uniform (Z.to_nat tot) ks.
Proof using Hlay.
  intros H. eapply Forall_impl; [exact H|]. intros k Hk%plain_key_len. rewrite (la_cols Hlay) in Hk.
  pose proof (la_tot Hlay). lia.
Qed.

Lemma keys_uniform d n : node_ok d n → uniform (Z.to_nat tot) (nd_keys n).
Proof using Hlay. intros Hd. apply plain_uniform, Hd. Qed.

Lemma keys_rd d n :
  node_ok d n → rd d SIZEOF_IxPageHdr (len (nd_keys n) * Z.of_nat (Z.to_nat tot)) = Some (concat (nd_keys n)).
Proof using Hlay. intros Hd. rewrite tot_nat, (no_nkeys _ _ Hd), cap_Z. apply Hd. Qed.

Lemma rids_rd d n :
  node_ok d n → rd d (SIZEOF_IxPageHdr + (order + 1) * tot) (len (rid_bytes <$> nd_rids n) * Z.of_nat 8)
    = Some (concat (rid_bytes <$> nd_rids n)).
Proof using Hlay. intros Hd. rewrite length_fmap, (no_nrids _ _ Hd), cap_Z. apply Hd. Qed.

Lemma get_key_nat i : 0 ≤ i → get_key h i = SIZEOF_IxPageHdr + Z.of_nat (Z.to_nat i) * Z.of_nat (Z.to_nat tot).
Proof using Hlay Hfit. intros. unfold get_key. rewrite (fi_tot _ Hfit), tot_nat, Z2Nat.id by done. done. Qed.

Lemma get_rid_nat i :
  0 ≤ i → get_rid h i = SIZEOF_IxPageHdr + (order + 1) * tot + Z.of_nat (Z.to_nat i) * Z.of_nat 8.
Proof using Hfit. intros. unfold get_rid, SIZEOF_Rid. rewrite (fi_keys _ Hfit), Z2Nat.id by done. lia. Qed.

Lemma keys_read d n a m :
  node_ok d n → 0 ≤ a → 0 ≤ m → a + m ≤ order + 1 →
  rd d (get_key h a) (m * tot) = Some (concat (take (Z.to_nat m) (drop (Z.to_nat a) (nd_keys n)))).
Proof using Hlay Hfit.
  intros Hd Ha Hm Hb. rewrite get_key_nat by done.
  rewrite <-(array_read d SIZEOF_IxPageHdr (Z.to_nat tot)); [|by eapply keys_uniform|by apply keys_rd|].
  - rewrite !tot_nat, !Z2Nat.id by done. done.
  - rewrite (no_nkeys _ _ Hd). pose proof cap_Z. lia.
Qed.

Lemma rids_read d n a m :
  node_ok d n → 0 ≤ a → 0 ≤ m → a + m ≤ order + 1 →
  rd d (get_rid h a) (m * SIZEOF_Rid)
    = Some (concat (rid_bytes <$> take (Z.to_nat m) (drop (Z.to_nat a) (nd_rids n)))).
Proof using Hlay Hfit.
  intros Hd Ha Hm Hb. rewrite get_rid_nat by done. rewrite fmap_take, fmap_drop.
  rewrite <-(array_read d (SIZEOF_IxPageHdr + (order + 1) * tot) 8); [|apply rids_uniform|by apply rids_rd|].
  - unfold SIZEOF_Rid. rewrite !Z2Nat.id by done. done.
  - rewrite length_fmap, (no_nrids _ _ Hd). pose proof cap_Z. lia.
Qed.

Lemma keys_write d n b xs :
  node_ok d n → Forall (plain_key cols) xs → 0 ≤ b → b + len xs ≤ order + 1 →
  ∃ d', wr d (get_key h b) (concat xs) = Some d' ∧
    node_ok d' (with_keys (splice (Z.to_nat b) xs (nd_keys n)) n).
Proof using Hlay Hfit.
  intros Hd Hxs Hb Hx. rewrite get_key_nat by done. pose proof cap_Z as Hcap. pose proof (no_nkeys _ _ Hd) as Hlen.
  destruct (array_write d SIZEOF_IxPageHdr (Z.to_nat tot) (nd_keys n) (keys_uniform _ _ Hd) (keys_rd _ _ Hd)
    (Z.to_nat b) xs) as (d' & Hw & HL & Hrd & Hdis); [by apply plain_uniform|rewrite Hlen; lia|].
  exists d'. split; [exact Hw|]. rewrite tot_nat, Hlen, Hcap in *.
  pose proof Hlay as [_ _ Ht Ho _].
  assert (∀ off, off + 4 ≤ 24 → rd_i32 d' off = rd_i32 d off) as Hi.
  { intros off Hoff. unfold rd_i32. rewrite Hdis; [done|left]. unfold SIZEOF_IxPageHdr. lia. }
  split; cbn; try (rewrite Hi; [apply Hd|done]).
  - rewrite HL. apply Hd.
  - rewrite Hdis; [apply Hd|by left].
  - exact Hrd.
  - rewrite Hdis; [apply Hd|right; lia].
  - rewrite splice_length by lia. done.
  - apply Hd.
  - apply splice_forall; [done|apply Hd].
  - apply Hd.
Qed.

Lemma rids_write d n b xs :
  node_ok d n → Forall rid_ok xs → 0 ≤ b → b + len xs ≤ order + 1 →
  ∃ d', wr d (get_rid h b) (concat (rid_bytes <$> xs)) = Some d' ∧
    node_ok d' (with_rids (splice (Z.to_nat b) xs (nd_rids n)) n).
Proof using Hlay Hfit.
  intros Hd Hxs Hb Hx. rewrite get_rid_nat by done. pose proof cap_Z as Hcap. pose proof (no_nrids _ _ Hd) as Hlen.
  destruct (array_write d (SIZEOF_IxPageHdr + (order + 1) * tot) 8 (rid_bytes <$> nd_rids n)
    (rids_uniform _) (rids_rd _ _ Hd) (Z.to_nat b) (rid_bytes <$> xs)) as (d' & Hw & HL & Hrd & Hdis);
    [apply rids_uniform|rewrite !length_fmap; lia|].
  exists d'. split; [exact Hw|]. rewrite length_fmap, Hlen, Hcap in *.
  pose proof Hlay as [_ _ Ht Ho _].
  assert (∀ off, off + 4 ≤ 24 → rd_i32 d' off = rd_i32 d off) as Hi.
  { intros off Hoff. unfold rd_i32. rewrite Hdis; [done|left]. unfold SIZEOF_IxPageHdr. nia. }
  split; cbn; try (rewrite Hi; [apply Hd|done]).
  - rewrite HL. apply Hd.
  - rewrite Hdis; [apply Hd|left]. unfold SIZEOF_IxPageHdr, OFF_is_leaf. nia.
  - rewrite Hdis; [apply Hd|left]. lia.
  - unfold splice in *. rewrite !fmap_app, fmap_take, fmap_drop. rewrite length_fmap in Hrd. exact Hrd.
  - apply Hd.
  - rewrite splice_length by lia. done.
  - apply Hd.
  - apply splice_forall; [done|apply Hd].
Qed.

Lemma nw_writes (g : bytes → option bytes) n n' (Q : unit → inode → Prop) :
  (∀ d, node_ok d n → ∃ d', g d = Some d' ∧ node_ok d' n') → Q tt n' → node_wp (writes g) n Q E.
Proof using Type.
  intros Hg HQ d Hd. destruct (Hg d Hd) as (d' & Hgd & Hd'). unfold writes. apply wp_bind, wp_gets, wp_bind.
  unfold id. rewrite Hgd. apply wp_ret, wp_modify. eauto.
Qed.

Lemma concat_one (k : bytes) : concat [k] = k.
Proof using Type. simpl. apply app_nil_r. Qed.

Lemma take_one {A} (l : list A) a x : l !! a = Some x → take 1 (drop a l) = [x].
Proof using Type. intros Hx. by rewrite (drop_S _ _ _ Hx). Qed.

Lemma key_bounds d n i k : node_ok d n → nd_keys n !! Z.to_nat i = Some k → i + 1 ≤ order + 1.
Proof using Hlay. intros Hd Hk%lookup_lt_Some. rewrite (no_nkeys _ _ Hd) in Hk. pose proof cap_Z. lia. Qed.
Lemma rid_bounds d n i r : node_ok d n → nd_rids n !! Z.to_nat i = Some r → i + 1 ≤ order + 1.
Proof using Hlay. intros Hd Hk%lookup_lt_Some. rewrite (no_nrids _ _ Hd) in Hk. pose proof cap_Z. lia. Qed.

Lemma nw_key i k n (Q : bytes → inode → Prop) :
  0 ≤ i → nd_keys n !! Z.to_nat i = Some k → Q k n → node_wp (key_ h i) n Q E.
Proof using Hlay Hfit.
  intros Hi Hk. apply nw_reads. intros d Hd. rewrite (fi_tot _ Hfit).
  pose proof (keys_read d n i 1 Hd Hi ltac:(lia) (key_bounds _ _ _ _ Hd Hk)) as H.
  rewrite Z.mul_1_l in H. rewrite H. change (Z.to_nat 1) with 1%nat. by rewrite (take_one _ _ _ Hk), concat_one.
Qed.

Lemma nw_rid i r n (Q : Rid → inode → Prop) :
  0 ≤ i → nd_rids n !! Z.to_nat i = Some r → Q r n → node_wp (rid_ h i) n Q E.
Proof using Hlay Hfit.
  intros Hi Hr. apply nw_reads. intros d Hd. apply rid_at_bytes.
  - pose proof (rids_read d n i 1 Hd Hi ltac:(lia) (rid_bounds _ _ _ _ Hd Hr)) as H.
    rewrite Z.mul_1_l in H. change (rd d (get_rid h i) 8 = Some (concat (rid_bytes <$> take 1 (drop (Z.to_nat i) (nd_rids n))))) in H.
    rewrite H, (take_one _ _ _ Hr). cbn [fmap list_fmap]. by rewrite concat_one.
  - eapply Forall_lookup_1; [apply Hd|exact Hr].
Qed.

Lemma nw_value_at i r n (Q : Z → inode → Prop) :
  0 ≤ i → nd_rids n !! Z.to_nat i = Some r → Q (page_no r) n → node_wp (value_at h i) n Q E.
Proof using Hlay Hfit. intros Hi Hr HQ. unfold value_at. apply nw_bind. eapply nw_rid; [done|done|]. by apply nw_ret. Qed.

(** Runs of keys and of [Rid]s, as [memcpy] between pages reads and writes them. *)
Lemma nw_read_keys a m z n (Q : bytes → inode → Prop) :
  0 ≤ a → 0 ≤ m → a + m ≤ order + 1 → z = m * tot →
  Q (concat (take (Z.to_nat m) (drop (Z.to_nat a) (nd_keys n)))) n →
  node_wp (reads (λ d, rd d (get_key h a) z)) n Q E.
Proof using Hlay Hfit. intros ??? ->. apply nw_reads. intros d Hd. by apply keys_read. Qed.

Lemma nw_read_rids a m z n (Q : bytes → inode → Prop) :
  0 ≤ a → 0 ≤ m → a + m ≤ order + 1 → z = m * SIZEOF_Rid →
  Q (concat (rid_bytes <$> take (Z.to_nat m) (drop (Z.to_nat a) (nd_rids n)))) n →
  node_wp (reads (λ d, rd d (get_rid h a) z)) n Q E.
Proof using Hlay Hfit. intros ??? ->. apply nw_reads. intros d Hd. by apply rids_read. Qed.

Lemma nw_write_keys b bs xs n (Q : unit → inode → Prop) :
  bs = concat xs → Forall (plain_key cols) xs → 0 ≤ b → b + len xs ≤ order + 1 →
  Q tt (with_keys (splice (Z.to_nat b) xs (nd_keys n)) n) →
  node_wp (writes (λ d, wr d (get_key h b) bs)) n Q E.
Proof using Hlay Hfit. intros -> ???. apply nw_writes. intros d Hd. by apply keys_write. Qed.

Lemma nw_write_rids b bs xs n (Q : unit → inode → Prop) :
  bs = concat (rid_bytes <$> xs) → Forall rid_ok xs → 0 ≤ b → b + len xs ≤ order + 1 →
  Q tt (with_rids (splice (Z.to_nat b) xs (nd_rids n)) n) →
  node_wp (writes (λ d, wr d (get_rid h b) bs)) n Q E.
Proof using Hlay Hfit. intros -> ???. apply nw_writes. intros d Hd. by apply rids_write. Qed.

Lemma nw_set_key i key k n (Q : unit → inode → Prop) :
  rd key 0 tot = Some k → plain_key cols k → 0 ≤ i < order + 1 →
  Q tt (with_keys (<[Z.to_nat i := k]> (nd_keys n)) n) → node_wp (set_key h i key) n Q E.
Proof using Hlay Hfit.
  intros Hk Hp Hi HQ. eapply nw_writes; [|exact HQ].
  intros d Hd. rewrite (fi_tot _ Hfit), Hk. cbn.
  destruct (keys_write d n i [k] Hd) as (d' & Hw & Hd').
  - by constructor.
  - lia.
  - simpl. lia.
  - rewrite concat_one in Hw. exists d'. split; [done|].
    rewrite splice_one in Hd'; [done|]. rewrite (no_nkeys _ _ Hd). pose proof cap_Z. lia.
Qed.

Lemma nw_set_rid i r n (Q : unit → inode → Prop) :
  rid_ok r → 0 ≤ i < order + 1 →
  Q tt (with_rids (<[Z.to_nat i := r]> (nd_rids n)) n) → node_wp (set_rid h i r) n Q E.
Proof using Hlay Hfit.
  intros Hr Hi HQ. eapply nw_writes; [|exact HQ].
  intros d Hd. destruct (rids_write d n i [r] Hd) as (d' & Hw & Hd').
  - by constructor.
  - lia.
  - simpl. lia.
  - cbn [fmap list_fmap] in Hw. rewrite concat_one in Hw. exists d'. split; [done|].
    rewrite splice_one in Hd'; [done|]. rewrite (no_nrids _ _ Hd). pose proof cap_Z. lia.
Qed.

(** [memmove] of [m] keys, or [Rid]s, from slot [a] to slot [b]. *)
Lemma nw_move_keys b a m dst src z n (Q : unit → inode → Prop) :
  dst = get_key h b → src = get_key h a → z = m * tot →
  0 ≤ a → 0 ≤ b → 0 ≤ m → a + m ≤ order + 1 → b + m ≤ order + 1 → length (nd_keys n) = cap →
  Q tt (with_keys (splice (Z.to_nat b) (take (Z.to_nat m) (drop (Z.to_nat a) (nd_keys n))) (nd_keys n)) n) →
  node_wp (memmove dst src z) n Q E.
Proof using Hlay Hfit.
  intros -> -> -> ????? Hc HQ. eapply nw_writes; [|exact HQ].
  intros d Hd. rewrite (keys_read d n) by done. cbn. apply keys_write; [done| |done|].
  - apply Forall_take, Forall_drop. exact (no_plain _ _ Hd).
  - rewrite length_take, length_drop, Hc. pose proof cap_Z. lia.
Qed.

Lemma nw_move_rids b a m dst src z n (Q : unit → inode → Prop) :
  dst = get_rid h b → src = get_rid h a → z = m * SIZEOF_Rid →
  0 ≤ a → 0 ≤ b → 0 ≤ m → a + m ≤ order + 1 → b + m ≤ order + 1 → length (nd_rids n) = cap →
  Q tt (with_rids (splice (Z.to_nat b) (take (Z.to_nat m) (drop (Z.to_nat a) (nd_rids n))) (nd_rids n)) n) →
  node_wp (memmove dst src z) n Q E.
Proof using Hlay Hfit.
  intros -> -> -> ????? Hc HQ. eapply nw_writes; [|exact HQ].
  intros d Hd. rewrite (rids_read d n) by done. cbn. apply rids_write; [done| |done|].
  - apply Forall_take, Forall_drop. exact (no_rok _ _ Hd).
  - rewrite length_take, length_drop, Hc. pose proof cap_Z. lia.
Qed.

End rules.
End page.
