(* ===== verification/IxNodeSpec.v ===== *)
(** * What the methods of a node do

    Searching, inserting and erasing in a node, on the abstract node of IxPage.v.  The
    pairs a node holds are [live n], the first [nd_num n] of its slots. *)
From Stdlib Require Import Sorting.Sorted.
From S2P Require Import Prelude Bytes Disk Log Meta Keys IxNode IxOrder IxPage.
Import IxNodeHandle.

Definition lkeys (n : inode) : list bytes := take (Z.to_nat (nd_num n)) (nd_keys n).
Definition lrids (n : inode) : list Rid := take (Z.to_nat (nd_num n)) (nd_rids n).
Definition live (n : inode) : list (bytes * Rid) := zip (lkeys n) (lrids n).

(** The fields of the header but for the number of keys. *)
Definition same_links (n n' : inode) : Prop :=
  nd_parent n' = nd_parent n ∧ nd_leaf n' = nd_leaf n ∧ nd_prev n' = nd_prev n ∧ nd_next n' = nd_next n.

(** ** Lists of slots *)

Section slots.
Context {A : Type}.
Implicit Types (l : list A) (x : A).

Lemma store_slots pos num x l :
  (pos ≤ num)%nat → (num < length l)%nat →
  take (S num) (<[pos := x]> (splice (S pos) (take (num - pos) (drop pos l)) l))
    = take pos (take num l) ++ x :: drop pos (take num l).
Proof using Type.
  intros Hp Hn. assert (length (take (num - pos) (drop pos l)) = (num - pos)%nat) as HL.
  { rewrite length_take, length_drop. lia. }
  apply list_eq. intros i. destruct (decide (i < S num)%nat) as [Hi|Hi].
  - rewrite lookup_take_lt by done. destruct (decide (i = pos)) as [->|Hip].
    + rewrite list_lookup_insert_eq by (rewrite splice_length; lia).
      rewrite lookup_app_r; rewrite !length_take; [|lia]. by replace (pos - _)%nat with 0%nat by lia.
    + rewrite list_lookup_insert_ne by done. rewrite splice_lookup by lia. rewrite HL. case_decide as D.
      * rewrite lookup_take_lt, lookup_drop by lia.
        rewrite lookup_app_r; rewrite !length_take; [|lia].
        replace (i - (pos `min` (num `min` length l)))%nat with (S (i - S pos)) by lia. simpl.
        rewrite lookup_drop, lookup_take_lt by lia. done.
      * rewrite lookup_app_l by (rewrite !length_take; lia). by rewrite !lookup_take_lt by lia.
  - rewrite lookup_take_ge by lia. symmetry. apply lookup_ge_None.
    rewrite length_app. simpl. rewrite length_drop, !length_take. lia.
Qed.

Lemma erase_slots pos num l :
  (pos < num)%nat → (num ≤ length l)%nat →
  take (num - 1) (splice pos (take (num - pos - 1) (drop (S pos) l)) l) = delete pos (take num l).
Proof using Type.
  intros Hp Hn. assert (length (take (num - pos - 1) (drop (S pos) l)) = (num - pos - 1)%nat) as HL.
  { rewrite length_take, length_drop. lia. }
  apply list_eq. intros i. destruct (decide (i < num - 1)%nat) as [Hi|Hi].
  - rewrite lookup_take_lt by done. rewrite splice_lookup by lia. rewrite HL. case_decide as D.
    + rewrite lookup_take_lt, lookup_drop by lia. rewrite list_lookup_delete_ge by lia.
      rewrite lookup_take_lt by lia. f_equal. lia.
    + rewrite list_lookup_delete_lt by lia. by rewrite lookup_take_lt by lia.
  - rewrite lookup_take_ge by lia. symmetry. apply lookup_ge_None.
    rewrite length_delete by (apply lookup_lt_is_Some; rewrite length_take; lia). rewrite length_take. lia.
Qed.

Lemma delete_middle' pos (l1 l2 : list A) x : pos = length l1 → delete pos (l1 ++ x :: l2) = l1 ++ l2.
Proof using Type. intros ->. apply delete_middle. Qed.

(** The slot behind the pairs that are left keeps what was in it. *)
Lemma erase_slots_stale pos num l :
  (pos < num)%nat → (num ≤ length l)%nat →
  splice pos (take (num - pos - 1) (drop (S pos) l)) l !! (num - 1)%nat = l !! (num - 1)%nat.
Proof using Type.
  intros Hp Hn. rewrite splice_lookup; rewrite length_take, length_drop; [|lia]. by rewrite decide_False by lia.
Qed.

Lemma append_slots num xs l :
  (num + length xs ≤ length l)%nat → take (num + length xs) (splice num xs l) = take num l ++ xs.
Proof using Type.
  intros H. unfold splice. rewrite (assoc_L (++)). apply take_app_exact. rewrite length_app, length_take. lia.
Qed.
End slots.

Section spec.
Context (cols : list ColMeta) (tot order : Z) (Hlay : layout_ok cols tot order).
Context (h : IxFileHdr) (Hfit : fits cols tot order h) (E : exn → inode → Prop).
Implicit Types (n : inode) (k t : bytes) (v : Rid).
Abbreviation node_wp m n Q := (node_wp cols tot order m n Q E).
Abbreviation plain := (plain_key cols).
Abbreviation klt := (klt cols).

(** What holds of every abstract node of a page. *)
Record node_facts n : Prop := {
  nf_nkeys : length (nd_keys n) = cap order;
  nf_nrids : length (nd_rids n) = cap order;
  nf_plain : Forall plain (nd_keys n);
  nf_rids : Forall rid_ok (nd_rids n);
  nf_num : i32_ok (nd_num n) = true;
  nf_parent : i32_ok (nd_parent n) = true;
  nf_next : i32_ok (nd_next n) = true;
  nf_prev : i32_ok (nd_prev n) = true;
}.

Lemma nw_facts {A} (m : M bytes A) n Q : (node_facts n → node_wp m n Q) → node_wp m n Q.
Proof using Type.
  intros H d Hd. apply H; [|done]. split; try apply Hd; eapply rd_i32_range; [eapply no_num|eapply no_parent
    |eapply no_next|eapply no_prev]; exact Hd.
Qed.

Lemma cap_pos : Z.of_nat (cap order) = order + 1.
Proof using Hlay. by eapply cap_Z. Qed.

Lemma plain_rd k : plain k → rd k 0 (col_tot_len_ h) = Some k.
Proof using Hlay Hfit.
  intros Hk%plain_key_len. rewrite (fi_tot _ _ _ _ Hfit). rewrite <-(app_nil_r k) at 1.
  apply rd_prefix. rewrite Hk. symmetry. apply Hlay.
Qed.

Lemma lkeys_length n : node_facts n → nd_num n ≤ order + 1 → length (lkeys n) = Z.to_nat (nd_num n).
Proof using Hlay. intros Hf Hn. unfold lkeys. rewrite length_take, (nf_nkeys _ Hf). pose proof cap_pos. lia. Qed.
Lemma lrids_length n : node_facts n → nd_num n ≤ order + 1 → length (lrids n) = Z.to_nat (nd_num n).
Proof using Hlay. intros Hf Hn. unfold lrids. rewrite length_take, (nf_nrids _ Hf). pose proof cap_pos. lia. Qed.
Lemma live_length n : node_facts n → nd_num n ≤ order + 1 → length (live n) = Z.to_nat (nd_num n).
Proof using Hlay. intros Hf Hn. unfold live. rewrite length_zip, lkeys_length, lrids_length by done. lia. Qed.
Lemma live_keys n : node_facts n → nd_num n ≤ order + 1 → (live n).*1 = lkeys n.
Proof using Hlay. intros Hf Hn. apply fst_zip. rewrite lkeys_length, lrids_length by done. lia. Qed.
Lemma live_rids n : node_facts n → nd_num n ≤ order + 1 → (live n).*2 = lrids n.
Proof using Hlay. intros Hf Hn. apply snd_zip. rewrite lkeys_length, lrids_length by done. lia. Qed.

Lemma live_lookup n i : 
  0 ≤ i < nd_num n → live n !! Z.to_nat i = k ← nd_keys n !! Z.to_nat i; r ← nd_rids n !! Z.to_nat i; Some (k, r).
Proof using Type.
  intros Hi. unfold live. rewrite lookup_zip_with. unfold lkeys, lrids. rewrite !lookup_take_lt by lia. done.
Qed.

Lemma live_slot n i k r :
  0 ≤ i < nd_num n → live n !! Z.to_nat i = Some (k, r) →
  nd_keys n !! Z.to_nat i = Some k ∧ nd_rids n !! Z.to_nat i = Some r.
Proof using Type.
  intros Hi. rewrite live_lookup by done. destruct (nd_keys n !! _), (nd_rids n !! _); naive_solver.
Qed.

(** *** Comparisons *)

Lemma nw_judge i k t n (Q : Z → inode → Prop) :
  0 ≤ i → nd_keys n !! Z.to_nat i = Some k → plain t → Q (sign_of (key_cmp cols k t)) n →
  node_wp (judge h t i) n Q.
Proof using Hlay Hfit.
  intros Hi Hk Ht HQ d Hd. unfold judge, reads. apply wp_bind, wp_bind, wp_gets. unfold id.
  assert (plain k) as Hpk by (eapply Forall_lookup_1; [apply (no_plain _ _ _ _ _ Hd)|exact Hk]).
  pose proof (keys_read cols tot order Hlay h Hfit d n i 1 Hd Hi ltac:(lia) (key_bounds _ _ _ Hlay _ _ _ _ Hd Hk)) as Hr.
  change (Z.to_nat 1) with 1%nat in Hr. rewrite (take_one _ _ _ Hk), concat_one in Hr. apply rd_mid in Hr as (pre & post & -> & Hpre & _).
  unfold mem_at. rewrite <-Hpre, !length_app.
  destruct (_ && _) eqn:Eb; [|apply andb_false_iff in Eb as [Eb%Z.leb_gt|Eb%Z.leb_gt]; lia]. apply wp_ret.
  rewrite Nat2Z.id, drop_app_length, (fi_types _ _ _ _ Hfit), (fi_lens _ _ _ _ Hfit).
  rewrite <-(app_nil_r t), (ix_compare_types_plain cols k t post []) by done. cbn. eauto.
Qed.

Lemma nw_memcmp i k t n (Q : bool → inode → Prop) :
  0 ≤ i → nd_keys n !! Z.to_nat i = Some k → plain t → Q (bool_decide (k = t)) n →
  node_wp (memcmp_key h i t) n Q.
Proof using Hlay Hfit.
  intros Hi Hk Ht HQ. unfold memcmp_key. apply nw_bind. eapply nw_key; [done..|]. apply nw_bind.
  rewrite (plain_rd _ Ht). by apply nw_ret, nw_ret.
Qed.

(** *** The binary searches *)

(** [J i] is what [jdg] answers for the key at [i]. *)
Section bsearch.
Context (right : Z → bool) (jdg : Z → M bytes Z) (J : Z → Z) (n : inode) (lo hi : Z).
Context (Hjdg : ∀ i Q, lo ≤ i ≤ hi → Q (J i) n → node_wp (jdg i) n Q).
Context (Hmono : ∀ i j, lo ≤ i ≤ j → j ≤ hi → right (J j) = true → right (J i) = true).

Lemma nw_bsearch fuel l r (Q : Z → inode → Prop) :
  r - l ≤ Z.of_nat fuel → lo ≤ l → 0 ≤ l → l ≤ r ≤ hi → (∀ i, lo ≤ i < l → right (J i) = true) →
  (∀ p, l ≤ p ≤ r → (∀ i, lo ≤ i < p → right (J i) = true) → (p < r → right (J p) = false) → Q p n) →
  node_wp (bsearch fuel right jdg l r) n Q.
Proof using Hjdg Hmono.
  revert l r. induction fuel as [|fuel IH]; intros l r Hf Hl H0 Hr Hleft HQ; simpl.
  { destruct (Z.ltb_spec l r); [lia|]. apply nw_ret, HQ; [lia|done|lia]. }
  destruct (Z.ltb_spec l r); [|apply nw_ret, HQ; [lia|done|lia]].
  rewrite Z.quot_div_nonneg by lia. pose proof (Z.div_mod (l + r) 2 ltac:(lia)).
  pose proof (Z.mod_pos_bound (l + r) 2 ltac:(lia)). set (m := (l + r) / 2) in *.
  apply nw_bind, Hjdg; [lia|]. destruct (right (J m)) eqn:Em.
  - apply IH; [lia..| |].
    + intros i Hi. apply (Hmono i m); [lia|lia|done].
    + intros p Hp Hlp Hpr. apply HQ; [lia|done|done].
  - apply IH; [lia..|done|]. intros p Hp Hlp Hpr. apply HQ; [lia|done|].
    intros Hlt. destruct (decide (p < m)); [by apply Hpr|]. by assert (p = m) as -> by lia.
Qed.
End bsearch.

(** The first slot a search looks at. *)
Definition first_slot n : Z := if nd_leaf n then 0 else 1.

(** [bound] in a node with keys to look at: the first one that is not [right]. *)
Lemma nw_bound right jdg J n (Q : Z → inode → Prop) :
  first_slot n < nd_num n →
  (∀ i Q, first_slot n ≤ i < nd_num n → Q (J i) n → node_wp (jdg i) n Q) →
  (∀ i j, first_slot n ≤ i ≤ j → j < nd_num n → right (J j) = true → right (J i) = true) →
  ((∀ i, first_slot n ≤ i < nd_num n → right (J i) = true) → Q (-1) n) →
  (∀ p, first_slot n ≤ p < nd_num n → (∀ i, first_slot n ≤ i < p → right (J i) = true) →
     right (J p) = false → Q p n) →
  node_wp (bound right jdg) n Q.
Proof using Type.
  intros Hlt Hj Hm Hnone Hsome. unfold bound. apply nw_bind, nw_is_leaf. apply nw_bind, nw_get_size.
  fold (first_slot n). assert (0 ≤ first_slot n) by (unfold first_slot; destruct (nd_leaf n); lia).
  apply nw_bind. apply (nw_bsearch right jdg J n (first_slot n) (nd_num n - 1)).
  - intros i Q' Hi. apply Hj. lia.
  - intros i j Hi Hj'. apply Hm; lia.
  - lia.
  - lia.
  - lia.
  - lia.
  - intros i Hi. lia.
  - intros p Hp Hleft Hstop. apply nw_bind, Hj; [lia|]. destruct (right (J p)) eqn:Ep; apply nw_ret.
    + apply Hnone. intros i Hi. apply (Hm i p); [|lia|done].
      destruct (decide (p < nd_num n - 1)); [by specialize (Hstop ltac:(done))|lia].
    + by apply Hsome; [lia|..].
Qed.

(** In a node without a key to look at the slot behind the last key decides. *)
Lemma nw_bound_stale (right : Z → bool) (jdg : Z → M bytes Z) (J : Z → Z) n (Q : Z → inode → Prop) :
  nd_num n = first_slot n → (∀ Q : Z → inode → Prop, Q (J (first_slot n)) n → node_wp (jdg (first_slot n)) n Q) →
  Q (if right (J (first_slot n)) then -1 else first_slot n) n →
  node_wp (bound right jdg) n Q.
Proof using Type.
  intros Hn Hj HQ. unfold bound. apply nw_bind, nw_is_leaf. apply nw_bind, nw_get_size.
  fold (first_slot n). rewrite Hn. apply nw_bind.
  assert (Z.to_nat (first_slot n - 1 - first_slot n) = 0%nat) as -> by lia. simpl.
  destruct (Z.ltb_spec (first_slot n) (first_slot n - 1)); [lia|]. apply nw_ret, nw_bind, Hj.
  destruct (right _); by apply nw_ret.
Qed.

(** The searches on a node whose keys are sorted. *)
Section search.
Context (n : inode) (t : bytes) (Ht : plain t) (Hf : node_facts n) (Hnum : nd_num n ≤ order + 1).
Context (Hsort : sorted_keys cols (drop (Z.to_nat (first_slot n)) (lkeys n))).

Lemma slot_key i : 0 ≤ i < nd_num n → ∃ k, nd_keys n !! Z.to_nat i = Some k ∧ plain k ∧ lkeys n !! Z.to_nat i = Some k.
Proof using Hlay Hf Hnum.
  intros Hi. destruct (lookup_lt_is_Some_2 (nd_keys n) (Z.to_nat i)) as [k Hk].
  { rewrite (nf_nkeys _ Hf). pose proof cap_pos. lia. }
  exists k. split; [done|]. split; [by eapply Forall_lookup_1; [apply (nf_plain _ Hf)|]|].
  unfold lkeys. by rewrite lookup_take_lt by lia.
Qed.

Lemma slots_sorted i j k k' :
  first_slot n ≤ i < j → j < nd_num n →
  nd_keys n !! Z.to_nat i = Some k → nd_keys n !! Z.to_nat j = Some k' → klt k k'.
Proof using Hsort.
  intros Hi Hj Hk Hk'.
  assert (0 ≤ first_slot n) by (unfold first_slot; destruct (nd_leaf n); lia).
  assert (∀ x z, first_slot n ≤ x < nd_num n → nd_keys n !! Z.to_nat x = Some z →
    drop (Z.to_nat (first_slot n)) (lkeys n) !! (Z.to_nat (x - first_slot n)) = Some z) as Hat.
  { intros x z Hx Hz. rewrite lookup_drop. unfold lkeys. rewrite lookup_take_lt by lia. rewrite <-Hz. f_equal. lia. }
  apply Hat in Hk; [|lia]. apply Hat in Hk'; [|lia]. clear Hat.
  set (L := drop _ (lkeys n)) in *. rewrite <-(take_drop_middle L _ _ Hk) in Hsort, Hk'.
  apply (sorted_keys_app cols) in Hsort as (_ & Hs & _). apply (sorted_keys_cons cols) in Hs as [_ Hs].
  apply Hs. apply lookup_lt_Some in Hk as Hlen. rewrite lookup_app_r in Hk'; rewrite length_take in *; [|lia].
  replace (Z.to_nat (j - first_slot n) - (Z.to_nat (i - first_slot n) `min` length L))%nat
    with (S (Z.to_nat (j - i - 1))) in Hk' by lia.
  simpl in Hk'. by eapply list_elem_of_lookup_2.
Qed.

(** What a bound finds: no key on the right, or the first one. *)
Definition bound_at (left : bytes → Prop) (p : Z) : Prop :=
  (p = -1 ∧ ∀ i k, first_slot n ≤ i < nd_num n → nd_keys n !! Z.to_nat i = Some k → left k) ∨
  (first_slot n ≤ p < nd_num n ∧
   (∀ i k, first_slot n ≤ i < p → nd_keys n !! Z.to_nat i = Some k → left k) ∧
   ∀ k, nd_keys n !! Z.to_nat p = Some k → ¬ left k).

Lemma nw_bound_left right (left : bytes → Prop) (Q : Z → inode → Prop) :
  (∀ k, plain k → right (sign_of (key_cmp cols k t)) = true ↔ left k) →
  (∀ k k', plain k → plain k' → klt k k' → left k' → left k) →
  first_slot n < nd_num n → (∀ p, bound_at left p → Q p n) →
  node_wp (bound right (judge h t)) n Q.
Proof using Hlay Hfit Ht Hf Hnum Hsort.
  intros Hright Hleft Hlt HQ.
  assert (0 ≤ first_slot n) by (unfold first_slot; destruct (nd_leaf n); lia).
  apply (nw_bound _ _ (λ i, sign_of (key_cmp cols (default [] (nd_keys n !! Z.to_nat i)) t))); [done|..].
  - intros i Q' Hi HQ'. destruct (slot_key i) as (k & Hk & _); [lia|]. rewrite Hk in HQ'. eapply nw_judge; [lia|exact Hk|done|exact HQ'].
  - intros i j Hi Hj. destruct (slot_key i) as (k & Hk & Hpk & _); [lia|]. destruct (slot_key j) as (k' & Hk' & Hpk' & _); [lia|].
    rewrite Hk, Hk'. cbn. rewrite !Hright by done. destruct (decide (i = j)) as [->|].
    + by rewrite Hk in Hk'; simplify_eq.
    + apply Hleft; [done..|]. by apply (slots_sorted i j); [lia|..].
  - intros Hall. apply HQ. left. split; [done|]. intros i k Hi Hk. specialize (Hall i Hi). rewrite Hk in Hall.
    apply Hright; [|done]. by eapply Forall_lookup_1; [apply (nf_plain _ Hf)|].
  - intros p Hp Hall Hnot. apply HQ. right. split; [done|]. split.
    + intros i k Hi Hk. specialize (Hall i Hi). rewrite Hk in Hall.
      apply Hright; [|done]. by eapply Forall_lookup_1; [apply (nf_plain _ Hf)|].
    + intros k Hk Hl. rewrite Hk in Hnot. cbn in Hnot. apply Hright in Hl; [congruence|].
      by eapply Forall_lookup_1; [apply (nf_plain _ Hf)|].
Qed.

Lemma nw_lower_bound (Q : Z → inode → Prop) :
  first_slot n < nd_num n → (∀ p, bound_at (λ k, klt k t) p → Q p n) → node_wp (lower_bound h t) n Q.
Proof using Hlay Hfit Ht Hf Hnum Hsort.
  apply nw_bound_left.
  - intros k Hk. rewrite Z.ltb_lt. apply sign_lt.
  - intros k k' _ _ ? ?. by eapply klt_trans.
Qed.

Lemma nw_upper_bound (Q : Z → inode → Prop) :
  first_slot n < nd_num n → (∀ p, bound_at (λ k, ¬ klt t k) p → Q p n) → node_wp (upper_bound h t) n Q.
Proof using Hlay Hfit Ht Hf Hnum Hsort.
  apply nw_bound_left.
  - intros k Hk. rewrite Z.leb_le, <-sign_gt. lia.
  - intros k k' _ _ ? Hnk Hk. apply Hnk. by eapply klt_trans.
Qed.
End search.

(** *** The searches on the pairs of a node *)

Lemma order_small : order + 1 ≤ PAGE_SIZE.
Proof using Hlay. destruct Hlay as [_ _ Ht Ho Hf]. unfold SIZEOF_IxPageHdr, SIZEOF_Rid, PAGE_SIZE in *. nia. Qed.

Lemma size_ok z : -1 ≤ z ≤ order + 1 → i32_ok z = true.
Proof using Hlay. intros Hz. pose proof order_small. unfold PAGE_SIZE in *. apply i32_ok_range. lia. Qed.

Lemma first_slot_nonneg n : 0 ≤ first_slot n.
Proof using Type. unfold first_slot. destruct (nd_leaf n); lia. Qed.

Lemma live_take_drop_keys n f :
  node_facts n → nd_num n ≤ order + 1 → (drop f (live n)).*1 = drop f (lkeys n).
Proof using Hlay. intros Hf Hn. by rewrite fmap_drop, live_keys. Qed.

(** The pairs a search looks at. *)
Definition searched n : list (bytes * Rid) := drop (Z.to_nat (first_slot n)) (live n).

Lemma bound_at_split n left p :
  node_facts n → nd_num n ≤ order + 1 → bound_at n left p →
  (p = -1 ∧ ∀ e, e ∈ searched n → left e.1) ∨
  ∃ A k r B, live n = A ++ (k, r) :: B ∧ p = len A ∧ first_slot n ≤ p ∧
    (∀ e, e ∈ drop (Z.to_nat (first_slot n)) A → left e.1) ∧ ¬ left k.
Proof using Hlay.
  intros Hf Hn Hb. pose proof (first_slot_nonneg n) as H0. pose proof (live_length n Hf Hn) as HL.
  assert (∀ i k r, live n !! i = Some (k, r) → nd_keys n !! i = Some k) as Hslot.
  { intros i k r Hi. pose proof (lookup_lt_Some _ _ _ Hi) as Hlt.
    rewrite <-(Nat2Z.id i) in Hi. apply live_slot in Hi as [Hk _]; [|lia]. by rewrite Nat2Z.id in Hk. }
  destruct Hb as [[-> Hall]|(Hp & Hall & Hnot)].
  - left. split; [done|]. intros [k r] (i & Hi)%list_elem_of_lookup. unfold searched in Hi. rewrite lookup_drop in Hi.
    pose proof (lookup_lt_Some _ _ _ Hi). apply Hslot in Hi. simpl.
    apply (Hall (first_slot n + Z.of_nat i)); [lia|]. rewrite <-Hi. f_equal. lia.
  - right. destruct (lookup_lt_is_Some_2 (live n) (Z.to_nat p)) as [[k r] Hk]; [lia|].
    exists (take (Z.to_nat p) (live n)), k, r, (drop (S (Z.to_nat p)) (live n)). split_and!.
    + symmetry. by apply take_drop_middle.
    + rewrite length_take. lia.
    + lia.
    + intros [k' r'] (i & Hi)%list_elem_of_lookup. rewrite lookup_drop in Hi. apply lookup_take_Some in Hi as [Hi Hlt].
      apply Hslot in Hi. simpl. apply (Hall (first_slot n + Z.of_nat i)); [lia|]. rewrite <-Hi. f_equal. lia.
    + apply Hnot. by eapply Hslot.
Qed.

Lemma live_plain n e : node_facts n → e ∈ live n → plain e.1.
Proof using Type.
  intros Hf (i & Hi)%list_elem_of_lookup. unfold live in Hi. rewrite lookup_zip_with in Hi.
  destruct (lkeys n !! i) as [k|] eqn:Ek; [|done]. destruct (lrids n !! i); [|done]. simplify_eq/=.
  apply lookup_take_Some in Ek as [Ek _]. by eapply Forall_lookup_1; [apply (nf_plain _ Hf)|].
Qed.

Lemma live_rid_ok n e : node_facts n → e ∈ live n → rid_ok e.2.
Proof using Type.
  intros Hf (i & Hi)%list_elem_of_lookup. unfold live in Hi. rewrite lookup_zip_with in Hi.
  destruct (lkeys n !! i); [|done]. destruct (lrids n !! i) as [r|] eqn:Er; [|done]. simplify_eq/=.
  apply lookup_take_Some in Er as [Er _]. by eapply Forall_lookup_1; [apply (nf_rids _ Hf)|].
Qed.

Lemma live_at n (A B : list (bytes * Rid)) k r :
  node_facts n → nd_num n ≤ order + 1 → live n = A ++ (k, r) :: B →
  nd_keys n !! Z.to_nat (len A) = Some k ∧ nd_rids n !! Z.to_nat (len A) = Some r ∧ len A < nd_num n.
Proof using Hlay.
  intros Hf Hn Hl. pose proof (live_length n Hf Hn) as HL. rewrite Hl, length_app in HL. simpl in HL.
  assert (live n !! Z.to_nat (len A) = Some (k, r)) as Hat.
  { rewrite Hl, lookup_app_r by lia. by replace (Z.to_nat (len A) - length A)%nat with 0%nat by lia. }
  apply live_slot in Hat as [? ?]; [|lia]. split_and!; [done|done|lia].
Qed.

(** A search on sorted pairs splits them in two. *)
Section on_pairs.
Context (n : inode) (t : bytes) (Ht : plain t) (Hf : node_facts n) (Hnum : nd_num n ≤ order + 1).
Context (Hsort : sorted cols (searched n)).

Lemma searched_sorted : sorted_keys cols (drop (Z.to_nat (first_slot n)) (lkeys n)).
Proof using Hlay Hf Hnum Hsort. unfold sorted, searched in Hsort. by rewrite live_take_drop_keys in Hsort. Qed.

(** Behind a place in the sorted part all keys are larger. *)
Lemma sorted_behind (A B : list (bytes * Rid)) k r :
  live n = A ++ (k, r) :: B → first_slot n ≤ len A → ∀ e, e ∈ B → klt k e.1.
Proof using Hsort.
  intros Hl Ha e He. unfold sorted, searched in Hsort. rewrite Hl, drop_app_le in Hsort by lia.
  rewrite fmap_app, fmap_cons in Hsort. apply (sorted_keys_app cols) in Hsort as (_ & Hs & _).
  apply (sorted_keys_cons cols) in Hs as [_ Hs]. apply Hs. by apply list_elem_of_fmap_2.
Qed.

Lemma nw_lower_pairs (Q : Z → inode → Prop) :
  first_slot n < nd_num n →
  ((∀ e, e ∈ searched n → klt e.1 t) → Q (-1) n) →
  (∀ A k r B, live n = A ++ (k, r) :: B → first_slot n ≤ len A →
     (∀ e, e ∈ drop (Z.to_nat (first_slot n)) A → klt e.1 t) → ¬ klt k t → Q (len A) n) →
  node_wp (lower_bound h t) n Q.
Proof using Hlay Hfit Ht Hf Hnum Hsort.
  intros Hlt Hnone Hsome. apply nw_lower_bound; [done|done|done|apply searched_sorted|done|].
  intros p Hb. apply (bound_at_split n _ _ Hf Hnum) in Hb as [[-> ?]|(A & k & r & B & Hl & -> & ? & ? & ?)];
    [by apply Hnone|by eapply Hsome].
Qed.

Lemma nw_upper_pairs (Q : Z → inode → Prop) :
  first_slot n < nd_num n →
  ((∀ e, e ∈ searched n → ¬ klt t e.1) → Q (-1) n) →
  (∀ A k r B, live n = A ++ (k, r) :: B → first_slot n ≤ len A →
     (∀ e, e ∈ drop (Z.to_nat (first_slot n)) A → ¬ klt t e.1) → klt t k → Q (len A) n) →
  node_wp (upper_bound h t) n Q.
Proof using Hlay Hfit Ht Hf Hnum Hsort.
  intros Hlt Hnone Hsome. apply nw_upper_bound; [done|done|done|apply searched_sorted|done|].
  intros p Hb. apply (bound_at_split n _ _ Hf Hnum) in Hb as [[-> ?]|(A & k & r & B & Hl & -> & Ha & HA & Hk)];
    [by apply Hnone|]. apply (Hsome A k r B Hl Ha HA). by apply dec_stable.
Qed.

(** The child whose keys [t] lies between: the last one with a key that is not above. *)
Lemma nw_internal_lookup (Q : Z → inode → Prop) :
  nd_leaf n = false → 2 ≤ nd_num n →
  (∀ A k r B, live n = A ++ (k, r) :: B → (A = [] ∨ ¬ klt t k) → (∀ e, e ∈ B → klt t e.1) → Q (page_no r) n) →
  node_wp (internal_lookup h t) n Q.
Proof using Hlay Hfit Ht Hf Hnum Hsort.
  intros Hleaf H2 HQ. assert (first_slot n = 1) as H1 by (unfold first_slot; by rewrite Hleaf).
  pose proof (live_length n Hf Hnum) as HL. pose proof (live_plain n) as Hpl.
  assert (∀ A k r B, live n = A ++ (k, r) :: B → (A = [] ∨ ¬ klt t k) → (∀ e, e ∈ B → klt t e.1) →
    node_wp (value_at h (len A)) n Q) as Hat.
  { intros A k r B Hl Hk HB. destruct (live_at n A B k r Hf Hnum Hl) as (_ & Hr & _).
    eapply nw_value_at; [done|done|lia|exact Hr|]. by eapply HQ. }
  unfold internal_lookup. apply nw_bind, nw_lower_pairs; [lia|..].
  - intros Hall. change (-1 =? -1) with true. cbn. apply nw_bind, nw_bind, nw_get_size, nw_ret.
    destruct (exists_last (l := live n)) as (A & [k r] & Hl); [intros Hn; rewrite Hn in HL; simpl in HL; lia|].
    assert (nd_num n - 1 = len A) as ->.
    { rewrite Hl, length_app in HL. simpl in HL. lia. }
    apply (Hat A k r []); [done| |by intros e He%elem_of_nil].
    right. apply klt_asym. apply (Hall (k, r)). unfold searched. rewrite H1, Hl. change (Z.to_nat 1) with 1%nat.
    rewrite drop_app_le; [apply elem_of_app; right; by left|]. rewrite Hl, length_app in HL. simpl in HL. lia.
  - intros A k r B Hl Ha HA Hk. destruct (Z.eqb_spec (len A) (-1)); [lia|].
    destruct (live_at n A B k r Hf Hnum Hl) as (Hks & _ & _).
    apply nw_bind, nw_bind. eapply nw_memcmp; [lia|exact Hks|done|].
    assert (plain k) as Hpk by (apply (Hpl (k, r) Hf); rewrite Hl; set_solver).
    case_bool_decide as Heq; apply nw_ret.
    + subst k. apply (Hat A t r B); [done|right; apply klt_irrefl|]. by apply (sorted_behind A B t r).
    + destruct (exists_last (l := A)) as (A' & [k' r'] & ->); [intros ->; simpl in Ha; lia|].
      rewrite length_app in *. simpl. replace (Z.of_nat (length A' + 1) - 1) with (len A') by lia.
      apply (Hat A' k' r' ((k, r) :: B)); [by rewrite Hl, <-(assoc_L (++))| |].
      * destruct A' as [|a A']; [by left|right]. apply klt_asym. apply (HA (k', r')). rewrite H1.
        change (Z.to_nat 1) with 1%nat. simpl. apply elem_of_app. right. by left.
      * assert (klt t k) as Htk by (by apply klt_not).
        intros e [->|He]%elem_of_cons; [done|]. eapply klt_trans; [exact Htk|].
        eapply (sorted_behind (A' ++ [(k', r')]) B k r); [done|rewrite length_app; simpl; lia|done].
Qed.
End on_pairs.

(** *** Storing and erasing pairs *)

Lemma get_key_add i : get_key h i + col_tot_len_ h = get_key h (i + 1).
Proof using Type. unfold get_key. lia. Qed.
Lemma get_rid_add i : get_rid h i + SIZEOF_Rid = get_rid h (i + 1).
Proof using Type. unfold get_rid. lia. Qed.

Lemma live_store n (A B : list (bytes * Rid)) pos k v n' :
  node_facts n → nd_num n ≤ order → live n = A ++ B → pos = len A →
  nd_num n' = nd_num n + 1 →
  lkeys n' = take (Z.to_nat pos) (lkeys n) ++ k :: drop (Z.to_nat pos) (lkeys n) →
  lrids n' = take (Z.to_nat pos) (lrids n) ++ v :: drop (Z.to_nat pos) (lrids n) →
  live n' = A ++ (k, v) :: B.
Proof using Hlay.
  intros Hf Hn Hl -> Hnum Hk Hr. unfold live at 1. rewrite Hk, Hr.
  rewrite <-(live_keys n), <-(live_rids n) by (done || lia). rewrite Hl, !fmap_app, !Nat2Z.id.
  rewrite !take_app_exact, !drop_app_exact by by rewrite length_fmap.
  rewrite (zip_with_app pair) by by rewrite !length_fmap. cbn [zip zip_with]. by rewrite !zip_fst_snd.
Qed.

Lemma nw_store_pair pos k v n (A B : list (bytes * Rid)) (Q : unit → inode → Prop) :
  0 ≤ nd_num n ≤ order → live n = A ++ B → pos = len A → plain k → rid_ok v →
  (∀ n', same_links n n' → nd_num n' = nd_num n + 1 → live n' = A ++ (k, v) :: B → Q tt n') →
  node_wp (store_pair h pos k v) n Q.
Proof using Hlay Hfit.
  intros Hn Hl -> Hk Hv HQ. apply nw_facts. intros Hf. pose proof cap_pos as Hcap.
  pose proof (nf_nkeys _ Hf) as Hlk. pose proof (nf_nrids _ Hf) as Hlr.
  assert (len A ≤ nd_num n) as HA.
  { pose proof (live_length n Hf ltac:(lia)) as HL. rewrite Hl, length_app in HL. lia. }
  unfold store_pair. apply nw_bind, nw_get_size. rewrite get_key_add, get_rid_add. apply nw_bind.
  eapply (nw_move_keys cols tot order Hlay h Hfit E (len A + 1) (len A) (nd_num n - len A));
    [done|done|by rewrite (fi_tot _ _ _ _ Hfit)|lia..|done|]. apply nw_bind.
  eapply (nw_move_rids cols tot order Hlay h Hfit E (len A + 1) (len A) (nd_num n - len A));
    [done|done|done|lia..|done|]. apply nw_bind.
  eapply nw_set_key; [done|done|rewrite <-(fi_tot _ _ _ _ Hfit); by apply plain_rd|done|lia|]. apply nw_bind.
  eapply nw_set_rid; [done|done|done|lia|]. apply nw_bind, nw_get_size. cbn [nd_num with_rids with_keys].
  rewrite wrap32_id by (apply size_ok; lia). eapply nw_set_size; [done|by apply size_ok; lia|].
  replace (Z.to_nat (len A + 1)) with (S (length A)) by lia. rewrite Nat2Z.id.
  replace (Z.to_nat (nd_num n - len A)) with (Z.to_nat (nd_num n) - length A)%nat by lia.
  apply HQ; [by split_and!|done|].
  assert (S (Z.to_nat (nd_num n)) = Z.to_nat (nd_num n + 1)) as HS by lia.
  eapply live_store; [done|lia|done|done|done| |]; unfold lkeys, lrids; cbn; rewrite <-HS, ?Nat2Z.id;
    apply store_slots; lia.
Qed.

(** [insert] in a node with keys to search; in an empty leaf too. *)
Lemma nw_insert k v n (Q : Z → inode → Prop) :
  0 ≤ nd_num n ≤ order → first_slot n < nd_num n ∨ nd_num n = 0 → sorted cols (searched n) → plain k → rid_ok v →
  (∀ A B n', live n = A ++ B → (nd_num n ≠ 0 → first_slot n ≤ len A) →
     (∀ e, e ∈ drop (Z.to_nat (first_slot n)) A → klt e.1 k) → (∀ e, e ∈ B → klt k e.1) →
     same_links n n' → nd_num n' = nd_num n + 1 → live n' = A ++ (k, v) :: B → Q (nd_num n + 1) n') →
  (∀ r, (k, r) ∈ searched n → E IndexEntryExistsError n) →
  node_wp (insert h k v) n Q.
Proof using Hlay Hfit.
  intros Hn Hone Hsort Hk Hv HQ HE. apply nw_facts. intros Hf.
  assert (∀ pos A B, live n = A ++ B → pos = len A → (nd_num n ≠ 0 → first_slot n ≤ len A) →
    (∀ e, e ∈ drop (Z.to_nat (first_slot n)) A → klt e.1 k) → (∀ e, e ∈ B → klt k e.1) →
    node_wp (do! store_pair h pos k v in get_size) n Q) as Hstore.
  { intros pos A B Hl Hp Ha HA HB. apply nw_bind. apply (nw_store_pair pos k v n A B); [done..|].
    intros n' Hs Hn' Hl'. apply nw_get_size. rewrite Hn'. by eapply HQ. }
  unfold insert. apply nw_bind, nw_get_size. destruct (Z.eqb_spec (nd_num n) 0) as [H0|H0].
  { apply nw_bind, nw_ret. assert (live n = []) as Hl.
    { apply length_zero_iff_nil. rewrite live_length by (done || lia). by rewrite H0. }
    apply (Hstore 0 [] []); try done; [by intros e He; rewrite drop_nil in He; apply elem_of_nil in He|by intros e He%elem_of_nil]. }
  pose proof (live_length n Hf ltac:(lia)) as HL. pose proof (first_slot_nonneg n).
  apply nw_bind, nw_bind. apply nw_lower_pairs; [done|done|lia|done|lia|..].
  - intros Hall. change (-1 =? -1) with true. cbn. apply nw_get_size.
    apply (Hstore (nd_num n) (live n) []); [by rewrite app_nil_r|lia|lia|done|by intros e He%elem_of_nil].
  - intros A k' r B Hl Ha HA Hnk. destruct (Z.eqb_spec (len A) (-1)); [lia|].
    destruct (live_at n A B k' r Hf ltac:(lia) Hl) as (Hks & _ & _). apply nw_bind.
    eapply nw_memcmp; [lia|exact Hks|done|].
    assert (plain k') as Hpk by (apply (live_plain n (k', r) Hf); rewrite Hl; set_solver).
    case_bool_decide as Heq.
    + subst k'. apply nw_throw, (HE r). unfold searched. rewrite Hl, drop_app_le by lia. set_solver.
    + apply nw_ret. assert (klt k k') as Hlt by (by apply klt_not).
      apply (Hstore (len A) A ((k', r) :: B)); [done|done|done|done|].
      intros e [->|He]%elem_of_cons; [done|]. eapply klt_trans; [exact Hlt|].
      eapply (sorted_behind n); [done|exact Hl|done|done].
Qed.

(** [insert] in an inner node with one child: the slot behind it is compared, and stops the
    insertion if it holds the key. *)
Lemma nw_insert_single k v n s (Q : Z → inode → Prop) :
  nd_leaf n = false → nd_num n = 1 → plain k → rid_ok v → nd_keys n !! 1%nat = Some s →
  (s = k → E IndexEntryExistsError n) →
  (∀ n', same_links n n' → nd_num n' = 2 → live n' = live n ++ [(k, v)] → Q 2 n') →
  node_wp (insert h k v) n Q.
Proof using Hlay Hfit.
  intros Hleaf Hn Hk Hv Hs HE HQ. apply nw_facts. intros Hf. pose proof (la_order _ _ _ Hlay).
  assert (node_wp (do! store_pair h 1 k v in get_size) n Q) as Hstore.
  { apply nw_bind. apply (nw_store_pair 1 k v n (live n) []); [lia|by rewrite app_nil_r| |done|done|].
    - rewrite live_length by (done || lia). lia.
    - intros n' Hs' Hn' Hl'. apply nw_get_size. rewrite Hn', Hn. apply HQ; [done|lia|done]. }
  assert (first_slot n = 1) as H1 by (unfold first_slot; by rewrite Hleaf).
  unfold insert. apply nw_bind, nw_get_size. rewrite Hn. cbn. apply nw_bind, nw_bind.
  apply (nw_bound_stale _ _ (λ _, sign_of (key_cmp cols s k))); [congruence|..].
  - intros Q' HQ'. rewrite H1. by eapply nw_judge.
  - rewrite H1. destruct (_ <? 0); cbn.
    + apply nw_get_size. rewrite Hn. exact Hstore.
    + apply nw_bind. eapply nw_memcmp; [done|exact Hs|done|]. case_bool_decide; [by apply nw_throw, HE|by apply nw_ret].
Qed.

Lemma nw_erase_pair pos n (A B : list (bytes * Rid)) e (Q : unit → inode → Prop) :
  nd_num n ≤ order + 1 → live n = A ++ e :: B → pos = len A →
  (∀ n', same_links n n' → nd_num n' = nd_num n - 1 → live n' = A ++ B →
     nd_keys n' !! Z.to_nat (nd_num n - 1) = nd_keys n !! Z.to_nat (nd_num n - 1) →
     nd_rids n' !! Z.to_nat (nd_num n - 1) = nd_rids n !! Z.to_nat (nd_num n - 1) → Q tt n') →
  node_wp (erase_pair h pos) n Q.
Proof using Hlay Hfit.
  intros Hn Hl -> HQ. apply nw_facts. intros Hf. pose proof cap_pos as Hcap.
  pose proof (nf_nkeys _ Hf) as Hlk. pose proof (nf_nrids _ Hf) as Hlr.
  assert (len A < nd_num n) as HA.
  { pose proof (live_length n Hf ltac:(lia)) as HL. rewrite Hl, length_app in HL. simpl in HL. lia. }
  unfold erase_pair. apply nw_bind, nw_get_size. rewrite get_key_add, get_rid_add. apply nw_bind.
  eapply (nw_move_keys cols tot order Hlay h Hfit E (len A) (len A + 1) (nd_num n - len A - 1));
    [done|done|by rewrite (fi_tot _ _ _ _ Hfit)|lia..|done|]. apply nw_bind.
  eapply (nw_move_rids cols tot order Hlay h Hfit E (len A) (len A + 1) (nd_num n - len A - 1));
    [done|done|done|lia..|done|]. apply nw_bind, nw_get_size. cbn [nd_num with_rids with_keys].
  rewrite wrap32_id by (apply size_ok; lia). eapply nw_set_size; [done|by apply size_ok; lia|].
  replace (Z.to_nat (len A + 1)) with (S (length A)) by lia. rewrite !Nat2Z.id.
  replace (Z.to_nat (nd_num n - len A - 1)) with (Z.to_nat (nd_num n) - length A - 1)%nat by lia.
  assert (Z.to_nat (nd_num n - 1) = (Z.to_nat (nd_num n) - 1)%nat) as HS by lia.
  apply HQ; [by split_and!|done| |cbn; rewrite HS; apply erase_slots_stale; lia..].
  unfold live, lkeys, lrids. cbn. rewrite HS, !erase_slots by lia. fold (lkeys n) (lrids n).
  rewrite <-(live_keys n), <-(live_rids n) by (done || lia). rewrite Hl, !fmap_app, !fmap_cons.
  rewrite !delete_middle' by by rewrite length_fmap.
  rewrite (zip_with_app pair) by by rewrite !length_fmap. by rewrite !zip_fst_snd.
Qed.

End spec.
