(* ===== verification/Index.v ===== *)
(** * The B+ tree, the index manager and the index scan (src/src/index/ix_index_handle.cpp,
      ix_index_handle.h, ix_manager.h and ix_scan.cpp)

    The state of an [IxIndexHandle] is its file header with the storage below it.  An
    [IxNodeHandle *] is the frame its page is in: a node that was unpinned is still read
    through its frame, whatever the frame holds by then.  A page the pool cannot give is a
    null [Page*], which the node's constructor dereferences.  Loops that go down or up the
    tree have fuel for the nodes on their way; the tree's height is enough (IxTree.v). *)
From Stdlib Require Import Strings.Ascii Strings.String.
From S2P Require Import Prelude Bytes Disk Log Replacer BufferPool Record Meta Keys IxNode.

Module IxIndexHandle.
Import IxNodeHandle.
Section index.
Context {R : Type} `{Replacer R}.
Abbreviation St := (IxFileHdr * Storage R)%type.
Context (fd : Z).

Definition pool {A} (m : M (Storage R) A) : M St A := zoom snd (λ s t, (t.1, s)) m.
Definition hdr : M St IxFileHdr := gets fst.
Definition set_hdr (g : IxFileHdr → IxFileHdr) : M St unit := modify (λ t, (g t.1, t.2)).

(** A call on the bytes of the page in frame [f]. *)
Definition at_frame {A} (f : Z) (m : M bytes A) : M (Storage R) A :=
  let! p := get_frame f in
  λ s, let '(o, d) := m (data_ p) in (o, (write_frame f d s).2).
(** A method of the node in frame [f]. *)
Definition node {A} (f : Z) (m : IxFileHdr → M bytes A) : M St A :=
  let! h := hdr in pool (at_frame f (m h)).

Definition get_page_no (f : Z) : M St Z := pool (frame_page_no f).

Definition update_root_page_no (root : Z) : M St unit := set_hdr (set_root root).
Definition is_empty : M St bool := let! h := hdr in ret (root_page_ h =? IX_NO_PAGE).

Definition fetch_node (page_no : Z) : M St Z :=
  pool (let! o := fetch_page (fd, page_no) in of_option o).

Definition create_node : M St Z :=
  do! set_hdr (add_pages 1) in
  let! o := pool (new_page fd) in
  let! new := of_option o in
  ret new.1.

Definition unpin_page_ (page_no : Z) (is_dirty : bool) : M St unit := pool (unpin_ fd page_no is_dirty).
Definition unpin_node_page (f : Z) (is_dirty : bool) : M St unit :=
  let! n := get_page_no f in unpin_page_ n is_dirty.

Definition release_node_handle (f : Z) : M St unit :=
  do! unpin_node_page f true in
  let! p := pool (get_frame f) in
  do! pool (delete_page (id_ p)) in
  set_hdr (add_pages (-1)).

Definition maintain_child (f child_idx : Z) : M St unit :=
  let! leaf := node f (λ _, is_leaf_page) in
  if negb leaf then
    let! child_page_no := node f (λ h, value_at h child_idx) in
    let! child := fetch_node child_page_no in
    let! no := get_page_no f in
    do! node child (λ _, set_parent_page_no no) in
    unpin_node_page child true
  else ret tt.

(** [for (int i = from; i < to; i++) maintain_child(node, i)] *)
Definition maintain_children (f from to : Z) : M St unit :=
  foldr (λ i k, do! maintain_child f i in k) (ret tt) (seqZ from (to - from)).

(** ** Search *)

Fixpoint find_leaf_loop (fuel : nat) (lookup : IxFileHdr → M bytes Z) (root_node : Z) : M St Z :=
  let! leaf := node root_node (λ _, is_leaf_page) in
  if leaf : bool then ret root_node else
  match fuel with
  | O => stuck
  | S fuel =>
      let! child_page := node root_node lookup in
      do! unpin_node_page root_node false in
      let! root_node := fetch_node child_page in
      find_leaf_loop fuel lookup root_node
  end.

Definition find_leaf_page (fuel : nat) (key : bytes) : M St Z :=
  let! h := hdr in
  let! root_node := fetch_node (root_page_ h) in
  find_leaf_loop fuel (λ h, internal_lookup h key) root_node.

(** [while (memcmp(leaf_node->get_key(index), key, key_size) == 0)] *)
Fixpoint get_value_loop (fuel : nat) (leaf_node : Z) (key : bytes) (index : Z) : M St (list Rid) :=
  match fuel with
  | O => stuck
  | S fuel =>
      let! same := node leaf_node (λ h, memcmp_key h index key) in
      if same : bool then
        let! rid := node leaf_node (λ h, rid_ h index) in
        let! result := get_value_loop fuel leaf_node key (index + 1) in
        ret (rid :: result)
      else ret []
  end.
(** The value returned, and what is added to [result], which is empty at the call. *)
Definition get_value (fuel : nat) (key : bytes) : M St (bool * list Rid) :=
  let! leaf_node := find_leaf_page fuel key in
  let! index := node leaf_node (λ h, lower_bound h key) in
  if index =? -1 then ret (false, []) else
  let! result := get_value_loop (Z.to_nat PAGE_SIZE) leaf_node key index in
  do! unpin_node_page leaf_node false in
  ret (negb (bool_decide (result = [])), result).

(** The place of [index] in a leaf; -1 is the first place behind the leaf. *)
Definition iid_of (leaf_node index : Z) : M St Iid :=
  let! no := get_page_no leaf_node in
  if index =? -1 then
    let! h := hdr in
    if no =? last_leaf_ h then let! n := node leaf_node (λ _, get_size) in ret (mkIid no n)
    else let! next := node leaf_node (λ _, get_next_leaf) in ret (mkIid next 0)
  else ret (mkIid no index).

Definition lower_bound (fuel : nat) (key : bytes) : M St Iid :=
  let! leaf_node := find_leaf_page fuel key in
  let! index := node leaf_node (λ h, lower_bound h key) in
  let! iid := iid_of leaf_node index in
  do! unpin_node_page leaf_node false in
  ret iid.

Definition upper_bound (fuel : nat) (key : bytes) : M St Iid :=
  let! leaf_node := find_leaf_page fuel key in
  let! index := node leaf_node (λ h, upper_bound h key) in
  do! unpin_node_page leaf_node false in
  let! iid := iid_of leaf_node index in
  do! unpin_node_page leaf_node false in
  ret iid.

(** The overloads for the values of conditions. *)
Definition bound_values (which : IxFileHdr → M bytes Z) (fuel : nat) (key : list Value) : M St Iid :=
  let! h := hdr in
  let! root_node := fetch_node (root_page_ h) in
  let! leaf_node := find_leaf_loop fuel (λ h, internal_lookup_values h key) root_node in
  let! index := node leaf_node which in
  let! iid := iid_of leaf_node index in
  do! unpin_node_page leaf_node false in
  ret iid.
Definition lower_bound_values (fuel : nat) (key : list Value) : M St Iid :=
  bound_values (λ h, lower_bound_values h key) fuel key.
Definition upper_bound_values (fuel : nat) (key : list Value) : M St Iid :=
  bound_values (λ h, upper_bound_values h key) fuel key.

(** ** Insertion *)

(** The new leaf [right_node] behind the leaf [f] in the ring of leaves. *)
Definition link_leaf (f right_node : Z) : M St unit :=
  let! no := get_page_no f in
  let! right_no := get_page_no right_node in
  do! node right_node (λ _, set_prev_leaf no) in
  let! next := node f (λ _, get_next_leaf) in
  do! node right_node (λ _, set_next_leaf next) in
  do! node f (λ _, set_next_leaf right_no) in
  let! next := node right_node (λ _, get_next_leaf) in
  let! next_node := fetch_node next in
  do! node next_node (λ _, set_prev_leaf right_no) in
  do! unpin_node_page next_node true in
  let! h := hdr in
  if no =? last_leaf_ h then set_hdr (set_last_leaf right_no) else ret tt.

(** The pairs behind the first [left_size] move to [right_node]; zeroes are left behind. *)
Definition move_right (f right_node left_size right_size : Z) : M St unit :=
  let! h := hdr in
  let key_size := col_tot_len_ h in
  let! keys := node f (λ h, reads (λ d, rd d (get_key h left_size) (key_size * right_size))) in
  do! node right_node (λ h, writes (λ d, wr d (get_key h 0) keys)) in
  let! rids := node f (λ h, reads (λ d, rd d (get_rid h left_size) (SIZEOF_Rid * right_size))) in
  do! node right_node (λ h, writes (λ d, wr d (get_rid h 0) rids)) in
  do! node f (λ h, writes (λ d, wr d (get_key h left_size) (replicate (Z.to_nat (key_size * right_size)) 0))) in
  node f (λ h, writes (λ d, wr d (get_rid h left_size) (replicate (Z.to_nat (SIZEOF_Rid * right_size)) 0))).

Definition split (f : Z) : M St Z :=
  let! size := node f (λ _, get_size) in
  let left_size := Z.quot size 2 in
  let right_size := size - left_size in
  let! right_node := create_node in
  do! node f (λ _, set_size left_size) in
  do! node right_node (λ _, set_size right_size) in
  let! parent := node f (λ _, get_parent_page_no) in
  do! node right_node (λ _, set_parent_page_no parent) in
  let! leaf := node f (λ _, is_leaf_page) in
  do! node right_node (λ _, set_is_leaf leaf) in
  do! (if leaf : bool then link_leaf f right_node else ret tt) in
  do! move_right f right_node left_size right_size in
  let! leaf := node f (λ _, is_leaf_page) in
  do! (if negb leaf then
         let! n := node right_node (λ _, get_size) in maintain_children right_node 0 n
       else ret tt) in
  ret right_node.

Fixpoint insert_into_parent (fuel : nat) (old_node : Z) (key : bytes) (new_node : Z) : M St unit :=
  match fuel with
  | O => stuck
  | S fuel =>
      let! root := node old_node (λ _, is_root_page) in
      let! old_no := get_page_no old_node in
      let! new_no := get_page_no new_node in
      if root : bool then
        let! new_root := create_node in
        let! root_no := get_page_no new_root in
        do! update_root_page_no root_no in
        do! node new_root (λ _, set_parent_page_no IX_NO_PAGE) in
        do! node new_root (λ _, set_is_leaf false) in
        do! node old_node (λ _, set_parent_page_no root_no) in
        do! node new_node (λ _, set_parent_page_no root_no) in
        do! node new_root (λ h, set_rid h 0 (mkRid old_no 0)) in
        let! num := node new_root (λ _, get_size) in
        do! node new_root (λ _, set_size (wrap32 (num + 1))) in
        let! num := node new_root (λ h, insert h key (mkRid new_no 0)) in
        do! unpin_node_page new_root true in
        do! unpin_node_page old_node true in
        unpin_node_page new_node true
      else
        let! parent := node old_node (λ _, get_parent_page_no) in
        let! parent_node := fetch_node parent in
        let! num := node parent_node (λ h, insert h key (mkRid new_no 0)) in
        let! size := node parent_node (λ _, get_size) in
        let! h := hdr in
        if size >? btree_order_ h then
          let! right_node := split parent_node in
          let! new_key := node right_node (λ h, key_ h 0) in
          do! unpin_node_page old_node true in
          do! unpin_node_page new_node true in
          insert_into_parent fuel parent_node new_key right_node
        else
          do! unpin_node_page old_node true in
          do! unpin_node_page new_node true in
          unpin_node_page parent_node true
  end.

Definition insert_entry (fuel : nat) (key : bytes) (value : Rid) : M St Z :=
  let! empty := is_empty in
  if empty : bool then
    let! root_node := create_node in
    let! no := get_page_no root_node in
    do! set_hdr (set_root no) in
    do! set_hdr (set_first_leaf no) in
    do! set_hdr (set_last_leaf no) in
    do! node root_node (λ _, set_is_leaf true) in
    do! node root_node (λ _, set_parent_page_no IX_NO_PAGE) in
    do! node root_node (λ _, set_next_leaf no) in
    do! node root_node (λ _, set_prev_leaf no) in
    let! num := node root_node (λ h, insert h key value) in
    do! unpin_node_page root_node true in
    get_page_no root_node
  else
    let! leaf_node := find_leaf_page fuel key in
    let! size := node leaf_node (λ _, get_size) in
    let! h := hdr in
    do! (if size >=? btree_order_ h then
           let! num := node leaf_node (λ h, insert h key value) in
           let! right_node := split leaf_node in
           let! new_key := node right_node (λ h, key_ h 0) in
           insert_into_parent fuel leaf_node new_key right_node
         else
           let! num := node leaf_node (λ h, insert h key value) in ret tt) in
    get_page_no leaf_node.

(** ** Deletion *)

Definition adjust_root (old_root_node : Z) : M St bool :=
  let! leaf := node old_root_node (λ _, is_leaf_page) in
  let! size := node old_root_node (λ _, get_size) in
  if negb leaf && (size =? 1) then
    let! child := node old_root_node (λ h, value_at h 0) in
    do! set_hdr (set_root child) in
    let! h := hdr in
    let! new_root := fetch_node (root_page_ h) in
    do! node new_root (λ _, set_parent_page_no IX_NO_PAGE) in
    do! release_node_handle old_root_node in
    ret true
  else if leaf && (size =? 0) then
    do! set_hdr (set_root IX_NO_PAGE) in
    do! set_hdr (set_first_leaf IX_NO_PAGE) in
    do! set_hdr (set_last_leaf IX_NO_PAGE) in
    do! release_node_handle old_root_node in
    ret true
  else
    do! unpin_node_page old_root_node true in
    ret false.

Definition redistribute (neighbor_node f parent index : Z) : M St unit :=
  let! leaf := node f (λ _, is_leaf_page) in
  if negb leaf then
    if index =? 0 then
      let! new_key := node parent (λ h, key_ h 1) in
      let! new_rid := node neighbor_node (λ h, rid_ h 0) in
      let! num := node f (λ h, insert h new_key new_rid) in
      do! node neighbor_node (λ h, erase_pair h 0) in
      let! size := node f (λ _, get_size) in
      do! maintain_child f (size - 1) in
      let! k := node neighbor_node (λ h, key_ h 0) in
      node parent (λ h, set_key h 1 k)
    else
      let! size := node neighbor_node (λ _, get_size) in
      let pos := size - 1 in
      let! new_rid := node neighbor_node (λ h, rid_ h pos) in
      let! k := node parent (λ h, key_ h index) in
      let! r := node f (λ h, rid_ h 0) in
      do! node f (λ h, insert_pair h 1 k r) in
      do! node f (λ h, set_rid h 0 new_rid) in
      do! node neighbor_node (λ h, erase_pair h pos) in
      do! maintain_child f 0 in
      let! new_key := node neighbor_node (λ h, key_ h pos) in
      node parent (λ h, set_key h index new_key)
  else
    if index =? 0 then
      let! new_key := node neighbor_node (λ h, key_ h 0) in
      let! new_rid := node neighbor_node (λ h, rid_ h 0) in
      let! num := node f (λ h, insert h new_key new_rid) in
      do! node neighbor_node (λ h, erase_pair h 0) in
      let! k := node neighbor_node (λ h, key_ h 0) in
      node parent (λ h, set_key h 1 k)
    else
      let! size := node neighbor_node (λ _, get_size) in
      let pos := size - 1 in
      do! node neighbor_node (λ h, erase_pair h pos) in
      let! new_key := node neighbor_node (λ h, key_ h pos) in
      let! new_rid := node neighbor_node (λ h, rid_ h pos) in
      let! num := node f (λ h, insert h new_key new_rid) in
      let! new_key := node neighbor_node (λ h, key_ h pos) in
      node parent (λ h, set_key h index new_key).

Definition coalesce (neighbor_node f parent index : Z) : M St bool :=
  let '(neighbor_node, f) := if index =? 0 then (f, neighbor_node) else (neighbor_node, f) in
  let idx := if index =? 0 then 1 else index in
  let! num_keys := node f (λ _, get_size) in
  let! pos := node neighbor_node (λ _, get_size) in
  let! leaf := node f (λ _, is_leaf_page) in
  do! (if negb leaf then
         let! k := node parent (λ h, key_ h idx) in node f (λ h, set_key h 0 k)
       else ret tt) in
  let! new_keys := node f (λ h, reads (λ d, mem_at d (get_key h 0))) in
  let! new_rids := node f (λ h, reads (λ d, mem_at d (get_rid h 0))) in
  do! node neighbor_node (λ h, insert_pairs h pos new_keys new_rids num_keys) in
  do! node parent (λ h, erase_pair h idx) in
  let! leaf := node f (λ _, is_leaf_page) in
  do! (if negb leaf then
         let! n := node neighbor_node (λ _, get_size) in maintain_children neighbor_node pos n
       else ret tt) in
  let! leaf := node f (λ _, is_leaf_page) in
  do! (if leaf : bool then
         let! next := node f (λ _, get_next_leaf) in
         do! node neighbor_node (λ _, set_next_leaf next) in
         let! next := node f (λ _, get_next_leaf) in
         let! next_node := fetch_node next in
         let! neighbor_no := get_page_no neighbor_node in
         do! node next_node (λ _, set_prev_leaf neighbor_no) in
         do! unpin_node_page next_node true in
         let! no := get_page_no f in
         let! h := hdr in
         if no =? last_leaf_ h then set_hdr (set_last_leaf neighbor_no) else ret tt
       else ret tt) in
  do! unpin_node_page neighbor_node true in
  do! release_node_handle f in
  ret false.

Fixpoint coalesce_or_redistribute (fuel : nat) (f : Z) : M St bool :=
  match fuel with
  | O => stuck
  | S fuel =>
      let! root := node f (λ _, is_root_page) in
      if root : bool then do! adjust_root f in ret true else
      let! h := hdr in
      let min_size := Z.max (Z.quot (btree_order_ h + 1) 2 - 1) 1 in
      let! num := node f (λ _, get_size) in
      if num >=? min_size then do! unpin_node_page f true in ret false else
      let! parent := node f (λ _, get_parent_page_no) in
      let! parent_node := fetch_node parent in
      let! no := get_page_no f in
      let! index := node parent_node (λ h, find_child h no) in
      let pos := if negb (index =? 0) then index - 1 else 1 in
      let! neighbor_no := node parent_node (λ h, value_at h pos) in
      let! neighbor := fetch_node neighbor_no in
      let! size := node f (λ _, get_size) in
      let! neighbor_size := node neighbor (λ _, get_size) in
      do! (if size + neighbor_size >=? min_size * 2 then
             do! redistribute neighbor f parent_node index in
             do! unpin_node_page f true in
             unpin_node_page neighbor true
           else do! coalesce neighbor f parent_node index in ret tt) in
      do! coalesce_or_redistribute fuel parent_node in
      ret true
  end.

Definition delete_entry (fuel : nat) (key : bytes) : M St bool :=
  let! leaf_node := find_leaf_page fuel key in
  let! pos := node leaf_node (λ h, IxNodeHandle.lower_bound h key) in
  let! same := node leaf_node (λ h, memcmp_key h pos key) in
  if same : bool then
    do! node leaf_node (λ h, erase_pair h pos) in
    do! coalesce_or_redistribute fuel leaf_node in
    ret false
  else ret false.

(** ** Places in the leaves *)

Definition get_rid (iid : Iid) : M St Rid :=
  let! f := fetch_node (iid_page_no iid) in
  let! size := node f (λ _, get_size) in
  if iid_slot_no iid >=? size then throw IndexEntryNotFoundError else
  do! unpin_node_page f false in
  node f (λ h, rid_ h (iid_slot_no iid)).

Definition leaf_end : M St Iid :=
  let! h := hdr in
  if last_leaf_ h =? IX_NO_PAGE then ret (mkIid IX_NO_PAGE 0) else
  let! f := fetch_node (last_leaf_ h) in
  let! size := node f (λ _, get_size) in
  do! unpin_node_page f false in
  ret (mkIid (last_leaf_ h) size).

Definition leaf_begin : M St Iid := let! h := hdr in ret (mkIid (first_leaf_ h) 0).

(** The largest key, made of the columns' largest values: each at [offset], which the loop
    sets to the length of the column before. *)
Fixpoint fill_max (types : list ColType) (lens : list Z) (offset : Z) (key : bytes) : outcome bytes :=
  match types, lens with
  | [], _ => Ok key
  | _ :: _, [] => Stuck
  | t :: types, n :: lens =>
      match generate_max t n (mkValue TYPE_INT 0 [] None) with
      | Ok value =>
          match (r ← raw value; bs ← rd r 0 n; wr key offset bs) with
          | Some key => fill_max types lens n key
          | None => Stuck
          end
      | Throw e => Throw e
      | Stuck => Stuck
      end
  end.

(** [key] is the buffer the key is written to. *)
Definition get_key (iid : Iid) (key : bytes) : M St bytes :=
  let! e := leaf_end in
  if decide (iid = e) then
    let! h := hdr in of_outcome (fill_max (col_types_ h) (col_lens_ h) 0 key)
  else
    let! f := fetch_node (iid_page_no iid) in
    let! k := node f (λ h, key_ h (iid_slot_no iid)) in
    let! key := of_option (wr key 0 k) in
    let! size := node f (λ _, get_size) in
    if iid_slot_no iid >=? size then throw IndexEntryNotFoundError else
    do! unpin_node_page f false in
    ret key.

(** The place one before, in the second component. *)
Definition minus_one (iid : Iid) : M St (bool * Iid) :=
  let! b := leaf_begin in
  if decide (iid = b) then ret (false, iid) else
  if iid_slot_no iid =? 0 then
    let! f := fetch_node (iid_page_no iid) in
    let! prev := node f (λ _, get_prev_leaf) in
    do! unpin_page_ prev false in
    let! f := fetch_node prev in
    let! size := node f (λ _, get_size) in
    do! unpin_page_ prev false in
    ret (true, mkIid prev (size - 1))
  else ret (true, mkIid (iid_page_no iid) (iid_slot_no iid - 1)).

(** ** Maintenance of nodes around a change *)

Fixpoint maintain_parent (fuel : nat) (curr : Z) : M St unit :=
  match fuel with
  | O => stuck
  | S fuel =>
      let! parent_no := node curr (λ _, get_parent_page_no) in
      if parent_no =? IX_NO_PAGE then ret tt else
      let! parent := fetch_node parent_no in
      let! no := get_page_no curr in
      let! rank := node parent (λ h, find_child h no) in
      let! child_first_key := node curr (λ h, key_ h 0) in
      let! same := node parent (λ h, memcmp_key h rank child_first_key) in
      if same : bool then
        let! id := pool (get_frame parent) in
        let! b := pool (unpin_page (id_ id) true) in massert b
      else
        do! node parent (λ h, set_key h rank child_first_key) in
        let! id := pool (get_frame parent) in
        let! b := pool (unpin_page (id_ id) true) in
        do! massert b in
        maintain_parent fuel parent
  end.

Definition erase_leaf (leaf : Z) : M St unit :=
  let! b := node leaf (λ _, is_leaf_page) in
  do! massert b in
  let! prev_no := node leaf (λ _, get_prev_leaf) in
  let! prev := fetch_node prev_no in
  let! next_no := node leaf (λ _, get_next_leaf) in
  do! node prev (λ _, set_next_leaf next_no) in
  do! unpin_node_page prev true in
  let! next_no := node leaf (λ _, get_next_leaf) in
  let! next := fetch_node next_no in
  let! prev_no := node leaf (λ _, get_prev_leaf) in
  do! node next (λ _, set_prev_leaf prev_no) in
  unpin_node_page next true.

(** ** The constructor *)

(** The first read goes into the pointer [file_hdr_] itself, which is assigned later. *)
Definition IxIndexHandle_new : M (Storage R) IxFileHdr := λ s,
  let '(o, (_, d)) := (read_page fd IX_FILE_HDR_PAGE 8) (replicate 8 0, s_disk s) in
  (do! (λ s, (o, s)) in
   λ s, let '(o, (buf, d)) := (read_page fd IX_FILE_HDR_PAGE PAGE_SIZE) (reset_memory, s_disk s) in
   (do! (λ s, (o, s)) in
    let! h := of_option (ix_deserialize buf) in
    let! now_page_no := gets (λ s, get_fd2pageno (s_disk s) fd) in
    do! disk_call (set_fd2pageno fd (wrap32 (now_page_no + 1))) in
    ret h) (set_disk d s)) (set_disk d s).

End index.
End IxIndexHandle.

(** ** The scan over a range of leaf places *)

Module IxScan.
Import IxNodeHandle.
Section scan.
Context {R : Type} `{Replacer R}.
Context (fd : Z).

Record IxScan := mkIxScan { iid_ : Iid; end_ : Iid }.

Definition is_end (sc : IxScan) : bool := bool_decide (iid_ sc = end_ sc).

(** The page is fetched twice, the first time without a look at what the pool gives. *)
Definition next (sc : IxScan) : M (IxFileHdr * Storage R) IxScan :=
  do! massert (negb (is_end sc)) in
  let iid := iid_ sc in
  do! IxIndexHandle.pool (fetch_page (fd, iid_page_no iid)) in
  let! f := IxIndexHandle.fetch_node fd (iid_page_no iid) in
  let! leaf := IxIndexHandle.node f (λ _, is_leaf_page) in
  do! massert leaf in
  let! size := IxIndexHandle.node f (λ _, get_size) in
  do! massert (iid_slot_no iid <? size) in
  let slot_no := iid_slot_no iid + 1 in
  let! h := IxIndexHandle.hdr in
  if negb (iid_page_no iid =? last_leaf_ h) && (slot_no =? size) then
    let! next := IxIndexHandle.node f (λ _, get_next_leaf) in
    ret (mkIxScan (mkIid next 0) (end_ sc))
  else ret (mkIxScan (mkIid (iid_page_no iid) slot_no) (end_ sc)).

Definition rid (sc : IxScan) : M (IxFileHdr * Storage R) Rid := IxIndexHandle.get_rid fd (iid_ sc).

End scan.
End IxScan.

(** ** The index manager *)

Module IxManager.
Section manager.
Context {R : Type} `{Replacer R}.

(** A [std::string] as a path. *)
Definition path_of (s : bytes) : string := string_of_list_ascii (Ascii.ascii_of_N ∘ Z.to_N <$> s).

(** The file [filename] with the names of the columns behind it. *)
Definition get_index_name (filename : bytes) (index_cols : list bytes) : bytes :=
  fold_left (λ name col, name ++ 95 :: col) index_cols filename ++ [46; 105; 100; 120].
Definition get_index_name_cols (filename : bytes) (index_cols : list ColMeta) : bytes :=
  get_index_name filename (col_name <$> index_cols).

Definition exists_ (filename : bytes) (index_cols : list bytes) (s : Storage R) : bool :=
  is_file (path_of (get_index_name filename index_cols)) (s_disk s).

(** [static_cast<int>((PAGE_SIZE - sizeof(IxPageHdr)) / (col_tot_len + sizeof(Rid)) - 1)],
    computed in [size_t]; [None] is a division by zero. *)
Definition order_of (col_tot_len : Z) : option Z :=
  let n := (col_tot_len + SIZEOF_Rid) mod 2 ^ 64 in
  if n =? 0 then None
  else Some (wrap32 (((PAGE_SIZE - SIZEOF_IxPageHdr) / n - 1) mod 2 ^ 64)).

(** An initialised [IxPageHdr] in a page of zeroes. *)
Definition init_page (prev next : Z) : bytes :=
  i32 IX_NO_PAGE ++ i32 IX_NO_PAGE ++ i32 0 ++ [1; 0; 0; 0] ++ i32 prev ++ i32 next ++
  replicate (Z.to_nat (PAGE_SIZE - SIZEOF_IxPageHdr)) 0.

(** The header [create_index] makes. *)
Definition created_hdr (index_cols : list ColMeta) (col_tot_len btree_order : Z) : IxFileHdr :=
  set_root IX_NO_PAGE (update_tot_len (set_columns (col_type <$> index_cols) (col_len <$> index_cols)
    (IxFileHdr_new IX_NO_PAGE IX_INIT_NUM_PAGES IX_INIT_ROOT_PAGE (len index_cols) col_tot_len btree_order
       (wrap32 ((btree_order + 1) * col_tot_len)) IX_INIT_ROOT_PAGE IX_INIT_ROOT_PAGE))).

Definition create_index (filename : bytes) (index_cols : list ColMeta) : M (Storage R) unit :=
  let ix_name := path_of (get_index_name_cols filename index_cols) in
  do! disk_call (create_file ix_name) in
  let! fd := disk_call (open_file ix_name) in
  let col_tot_len := fold_left (λ n c, n + col_len c) index_cols 0 in
  do! massert (i32_ok col_tot_len) in
  if col_tot_len >? IX_MAX_COL_LEN then throw (InvalidColLengthError col_tot_len) else
  let! btree_order := of_option (order_of col_tot_len) in
  do! massert (btree_order >? 2) in
  let! data := of_outcome (ix_serialize (created_hdr index_cols col_tot_len btree_order)) in
  do! disk_call (write_page fd IX_FILE_HDR_PAGE data) in
  do! disk_call (write_page fd IX_LEAF_HEADER_PAGE (init_page IX_INIT_ROOT_PAGE IX_INIT_ROOT_PAGE)) in
  do! disk_call (write_page fd IX_INIT_ROOT_PAGE (init_page IX_LEAF_HEADER_PAGE IX_LEAF_HEADER_PAGE)) in
  do! disk_call (set_fd2pageno fd (IX_INIT_NUM_PAGES - 1)) in
  disk_call (close_file fd).

Definition destroy_index (filename : bytes) (index_cols : list bytes) : M (Storage R) unit :=
  disk_call (destroy_file (path_of (get_index_name filename index_cols))).

(** The handle: its descriptor and file header. *)
Definition open_index (filename : bytes) (index_cols : list bytes) : M (Storage R) (Z * IxFileHdr) :=
  let! fd := disk_call (open_file (path_of (get_index_name filename index_cols))) in
  let! h := IxIndexHandle.IxIndexHandle_new fd in
  ret (fd, h).

Definition close_index (fd : Z) (h : IxFileHdr) : M (Storage R) unit :=
  let! data := of_outcome (ix_serialize h) in
  do! disk_call (write_page fd IX_FILE_HDR_PAGE data) in
  do! flush_all_pages fd in
  disk_call (close_file fd).

End manager.
End IxManager.
