(* ===== verification/IxPool.v ===== *)
(** * The pages of an index in the buffer pool

    [holds h N H nx t]: in the state [t] the index file has the header [h] and the nodes [N],
    by page number; the handles the running call holds are [H], with the frame of each; [nx]
    is the next page number of the file.  The rules say what the calls of Index.v on single
    nodes do to it, so that the tree is reasoned about without the pool.  A call that starts
    in the storage [s0] finds a frame as long as [room] is left for its handles. *)
From S2P Require Import Prelude Bytes Disk Log Replacer BufferPool Record PoolRun Meta Keys IxNode IxOrder.
From S2P Require Import IxPage IxNodeSpec Index.
Import IxNodeHandle IxIndexHandle.

(** ** The state of an index during a call *)

Definition held_count (p : Z) (H : list (Z * Z)) : Z := len (filter (λ x, x.1 = p) H).

Lemma held_count_cons p q f H : held_count p ((q, f) :: H) = held_count p H + if decide (q = p) then 1 else 0.
Proof. unfold held_count. rewrite filter_cons. simpl. case_decide; cbn [length]; lia. Qed.

Lemma held_count_perm p H H' : H ≡ₚ H' → held_count p H = held_count p H'.
Proof. intros HP. unfold held_count. by rewrite HP. Qed.

Lemma held_count_nonneg p H : 0 ≤ held_count p H.
Proof. unfold held_count. lia. Qed.

Lemma held_count_pos p f H : (p, f) ∈ H → 0 < held_count p H.
Proof.
  intros Hin. unfold held_count. assert ((p, f) ∈ filter (λ x, x.1 = p) H) as Hf by by apply list_elem_of_filter.
  destruct (filter _ H); [by apply elem_of_nil in Hf|]. simpl. lia.
Qed.

Section holds.
Context {R : Type} `{!Replacer R, !ReplacerLaws R}.
Context (fd : Z) (Hfd : 0 ≤ fd < MAX_FD).
Context (cols : list ColMeta) (tot order : Z) (Hlay : layout_ok cols tot order).
Context (s0 : Storage R) (Hs0 : pool_inv s0).
Abbreviation St := (IxFileHdr * Storage R)%type.
Implicit Types (h : IxFileHdr) (N : gmap Z inode) (H : list (Z * Z)) (nx p f : Z) (t : St).
Abbreviation table s := (page_table_ (s_bpm s)).
Abbreviation frames s := (length (pages_ (s_bpm s))).
Abbreviation node_ok := (node_ok cols tot order).

(** The pages of a file whose offsets are an [int]. *)
Definition MAX_PAGES : Z := 2 ^ 19.

Record holds h N H nx t : Prop := {
  hd_hdr : t.1 = h;
  hd_fits : fits cols tot order h;
  hd_inv : pool_inv t.2;
  hd_fd : data_fd t.2 fd;
  hd_small : small_pages t.2;
  hd_node p n : N !! p = Some n → 0 ≤ p < nx ∧ ∃ d, view t.2 (fd, p) = Some d ∧ node_ok d n;
  hd_pins q : pins t.2 q = pins s0 q + (if decide (q.1 = fd) then held_count q.2 H else 0);
  hd_held p f : (p, f) ∈ H → table t.2 !! (fd, p) = Some f;
  hd_next : get_fd2pageno (s_disk t.2) fd = nx;
  hd_nexts g : g ≠ fd → get_fd2pageno (s_disk t.2) g = get_fd2pageno (s_disk s0) g;
  hd_bound : 0 ≤ nx ≤ MAX_PAGES;
  hd_fresh p : nx ≤ p → table t.2 !! (fd, p) = None;
  hd_size : frames t.2 = frames s0;
  hd_view q b : q.1 ≠ fd → data_fd s0 q.1 → view s0 q = Some b → view t.2 q = Some b;
  hd_fds : fds_kept s0 t.2;
}.

(** There is a frame for one handle more than [k]. *)
Definition room (k : nat) : Prop := (size (pinned s0) + k < frames s0)%nat.

Lemma holds_perm h N H H' nx t : H ≡ₚ H' → holds h N H nx t → holds h N H' nx t.
Proof using Type.
  intros HP Hd. split; try apply Hd.
  - intros q. by rewrite <-(held_count_perm _ _ _ HP), (hd_pins _ _ _ _ _ Hd).
  - intros p f Hin. apply (hd_held _ _ _ _ _ Hd). by rewrite HP.
Qed.

(** Forgetting nodes. *)
Lemma holds_sub h N N' H nx t : N' ⊆ N → holds h N H nx t → holds h N' H nx t.
Proof using Type.
  intros HN Hd. split; try apply Hd. intros p n Hn. eapply hd_node; [done|]. by eapply lookup_weaken.
Qed.

Lemma held_pinned h N H nx t p f : holds h N H nx t → (p, f) ∈ H → 0 < pins t.2 (fd, p).
Proof using Hs0.
  intros Hd Hin. rewrite (hd_pins _ _ _ _ _ Hd). simpl. rewrite decide_True by done.
  pose proof (pins_nonneg s0 (fd, p) Hs0). pose proof (held_count_pos _ _ _ Hin). lia.
Qed.

(** ... and for one page besides the pages [ps], each of which is held any number of times. *)
Definition id_set (ps : list Z) : gset PageId := list_to_set (pair fd <$> ps).
Definition room_for (ps : list Z) : Prop := (size (pinned s0) + size (id_set ps) < frames s0)%nat.

Lemma id_set_size ps : (size (id_set ps) ≤ length ps)%nat.
Proof using Type. unfold id_set. etrans; [apply size_list_at_most|]. by rewrite length_fmap. Qed.
Lemma room_room_for (k : nat) ps : (length ps ≤ k)%nat → room k → room_for ps.
Proof using Type. unfold room, room_for. pose proof (id_set_size ps). lia. Qed.
Lemma room_for_sub ps ps' : ps ⊆ ps' → room_for ps' → room_for ps.
Proof using Type.
  intros Hps. unfold room_for. assert (size (id_set ps) ≤ size (id_set ps'))%nat; [|lia].
  apply subseteq_size. intros q (p & -> & Hp)%elem_of_list_to_set%list_elem_of_fmap.
  apply elem_of_list_to_set, list_elem_of_fmap_2. by apply Hps.
Qed.

Lemma pinned_size_for h N H nx t : holds h N H nx t → (size (pinned t.2) ≤ size (pinned s0) + size (id_set H.*1))%nat.
Proof using Type.
  intros Hd. etrans; [apply (subseteq_size _ (pinned s0 ∪ id_set H.*1))|apply size_union_at_most].
  intros q Hq%elem_of_pinned. rewrite (hd_pins _ _ _ _ _ Hd) in Hq. apply elem_of_union. case_decide as Hc.
  - destruct (decide (0 < pins s0 q)) as [?|?]; [left; by apply elem_of_pinned|right].
    assert (0 < held_count q.2 H) as Hpos by lia. unfold held_count in Hpos.
    destruct (filter (λ x, x.1 = q.2) H) as [|x l] eqn:Ef; [simpl in Hpos; lia|].
    assert (x ∈ filter (λ x, x.1 = q.2) H) as [Hx1 Hx]%list_elem_of_filter by (rewrite Ef; by left).
    apply elem_of_list_to_set, list_elem_of_fmap. exists x.1. split; [rewrite Hx1, <-Hc; by destruct q|].
    by apply list_elem_of_fmap_2.
  - left. apply elem_of_pinned. lia.
Qed.

Lemma pinned_size h N H nx t : holds h N H nx t → (size (pinned t.2) ≤ size (pinned s0) + length H)%nat.
Proof using Type.
  intros Hd%pinned_size_for. pose proof (id_set_size H.*1) as Hle. rewrite length_fmap in Hle. lia.
Qed.

(** ** The rules *)

Context (E : exn → St → Prop) (HE : ∀ e t, io_error e = true → E e t).

(** Calls of the pool whose effect is known. *)
Lemma wp_runs {A} (m : M (Storage R) A) (Q : A → St → Prop) t :
  runs m t.2 → (∀ a s, m t.2 = (Ok a, s) → Q a (t.1, s)) → wp (pool m) Q E t.
Proof using HE.
  unfold pool. intros Hm HQ. apply wp_zoom. unfold wp in *. destruct (m t.2) as [[a|e|] s]; auto.
Qed.

Lemma holds_page_ok h N H nx t p : holds h N H nx t → p < nx → i32_ok (p * PAGE_SIZE) = true ∨ p < 0.
Proof using Type.
  intros Hd Hp. destruct (decide (p < 0)); [by right|left]. apply i32_ok_range.
  pose proof (hd_bound _ _ _ _ _ Hd). unfold MAX_PAGES, PAGE_SIZE in *. lia.
Qed.

Lemma wp_fetch_for h N H nx t p n (Q : Z → St → Prop) :
  holds h N H nx t → N !! p = Some n → room_for H.*1 →
  (∀ f t', holds h N ((p, f) :: H) nx t' → unpin_pre t'.2 (fd, p) false → Q f t') →
  wp (fetch_node fd p) Q E t.
Proof using HE Hs0.
  intros Hd Hn Hroom HQ. destruct (hd_node _ _ _ _ _ Hd p n Hn) as [Hp (d & Hv & Hok)].
  destruct (holds_page_ok _ _ _ _ _ p Hd) as [Hpp|]; [lia| |lia].
  apply wp_runs.
  { apply wp_bind, wp_Ok; [apply fetch_page_runs; [apply Hd|apply Hd|exact Hpp]|].
    intros o s' Ho. destruct o as [f|]; [done|]. exfalso.
    apply fetch_none in Ho as (-> & Hfree & Hpin); [|apply Hd].
    pose proof (full_pinned _ (hd_inv _ _ _ _ _ Hd) Hfree Hpin).
    pose proof (pinned_size_for _ _ _ _ _ Hd). rewrite (hd_size _ _ _ _ _ Hd) in *. unfold room_for in Hroom. lia. }
  intros f s' (o & s1 & Hf & Ho)%bind_Ok. apply of_option_Ok in Ho as [-> ->].
  pose proof (within_frames _ _ _ _ (frames_fetch _) Hf) as Hsize.
  apply fetch_Ok in Hf; [|apply Hd|apply Hd]. apply HQ; [|apply Hf]. split; cbn.
  - apply Hd.
  - apply Hd.
  - apply Hf.
  - apply (ft_fds _ _ _ _ Hf), Hd.
  - intros q g Hq. destruct (decide (q = (fd, p))) as [->|Hne]; [done|].
    destruct (table t.2 !! q) as [g'|] eqn:Eq; [by eapply (hd_small _ _ _ _ _ Hd)|].
    by rewrite (ft_keys _ _ _ _ Hf) in Hq.
  - intros p' n' Hn'. destruct (hd_node _ _ _ _ _ Hd p' n' Hn') as [? (d' & Hv' & ?)]. split; [done|].
    exists d'. split; [|done]. apply (ft_view _ _ _ _ Hf); [apply Hd|done].
  - intros q. rewrite (ft_pins _ _ _ _ Hf), (hd_pins _ _ _ _ _ Hd), held_count_cons.
    destruct q as [g p']. simpl. repeat case_decide; simplify_eq; try lia; naive_solver.
  - intros p' g [[= -> ->]|Hin]%elem_of_cons; [apply Hf|]. apply (ft_stay _ _ _ _ Hf).
    + by apply (hd_held _ _ _ _ _ Hd).
    + by eapply held_pinned.
  - unfold get_fd2pageno. rewrite (ft_pageno _ _ _ _ Hf). apply Hd.
  - intros g Hg. unfold get_fd2pageno. rewrite (ft_pageno _ _ _ _ Hf). by apply Hd.
  - apply Hd.
  - intros p' Hp'. apply (ft_keys _ _ _ _ Hf); [intros [= ->]; lia|]. by apply Hd.
  - rewrite Hsize. apply Hd.
  - intros q b Hq Hfq Hb. apply (ft_view _ _ _ _ Hf); [by apply (hd_fds _ _ _ _ _ Hd)|by apply (hd_view _ _ _ _ _ Hd)].
  - intros g Hg. by apply (ft_fds _ _ _ _ Hf), (hd_fds _ _ _ _ _ Hd).
Qed.

Lemma wp_fetch h N H nx t p n (Q : Z → St → Prop) :
  holds h N H nx t → N !! p = Some n → room (length H) →
  (∀ f t', holds h N ((p, f) :: H) nx t' → unpin_pre t'.2 (fd, p) false → Q f t') →
  wp (fetch_node fd p) Q E t.
Proof using HE Hs0.
  intros Hd Hn Hroom. apply (wp_fetch_for h N H nx t p n Q Hd Hn). eapply room_room_for; [|exact Hroom].
  by rewrite length_fmap.
Qed.

Lemma frame_same (s : Storage R) f (p : Page) : frame s f = Some p → upd_frame f (mkPage (id_ p) (data_ p) (is_dirty_ p) (pin_count_ p)) s = s.
Proof using Type.
  intros Hf. unfold upd_frame. replace (mkPage _ _ _ _) with p by by destruct p.
  unfold frame in Hf. destruct (Z.leb_spec 0 f); [|done]. rewrite list_insert_id by done. by destruct s as [? ? []].
Qed.

Lemma write_frame_run (s : Storage R) f (p : Page) d :
  frame s f = Some p → write_frame f d s = (Ok tt, upd_frame f (mkPage (id_ p) d (is_dirty_ p) (pin_count_ p)) s).
Proof using Type. intros Hf. unfold write_frame. erewrite bind_run; [done|]. by apply get_frame_Ok. Qed.

(** A call on a node's page, through a pointer to its frame. *)
Lemma held_node_frame h N H nx t p n f :
  holds h N H nx t → N !! p = Some n → table t.2 !! (fd, p) = Some f →
  ∃ P, frame t.2 f = Some P ∧ node_ok (data_ P) n ∧ id_ P = (fd, p).
Proof using Type.
  intros Hd Hn Hf. destruct (hd_node _ _ _ _ _ Hd p n Hn) as [_ (d & Hv & Hok)].
  destruct (mapped_frame _ _ _ (hd_inv _ _ _ _ _ Hd) Hf) as (P & HP & Hid).
  unfold view in Hv. rewrite Hf, HP in Hv. injection Hv as <-. eauto.
Qed.

Lemma node_run {A} (m : IxFileHdr → M bytes A) t f (P : Page) o d :
  frame t.2 f = Some P → m t.1 (data_ P) = (o, d) →
  node f m t = (o, (t.1, upd_frame f (mkPage (id_ P) d (is_dirty_ P) (pin_count_ P)) t.2)).
Proof using Type.
  intros HP Hm. unfold node, hdr. rewrite bind_gets. unfold pool, zoom, at_frame.
  erewrite bind_run by by apply get_frame_Ok. rewrite Hm. erewrite write_frame_run by done. done.
Qed.

Lemma wp_node_read {A} (m : IxFileHdr → M bytes A) h N H nx t p n f (Q : A → St → Prop) :
  holds h N H nx t → N !! p = Some n → table t.2 !! (fd, p) = Some f → (∀ h, within eq (m h)) →
  node_wp cols tot order (m h) n (λ a _, Q a t) (λ e _, E e t) → wp (node f m) Q E t.
Proof using Type.
  intros Hd Hn Hf Hro Hm. destruct (held_node_frame _ _ _ _ _ _ _ _ Hd Hn Hf) as (P & HP & Hok & _).
  specialize (Hm _ Hok). unfold wp in *. destruct (m h (data_ P)) as [o d] eqn:Er.
  assert (d = data_ P) as -> by (pose proof (Hro h (data_ P)) as E1; by rewrite Er in E1).
  rewrite (node_run m t f P o (data_ P) HP) by by rewrite (hd_hdr _ _ _ _ _ Hd).
  rewrite frame_same by done. destruct t as [h' s]. destruct o as [a|e|]; [|..|done]; by destruct Hm as (? & _ & ?).
Qed.

Lemma holds_write h N H nx t p n f (P : Page) d n' :
  holds h N H nx t → N !! p = Some n → (p, f) ∈ H → frame t.2 f = Some P → node_ok d n' →
  holds h (<[p := n']> N) H nx (t.1, upd_frame f (mkPage (id_ P) d (is_dirty_ P) (pin_count_ P)) t.2).
Proof using Hs0.
  intros Hd Hn Hin HP Hok. pose proof (hd_held _ _ _ _ _ Hd _ _ Hin) as Hm.
  pose proof (write_frame_Ok t.2 (fd, p) f d _ (hd_inv _ _ _ _ _ Hd) Hm (held_pinned _ _ _ _ _ _ _ Hd Hin)
    (no_len _ _ _ _ _ Hok) (write_frame_run _ _ _ d HP)) as (Hi & Hp & Hfds & Ht & Hdisk & _ & Hv).
  destruct (hd_node _ _ _ _ _ Hd p n Hn) as [Hpn _].
  split; cbn [fst snd].
  - apply Hd.
  - apply Hd.
  - done.
  - by apply Hfds, Hd.
  - intros q g. rewrite Ht. apply Hd.
  - intros p' m. destruct (decide (p' = p)) as [->|Hne].
    + rewrite lookup_insert_eq. intros [= <-]. split; [done|]. exists d. by rewrite Hv, decide_True.
    + rewrite lookup_insert_ne by done. intros Hm'. destruct (hd_node _ _ _ _ _ Hd p' m Hm') as [? (d' & ? & ?)].
      split; [done|]. exists d'. rewrite Hv, decide_False by congruence. done.
  - intros q. rewrite Hp. apply Hd.
  - rewrite Ht. apply Hd.
  - rewrite Hdisk. apply Hd.
  - rewrite Hdisk. apply Hd.
  - apply Hd.
  - rewrite Ht. apply Hd.
  - unfold upd_frame. simpl. rewrite length_insert. apply Hd.
  - intros q b Hq Hfq Hb. rewrite Hv, decide_False by (intros ->; done). by apply (hd_view _ _ _ _ _ Hd).
  - intros g Hg. by apply Hfds, (hd_fds _ _ _ _ _ Hd).
Qed.

Lemma wp_node {A} (m : IxFileHdr → M bytes A) h N H nx t p n f (Q : A → St → Prop) :
  holds h N H nx t → N !! p = Some n → (p, f) ∈ H →
  node_wp cols tot order (m h) n
    (λ a n', ∀ t', holds h (<[p := n']> N) H nx t' → Q a t')
    (λ e n', ∀ t', holds h (<[p := n']> N) H nx t' → E e t') →
  wp (node f m) Q E t.
Proof using Hs0.
  intros Hd Hn Hin Hm. pose proof (hd_held _ _ _ _ _ Hd _ _ Hin) as Hf.
  destruct (held_node_frame _ _ _ _ _ _ _ _ Hd Hn Hf) as (P & HP & Hok & _).
  specialize (Hm _ Hok). unfold wp in *. destruct (m h (data_ P)) as [o d] eqn:Er.
  rewrite (node_run m t f P o d HP) by by rewrite (hd_hdr _ _ _ _ _ Hd).
  destruct o as [a|e|]; [|..|done]; destruct Hm as (n' & Hok' & HQ); by eapply HQ, holds_write.
Qed.

(** The page number a handle answers; any frame has one. *)
Lemma wp_page_no h N H nx t p f (Q : Z → St → Prop) :
  holds h N H nx t → table t.2 !! (fd, p) = Some f → Q p t → wp (get_page_no f) Q E t.
Proof using Type.
  intros Hd Hm HQ. destruct (mapped_frame _ _ _ (hd_inv _ _ _ _ _ Hd) Hm) as (P & HP & Hid).
  unfold wp, get_page_no, pool, zoom, frame_page_no. erewrite bind_run by by apply get_frame_Ok.
  simpl. rewrite Hid. by destruct t.
Qed.

Lemma wp_some_page_no h N H nx t f (Q : Z → St → Prop) :
  holds h N H nx t → 0 ≤ f < Z.of_nat (frames s0) → (∀ p, Q p t) → wp (get_page_no f) Q E t.
Proof using Type.
  intros Hd Hf HQ. rewrite <-(hd_size _ _ _ _ _ Hd) in Hf. apply frame_is_Some in Hf as [P HP].
  unfold wp, get_page_no, pool, zoom, frame_page_no. erewrite bind_run by by apply get_frame_Ok.
  simpl. destruct t. apply HQ.
Qed.

Lemma held_frame h N H nx t p f : holds h N H nx t → (p, f) ∈ H → 0 ≤ f < Z.of_nat (frames s0).
Proof using Type.
  intros Hd Hin. rewrite <-(hd_size _ _ _ _ _ Hd). apply frame_is_Some.
  destruct (mapped_frame _ _ _ (hd_inv _ _ _ _ _ Hd) (hd_held _ _ _ _ _ Hd _ _ Hin)) as (P & HP & _). by eexists.
Qed.

Lemma wp_unpin_page h N H H' nx t p f b (Q : unit → St → Prop) :
  holds h N H nx t → H ≡ₚ (p, f) :: H' → unpin_pre t.2 (fd, p) b →
  (∀ t', holds h N H' nx t' → table t'.2 = table t.2 → (∀ q, view t'.2 q = view t.2 q) → Q tt t') →
  wp (unpin_page_ fd p b) Q E t.
Proof using HE Hs0.
  intros Hd HP Hpre HQ. apply wp_runs.
  { unfold unpin_. apply wp_bind. eapply wp_mono; [apply unpin_page_runs, Hd|]. done. }
  intros [] s' (r & s1 & Hu & Hr)%bind_Ok. apply ret_Ok in Hr as [_ ->].
  pose proof (within_frames _ _ _ _ (frames_unpin _ _) Hu) as Hsize.
  apply unpin_unpinned in Hu; [|apply Hd|done].
  assert ((p, f) ∈ H) as Hin by (rewrite HP; by left).
  assert (r = true) as ->.
  { apply (up_b _ _ _ _ Hu). by eapply held_pinned. }
  apply HQ; [|apply Hu|apply Hu]. split; cbn; try rewrite (up_table _ _ _ _ Hu); try rewrite (up_disk _ _ _ _ Hu);
    try apply Hd; try apply Hu.
  - unfold data_fd. rewrite (up_disk _ _ _ _ Hu). apply Hd.
  - intros q g. rewrite (up_table _ _ _ _ Hu). apply Hd.
  - intros p' n' Hn'. destruct (hd_node _ _ _ _ _ Hd p' n' Hn') as [? (d' & ? & ?)]. split; [done|].
    exists d'. by rewrite (up_view _ _ _ _ Hu).
  - intros q. rewrite (up_pins _ _ _ _ Hu), (hd_pins _ _ _ _ _ Hd), (held_count_perm _ _ _ HP), held_count_cons.
    destruct q as [g p']. simpl. repeat case_decide; simplify_eq; try lia; naive_solver.
  - intros p' g Hin'. apply (hd_held _ _ _ _ _ Hd). rewrite HP. by right.
  - rewrite Hsize. apply Hd.
  - intros q b' Hq Hfq Hb. rewrite (up_view _ _ _ _ Hu). by apply (hd_view _ _ _ _ _ Hd).
  - intros g Hg. unfold data_fd. rewrite (up_disk _ _ _ _ Hu). by apply (hd_fds _ _ _ _ _ Hd).
Qed.

Lemma wp_unpin h N H H' nx t p f b (Q : unit → St → Prop) :
  holds h N H nx t → H ≡ₚ (p, f) :: H' → unpin_pre t.2 (fd, p) b →
  (∀ t', holds h N H' nx t' → table t'.2 = table t.2 → (∀ q, view t'.2 q = view t.2 q) → Q tt t') →
  wp (unpin_node_page fd f b) Q E t.
Proof using HE Hs0.
  intros Hd HP Hpre HQ. unfold unpin_node_page. apply wp_bind. eapply wp_page_no; [done| |by eapply wp_unpin_page].
  apply (hd_held _ _ _ _ _ Hd). rewrite HP. by left.
Qed.

Lemma wp_unpin_dirty h N H H' nx t p f (Q : unit → St → Prop) :
  holds h N H nx t → H ≡ₚ (p, f) :: H' → (∀ t', holds h N H' nx t' → Q tt t') →
  wp (unpin_node_page fd f true) Q E t.
Proof using HE Hs0. intros Hd HP HQ. eapply wp_unpin; [done|done|by left|]. intros t' Ht' _ _. by apply HQ. Qed.

(** The header. *)
Lemma wp_hdr h N H nx t (Q : IxFileHdr → St → Prop) : holds h N H nx t → Q h t → wp hdr Q E t.
Proof using Type. intros Hd HQ. unfold hdr. apply wp_gets. by rewrite (hd_hdr _ _ _ _ _ Hd). Qed.

Lemma holds_set_hdr (g : IxFileHdr → IxFileHdr) h N H nx t :
  fits cols tot order (g h) → holds h N H nx t → holds (g h) N H nx (g t.1, t.2).
Proof using Type. intros Hf Hd. split; try apply Hd; [|done]. cbn. by rewrite (hd_hdr _ _ _ _ _ Hd). Qed.

Lemma wp_set_hdr (g : IxFileHdr → IxFileHdr) h N H nx t (Q : unit → St → Prop) :
  holds h N H nx t → fits cols tot order (g h) → (∀ t', holds (g h) N H nx t' → Q tt t') → wp (set_hdr g) Q E t.
Proof using Type. intros Hd Hf HQ. apply wp_modify, HQ. by apply holds_set_hdr. Qed.

(** A new node is a page of zeroes. *)
Definition blank : inode :=
  mkNode 0 0 false 0 0 (replicate (cap order) (replicate (Z.to_nat tot) 0)) (replicate (cap order) (mkRid 0 0)).

Lemma fits_add_pages k h : fits cols tot order h → fits cols tot order (add_pages k h).
Proof using Type. intros Hf. split; apply Hf. Qed.

Lemma concat_zeros a w : concat (replicate a (replicate w 0)) = replicate (a * w) 0.
Proof using Type. induction a as [|a IH]; [done|]. simpl. by rewrite IH, replicate_add. Qed.

Lemma rd_zeros L o k : 0 ≤ o → 0 ≤ k → o + k ≤ Z.of_nat L → rd (replicate L 0) o k = Some (replicate (Z.to_nat k) 0).
Proof using Type.
  intros Ho Hk Hok. apply rd_mid. exists (replicate (Z.to_nat o) 0), (replicate (L - Z.to_nat o - Z.to_nat k) 0).
  split_and!; [|rewrite length_replicate; lia..]. rewrite <-!replicate_add. f_equal. lia.
Qed.

Lemma blank_ok : node_ok reset_memory blank.
Proof using Hlay.
  pose proof (cap_Z cols tot order Hlay) as Hcap. pose proof Hlay as [Hty Hcols Ht Ho Hfit].
  unfold SIZEOF_IxPageHdr, SIZEOF_Rid, PAGE_SIZE in Hfit. unfold reset_memory.
  assert (∀ off, 0 ≤ off ≤ 20 → rd_i32 (replicate (Z.to_nat PAGE_SIZE) 0) off = Some 0) as Hz.
  { intros off Hoff. unfold rd_i32. rewrite rd_zeros by (unfold PAGE_SIZE; lia). reflexivity. }
  split; cbn [nd_parent nd_num nd_leaf nd_prev nd_next nd_keys nd_rids blank];
    unfold OFF_parent, OFF_num_key, OFF_is_leaf, OFF_prev_leaf, OFF_next_leaf; try (apply Hz; lia).
  - by rewrite length_replicate.
  - rewrite rd_zeros by (unfold PAGE_SIZE; lia). reflexivity.
  - rewrite rd_zeros; [|unfold SIZEOF_IxPageHdr, PAGE_SIZE; nia..]. rewrite concat_zeros. f_equal. f_equal. nia.
  - rewrite rd_zeros; [|unfold SIZEOF_IxPageHdr, SIZEOF_Rid, PAGE_SIZE; nia..]. rewrite fmap_replicate.
    change (rid_bytes (mkRid 0 0)) with (replicate 8 0). rewrite concat_zeros. f_equal. f_equal. unfold SIZEOF_Rid. lia.
  - by rewrite length_replicate.
  - by rewrite length_replicate.
  - apply Forall_replicate. rewrite <-Hcols. by apply zero_key_plain.
  - apply Forall_replicate. by split.
Qed.

Lemma wp_create h N H nx t (Q : Z → St → Prop) :
  holds h N H nx t → nx < MAX_PAGES → room (length H) →
  (∀ f t', N !! nx = None → holds (add_pages 1 h) (<[nx := blank]> N) ((nx, f) :: H) (nx + 1) t' → Q f t') →
  wp (create_node fd) Q E t.
Proof using HE Hs0 Hlay Hfd.
  intros Hd Hnx Hroom HQ. unfold create_node. apply wp_bind.
  eapply wp_set_hdr; [done|by apply fits_add_pages, Hd|]. clear t Hd. intros t Hd.
  assert (N !! nx = None) as Hnone.
  { apply eq_None_not_Some. intros [n Hn]. apply (hd_node _ _ _ _ _ Hd) in Hn as [? _]. lia. }
  pose proof (hd_bound _ _ _ _ _ Hd) as Hb. pose proof (hd_next _ _ _ _ _ Hd) as Hnext.
  apply wp_bind, wp_runs.
  { apply new_page_runs; [apply Hd|apply Hd|done|]. rewrite Hnext. apply i32_ok_range. unfold MAX_PAGES, PAGE_SIZE in *. lia. }
  intros o s' Hnew. destruct o as [[f no]|].
  2: { exfalso. apply new_none in Hnew; [|apply Hd]. pose proof (pinned_size _ _ _ _ _ Hd).
    rewrite (hd_size _ _ _ _ _ Hd) in *. unfold room in Hroom. lia. }
  pose proof (within_frames _ _ _ _ (frames_new _) Hnew) as Hsize.
  apply new_Ok in Hnew; [|apply Hd|apply Hd|rewrite Hnext; by apply (hd_fresh _ _ _ _ _ Hd)].
  assert (no = nx) as -> by (rewrite <-Hnext; apply Hnew).
  apply wp_bind, wp_ret, wp_ret, HQ; [done|]. cbn.
  assert (∀ g, get_fd2pageno (s_disk s') g = if decide (g = fd) then nx + 1 else get_fd2pageno (s_disk t.2) g) as Hno.
  { intros g. unfold get_fd2pageno at 1. rewrite (pm_pageno _ _ _ _ _ Hnew). case_decide as Hg.
    - subst g. rewrite lookup_insert_eq. simpl. apply wrap32_id, i32_ok_range. unfold MAX_PAGES in *. lia.
    - by rewrite lookup_insert_ne. }
  split; cbn.
  - apply Hd.
  - apply Hd.
  - apply Hnew.
  - apply (pm_fds _ _ _ _ _ Hnew), Hd.
  - intros q g Hq. destruct (decide (q = (fd, nx))) as [->|Hne].
    + apply i32_ok_range. simpl. unfold MAX_PAGES, PAGE_SIZE in *. lia.
    + destruct (table t.2 !! q) as [g'|] eqn:Eq; [by eapply (hd_small _ _ _ _ _ Hd)|].
      by rewrite (pm_keys _ _ _ _ _ Hnew) in Hq.
  - intros p' n'. destruct (decide (p' = nx)) as [->|Hne].
    + rewrite lookup_insert_eq. intros [= <-]. split; [lia|]. eexists. split; [exact (pm_new _ _ _ _ _ Hnew)|apply blank_ok].
    + rewrite lookup_insert_ne by done. intros Hn'.
      destruct (hd_node _ _ _ _ _ Hd p' n' Hn') as [? (d' & Hv' & ?)]. split; [lia|].
      exists d'. split; [|done]. apply (pm_view _ _ _ _ _ Hnew); [congruence|apply Hd|done].
  - intros q. rewrite (pm_pins _ _ _ _ _ Hnew), held_count_cons.
    pose proof (hd_pins _ _ _ _ _ Hd q) as Hq. destruct (decide (q = (fd, nx))) as [->|Hc].
    + simpl. rewrite !decide_True by done.
      assert (pins t.2 (fd, nx) = 0) as Hz.
      { unfold pins, cached. by rewrite (hd_fresh _ _ _ _ _ Hd nx). }
      simpl in Hq. rewrite decide_True in Hq by done. rewrite Hz in Hq.
      pose proof (pins_nonneg s0 (fd, nx) Hs0). pose proof (held_count_nonneg nx H). lia.
    + rewrite Hq. destruct q as [g p']. simpl. repeat case_decide; simplify_eq; try lia; naive_solver.
  - intros p' g [[= -> ->]|Hin]%elem_of_cons; [apply Hnew|].
    apply (pm_stay _ _ _ _ _ Hnew); [by apply (hd_held _ _ _ _ _ Hd)|by eapply held_pinned].
  - by rewrite Hno, decide_True.
  - intros g Hg. rewrite Hno, decide_False by done. by apply Hd.
  - unfold MAX_PAGES in *. lia.
  - intros p' Hp'. apply (pm_keys _ _ _ _ _ Hnew); [intros [= ->]; lia|]. apply (hd_fresh _ _ _ _ _ Hd). lia.
  - rewrite Hsize. apply Hd.
  - intros q b Hq Hfq Hqb. apply (pm_view _ _ _ _ _ Hnew); [intros ->; done|by apply (hd_fds _ _ _ _ _ Hd)|by apply (hd_view _ _ _ _ _ Hd)].
  - intros g Hg. by apply (pm_fds _ _ _ _ _ Hnew), (hd_fds _ _ _ _ _ Hd).
Qed.
End holds.
