(* ===== verification/IxTree.v ===== *)
(** * The B+ tree as levels of nodes

    A level of the tree is the list of its nodes from left to right, each with the smallest
    key that may lie below it ([None] in front of all keys).  The children of the nodes of a
    level make the level below; the leaves hold the entries and form a ring.  [tree N h es]:
    the nodes [N] are a tree with the root of the header [h] that holds the entries [es]. *)
From Stdlib Require Import Sorting.Sorted.
From S2P Require Import Prelude Bytes Disk Log Meta Keys IxNode IxOrder IxPage IxNodeSpec.

(** ** Generic lemmas *)

Lemma concat_split {A} (ls : list (list A)) X x Y :
  concat ls = X ++ x :: Y →
  ∃ l1 c1 c2 l2, ls = l1 ++ (c1 ++ x :: c2) :: l2 ∧ X = concat l1 ++ c1 ∧ Y = c2 ++ concat l2.
Proof.
  revert X. induction ls as [|l ls IH]; intros X; simpl; [by destruct X|]. intros Heq.
  apply app_eq_inv in Heq as [(k & -> & Heq)|(k & Heq & Hk)].
  - destruct k as [|y k].
    + rewrite app_nil_r. destruct (IH [] (eq_sym Heq)) as (l1 & c1 & c2 & l2 & -> & Hn & ->).
      exists (X :: l1), c1, c2, l2. split; [done|]. split; [|done]. simpl. by rewrite <-(assoc_L (++)), <-Hn, app_nil_r.
    + simplify_eq/=. exists [], X, k, ls. done.
  - destruct (IH k Hk) as (l1 & c1 & c2 & l2 & -> & -> & ->).
    exists (l :: l1), c1, c2, l2. split; [done|]. split; [|done]. simpl. by rewrite <-(assoc_L (++)).
Qed.

(** A list is split in one way into a part that satisfies [P] and one that does not. *)
Lemma split_unique {A} (P : A → Prop) (l1 l2 m1 m2 : list A) :
  l1 ++ l2 = m1 ++ m2 → Forall P l1 → Forall P m1 → Forall (λ x, ¬ P x) l2 → Forall (λ x, ¬ P x) m2 →
  l1 = m1 ∧ l2 = m2.
Proof.
  revert m1. induction l1 as [|x l1 IH]; intros [|y m1] Heq Hl1 Hm1 Hl2 Hm2; simplify_eq/=.
  - done.
  - apply Forall_cons in Hm1 as [? _]. by apply Forall_cons in Hl2 as [? _].
  - apply Forall_cons in Hl1 as [? _]. by apply Forall_cons in Hm2 as [? _].
  - apply Forall_cons in Hl1 as [_ ?]. apply Forall_cons in Hm1 as [_ ?]. destruct (IH m1) as [-> ->]; done.
Qed.

Section tree.
Context (cols : list ColMeta) (order : Z).
Abbreviation klt := (klt cols).
Abbreviation plain := (plain_key cols).
Abbreviation entry := (bytes * Rid)%type.

(** ** Lower bounds *)

Abbreviation lo := (option bytes).
Definition item : Type := (lo * Z).
Implicit Types (o : lo) (it : item) (k t : bytes) (N : gmap Z inode) (L : list item) (up : list (list item)).

Definition lo_le o k : Prop := match o with None => True | Some l => ¬ klt k l end.
Definition lo_gt o k : Prop := match o with None => False | Some l => klt k l end.
Definition lo_lt o o' : Prop := match o' with None => False | Some l => match o with None => True | Some k => klt k l end end.
Definition lo_plain o : Prop := match o with None => True | Some l => plain l end.

Lemma lo_lt_trans o1 o2 o3 : lo_lt o1 o2 → lo_lt o2 o3 → lo_lt o1 o3.
Proof using Type. destruct o1, o2, o3; simpl; try done. apply klt_trans. Qed.
Lemma lo_lt_irrefl o : ¬ lo_lt o o.
Proof using Type. destruct o; simpl; [apply klt_irrefl|tauto]. Qed.
Lemma lo_lt_gt o k : lo_lt (Some k) o ↔ lo_gt o k.
Proof using Type. by destruct o. Qed.
Lemma lo_gt_lt_trans o o' k : lo_gt o k → lo_lt o o' → lo_gt o' k.
Proof using Type. destruct o, o'; simpl; try done. apply klt_trans. Qed.
Lemma lo_le_lt o k : lo_plain o → plain k → lo_le o k → lo_lt o (Some k) ∨ o = Some k.
Proof using Type.
  destruct o as [l|]; simpl; [|by left]. intros Hl Hk Hle. destruct (klt_total cols l k) as [?|[->|?]]; [done|done|by left|by right|done].
Qed.
Lemma lo_lt_le o k : lo_lt o (Some k) → lo_le o k.
Proof using Type. destruct o; simpl; [apply klt_asym|done]. Qed.
(** A key below a bound is below what lies behind the bound. *)
Lemma lo_gt_le_trans o k t : lo_plain o → plain k → plain t → lo_gt o k → lo_le o t → klt k t.
Proof using Type.
  intros Hl Hk Ht. destruct o as [l|]; simpl; [|done]. intros Hkl Hle.
  destruct (klt_total cols l t) as [?|[->|?]]; [done..| |done|done]. by eapply klt_trans.
Qed.

(** ** Levels *)

Definition child (e : entry) : item := (Some e.1, page_no e.2).
(** The children of a node with the lower bound [o]: the key of its first slot is not used. *)
Definition children_of o (l : list entry) : list item :=
  match l with [] => [] | e :: l => (o, page_no e.2) :: (child <$> l) end.
Lemma children_pages o l : (children_of o l).*2 = page_no <$> l.*2.
Proof using Type. destruct l as [|e l]; [done|]. cbn. f_equal. by rewrite <-!list_fmap_compose. Qed.

Definition kids N it : list item :=
  match N !! it.2 with Some n => children_of it.1 (live n) | None => [] end.
Definition parent_of N (p : Z) : option Z := nd_parent <$> N !! p.
Definition entries_at N (p : Z) : list entry := match N !! p with Some n => live n | None => [] end.
Definition pages L : list Z := L.*2.

Definition inner_ok N it : Prop :=
  ∃ n, N !! it.2 = Some n ∧ nd_leaf n = false ∧ 2 ≤ nd_num n ≤ order ∧
    ∀ c, c ∈ kids N it → parent_of N c.2 = Some it.2.
Definition linked N L0 L1 : Prop := L0 = concat (kids N <$> L1) ∧ Forall (inner_ok N) L1.

(** The levels above the level [L], up to the root. *)
Fixpoint stacked N L up root : Prop :=
  match up with
  | [] => L = [(None, root)] ∧ parent_of N root = Some (-1)
  | L1 :: up => linked N L L1 ∧ stacked N L1 up root
  end.

Definition los_ok L : Prop := StronglySorted lo_lt L.*1 ∧ Forall lo_plain L.*1.

(** ** Leaves *)

Definition leaf_ok N it : Prop := ∃ n, N !! it.2 = Some n ∧ nd_leaf n = true ∧ 1 ≤ nd_num n ≤ order.
Definition entries N L : list entry := concat (entries_at N <$> pages L).

(** The entries of a leaf are not below its bound, and below those of the leaves behind. *)
Fixpoint fenced N L : Prop :=
  match L with
  | [] => True
  | it :: L => (∀ e, e ∈ entries_at N it.2 → lo_le it.1 e.1 ∧ ∀ b, b ∈ L → lo_gt b.1 e.1) ∧ fenced N L
  end.

Definition link N (x y : Z) : Prop := nd_next <$> N !! x = Some y ∧ nd_prev <$> N !! y = Some x.
Fixpoint chain N x (l : list Z) y : Prop :=
  match l with [] => link N x y | z :: l => link N x z ∧ chain N z l y end.
(** The leaves are a ring in the order of the level. *)
Definition ring N (ps : list Z) : Prop := match ps with [] => True | x :: l => chain N x l x end.

Record tree_at N L up root first lst (es : list entry) : Prop := {
  tr_stack : stacked N L up root;
  tr_los : los_ok L;
  tr_leaves : Forall (leaf_ok N) L;
  tr_entries : entries N L = es;
  tr_sorted : sorted cols es;
  tr_fenced : fenced N L;
  tr_ring : ring N (pages L);
  tr_first : head (pages L) = Some first;
  tr_last : last (pages L) = Some lst;
  tr_nodup : NoDup (pages (concat (L :: up)));
}.

Definition tree N (h : IxFileHdr) (L : list item) up es : Prop :=
  if decide (root_page_ h = IX_NO_PAGE) then L = [] ∧ es = [] ∧ up = []
  else tree_at N L up (root_page_ h) (first_leaf_ h) (last_leaf_ h) es.

(** *** Basic facts *)

Lemma kids_ext N N' it : live <$> N' !! it.2 = live <$> N !! it.2 → kids N' it = kids N it.
Proof using Type. intros H. unfold kids. destruct (N' !! it.2), (N !! it.2); simplify_eq/=; congruence. Qed.

Lemma entries_at_ext N N' p : live <$> N' !! p = live <$> N !! p → entries_at N' p = entries_at N p.
Proof using Type. intros H. unfold entries_at. destruct (N' !! p), (N !! p); simplify_eq/=; congruence. Qed.

Lemma kids_head N it : inner_ok N it → (∃ n, N !! it.2 = Some n ∧ live n ≠ []) → ∃ p l, kids N it = (it.1, p) :: l.
Proof using Type. intros _ (n & Hn & Hl). unfold kids. rewrite Hn. destruct (live n); [done|]. simpl. eauto. Qed.

Lemma los_ok_app L L' :
  los_ok (L ++ L') ↔ los_ok L ∧ los_ok L' ∧ ∀ a b, a ∈ L → b ∈ L' → lo_lt a.1 b.1.
Proof using Type.
  unfold los_ok. rewrite fmap_app, Forall_app. split.
  - intros [Hs [H1 H2]]. induction L as [|it L IH]; simpl in *.
    + split; [split; constructor|]. split; [done|]. intros a b Ha. by apply elem_of_nil in Ha.
    + apply StronglySorted_inv in Hs as [Hs Hh]. apply Forall_app in Hh as [Hh1 Hh2].
      apply Forall_cons in H1 as [Hp H1]. destruct (IH Hs H1) as ([? ?] & ? & Hlt).
      split; [split; by constructor|]. split; [done|]. intros a b [->|Ha]%elem_of_cons Hb; [|auto].
      eapply Forall_forall in Hh2; [exact Hh2|]. by apply list_elem_of_fmap_2.
  - intros ([Hs1 H1] & [Hs2 H2] & Hlt). split; [|done]. induction L as [|it L IH]; simpl in *; [done|].
    apply StronglySorted_inv in Hs1 as [Hs1 Hh]. apply Forall_cons in H1 as [Hp H1]. constructor.
    + apply IH; [done|done|]. intros a b Ha. apply Hlt. by right.
    + apply Forall_app. split; [done|]. apply Forall_forall. intros o (b & -> & Hb)%list_elem_of_fmap.
      apply Hlt; [by left|done].
Qed.

Lemma los_ok_cons it L : los_ok (it :: L) ↔ lo_plain it.1 ∧ los_ok L ∧ ∀ b, b ∈ L → lo_lt it.1 b.1.
Proof using Type.
  rewrite (los_ok_app [it] L). split.
  - intros ([_ Hp] & ? & Hlt). apply Forall_cons in Hp as [Hp _]. split; [exact Hp|]. split; [done|]. intros b. apply Hlt. by left.
  - intros (Hp & ? & Hlt). split; [split; simpl; by repeat constructor|]. split; [done|].
    intros a b ->%list_elem_of_singleton Hb. by apply Hlt.
Qed.

Lemma fenced_app N L L' :
  fenced N (L ++ L') ↔ fenced N L ∧ fenced N L' ∧ ∀ a e b, a ∈ L → e ∈ entries_at N a.2 → b ∈ L' → lo_gt b.1 e.1.
Proof using Type.
  induction L as [|it L IH]; simpl.
  - split; [|tauto]. intros H. split_and!; [done|done|]. intros a e b Ha. by apply elem_of_nil in Ha.
  - rewrite IH. split.
    + intros (Hit & ? & ? & Hlt). split_and!; [|done|done|].
      * intros e He. destruct (Hit e He) as [? Hb]. split; [done|]. intros b Hb'. apply Hb, elem_of_app. by left.
      * intros a e b [->|Ha]%elem_of_cons He Hb; [|by eapply Hlt]. apply (Hit e He), elem_of_app. by right.
    + intros ((Hit & ?) & ? & Hlt). split_and!; [|done|done|].
      * intros e He. destruct (Hit e He) as [? Hb]. split; [done|].
        intros b [Hb'|Hb']%elem_of_app; [by apply Hb|]. eapply Hlt; [by left|done|done].
      * intros a e b Ha. apply Hlt. by right.
Qed.

Lemma fenced_cons N it L :
  fenced N (it :: L) ↔ (∀ e, e ∈ entries_at N it.2 → lo_le it.1 e.1 ∧ ∀ b, b ∈ L → lo_gt b.1 e.1) ∧ fenced N L.
Proof using Type. done. Qed.

Lemma fenced_ext N N' L : (∀ p, p ∈ pages L → entries_at N' p = entries_at N p) → fenced N L → fenced N' L.
Proof using Type.
  induction L as [|it L IH]; simpl; [done|]. intros H [Hit HL]. split.
  - rewrite H; [done|by left].
  - apply IH; [|done]. intros p Hp. apply H. by right.
Qed.

Lemma entries_app N L L' : entries N (L ++ L') = entries N L ++ entries N L'.
Proof using Type. unfold entries, pages. by rewrite !fmap_app, concat_app. Qed.

Lemma entries_ext N N' L : (∀ p, p ∈ pages L → entries_at N' p = entries_at N p) → entries N' L = entries N L.
Proof using Type.
  intros H. unfold entries. f_equal. apply list_fmap_ext. intros i p Hp. apply H. by eapply list_elem_of_lookup_2.
Qed.

Lemma elem_of_entries N L e : e ∈ entries N L ↔ ∃ it, it ∈ L ∧ e ∈ entries_at N it.2.
Proof using Type.
  unfold entries, pages. rewrite list_elem_of_In, in_concat. split.
  - intros (l & Hl%list_elem_of_In & He%list_elem_of_In). apply list_elem_of_fmap in Hl as (p & -> & Hp).
    apply list_elem_of_fmap in Hp as (it & -> & Hit). eauto.
  - intros (it & Hit & He). exists (entries_at N it.2). split; apply list_elem_of_In; [|done].
    by apply list_elem_of_fmap_2, list_elem_of_fmap_2.
Qed.

(** ** Where a key belongs *)

(** The last node of the level whose bound is not above the key. *)
Definition covers L t A it B : Prop := L = A ++ it :: B ∧ lo_le it.1 t ∧ ∀ b, b ∈ B → lo_gt b.1 t.

Lemma kids_bounds N it c : los_ok (kids N it) → c ∈ kids N it → c.1 = it.1 ∨ lo_lt it.1 c.1.
Proof using Type.
  unfold kids. destruct (N !! it.2) as [n|]; [|by intros _ Hc%elem_of_nil].
  destruct (live n) as [|e l]; [by intros _ Hc%elem_of_nil|]. cbn [children_of].
  rewrite los_ok_cons. intros (_ & _ & Hlt) [->|Hc]%elem_of_cons; [by left|right]. by apply Hlt.
Qed.

Lemma los_ok_kids N L it : los_ok (concat (kids N <$> L)) → it ∈ L → los_ok (kids N it).
Proof using Type.
  intros Hlos (A & B & ->)%list_elem_of_split. rewrite fmap_app, fmap_cons, concat_app in Hlos. simpl in Hlos.
  apply los_ok_app in Hlos as (_ & Hlos & _). by apply los_ok_app in Hlos as (Hlos & _ & _).
Qed.

Lemma elem_of_concat_kids N L c : c ∈ concat (kids N <$> L) → ∃ it, it ∈ L ∧ c ∈ kids N it.
Proof using Type.
  rewrite list_elem_of_In, in_concat. intros (l & Hl%list_elem_of_In & Hc%list_elem_of_In).
  apply list_elem_of_fmap in Hl as (it & -> & ?). eauto.
Qed.

(** The child a node's search finds covers the key in the level below. *)
Lemma covers_down N L0 L1 t A it B n A' k r B' :
  linked N L0 L1 → los_ok L0 → covers L1 t A it B → N !! it.2 = Some n →
  live n = A' ++ (k, r) :: B' → (A' = [] ∨ ¬ klt t k) → (∀ e, e ∈ B' → klt t e.1) →
  ∃ A0 B0 o, covers L0 t A0 (o, page_no r) B0.
Proof using Type.
  intros [HL0 _] Hlos (HL1 & Hle & HB) Hn Hl Hk HB'.
  assert (∃ K1 o, kids N it = K1 ++ (o, page_no r) :: (child <$> B') ∧ lo_le o t) as (K1 & o & Hkids & Ho).
  { unfold kids. rewrite Hn, Hl. destruct A' as [|e A'].
    - exists [], it.1. done.
    - exists ((it.1, page_no e.2) :: (child <$> A')), (Some k). cbn. split; [by rewrite fmap_app|].
      by destruct Hk. }
  exists (concat (kids N <$> A) ++ K1), ((child <$> B') ++ concat (kids N <$> B)), o. split_and!; [|done|].
  - rewrite HL0, HL1, fmap_app, fmap_cons, concat_app. simpl. rewrite Hkids. by rewrite <-!(assoc_L (++)).
  - intros b [(e & -> & He)%list_elem_of_fmap|Hb]%elem_of_app; [by apply HB'|].
    apply elem_of_concat_kids in Hb as (it' & Hit' & Hb).
    assert (los_ok (kids N it')) as Hlk.
    { rewrite HL0 in Hlos. eapply los_ok_kids; [exact Hlos|]. rewrite HL1. set_solver. }
    destruct (kids_bounds _ _ _ Hlk Hb) as [->|Hlt]; [by apply HB|]. eapply lo_gt_lt_trans; [by apply HB|done].
Qed.

(** The entries around the leaf that covers a key. *)
Lemma covers_entries N L t A it B :
  covers L t A it B → los_ok L → fenced N L → plain t → (∀ e, e ∈ entries N L → plain e.1) →
  entries N L = entries N A ++ entries_at N it.2 ++ entries N B ∧
  (∀ e, e ∈ entries N A → klt e.1 t) ∧ (∀ e, e ∈ entries N B → klt t e.1).
Proof using Type.
  intros (-> & Hle & HB) Hlos Hf Ht Hpl. split_and!.
  - rewrite entries_app. done.
  - intros e He. assert (plain e.1) as Hpe by (apply Hpl; rewrite entries_app; apply elem_of_app; by left).
    apply elem_of_entries in He as (a & Ha & He).
    apply fenced_app in Hf as (_ & _ & Hlt). eapply lo_gt_le_trans; [|done|done|eapply Hlt; [done|done|by left]|done].
    apply los_ok_app in Hlos as (_ & Hlos & _). by apply los_ok_cons in Hlos as [? _].
  - intros e He. apply elem_of_entries in He as (b & Hb & He).
    apply fenced_app in Hf as (_ & [_ Hf] & _). apply list_elem_of_split in Hb as (B1 & B2 & ->).
    apply fenced_app in Hf as (_ & [Hb _] & _). destruct (Hb e He) as [Hbe _].
    assert (lo_gt b.1 t) as Hbt by (apply HB; set_solver).
    assert (plain e.1) as Hpe.
    { apply Hpl, elem_of_entries. exists b. split; [set_solver|done]. }
    destruct b.1 as [l|] eqn:Eb; [|done]. simpl in *.
    assert (plain l) as Hpb.
    { apply los_ok_app in Hlos as (_ & Hlos & _). apply los_ok_cons in Hlos as (_ & Hlos & _).
      apply los_ok_app in Hlos as (_ & Hlos & _). apply los_ok_cons in Hlos as [Hp _]. by rewrite Eb in Hp. }
    destruct (klt_total cols t e.1) as [?|[->|?]]; [done..|by destruct Hbe|]. destruct Hbe. by eapply klt_trans.
Qed.

(** ** Levels and their keys *)

Definition facts N : Prop := ∀ p n, N !! p = Some n → node_facts cols order n.

Lemma live_nonempty tot n :
  layout_ok cols tot order → node_facts cols order n → 1 ≤ nd_num n ≤ order + 1 → live n ≠ [].
Proof using Type.
  intros Hlay Hf Hn Hl. pose proof (live_length cols tot order Hlay n Hf ltac:(lia)) as HL. rewrite Hl in HL. simpl in HL. lia.
Qed.

Lemma inner_kids tot N it :
  layout_ok cols tot order → facts N → inner_ok N it → ∃ p l, kids N it = (it.1, p) :: l.
Proof using Type.
  intros Hlay Hf (n & Hn & _ & Hnum & _). unfold kids. rewrite Hn.
  pose proof (live_nonempty tot n Hlay (Hf _ _ Hn) ltac:(lia)). destruct (live n); [done|]. simpl. eauto.
Qed.

Lemma linked_los tot N L0 L1 :
  layout_ok cols tot order → facts N → linked N L0 L1 → los_ok L0 → los_ok L1.
Proof using Type.
  intros Hlay Hf [-> Hin] Hlos. induction Hin as [|it L1 Hit Hin IH]; [split; constructor|].
  rewrite fmap_cons in Hlos. simpl in Hlos. apply los_ok_app in Hlos as (Hk & Hr & Hlt).
  destruct (inner_kids tot N it Hlay Hf Hit) as (p & l & E). rewrite E in Hk, Hlt.
  apply los_ok_cons. apply los_ok_cons in Hk as (Hp & _ & _). split; [done|]. split; [by apply IH|].
  intros b Hb. eapply Forall_forall in Hin as Hbo; [|exact Hb].
  destruct (inner_kids tot N b Hlay Hf Hbo) as (pb & lb & Eb).
  apply (Hlt (it.1, p) (b.1, pb)); [by left|]. apply list_elem_of_split in Hb as (X & Y & ->).
  rewrite fmap_app, fmap_cons, concat_app. simpl. rewrite Eb. set_solver.
Qed.

(** The keys an inner node searches are sorted. *)
Lemma kids_sorted n o :
  nd_leaf n = false → los_ok (children_of o (live n)) → sorted cols (searched n).
Proof using Type.
  intros Hleaf Hlos. unfold searched, first_slot. rewrite Hleaf. change (Z.to_nat 1) with 1%nat.
  destruct (live n) as [|e l]; [constructor|]. cbn [children_of drop] in *. rewrite drop_0.
  apply los_ok_cons in Hlos as (_ & [Hs _] & _). unfold sorted, sorted_keys.
  induction l as [|x l IH]; [constructor|]. simpl in *. apply StronglySorted_inv in Hs as [Hs Hx]. constructor.
  - by apply IH.
  - apply Forall_forall. intros k (y & -> & Hy)%list_elem_of_fmap.
    rewrite Forall_forall in Hx. apply (Hx (Some y.1)). apply list_elem_of_fmap. exists (child y). split; [done|].
    by apply list_elem_of_fmap_2.
Qed.

Lemma entries_plain N L e : facts N → e ∈ entries N L → plain e.1.
Proof using Type.
  intros Hf (it & _ & He)%elem_of_entries. unfold entries_at in He.
  destruct (N !! it.2) as [n|] eqn:Hn; [|by apply elem_of_nil in He]. eapply live_plain; [by eapply Hf|done].
Qed.

Lemma leaf_sorted N A it B n :
  sorted cols (entries N (A ++ it :: B)) → N !! it.2 = Some n → nd_leaf n = true → sorted cols (searched n).
Proof using Type.
  intros Hs Hn Hleaf. rewrite entries_app in Hs. unfold sorted in *. rewrite fmap_app in Hs.
  apply (sorted_keys_app cols) in Hs as (_ & Hs & _). unfold entries, pages in Hs. cbn [fmap list_fmap concat] in Hs.
  rewrite fmap_app in Hs. apply (sorted_keys_app cols) in Hs as (Hs & _ & _).
  unfold entries_at in Hs. rewrite Hn in Hs. unfold searched, first_slot. rewrite Hleaf. by rewrite drop_0.
Qed.

(** ** The height *)

Lemma linked_length tot N L0 L1 :
  layout_ok cols tot order → facts N → linked N L0 L1 → (2 * length L1 ≤ length L0)%nat.
Proof using Type.
  intros Hlay Hf [-> Hin]. induction Hin as [|it L1 (n & Hn & _ & Hnum & _) Hin IH]; [simpl; lia|].
  rewrite fmap_cons. cbn [concat]. rewrite length_app. cbn [length].
  assert (length (kids N it) = Z.to_nat (nd_num n)); [|lia].
  unfold kids. rewrite Hn, <-(live_length cols tot order Hlay n (Hf _ _ Hn)) by lia.
  destruct (live n); [done|]. simpl. by rewrite length_fmap.
Qed.

(** Every level has twice the nodes of the one above. *)
Lemma stacked_length tot N up root : layout_ok cols tot order → facts N → ∀ L,
  stacked N L up root → (2 ^ length up ≤ length L)%nat.
Proof using Type.
  intros Hlay Hf. induction up as [|L1 up IH]; intros L.
  - intros [-> _]. done.
  - intros [Hl Hs]. specialize (IH L1 Hs). pose proof (linked_length tot N L L1 Hlay Hf Hl). cbn [length]. simpl. lia.
Qed.

Lemma height_bound tot N L up root nx (w : nat) :
  layout_ok cols tot order → facts N → stacked N L up root → NoDup (pages L) →
  (∀ p, p ∈ pages L → 0 ≤ p < nx) → nx ≤ 2 ^ Z.of_nat w → (length up ≤ w)%nat.
Proof using Type.
  intros Hlay Hf Hs Hnd Hp Hnx. pose proof (stacked_length tot N up root Hlay Hf L Hs) as HL.
  assert (length L ≤ Z.to_nat nx)%nat as Hle.
  { transitivity (length (pages L)); [unfold pages; by rewrite length_fmap|]. rewrite <-(length_seqZ 0 nx). apply submseteq_length, NoDup_submseteq; [done|].
    intros p Hin. apply elem_of_seqZ. specialize (Hp p Hin). lia. }
  apply (Nat.pow_le_mono_r_iff 2); [lia|]. assert (Z.of_nat (2 ^ w) = 2 ^ Z.of_nat w) by (rewrite Nat2Z.inj_pow; done). lia.
Qed.

End tree.
