(* ===== verification/IxSearch.v ===== *)
(** * Searching the tree

    [find_leaf_page] goes from the root to the leaf that covers the key; the places
    [lower_bound] and [upper_bound] answer, and what [get_value] finds. *)
From S2P Require Import Prelude Bytes Disk Log Replacer BufferPool Record PoolRun Meta Keys IxNode IxOrder.
From S2P Require Import IxPage IxNodeSpec Index IxPool IxTree.
Import IxNodeHandle IxIndexHandle.

Lemma within_reads {A} (g : bytes → option A) : within eq (reads g).
Proof. unfold reads. within_steps. Qed.

Section search.
Context {R : Type} `{!Replacer R, !ReplacerLaws R}.
Context (fd : Z) (cols : list ColMeta) (tot order : Z) (Hlay : layout_ok cols tot order).
Context (s0 : Storage R) (Hs0 : pool_inv s0).
Abbreviation St := (IxFileHdr * Storage R)%type.
Context (E : exn → St → Prop) (HE : ∀ e t, io_error e = true → E e t).
Abbreviation holds := (holds fd cols tot order s0).
Abbreviation table s := (page_table_ (s_bpm s)).
Implicit Types (h : IxFileHdr) (N : gmap Z inode) (H : list (Z * Z)) (nx p f : Z) (t : St) (k : bytes).

Lemma holds_facts h N H nx t : holds h N H nx t → facts cols order N.
Proof using Type.
  intros Hd p n Hn. destruct (hd_node _ _ _ _ _ _ _ _ _ _ Hd p n Hn) as [_ (d & _ & Hok)].
  split; try apply Hok; eapply rd_i32_range; [eapply no_num|eapply no_parent|eapply no_next|eapply no_prev]; exact Hok.
Qed.

(** Reading a node twice in a row, as all the searches do. *)
Lemma wp_is_leaf h N H nx t p n f (Q : bool → St → Prop) :
  holds h N H nx t → N !! p = Some n → table t.2 !! (fd, p) = Some f → Q (nd_leaf n) t →
  wp (node f (λ _, is_leaf_page)) Q E t.
Proof using Type.
  intros Hd Hn Hf HQ. eapply wp_node_read; [exact Hd|exact Hn|exact Hf|intros ?; apply within_reads|].
  by apply nw_is_leaf.
Qed.

Lemma within_judge h k i : within eq (judge h k i).
Proof using Type. unfold judge. repeat (within_steps; try apply within_reads). unfold of_outcome. within_steps. Qed.

Lemma within_memcmp h i k : within eq (memcmp_key h i k).
Proof using Type. unfold memcmp_key, key_. repeat (within_steps; try apply within_reads). Qed.

Lemma within_bsearch right (jdg : Z → M bytes Z) fuel l r : (∀ i, within eq (jdg i)) → within eq (bsearch fuel right jdg l r).
Proof using Type.
  intros Hj. revert l r. induction fuel as [|fuel IH]; intros l r; simpl; within_steps; [apply Hj|apply IH|apply IH].
Qed.

Lemma within_bound right (jdg : Z → M bytes Z) : (∀ i, within eq (jdg i)) → within eq (bound right jdg).
Proof using Type.
  intros Hj. unfold bound, is_leaf_page, get_size, field.
  repeat (within_steps; try first [apply within_reads|apply within_bsearch, Hj|apply Hj]).
Qed.

Lemma within_lookup h k : within eq (internal_lookup h k).
Proof using Type.
  unfold internal_lookup, IxNodeHandle.lower_bound, value_at, rid_, get_size, field.
  repeat (within_steps; try first [apply within_reads|apply within_bound; intros; apply within_judge|apply within_memcmp]).
Qed.

(** ** From the root to the leaf *)

Lemma find_leaf_level k : plain_key cols k → room s0 0 → ∀ up L h N nx t fuel (Q : Z → St → Prop),
  holds h N [] nx t → stacked order N L up (root_page_ h) → los_ok cols L → Forall (λ it, is_Some (N !! it.2)) L →
  (∀ A it B f t', covers cols L k A it B → holds h N [(it.2, f)] nx t' → unpin_pre t'.2 (fd, it.2) false →
     wp (find_leaf_loop fd fuel (λ h, internal_lookup h k) f) Q E t') →
  wp (let! root_node := fetch_node fd (root_page_ h) in
      find_leaf_loop fd (length up + fuel) (λ h, internal_lookup h k) root_node) Q E t.
Proof using HE Hlay Hs0.
  intros Hk Hroom up. induction up as [|L1 up IH]; intros L h N nx t fuel Q Hd Hst Hlos Hdom HQ.
  - destruct Hst as [-> _]. apply Forall_cons in Hdom as [[n Hn] _]. apply wp_bind. eapply wp_fetch; [done..|].
    intros f t' Ht' Hun. apply (HQ [] (None, root_page_ h) []); [|done|done]. split_and!; [done|done|].
    by intros b Hb%elem_of_nil.
  - destruct Hst as [Hlink Hst].
    pose proof (holds_facts _ _ _ _ _ Hd) as Hfacts.
    pose proof (linked_los _ _ _ _ _ _ Hlay Hfacts Hlink Hlos) as Hlos1.
    change (length (L1 :: up) + fuel)%nat with (S (length up + fuel)). rewrite <-Nat.add_succ_r.
    apply (IH L1 h N nx); [done|done|done| |].
    { destruct Hlink as [_ Hin]. eapply Forall_impl; [exact Hin|]. intros it (n & Hn & _). by eexists. }
    intros A it B f t' Hcov Ht' Hun. cbn [find_leaf_loop].
    assert (it ∈ L1) as HitL by (destruct Hcov as (-> & _); set_solver).
    assert (inner_ok order N it) as Hin.
    { destruct Hlink as [_ Hall]. by eapply Forall_forall in Hall. }
    destruct Hin as (n & Hn & Hleaf & Hnum & _).
    assert (table t'.2 !! (fd, it.2) = Some f) as Hf by (eapply hd_held; [exact Ht'|by left]).
    apply wp_bind. eapply wp_is_leaf; [exact Ht'|exact Hn|done|]. rewrite Hleaf.
    apply wp_bind. eapply wp_node_read; [exact Ht'|exact Hn|exact Hf|intros ?; apply within_lookup|].
    apply (nw_internal_lookup cols tot order Hlay _ (hd_fits _ _ _ _ _ _ _ _ _ _ Ht')); try done; try lia.
    { by eapply Hfacts. }
    { apply (kids_sorted cols n it.1); [done|]. destruct Hlink as [-> _].
      pose proof (los_ok_kids _ _ _ _ Hlos HitL) as Hl. unfold kids in Hl. by rewrite Hn in Hl. }
    intros A' k' r B' Hl Hk' HB'.
    edestruct covers_down as (A0 & B0 & o & Hcov0); [exact Hlink|exact Hlos|exact Hcov|exact Hn|exact Hl|exact Hk'|exact HB'|].
    apply wp_bind. eapply wp_unpin; [done|done|exact Ht'|done|done|]. intros t2 Ht2 _ _.
    assert ((o, page_no r) ∈ L) as HinL by (destruct Hcov0 as (-> & _); set_solver).
    eapply Forall_forall in Hdom as [n' Hn']; [|exact HinL].
    apply wp_bind. eapply wp_fetch; [done|done|exact Ht2|exact Hn'|done|]. intros g t3 Ht3 Hun3.
    by apply (HQ A0 (o, page_no r) B0).
Qed.

Lemma wp_find_leaf k h N L up es nx t fuel (Q : Z → St → Prop) :
  holds h N [] nx t → tree cols order N h L up es → root_page_ h ≠ IX_NO_PAGE → plain_key cols k → room s0 0 →
  (length up ≤ fuel)%nat →
  (∀ A o p B n f t', covers cols L k A (o, p) B → N !! p = Some n → nd_leaf n = true → 1 ≤ nd_num n ≤ order →
     holds h N [(p, f)] nx t' → unpin_pre t'.2 (fd, p) false → Q f t') →
  wp (find_leaf_page fd fuel k) Q E t.
Proof using HE Hlay Hs0.
  intros Hd Ht Hroot Hk Hroom Hfuel HQ. unfold tree in Ht. rewrite decide_False in Ht by done.
  unfold find_leaf_page. apply wp_bind. eapply wp_hdr; [exact Hd|].
  replace fuel with (length up + (fuel - length up))%nat by lia.
  eapply (find_leaf_level k Hk Hroom); [exact Hd|apply Ht|apply Ht| |].
  { eapply Forall_impl; [apply Ht|]. intros it (n & Hn & _). by eexists. }
  intros A [o p] B f t' Hcov Hd' Hun. assert ((o, p) ∈ L) as Hin by (destruct Hcov as (-> & _); set_solver).
  pose proof (tr_leaves _ _ _ _ _ _ _ _ _ Ht) as Hl. eapply Forall_forall in Hl as (n & Hn & Hleaf & Hnum); [|exact Hin].
  cbn [snd] in *. destruct (fuel - length up)%nat; cbn [find_leaf_loop]; apply wp_bind;
    (eapply wp_is_leaf; [exact Hd'|exact Hn|apply (hd_held _ _ _ _ _ _ _ _ _ _ Hd'); by left|]); rewrite Hleaf; apply wp_ret;
    by apply (HQ A o p B n).
Qed.

(** The tree does not get higher than the number of pages allows. *)
Lemma tree_height h N L up es nx t : holds h N [] nx t → tree cols order N h L up es → (length up ≤ 19)%nat.
Proof using Hlay.
  intros Hd Ht. unfold tree in Ht. case_decide; [destruct Ht as (_ & _ & ->); simpl; lia|].
  eapply (height_bound cols order tot N L up (root_page_ h) nx 19); [done|by eapply holds_facts|apply Ht| | |].
  - pose proof (tr_nodup _ _ _ _ _ _ _ _ _ Ht) as Hnd. cbn [concat] in Hnd. unfold pages in Hnd. rewrite fmap_app in Hnd.
    by apply NoDup_app in Hnd as (? & _).
  - intros p (it & -> & Hit)%list_elem_of_fmap. pose proof (tr_leaves _ _ _ _ _ _ _ _ _ Ht) as Hl.
    eapply Forall_forall in Hl as (n & Hn & _); [|exact Hit]. by apply (hd_node _ _ _ _ _ _ _ _ _ _ Hd _ _ Hn).
  - apply (hd_bound _ _ _ _ _ _ _ _ _ _ Hd).
Qed.

End search.

(** ** An index *)

(** The bytes of a key of zeroes, which is what the key slots of a new node hold. *)
Definition zero_key (tot : Z) : bytes := replicate (Z.to_nat tot) 0.

Section index.
Context {R : Type} `{!Replacer R, !ReplacerLaws R}.
Abbreviation St := (IxFileHdr * Storage R)%type.

(** The file [fd] is an index that holds the entries [es], and none of its pages is in use.
    With [z] no key and no separator of it is the key of zeroes. *)
Definition index (fd : Z) (cols : list ColMeta) (tot order : Z) (z : bool) (t : St) (es : list (bytes * Rid)) : Prop :=
  ∃ N L up nx, holds fd cols tot order t.2 t.1 N [] nx t ∧ tree cols order N t.1 L up es ∧
    (z = true → zero_key tot ∉ es.*1 ∧ Some (zero_key tot) ∉ L.*1).

(** What an operation on the file [fd] that keeps the pages [H] pinned leaves of the rest. *)
Record others_kept (fd : Z) (H : list (Z * Z)) (s s' : Storage R) : Prop := {
  ok_pins q : pins s' q = pins s q + (if decide (q.1 = fd) then held_count q.2 H else 0);
  ok_view q b : q.1 ≠ fd → data_fd s q.1 → view s q = Some b → view s' q = Some b;
  ok_fds : fds_kept s s';
}.

Lemma holds_rebase fd cols tot order s0 h N H nx t :
  holds fd cols tot order s0 h N H nx t → holds fd cols tot order t.2 h N [] nx t ∧ others_kept fd H s0 t.2.
Proof.
  intros Hd. destruct Hd. split; [|by split]. split; try done.
  - intros q. unfold held_count. simpl. case_decide; lia.
  - intros p f Hin. by apply elem_of_nil in Hin.
  - by intros ?.
Qed.

End index.
