(* ===== verification/IxGrow.v ===== *)
(** * Levels of the tree that grow

    What a change of some nodes keeps of the levels of the tree, and how a level takes a new
    node when a node of the level below, or one of its own, is split. *)
From Stdlib Require Import Sorting.Sorted.
From S2P Require Import Prelude Bytes Disk Log Meta Keys IxNode IxOrder IxPage IxNodeSpec IxTree.

Section grow.
Context (cols : list ColMeta) (order : Z).
Abbreviation klt := (klt cols).
Abbreviation plain := (plain_key cols).
Abbreviation entry := (bytes * Rid)%type.
Abbreviation lo := (option bytes).
Abbreviation linked := (linked order).
Abbreviation stacked := (stacked order).
Abbreviation inner_ok := (inner_ok order).
Abbreviation los_ok := (los_ok cols).
Implicit Types (o : lo) (it : item) (k : bytes) (N : gmap Z inode) (L : list item) (up : list (list item)).

(** What the level of a node sees of it; the parent field belongs to the level above. *)
Definition body (n : inode) : bool * Z * list entry := (nd_leaf n, nd_num n, live n).
Definition body_of N (p : Z) : option (bool * Z * list entry) := body <$> N !! p.

Lemma kids_body N N' it : body_of N' it.2 = body_of N it.2 → kids N' it = kids N it.
Proof using Type.
  unfold body_of, body. intros H. apply kids_ext. destruct (N' !! it.2), (N !! it.2); simplify_eq/=; congruence.
Qed.

Lemma inner_ok_body N N' it :
  body_of N' it.2 = body_of N it.2 → (∀ c, c ∈ kids N it → parent_of N' c.2 = parent_of N c.2) →
  inner_ok N it → inner_ok N' it.
Proof using Type.
  intros Hb Hp (n & Hn & Hleaf & Hnum & Hc). unfold body_of, body in Hb. rewrite Hn in Hb.
  destruct (N' !! it.2) as [n'|] eqn:Hn'; simplify_eq/=. exists n'. split_and!; try congruence; try lia.
  intros c Hc'. rewrite (kids_body N) in Hc'; [rewrite Hp by done; by apply Hc|].
  unfold body_of, body. rewrite Hn, Hn'. simpl. congruence.
Qed.

Lemma pages_app L L' : pages (L ++ L') = pages L ++ pages L'.
Proof using Type. apply fmap_app. Qed.

Lemma elem_of_pages L p : p ∈ pages L ↔ ∃ o, (o, p) ∈ L.
Proof using Type.
  unfold pages. rewrite list_elem_of_fmap. split.
  - intros ([o p'] & -> & H). eauto.
  - intros (o & H). by exists (o, p).
Qed.

Lemma pages_elem L it : it ∈ L → it.2 ∈ pages L.
Proof using Type. apply list_elem_of_fmap_2. Qed.

Lemma kids_in N L it c : it ∈ L → c ∈ kids N it → c ∈ concat (kids N <$> L).
Proof using Type.
  intros Hit Hc. apply list_elem_of_In, in_concat. exists (kids N it). split; apply list_elem_of_In; [|done].
  by apply list_elem_of_fmap_2.
Qed.

Lemma linked_ext N N' L0 L1 :
  (∀ p, p ∈ pages L1 → body_of N' p = body_of N p) → (∀ p, p ∈ pages L0 → parent_of N' p = parent_of N p) →
  linked N L0 L1 → linked N' L0 L1.
Proof using Type.
  intros Hb Hp [-> Hin]. split.
  - f_equal. apply list_fmap_ext. intros i it Hit. symmetry. apply kids_body, Hb, pages_elem.
    by eapply list_elem_of_lookup_2.
  - apply Forall_forall. intros it Hit. eapply Forall_forall in Hin; [|exact Hit].
    apply (inner_ok_body N); [by apply Hb, pages_elem| |done].
    intros c Hc. apply Hp, pages_elem. by eapply kids_in.
Qed.

Lemma stacked_ext N N' L up root :
  (∀ p, p ∈ pages (concat up) → body_of N' p = body_of N p) →
  (∀ p, p ∈ pages (concat (L :: up)) → parent_of N' p = parent_of N p) →
  stacked N L up root → stacked N' L up root.
Proof using Type.
  revert L. induction up as [|L1 up IH]; intros L Hb Hp; simpl.
  - intros [-> Hr]. split; [done|]. rewrite Hp; [done|]. by left.
  - intros [Hl Hs]. cbn [concat] in *. split.
    + apply (linked_ext N); [| |done]; intros p Hin; [apply Hb|apply Hp]; rewrite pages_app; apply elem_of_app; by left.
    + apply IH; [| |done]; intros p Hin; [apply Hb|apply Hp]; rewrite ?pages_app in *; apply elem_of_app; by right.
Qed.

(** ** The parent of a node *)

Lemma parent_item N L0 L1 A o p B :
  linked N L0 L1 → L0 = A ++ (o, p) :: B →
  ∃ A1 it B1 CA CB, L1 = A1 ++ it :: B1 ∧ A = concat (kids N <$> A1) ++ CA ∧ B = CB ++ concat (kids N <$> B1) ∧
    kids N it = CA ++ (o, p) :: CB ∧ inner_ok N it ∧ parent_of N p = Some it.2.
Proof using Type.
  intros [HL Hin] ->. symmetry in HL. apply concat_split in HL as (l1 & CA & CB & l2 & Hk & -> & ->).
  apply fmap_app_inv in Hk as (A1 & M & -> & HM & ->). destruct M as [|it B1]; [done|]. injection HM as Hkit ->.
  apply Forall_app in Hin as [_ Hin]. apply Forall_cons in Hin as [Hit _].
  exists A1, it, B1, CA, CB. split_and!; try done. destruct Hit as (n & _ & _ & _ & Hc). apply (Hc (o, p)).
  rewrite <-Hkit. set_solver.
Qed.

(** Taking a new child behind [p]. *)
Lemma insert_kids o (A' B' : list entry) CA ol p CB k (r : Rid) :
  children_of o (A' ++ B') = CA ++ (ol, p) :: CB → A' ≠ [] → los_ok (children_of o (A' ++ B')) →
  (∀ e, e ∈ drop 1 A' → klt e.1 k) → (∀ e, e ∈ B' → klt k e.1) → lo_lt cols ol (Some k) →
  (∀ b, b ∈ CB → lo_gt cols b.1 k) →
  children_of o (A' ++ (k, r) :: B') = CA ++ (ol, p) :: (Some k, page_no r) :: CB.
Proof using Type.
  intros Hc Hne Hlos HA HB Hol HCB. destruct A' as [|a A']; [done|]. clear Hne. rewrite Hc in Hlos. cbn in *.
  apply los_ok_app in Hlos as (_ & _ & Hlt). rewrite drop_0 in HA.
  assert (∀ c, c ∈ CA → lo_lt cols c.1 (Some k)) as HCA.
  { intros c Hin. apply (lo_lt_trans _ _ ol); [|done]. apply (Hlt c (ol, p)); [done|by left]. }
  rewrite fmap_app in Hc.
  destruct (split_unique (λ it, lo_lt cols it.1 (Some k)) ((o, page_no a.2) :: (child <$> A')) (child <$> B')
    (CA ++ [(ol, p)]) CB) as [E1 E2].
  - rewrite <-(assoc_L (++) CA). exact Hc.
  - constructor.
    + destruct CA as [|c CA]; simplify_eq/=; [done|]. apply (HCA (o, page_no a.2)). by left.
    + apply Forall_forall. intros c (e & -> & He)%list_elem_of_fmap. by apply HA.
  - apply Forall_app. split; [by apply Forall_forall|by repeat constructor].
  - apply Forall_forall. intros c (e & -> & He)%list_elem_of_fmap. simpl. by apply klt_asym, HB.
  - apply Forall_forall. intros [ob b] Hb Hlt'. specialize (HCB _ Hb). destruct ob; simpl in *; [|done].
    by eapply klt_asym.
  - rewrite fmap_app, fmap_cons.
    transitivity (((o, page_no a.2) :: (child <$> A')) ++ (Some k, page_no r) :: (child <$> B')); [done|].
    by rewrite E1, E2, <-(assoc_L (++)).
Qed.

(** The children of the halves of a node. *)
Lemma children_take_drop o (l : list entry) m :
  (0 < m)%nat →
  children_of o (take m l) = take m (children_of o l) ∧
  ∀ e l', drop m l = e :: l' → children_of (Some e.1) (drop m l) = drop m (children_of o l).
Proof using Type.
  intros Hm. destruct m as [|m]; [lia|]. destruct l as [|x l]; [done|]. cbn [take drop children_of].
  split; [by rewrite <-fmap_take|]. intros e l' He. rewrite <-fmap_drop, He. done.
Qed.

(** Replacing one node of the upper level. *)
Lemma linked_replace N N' A1 it B1 its Mid L0 :
  linked N (concat (kids N <$> A1) ++ L0 ++ concat (kids N <$> B1)) (A1 ++ it :: B1) →
  (∀ p, p ∈ pages (A1 ++ B1) → body_of N' p = body_of N p) →
  (∀ c, c ∈ concat (kids N <$> A1 ++ B1) → parent_of N' c.2 = parent_of N c.2) →
  linked N' Mid its →
  linked N' (concat (kids N <$> A1) ++ Mid ++ concat (kids N <$> B1)) (A1 ++ its ++ B1).
Proof using Type.
  intros [_ Hin] Hb Hp [-> Hits]. apply Forall_app in Hin as [HinA Hin]. apply Forall_cons in Hin as [_ HinB].
  assert (∀ M : list item, (∀ it, it ∈ M → it ∈ A1 ++ B1) → kids N' <$> M = kids N <$> M) as Hk.
  { intros M HM. apply list_fmap_ext. intros i x Hx. apply kids_body, Hb, pages_elem, HM. by eapply list_elem_of_lookup_2. }
  split.
  - rewrite !fmap_app, !concat_app. rewrite (Hk A1), (Hk B1); [done|set_solver..].
  - apply Forall_app. split; [|apply Forall_app; split; [done|]]; apply Forall_forall; intros x Hx.
    + eapply Forall_forall in HinA; [|exact Hx]. apply (inner_ok_body N); [apply Hb, pages_elem; set_solver| |done].
      intros c Hc. apply Hp. eapply kids_in; [|exact Hc]. set_solver.
    + eapply Forall_forall in HinB; [|exact Hx]. apply (inner_ok_body N); [apply Hb, pages_elem; set_solver| |done].
      intros c Hc. apply Hp. eapply kids_in; [|exact Hc]. set_solver.
Qed.

(** The halves [n1] and [n2] of the node [n]. *)
Record halves (n n1 n2 : inode) : Prop := {
  hv_num1 : nd_num n1 = nd_num n / 2;
  hv_num2 : nd_num n2 = nd_num n - nd_num n / 2;
  hv_live1 : live n1 = take (Z.to_nat (nd_num n / 2)) (live n);
  hv_live2 : live n2 = drop (Z.to_nat (nd_num n / 2)) (live n);
  hv_leaf1 : nd_leaf n1 = nd_leaf n;
  hv_leaf2 : nd_leaf n2 = nd_leaf n;
  hv_parent1 : nd_parent n1 = nd_parent n;
  hv_parent2 : nd_parent n2 = nd_parent n;
}.

(** The nodes after a leaf [p] is split: [q] is its right half and stands behind it. *)
Definition leaf_split N N' (p q : Z) (n : inode) : Prop := ∃ n1 n2,
  N' !! p = Some n1 ∧ N' !! q = Some n2 ∧ halves n n1 n2 ∧
  nd_next n1 = q ∧ nd_prev n1 = (if decide (nd_next n = p) then q else nd_prev n) ∧
  nd_next n2 = nd_next n ∧ nd_prev n2 = p ∧
  ∀ x, x ≠ p → x ≠ q → N' !! x = if decide (x = nd_next n) then with_prev q <$> N !! x else N !! x.

(** ... and after an inner node is: the children in the right half get it as their parent. *)
Definition inner_split N N' (p q : Z) (n : inode) : Prop := ∃ n1 n2,
  N' !! p = Some n1 ∧ N' !! q = Some n2 ∧ halves n n1 n2 ∧
  ∀ x, x ≠ p → x ≠ q → N' !! x =
    if decide (x ∈ page_no <$> drop (Z.to_nat (nd_num n / 2)) (lrids n)) then with_parent q <$> N !! x else N !! x.

(** What the way up makes of the levels above [L']. *)
Record grown h N (nx : Z) (up : list (list item)) (L' : list item) h' N' up' (nx' : Z) : Prop := {
  gr_stack : stacked N' L' up' (root_page_ h');
  gr_first : first_leaf_ h' = first_leaf_ h;
  gr_last : last_leaf_ h' = last_leaf_ h;
  gr_moved x n : N !! x = Some n → x ∉ pages (concat up) →
    ∃ pr, N' !! x = Some (with_parent pr n) ∧ (x ∉ pages L' → pr = nd_parent n);
  gr_nodup : NoDup (pages (concat (L' :: up')));
  gr_new x : x ∈ pages (concat up') → x ∈ pages (concat up) ∨ nx ≤ x;
  gr_nx : nx ≤ nx';
}.

(** *** One level up *)

(** The state when a node [p] has been split, its right half is [q] with the separator [k],
    and the levels above do not know of [q] yet. *)
Record pending N L up (root : Z) (A : list item) o (p : Z) (B : list item) k (q : Z) (nq : inode) : Prop := {
  pe_split : L = A ++ (o, p) :: B;
  pe_stack : stacked N L up root;
  pe_los : los_ok L;
  pe_key : plain k;
  pe_lo : lo_lt cols o (Some k);
  pe_hi b : b ∈ B → lo_gt cols b.1 k;
  pe_dom x : x ∈ pages L → is_Some (N !! x);
  pe_q : N !! q = Some nq;
  pe_parent : parent_of N p = Some (nd_parent nq);
  pe_new : q ∉ pages (concat (L :: up));
  pe_nodup : NoDup (pages (concat (L :: up)));
}.

(** The level with the new node. *)
Abbreviation level_with A o p B k q := (A ++ (o, p) :: (Some k, q) :: B).

Lemma pending_pages N L up root A o p B k q nq :
  pending N L up root A o p B k q nq → pages (level_with A o p B k q) ≡ₚ q :: pages L.
Proof using Type.
  intros Hpe. rewrite (pe_split _ _ _ _ _ _ _ _ _ _ _ Hpe). unfold pages. rewrite !fmap_app, !fmap_cons. simpl.
  symmetry. etrans; [apply (Permutation_middle (A.*2) (p :: B.*2) q)|].
  apply Permutation_app_head. apply perm_swap.
Qed.

Lemma pending_nodup N L up root A o p B k q nq :
  pending N L up root A o p B k q nq → NoDup (pages (concat (level_with A o p B k q :: up))).
Proof using Type.
  intros Hpe. cbn [concat]. rewrite pages_app, (pending_pages _ _ _ _ _ _ _ _ _ _ _ Hpe).
  rewrite <-app_comm_cons, <-pages_app. apply NoDup_cons. split; [exact (pe_new _ _ _ _ _ _ _ _ _ _ _ Hpe)|].
  exact (pe_nodup _ _ _ _ _ _ _ _ _ _ _ Hpe).
Qed.

(** The parent takes the new child without a split. *)
Lemma grown_here N L L1 up root A o p B k q nq A1 o1 P B1 CA CB n n' h nx :
  pending N L (L1 :: up) root A o p B k q nq → root_page_ h = root →
  L1 = A1 ++ (o1, P) :: B1 → A = concat (kids N <$> A1) ++ CA → B = CB ++ concat (kids N <$> B1) →
  kids N (o1, P) = CA ++ (o, p) :: CB → N !! P = Some n → parent_of N p = Some P →
  nd_leaf n' = false → nd_parent n' = nd_parent n → 2 ≤ nd_num n' ≤ order →
  (∀ c, c ∈ kids N (o1, P) → parent_of N c.2 = Some P) →
  children_of o1 (live n') = CA ++ (o, p) :: (Some k, q) :: CB →
  grown h N nx (L1 :: up) (level_with A o p B k q) h (<[P := n']> N) (L1 :: up) nx.
Proof using Type.
  intros Hpe Hroot HL1 HA HB Hkids Hn HPp Hleaf Hpar Hnum Hch Hc.
  destruct (pe_stack _ _ _ _ _ _ _ _ _ _ _ Hpe) as [Hlink Hst]. pose proof (pe_nodup _ _ _ _ _ _ _ _ _ _ _ Hpe) as Hnd.
  pose proof (pe_new _ _ _ _ _ _ _ _ _ _ _ Hpe) as Hqn. pose proof (pe_split _ _ _ _ _ _ _ _ _ _ _ Hpe) as HL.
  cbn [concat] in *. rewrite !pages_app in *.
  assert (P ∈ pages L1) as HPL1 by (rewrite HL1; apply elem_of_pages; exists o1; set_solver).
  apply NoDup_app in Hnd as (Hnd0 & Hdis & Hnd1). apply NoDup_app in Hnd1 as (HndL1 & Hdis1 & Hndup).
  assert (P ∉ pages L) as HPL by (intros Hx; apply (Hdis _ Hx), elem_of_app; by left).
  assert (P ∉ pages (concat up)) as HPup by by apply Hdis1.
  assert (q ≠ P) as HqP by (intros ->; apply Hqn; rewrite !elem_of_app; tauto).
  assert (∀ x, parent_of (<[P := n']> N) x = parent_of N x) as Hparent.
  { intros x. unfold parent_of. destruct (decide (x = P)) as [->|]; [|by rewrite lookup_insert_ne].
    rewrite lookup_insert_eq, Hn. simpl. by rewrite Hpar. }
  assert (∀ x, x ≠ P → body_of (<[P := n']> N) x = body_of N x) as Hbody.
  { intros x Hx. unfold body_of. by rewrite lookup_insert_ne. }
  split; try done.
  - rewrite Hroot. split.
    + assert (level_with A o p B k q = concat (kids N <$> A1) ++ (CA ++ (o, p) :: (Some k, q) :: CB) ++ concat (kids N <$> B1)) as ->.
      { rewrite HA, HB. by rewrite <-!(assoc_L (++)), <-!app_comm_cons. }
      rewrite HL1. apply (linked_replace N (<[P := n']> N) A1 (o1, P) B1 [(o1, P)] _ (kids N (o1, P))).
      * destruct Hlink as [_ E2]. rewrite HL1 in E2. split; [|exact E2]. by rewrite fmap_app, concat_app.
      * intros x Hx. apply Hbody. intros ->. rewrite HL1 in HndL1. rewrite pages_app in *.
        cbn [pages fmap list_fmap snd] in HndL1. apply NoDup_app in HndL1 as (_ & Hd1 & Hd2). apply NoDup_cons in Hd2 as [Hd2 _].
        apply elem_of_app in Hx as [Hx|Hx]; [|done]. apply (Hd1 _ Hx). by left.
      * intros c _. apply Hparent.
      * split.
        -- cbn. unfold kids. simpl. rewrite lookup_insert_eq, app_nil_r. by rewrite Hc.
        -- constructor; [|done]. exists n'. simpl. rewrite lookup_insert_eq. split_and!; [done|done|lia|lia|].
           intros c Hcin. unfold kids in Hcin. simpl in Hcin. rewrite lookup_insert_eq, Hc in Hcin. rewrite Hparent.
           apply elem_of_app in Hcin as [Hcin|[->|[->|Hcin]%elem_of_cons]%elem_of_cons].
           ++ apply Hch. rewrite Hkids. set_solver.
           ++ done.
           ++ simpl. unfold parent_of. rewrite (pe_q _ _ _ _ _ _ _ _ _ _ _ Hpe). simpl.
              by rewrite <-(pe_parent _ _ _ _ _ _ _ _ _ _ _ Hpe).
           ++ apply Hch. rewrite Hkids. set_solver.
    + apply (stacked_ext N); [|intros x _; apply Hparent|done].
      intros x Hx. apply Hbody. by intros ->.
  - intros x m Hm Hx. cbn [concat] in Hx. rewrite pages_app in Hx. exists (nd_parent m). split; [|done].
    rewrite lookup_insert_ne by (intros <-; apply Hx, elem_of_app; by left). rewrite Hm. by destruct m.
  - by eapply pending_nodup.
  - intros x Hx. by left.
Qed.


(** *** The parent is split in turn *)

Lemma los_ok_with N L up root A o p B k q nq :
  pending N L up root A o p B k q nq → los_ok (level_with A o p B k q).
Proof using Type.
  intros Hpe. pose proof (pe_los _ _ _ _ _ _ _ _ _ _ _ Hpe) as Hlos. rewrite (pe_split _ _ _ _ _ _ _ _ _ _ _ Hpe) in Hlos.
  pose proof (pe_lo _ _ _ _ _ _ _ _ _ _ _ Hpe) as Hlo. pose proof (pe_hi _ _ _ _ _ _ _ _ _ _ _ Hpe) as Hhi.
  apply los_ok_app in Hlos as (HA & HpB & Hlt). apply los_ok_cons in HpB as (Hp & HB & HpB).
  apply los_ok_app. split; [done|]. split.
  - apply los_ok_cons. split; [done|]. split.
    + apply los_ok_cons. split; [exact (pe_key _ _ _ _ _ _ _ _ _ _ _ Hpe)|]. split; [done|].
      intros b Hb. by apply lo_lt_gt, Hhi.
    + intros b [->|Hb]%elem_of_cons; [done|by apply HpB].
  - intros a b Ha [->|[->|Hb]%elem_of_cons]%elem_of_cons.
    + apply Hlt; [done|by left].
    + eapply lo_lt_trans; [apply (Hlt a (o, p)); [done|by left]|done].
    + apply Hlt; [done|by right].
Qed.

Lemma linked_dom N L0 L1 x : linked N L0 L1 → x ∈ pages L1 → is_Some (N !! x).
Proof using Type.
  intros [_ Hin] (it & -> & Hit)%list_elem_of_fmap. eapply Forall_forall in Hin as (n & Hn & _); [|exact Hit]. by eexists.
Qed.

Lemma stacked_dom N L up root x : stacked N L up root → x ∈ pages (concat up) → is_Some (N !! x).
Proof using Type.
  revert L. induction up as [|L1 up IH]; intros L; simpl; [by intros _ Hx%elem_of_nil|].
  intros [Hl Hs]. rewrite pages_app. intros [Hx|Hx]%elem_of_app; [by eapply linked_dom|by eapply IH].
Qed.

Lemma pending_in N L up root A o p B k q nq x :
  pending N L up root A o p B k q nq → x ∈ pages (level_with A o p B k q) → is_Some (N !! x) ∧ x ∉ pages (concat up).
Proof using Type.
  intros Hpe. rewrite (pending_pages _ _ _ _ _ _ _ _ _ _ _ Hpe). intros Hx.
  pose proof (pe_new _ _ _ _ _ _ _ _ _ _ _ Hpe) as Hn. pose proof (pe_nodup _ _ _ _ _ _ _ _ _ _ _ Hpe) as Hnd.
  cbn [concat] in Hn, Hnd. rewrite pages_app in Hn, Hnd. apply NoDup_app in Hnd as (_ & Hd & _).
  rewrite elem_of_app in Hn. apply elem_of_cons in Hx as [->|Hx].
  - rewrite (pe_q _ _ _ _ _ _ _ _ _ _ _ Hpe). split; [by eexists|tauto].
  - split; [by apply (pe_dom _ _ _ _ _ _ _ _ _ _ _ Hpe)|by apply Hd].
Qed.

(** The nodes around a parent that took a child and is split. *)
Record split_up N L L1 up root (A : list item) o (p : Z) (B : list item) k (q : Z) (nq : inode)
    (A1 : list item) o1 (P : Z) (B1 CA CB : list item) (n n' n1 n2 : inode) k2 (r : Z) N2 : Prop := {
  su_pending : pending N L (L1 :: up) root A o p B k q nq;
  su_level : L1 = A1 ++ (o1, P) :: B1;
  su_A : A = concat (kids N <$> A1) ++ CA;
  su_B : B = CB ++ concat (kids N <$> B1);
  su_kids : kids N (o1, P) = CA ++ (o, p) :: CB;
  su_node : N !! P = Some n;
  su_children c : c ∈ kids N (o1, P) → parent_of N c.2 = Some P;
  su_parent : nd_parent n' = nd_parent n;
  su_leaf : nd_leaf n' = false;
  su_num : nd_num n' = order + 1;
  su_order : 2 < order;
  su_new : children_of o1 (live n') = CA ++ (o, p) :: (Some k, q) :: CB;
  su_length : length (live n') = Z.to_nat (nd_num n');
  su_halves : halves n' n1 n2;
  su_left : N2 !! P = Some n1;
  su_right : N2 !! r = Some n2;
  su_key : ∃ rid l, live n2 = (k2, rid) :: l;
  su_fresh : N !! r = None;
  su_rest x : x ≠ P → x ≠ r → N2 !! x =
    if decide (x ∈ pages (drop (Z.to_nat (nd_num n' / 2)) (CA ++ (o, p) :: (Some k, q) :: CB)))
    then with_parent r <$> N !! x else N !! x;
}.

Section split_up.
Context N L L1 up root A o p B k q nq A1 o1 P B1 CA CB n n' n1 n2 k2 r N2
  (Hsu : split_up N L L1 up root A o p B k q nq A1 o1 P B1 CA CB n n' n1 n2 k2 r N2).
Let C : list item := CA ++ (o, p) :: (Some k, q) :: CB.
Let m : nat := Z.to_nat (nd_num n' / 2).
Let L' : list item := level_with A o p B k q.

Lemma su_with : L' = concat (kids N <$> A1) ++ C ++ concat (kids N <$> B1).
Proof using Hsu.
  destruct Hsu. unfold L', C. rewrite su_A0, su_B0. by rewrite <-!(assoc_L (++)), <-!app_comm_cons.
Qed.

Lemma su_half : 2 ≤ nd_num n' / 2 ∧ 2 ≤ nd_num n' - nd_num n' / 2 ∧ nd_num n' / 2 ≤ order ∧ nd_num n' - nd_num n' / 2 ≤ order.
Proof using Hsu.
  destruct Hsu. rewrite su_num0. pose proof (Z.div_mod (order + 1) 2 ltac:(lia)).
  pose proof (Z.mod_pos_bound (order + 1) 2 ltac:(lia)). lia.
Qed.

Lemma su_children_halves : children_of o1 (live n1) = take m C ∧ children_of (Some k2) (live n2) = drop m C.
Proof using Hsu.
  pose proof su_half. destruct Hsu. destruct su_key0 as (rid & l & Hk).
  destruct (children_take_drop o1 (live n') m) as [E1 E2]; [unfold m; lia|].
  rewrite su_new0 in E1, E2. fold C in E1, E2. rewrite (hv_live1 _ _ _ su_halves0), (hv_live2 _ _ _ su_halves0).
  split; [exact E1|]. rewrite (hv_live2 _ _ _ su_halves0) in Hk. by apply (E2 (k2, rid) l).
Qed.

Lemma su_dom x : x ∈ pages L' → is_Some (N !! x).
Proof using Hsu.
  destruct Hsu. unfold L'. rewrite (pending_pages _ _ _ _ _ _ _ _ _ _ _ su_pending0). intros [->|Hx]%elem_of_cons.
  - rewrite (pe_q _ _ _ _ _ _ _ _ _ _ _ su_pending0). by eexists.
  - by apply (pe_dom _ _ _ _ _ _ _ _ _ _ _ su_pending0).
Qed.

Lemma su_nodup : NoDup (pages L' ++ pages L1 ++ pages (concat up)).
Proof using Hsu.
  destruct Hsu. pose proof (pending_nodup _ _ _ _ _ _ _ _ _ _ _ su_pending0) as H.
  cbn [concat] in H. rewrite pages_app, (pages_app L1) in H. exact H.
Qed.

Lemma su_below x : x ∈ pages L' → x ∉ pages L1 ∧ x ∉ pages (concat up) ∧ x ≠ P ∧ x ≠ r.
Proof using Hsu.
  intros Hx. pose proof su_nodup as Hnd. apply NoDup_app in Hnd as (_ & Hd & _).
  specialize (Hd _ Hx). rewrite elem_of_app in Hd. pose proof (su_dom _ Hx) as [m' Hm]. destruct Hsu.
  split_and!; [tauto|tauto| |].
  - intros ->. apply Hd. left. rewrite su_level0. unfold pages. rewrite fmap_app. set_solver.
  - intros ->. congruence.
Qed.

Lemma su_moved_in x : x ∈ pages (drop m C) → x ∈ pages L'.
Proof using Hsu.
  intros Hx. rewrite su_with, !pages_app. apply elem_of_app. right. apply elem_of_app. left.
  rewrite <-(take_drop m C), pages_app. apply elem_of_app. by right.
Qed.

Lemma su_body x : x ≠ P → x ≠ r → body_of N2 x = body_of N x.
Proof using Hsu.
  intros HP Hr. unfold body_of. rewrite (su_rest _ _ _ _ _ _ _ _ _ _ _ _ _ _ _ _ _ _ _ _ _ _ _ _ _ Hsu x HP Hr).
  case_decide; [|done]. by destruct (N !! x).
Qed.

Lemma su_parent_kept x : x ∉ pages (drop m C) → x ≠ r → parent_of N2 x = parent_of N x.
Proof using Hsu.
  intros Hx Hr. destruct Hsu. unfold parent_of. destruct (decide (x = P)) as [->|HP].
  - rewrite su_left0, su_node0. simpl. f_equal. rewrite (hv_parent1 _ _ _ su_halves0). done.
  - rewrite su_rest0 by done. by rewrite decide_False.
Qed.

Lemma su_parent_moved x : x ∈ pages (drop m C) → parent_of N2 x = Some r.
Proof using Hsu.
  intros Hx. pose proof (su_moved_in _ Hx) as Hin. destruct (su_below _ Hin) as (_ & _ & HP & Hr).
  destruct (su_dom _ Hin) as [n0 Hn0]. destruct Hsu. unfold parent_of. rewrite su_rest0 by done.
  fold C m. rewrite decide_True by done. by rewrite Hn0.
Qed.

Lemma su_not_moved x : x ∈ pages L1 ∨ x ∈ pages (concat up) → x ∉ pages (drop m C).
Proof using Hsu. intros Hx Hm. apply su_moved_in, su_below in Hm as (? & ? & _). tauto. Qed.

Lemma su_above x : x ∈ pages L1 ∨ x ∈ pages (concat up) → x ≠ r.
Proof using Hsu.
  destruct Hsu. destruct (pe_stack _ _ _ _ _ _ _ _ _ _ _ su_pending0) as [Hlink Hst]. intros Hx ->.
  assert (is_Some (N !! r)) as [? ?]; [|congruence].
  destruct Hx as [Hx|Hx]; [by eapply linked_dom|by eapply stacked_dom].
Qed.

Lemma su_level_pages x : x ∈ pages (A1 ++ B1) → x ∈ pages L1 ∧ x ≠ P.
Proof using Hsu.
  pose proof su_nodup as Hnd. apply NoDup_app in Hnd as (_ & _ & Hnd). apply NoDup_app in Hnd as (Hnd & _ & _).
  destruct Hsu. rewrite su_level0 in Hnd |- *. rewrite !pages_app in *. cbn [pages fmap list_fmap] in *.
  apply NoDup_app in Hnd as (_ & Hd & Hnd). apply NoDup_cons in Hnd as [Hnd _]. simpl in *.
  intros [Hx|Hx]%elem_of_app; (split; [set_solver|intros ->]); [|done]. apply (Hd P Hx). by left.
Qed.

(** The level above can take the new node. *)
Lemma su_pending_up tot : layout_ok cols tot order → facts cols order N → pending N2 L1 up root A1 o1 P B1 k2 r n2.
Proof using Hsu.
  intros Hlay Hfacts. pose proof su_children_halves as [_ HC2]. pose proof su_half as Hhalf.
  pose proof Hsu as Hsu'. destruct Hsu'. pose proof (los_ok_with _ _ _ _ _ _ _ _ _ _ _ su_pending0) as Hlos'.
  fold L' in Hlos'. rewrite su_with in Hlos'.
  destruct su_key0 as (rid & l & Hk). rewrite Hk in HC2. cbn [children_of] in HC2.
  rewrite <-(take_drop m C), <-HC2 in Hlos'.
  apply los_ok_app in Hlos' as (_ & Hlos' & _). apply los_ok_app in Hlos' as (HC & HB1 & HltB).
  apply los_ok_app in HC as (_ & HC & HltC). apply los_ok_cons in HC as (Hpk & _ & _). cbn [fst] in Hpk.
  destruct (pe_stack _ _ _ _ _ _ _ _ _ _ _ su_pending0) as [Hlink Hst].
  pose proof (linked_los cols order tot N L L1 Hlay Hfacts Hlink (pe_los _ _ _ _ _ _ _ _ _ _ _ su_pending0)) as Hlos1.
  pose proof su_nodup as Hnd. split.
  - done.
  - apply (stacked_ext N); [| |done]; intros x Hx.
    + apply su_body; [|apply su_above; by right]. intros ->.
      apply NoDup_app in Hnd as (_ & _ & Hnd). apply NoDup_app in Hnd as (_ & Hd & _). apply (Hd P); [|done].
      rewrite su_level0. unfold pages. rewrite fmap_app. set_solver.
    + cbn [concat] in Hx. rewrite pages_app, elem_of_app in Hx. apply su_parent_kept; [by apply su_not_moved|by apply su_above].
  - done.
  - done.
  - assert (∃ c, take m C = (o1, c) :: tail (take m C)) as (c & Hc).
    { pose proof su_children_halves as [HC1 _]. rewrite <-HC1.
      destruct (live n1) as [|e l1] eqn:E1; [|by eexists].
      rewrite (hv_live1 _ _ _ su_halves0) in E1. apply (f_equal length) in E1. rewrite length_take in E1. simpl in E1. lia. }
    apply (HltC (o1, c) (Some k2, page_no rid)); [|by left]. rewrite Hc. by left.
  - intros b Hb. apply lo_lt_gt. destruct Hlink as [_ Hin]. rewrite su_level0 in Hin.
    apply Forall_app in Hin as [_ Hin]. apply Forall_cons in Hin as [_ Hin]. eapply Forall_forall in Hin; [|exact Hb].
    destruct (inner_kids cols order tot N b Hlay Hfacts Hin) as (c & l' & Eb).
    apply (HltB (Some k2, page_no rid) (b.1, c)).
    + apply elem_of_app. right. by left.
    + eapply kids_in; [exact Hb|]. rewrite Eb. by left.
  - intros x Hx. destruct (decide (x = P)) as [->|HP]; [by eexists|].
    rewrite su_rest0; [|done|apply su_above; by left]. destruct (linked_dom _ _ _ _ Hlink Hx) as [? ->]. case_decide; by eexists.
  - done.
  - unfold parent_of. rewrite su_left0. simpl. by rewrite (hv_parent1 _ _ _ su_halves0), (hv_parent2 _ _ _ su_halves0).
  - cbn [concat]. rewrite pages_app, elem_of_app. intros Hx. by apply (su_above r).
  - cbn [concat]. rewrite pages_app. by apply NoDup_app in Hnd as (_ & _ & Hnd).
Qed.

Lemma su_los tot x :
  layout_ok cols tot order → facts cols order N → x ∈ (level_with A1 o1 P B1 k2 r).*1 → x ∈ L'.*1.
Proof using Hsu.
  intros Hlay Hfacts Hx. pose proof su_children_halves as [HC1 HC2]. pose proof su_half as Hhalf.
  rewrite su_with. pose proof Hsu as Hsu'. destruct Hsu'.
  destruct (pe_stack _ _ _ _ _ _ _ _ _ _ _ su_pending0) as [[_ Hin] _]. rewrite su_level0 in Hin.
  apply Forall_app in Hin as [HinA Hin]. apply Forall_cons in Hin as [_ HinB].
  assert (∀ M it, Forall (inner_ok N) M → it ∈ M → it.1 ∈ (concat (kids N <$> M)).*1) as Hk.
  { intros M it HM Hit. eapply Forall_forall in HM; [|exact Hit].
    destruct (inner_kids cols order tot N it Hlay Hfacts HM) as (c & l & E).
    apply (list_elem_of_fmap_2 fst _ (it.1, c)). eapply kids_in; [exact Hit|]. rewrite E. by left. }
  rewrite !fmap_app. apply list_elem_of_fmap in Hx as (it & -> & Hx).
  apply elem_of_app in Hx as [Hx|[->|[->|Hx]%elem_of_cons]%elem_of_cons].
  - apply elem_of_app. left. by apply Hk.
  - apply elem_of_app. right. apply elem_of_app. left. rewrite <-(take_drop m C), fmap_app, <-HC1. apply elem_of_app. left.
    destruct (live n1) as [|e l1] eqn:E1; [|by left].
    rewrite (hv_live1 _ _ _ su_halves0) in E1. apply (f_equal length) in E1. rewrite length_take in E1. simpl in E1. lia.
  - apply elem_of_app. right. apply elem_of_app. left. rewrite <-(take_drop m C), fmap_app, <-HC2. apply elem_of_app. right.
    destruct su_key0 as (rid & l & ->). by left.
  - apply elem_of_app. right. apply elem_of_app. right. by apply Hk.
Qed.

(** What the levels above the parent make of it. *)
Context h h1 nx h' N' up' nx' (Hrn : r = nx) (Hold : ∀ x m', N !! x = Some m' → x < nx)
  (Hfirst : first_leaf_ h1 = first_leaf_ h) (Hlast : last_leaf_ h1 = last_leaf_ h)
  (Hgr : grown h1 N2 (nx + 1) up (level_with A1 o1 P B1 k2 r) h' N' up' nx').
Let L1' : list item := level_with A1 o1 P B1 k2 r.

Lemma gu_moved x : is_Some (N2 !! x) → x ∉ pages (concat up) →
  body_of N' x = body_of N2 x ∧ (x ∉ pages L1' → parent_of N' x = parent_of N2 x).
Proof using Hgr.
  intros [n0 Hn] Hx. destruct (gr_moved _ _ _ _ _ _ _ _ _ Hgr x n0 Hn Hx) as (pr & Hn' & Hpr).
  unfold body_of, parent_of. rewrite Hn, Hn'. split; [done|]. intros Hx'. simpl. by rewrite (Hpr Hx').
Qed.

Lemma gu_dom x : is_Some (N !! x) → is_Some (N2 !! x).
Proof using Hsu.
  intros [m' Hm]. destruct Hsu. destruct (decide (x = P)) as [->|HP]; [by eexists|].
  rewrite su_rest0 by (congruence || done). rewrite Hm. case_decide; by eexists.
Qed.

Lemma gu_level x : x ∈ pages L1' ↔ x = r ∨ x ∈ pages L1.
Proof using Hsu.
  destruct Hsu. unfold L1'. rewrite su_level0, !elem_of_pages. setoid_rewrite elem_of_app. setoid_rewrite elem_of_cons.
  setoid_rewrite elem_of_cons. split.
  - intros (o0 & [?|[Heq|[Heq|?]]]); [right; eauto|right; exists o0; rewrite Heq; by right; left|left; congruence|right; eauto].
  - intros [->|(o0 & [?|[Heq|?]])]; [exists (Some k2); by right; right; left|eauto|exists o0; rewrite Heq; by right; left|eauto 10].
Qed.

Lemma gu_below x : x ∈ pages L' → body_of N' x = body_of N x ∧ parent_of N' x = parent_of N2 x.
Proof using Hsu Hgr.
  intros Hx. destruct (su_below _ Hx) as (H1 & H2 & HP & Hr). pose proof (su_dom _ Hx) as Hd.
  destruct (gu_moved x (gu_dom _ Hd) H2) as [Hb Hp]. split; [rewrite Hb; by apply su_body|].
  apply Hp. rewrite gu_level. tauto.
Qed.

Lemma gu_linked : linked N' L' L1'.
Proof using Hsu Hgr Hrn Hold Hfirst Hlast.
  pose proof su_half as Hhalf. pose proof su_children_halves as [HC1 HC2]. pose proof su_nodup as Hnd.
  rewrite su_with. destruct Hsu. destruct (pe_stack _ _ _ _ _ _ _ _ _ _ _ su_pending0) as [Hlink _].
  assert (∀ x, x ∈ pages L1 → x ∉ pages (concat up)) as Hup.
  { apply NoDup_app in Hnd as (_ & _ & Hnd). by apply NoDup_app in Hnd as (_ & Hd & _). }
  assert (P ∈ pages L1) as HPL.
  { rewrite su_level0. unfold pages. rewrite fmap_app. set_solver. }
  change L1' with (A1 ++ [(o1, P); (Some k2, r)] ++ B1).
  apply (linked_replace N N' A1 (o1, P) B1 _ _ (kids N (o1, P))).
  - destruct Hlink as [_ E2]. rewrite su_level0 in E2. split; [|exact E2]. by rewrite fmap_app, concat_app.
  - intros x Hx. destruct (su_level_pages _ Hx) as [Hx1 HxP].
    destruct (gu_moved x) as [-> _]; [by apply gu_dom; eapply linked_dom|by apply Hup|].
    apply su_body; [done|]. apply su_above. by left.
  - intros c Hc. assert (c.2 ∈ pages (concat (kids N <$> A1)) ++ pages (concat (kids N <$> B1))) as Hc'.
    { rewrite fmap_app, concat_app in Hc. rewrite <-pages_app. by apply pages_elem. }
    assert (c.2 ∈ pages L' ∧ c.2 ∉ pages (drop m C)) as [Hin Hnot].
    { rewrite su_with, !pages_app in Hnd |- *. split.
      { apply elem_of_app in Hc' as [Hc'|Hc']; apply elem_of_app; [by left|right; apply elem_of_app; by right]. }
      intros Hm.
      apply NoDup_app in Hnd as (Hnd & _ & _). apply NoDup_app in Hnd as (_ & Hd1 & Hnd). apply NoDup_app in Hnd as (_ & Hd2 & _).
      assert (c.2 ∈ pages C) as HcC by (rewrite <-(take_drop m C), pages_app; apply elem_of_app; by right).
      apply elem_of_app in Hc' as [Hc'|Hc']; [apply (Hd1 _ Hc'), elem_of_app; by left|by apply (Hd2 _ HcC)]. }
    destruct (gu_below _ Hin) as [_ ->]. apply su_parent_kept; [done|]. by apply su_below in Hin as (_ & _ & _ & ?).
  - destruct (gu_moved P) as [HbP _]; [by eexists|by apply Hup|].
    destruct (gu_moved r) as [Hbr _]; [by eexists|intros Hx; by apply (su_above r); [right|]|].
    unfold body_of in HbP, Hbr. rewrite su_left0 in HbP. rewrite su_right0 in Hbr. simpl in HbP, Hbr.
    destruct (N' !! P) as [nP|] eqn:EP; [|done]. destruct (N' !! r) as [nr|] eqn:Er; [|done].
    unfold body in HbP, Hbr. injection HbP as HP1 HP2 HP3. injection Hbr as Hr1 Hr2 Hr3.
    assert (kids N' (o1, P) = take m C) as K1 by (unfold kids; simpl; by rewrite EP, HP3).
    assert (kids N' (Some k2, r) = drop m C) as K2 by (unfold kids; simpl; by rewrite Er, Hr3).
    assert (∀ c, c ∈ C → parent_of N' c.2 = parent_of N2 c.2) as HpC.
    { intros c Hc. apply gu_below. rewrite su_with. apply pages_elem. apply elem_of_app. right. apply elem_of_app. by left. }
    split; [cbn; by rewrite K1, K2, app_nil_r, take_drop|].
    apply Forall_cons. split; [|apply Forall_singleton].
    + exists nP. split; [done|]. rewrite HP1, HP2, (hv_leaf1 _ _ _ su_halves0), (hv_num1 _ _ _ su_halves0).
      split; [done|]. split; [lia|]. rewrite K1. intros c Hc.
      rewrite HpC by (rewrite <-(take_drop m C); apply elem_of_app; by left).
      assert (c.2 ∉ pages (drop m C)) as Hnot.
      { intros Hm. rewrite su_with, !pages_app in Hnd. apply NoDup_app in Hnd as (Hnd & _ & _).
        apply NoDup_app in Hnd as (_ & _ & Hnd). apply NoDup_app in Hnd as (Hnd & _ & _).
        rewrite <-(take_drop m C), pages_app in Hnd. apply NoDup_app in Hnd as (_ & Hd & _).
        apply (Hd c.2); [by apply pages_elem|done]. }
      rewrite su_parent_kept; [|done|].
      2: { assert (c ∈ L') as Hin by (rewrite su_with; rewrite <-(take_drop m C); set_solver).
        by apply pages_elem, su_below in Hin as (_ & _ & _ & ?). }
      assert (c ∈ C) as Hin by (rewrite <-(take_drop m C); set_solver). unfold C in Hin.
      apply elem_of_app in Hin as [Hin|[->|[->|Hin]%elem_of_cons]%elem_of_cons].
      * apply su_children0. rewrite su_kids0. set_solver.
      * apply su_children0. rewrite su_kids0. set_solver.
      * simpl. unfold parent_of. rewrite (pe_q _ _ _ _ _ _ _ _ _ _ _ su_pending0). simpl.
        rewrite <-(pe_parent _ _ _ _ _ _ _ _ _ _ _ su_pending0). apply (su_children0 (o, p)). rewrite su_kids0. set_solver.
      * apply su_children0. rewrite su_kids0. set_solver.
    + exists nr. split; [done|]. rewrite Hr1, Hr2, (hv_leaf2 _ _ _ su_halves0), (hv_num2 _ _ _ su_halves0).
      split; [done|]. split; [lia|]. rewrite K2. intros c Hc.
      rewrite HpC by (rewrite <-(take_drop m C); apply elem_of_app; by right). by apply su_parent_moved, pages_elem.
Qed.

Lemma su_grown_up : grown h N nx (L1 :: up) L' h' N' (L1' :: up') nx'.
Proof using Hsu Hgr Hrn Hold Hfirst Hlast.
  pose proof su_nodup as Hnd. pose proof gu_linked as Hlinked. split.
  - split; [done|]. apply (gr_stack _ _ _ _ _ _ _ _ _ Hgr).
  - rewrite (gr_first _ _ _ _ _ _ _ _ _ Hgr). done.
  - rewrite (gr_last _ _ _ _ _ _ _ _ _ Hgr). done.
  - intros x n0 Hn Hx. cbn [concat] in Hx. rewrite pages_app, elem_of_app in Hx.
    assert (x ≠ P) as HP.
    { intros ->. apply Hx. left. rewrite (su_level _ _ _ _ _ _ _ _ _ _ _ _ _ _ _ _ _ _ _ _ _ _ _ _ _ Hsu).
      unfold pages. rewrite fmap_app. set_solver. }
    assert (x ≠ r) as Hr by (specialize (Hold _ _ Hn); lia).
    pose proof (su_rest _ _ _ _ _ _ _ _ _ _ _ _ _ _ _ _ _ _ _ _ _ _ _ _ _ Hsu x HP Hr) as Hn2. fold C m in Hn2. rewrite Hn in Hn2.
    assert (∃ p2, N2 !! x = Some (with_parent p2 n0) ∧ (x ∉ pages L' → p2 = nd_parent n0)) as (p2 & Hx2 & Hp2).
    { case_decide as Hm; [exists r; split; [done|]; intros []; by apply su_moved_in|].
      exists (nd_parent n0). split; [by destruct n0|done]. }
    destruct (gr_moved _ _ _ _ _ _ _ _ _ Hgr x _ Hx2) as (pr & Hx3 & Hpr); [tauto|].
    exists pr. split; [done|]. intros Hx'. rewrite Hpr; [by apply Hp2|]. fold L1'. rewrite gu_level. tauto.
  - cbn [concat]. rewrite pages_app. apply NoDup_app. split_and!.
    + by apply NoDup_app in Hnd as (? & _).
    + intros x Hx. destruct (su_below _ Hx) as (H1 & H2 & _ & Hr). rewrite pages_app, elem_of_app, gu_level.
      intros [[?|?]|Hin]; [done..|]. apply (gr_new _ _ _ _ _ _ _ _ _ Hgr) in Hin as [?|Hge]; [done|].
      apply su_dom in Hx as [m' Hm]. specialize (Hold _ _ Hm). lia.
    + exact (gr_nodup _ _ _ _ _ _ _ _ _ Hgr).
  - intros x. cbn [concat]. rewrite !pages_app, !elem_of_app, gu_level. intros [[->|?]|Hx]; [right; lia|tauto|].
    apply (gr_new _ _ _ _ _ _ _ _ _ Hgr) in Hx as [?|?]; [tauto|right; lia].
  - pose proof (gr_nx _ _ _ _ _ _ _ _ _ Hgr). lia.
Qed.
End split_up.

End grow.
