(* ===== verification/IxSplit.v ===== *)
(** * Splits of nodes

    Reads and writes of nodes the caller holds, [split] of a leaf and of an inner node, and
    the new root above a split one. *)
From S2P Require Import Prelude Bytes Disk Log Replacer BufferPool Record PoolRun Meta Keys IxNode IxOrder.
From S2P Require Import IxPage IxNodeSpec Index IxPool IxTree IxSearch IxGrow.
Import IxNodeHandle IxIndexHandle.

Lemma NoDup_three {A} (x y z : A) : x ≠ y → x ≠ z → y ≠ z → NoDup [x; y; z].
Proof. intros. repeat (apply NoDup_cons; split); try apply NoDup_nil_2; rewrite ?elem_of_cons, ?elem_of_nil; intuition. Qed.

(** The nodes [cs] get the parent [r]. *)
Definition adopt (r : Z) (cs : list Z) (N : gmap Z inode) : gmap Z inode :=
  fold_left (λ N c, alter (with_parent r) c N) cs N.

Lemma adopt_lookup r cs N x :
  adopt r cs N !! x = if decide (x ∈ cs) then with_parent r <$> N !! x else N !! x.
Proof.
  revert N. induction cs as [|c cs IH]; intros N; simpl; [done|]. rewrite IH.
  destruct (decide (x = c)) as [->|Hne].
  - rewrite lookup_alter_eq. rewrite (decide_True (P := c ∈ c :: cs)) by by left.
    case_decide; [|done]. by destruct (N !! c).
  - rewrite lookup_alter_ne by done.
    destruct (decide (x ∈ cs)); [by rewrite decide_True by by right|].
    rewrite decide_False; [done|]. by intros [?|?]%elem_of_cons.
Qed.

Section insert.
Context {R : Type} `{!Replacer R, !ReplacerLaws R}.
Context (fd : Z) (Hfd : 0 ≤ fd < MAX_FD).
Context (cols : list ColMeta) (tot order : Z) (Hlay : layout_ok cols tot order).
Context (s0 : Storage R) (Hs0 : pool_inv s0).
Abbreviation St := (IxFileHdr * Storage R)%type.
Context (E : exn → St → Prop) (HE : ∀ e t, io_error e = true → E e t).
Abbreviation holds := (holds fd cols tot order s0).
Abbreviation table s := (page_table_ (s_bpm s)).
Abbreviation grown := (grown order).
Abbreviation level_with A o p B k q := (A ++ (o, p) :: (Some k, q) :: B).
Abbreviation blank := (blank tot order).
Abbreviation zero_key := (zero_key tot).
Implicit Types (h : IxFileHdr) (N : gmap Z inode) (H : list (Z * Z)) (nx p f : Z) (t : St) (k : bytes).

(** ** Reads and writes of a held node *)

Lemma wp_read_held {A} (m : IxFileHdr → M bytes A) h N H nx t p n f (Q : A → St → Prop) :
  (p, f) ∈ H → holds h N H nx t → N !! p = Some n → (∀ h, within eq (m h)) →
  node_wp cols tot order (m h) n (λ a _, Q a t) (λ e _, E e t) → wp (node f m) Q E t.
Proof using Type. intros Hin Hd Hn. eapply wp_node_read; [exact Hd|exact Hn|]. by eapply hd_held. Qed.

Lemma wp_size h N H nx t p n f (Q : Z → St → Prop) :
  (p, f) ∈ H → holds h N H nx t → N !! p = Some n → Q (nd_num n) t → wp (node f (λ _, get_size)) Q E t.
Proof using Type.
  intros Hin Hd Hn HQ. eapply wp_read_held; [exact Hin|exact Hd|exact Hn|intros ?; apply within_reads|by apply nw_get_size].
Qed.
Lemma wp_parent h N H nx t p n f (Q : Z → St → Prop) :
  (p, f) ∈ H → holds h N H nx t → N !! p = Some n → Q (nd_parent n) t → wp (node f (λ _, get_parent_page_no)) Q E t.
Proof using Type.
  intros Hin Hd Hn HQ. eapply wp_read_held; [exact Hin|exact Hd|exact Hn|intros ?; apply within_reads|by apply nw_get_parent].
Qed.
Lemma wp_leaf h N H nx t p n f (Q : bool → St → Prop) :
  (p, f) ∈ H → holds h N H nx t → N !! p = Some n → Q (nd_leaf n) t → wp (node f (λ _, is_leaf_page)) Q E t.
Proof using Type.
  intros Hin Hd Hn HQ. eapply wp_read_held; [exact Hin|exact Hd|exact Hn|intros ?; apply within_reads|by apply nw_is_leaf].
Qed.
Lemma wp_next h N H nx t p n f (Q : Z → St → Prop) :
  (p, f) ∈ H → holds h N H nx t → N !! p = Some n → Q (nd_next n) t → wp (node f (λ _, get_next_leaf)) Q E t.
Proof using Type.
  intros Hin Hd Hn HQ. eapply wp_read_held; [exact Hin|exact Hd|exact Hn|intros ?; apply within_reads|by apply nw_get_next].
Qed.
Lemma wp_no h N H nx t p f (Q : Z → St → Prop) :
  (p, f) ∈ H → holds h N H nx t → Q p t → wp (get_page_no f) Q E t.
Proof using Type. intros Hin Hd. eapply wp_page_no; [exact Hd|]. by eapply hd_held. Qed.

(** A write that always makes [n'] of [n]. *)
Lemma wp_write_held {A} (m : IxFileHdr → M bytes A) h N H nx t p n f a n' (Q : A → St → Prop) :
  (p, f) ∈ H → holds h N H nx t → N !! p = Some n →
  (∀ (Q : A → inode → Prop) (E : exn → inode → Prop), Q a n' → node_wp cols tot order (m h) n Q E) →
  (∀ t', holds h (<[p := n']> N) H nx t' → Q a t') → wp (node f m) Q E t.
Proof using Hs0. intros Hin Hd Hn Hm HQ. eapply wp_node; [done|exact Hd|exact Hn|exact Hin|]. by apply Hm. Qed.

Lemma page_i32 h N H nx t p n : holds h N H nx t → N !! p = Some n → i32_ok p = true.
Proof using Type.
  intros Hd Hn. apply (hd_node _ _ _ _ _ _ _ _ _ _ Hd) in Hn as [Hp _].
  pose proof (hd_bound _ _ _ _ _ _ _ _ _ _ Hd). apply i32_ok_range. unfold MAX_PAGES in *. lia.
Qed.

Lemma wp_set_num (k : Z) h N H nx t p n f (Q : unit → St → Prop) :
  (p, f) ∈ H → holds h N H nx t → N !! p = Some n → i32_ok k = true →
  (∀ t', holds h (<[p := with_num k n]> N) H nx t' → Q tt t') → wp (node f (λ _, set_size k)) Q E t.
Proof using Hs0 Hlay.
  intros Hin Hd Hn Hk HQ. eapply wp_write_held; [exact Hin|exact Hd|exact Hn| |exact HQ]. intros. by eapply nw_set_size.
Qed.
Lemma wp_set_parent (k : Z) h N H nx t p n f (Q : unit → St → Prop) :
  (p, f) ∈ H → holds h N H nx t → N !! p = Some n → i32_ok k = true →
  (∀ t', holds h (<[p := with_parent k n]> N) H nx t' → Q tt t') → wp (node f (λ _, set_parent_page_no k)) Q E t.
Proof using Hs0 Hlay.
  intros Hin Hd Hn Hk HQ. eapply wp_write_held; [exact Hin|exact Hd|exact Hn| |exact HQ]. intros. by eapply nw_set_parent.
Qed.
Lemma wp_set_next (k : Z) h N H nx t p n f (Q : unit → St → Prop) :
  (p, f) ∈ H → holds h N H nx t → N !! p = Some n → i32_ok k = true →
  (∀ t', holds h (<[p := with_next k n]> N) H nx t' → Q tt t') → wp (node f (λ _, set_next_leaf k)) Q E t.
Proof using Hs0 Hlay.
  intros Hin Hd Hn Hk HQ. eapply wp_write_held; [exact Hin|exact Hd|exact Hn| |exact HQ]. intros. by eapply nw_set_next.
Qed.
Lemma wp_set_prev (k : Z) h N H nx t p n f (Q : unit → St → Prop) :
  (p, f) ∈ H → holds h N H nx t → N !! p = Some n → i32_ok k = true →
  (∀ t', holds h (<[p := with_prev k n]> N) H nx t' → Q tt t') → wp (node f (λ _, set_prev_leaf k)) Q E t.
Proof using Hs0 Hlay.
  intros Hin Hd Hn Hk HQ. eapply wp_write_held; [exact Hin|exact Hd|exact Hn| |exact HQ]. intros. by eapply nw_set_prev.
Qed.
Lemma wp_set_leaf b h N H nx t p n f (Q : unit → St → Prop) :
  (p, f) ∈ H → holds h N H nx t → N !! p = Some n →
  (∀ t', holds h (<[p := with_leaf b n]> N) H nx t' → Q tt t') → wp (node f (λ _, set_is_leaf b)) Q E t.
Proof using Hs0 Hlay.
  intros Hin Hd Hn HQ. eapply wp_write_held; [exact Hin|exact Hd|exact Hn| |exact HQ]. intros. by eapply nw_set_leaf.
Qed.

(** ** Children get a new parent *)

Lemma wp_maintain_child h N H nx t r n g i rid c (Q : unit → St → Prop) :
  (r, g) ∈ H → holds h N H nx t → N !! r = Some n → nd_leaf n = false → 0 ≤ i →
  nd_rids n !! Z.to_nat i = Some rid → N !! page_no rid = Some c → room s0 (length H) →
  (∀ t', holds h (alter (with_parent r) (page_no rid) N) H nx t' → Q tt t') →
  wp (maintain_child fd g i) Q E t.
Proof using HE Hlay Hs0.
  intros Hin Hd Hn Hleaf Hi Hrid Hc Hroom HQ. unfold maintain_child.
  apply wp_bind. eapply wp_leaf; [exact Hin|exact Hd|exact Hn|]. rewrite Hleaf. cbn [negb].
  apply wp_bind. eapply wp_read_held; [exact Hin|exact Hd|exact Hn| |].
  { intros h'. unfold value_at, rid_. repeat (within_steps; try apply within_reads). }
  eapply nw_value_at; [done|apply Hd|done|exact Hrid|].
  apply wp_bind. eapply wp_fetch; [done|done|exact Hd|exact Hc|done|]. intros f t1 Hd1 _.
  apply wp_bind. eapply wp_no; [right; exact Hin|exact Hd1|].
  apply wp_bind. eapply wp_set_parent; [by left|exact Hd1|exact Hc|by eapply page_i32|].
  intros t2 Hd2. eapply wp_unpin_dirty; [done|done|exact Hd2|done|].
  intros t3 Hd3. apply HQ. replace (alter _ _ _) with (<[page_no rid := with_parent r c]> N); [done|].
  apply map_eq. intros x. destruct (decide (x = page_no rid)) as [->|Hne].
  - by rewrite lookup_insert_eq, lookup_alter_eq, Hc.
  - by rewrite lookup_insert_ne, lookup_alter_ne.
Qed.

Lemma wp_maintain_children r g H nx h m : ∀ from n N t (Q : unit → St → Prop),
  (r, g) ∈ H → room s0 (length H) →
  holds h N H nx t → N !! r = Some n → nd_leaf n = false → 0 ≤ from →
  (∀ rid, rid ∈ take m (drop (Z.to_nat from) (nd_rids n)) → page_no rid ≠ r ∧ is_Some (N !! page_no rid)) →
  (Z.to_nat from + m ≤ length (nd_rids n))%nat →
  (∀ t', holds h (adopt r (page_no <$> take m (drop (Z.to_nat from) (nd_rids n))) N) H nx t' → Q tt t') →
  wp (foldr (λ i (k : M St unit), do! maintain_child fd g i in k) (ret tt) (seqZ from (Z.of_nat m))) Q E t.
Proof using HE Hlay Hs0.
  induction m as [|m IH]; intros from n N t Q Hin Hroom Hd Hn Hleaf Hfrom Hch Hlen HQ.
  - rewrite take_0 in HQ. apply wp_ret. by apply HQ.
  - rewrite seqZ_cons by lia. replace (Z.pred (Z.of_nat (S m))) with (Z.of_nat m) by lia. cbn [foldr].
    destruct (lookup_lt_is_Some_2 (nd_rids n) (Z.to_nat from)) as [rid Hrid]; [lia|].
    rewrite (drop_S _ _ _ Hrid) in Hch, HQ. cbn [take fmap list_fmap] in Hch, HQ.
    destruct (Hch rid) as [Hne [c Hc]]; [by left|].
    apply wp_bind. eapply wp_maintain_child; [exact Hin|exact Hd|exact Hn|done|done|exact Hrid|exact Hc|done|].
    intros t1 Hd1. replace (Z.succ from) with (from + 1) by lia.
    assert (Z.to_nat (from + 1) = S (Z.to_nat from)) as HS by lia.
    apply (IH (from + 1) n (alter (with_parent r) (page_no rid) N) t1); try done.
    + by rewrite lookup_alter_ne.
    + lia.
    + rewrite HS. intros rid' Hr'. destruct (Hch rid') as [? [c' Hc']]; [by right|]. split; [done|].
      destruct (decide (page_no rid' = page_no rid)) as [->|]; [rewrite lookup_alter_eq, Hc; by eexists|].
      rewrite lookup_alter_ne by done. by eexists.
    + lia.
    + rewrite HS. exact HQ.
Qed.

(** ** Splitting a node *)

Lemma take_splice_same {A} l (xs ks : list A) : (l ≤ length ks)%nat → take l (splice l xs ks) = take l ks.
Proof using Type. intros Hl. unfold splice. apply take_app_exact. rewrite length_take. lia. Qed.
Lemma take_splice_front {A} (xs ks : list A) : take (length xs) (splice 0 xs ks) = xs.
Proof using Type. unfold splice. rewrite take_0. simpl. by apply take_app_exact. Qed.

(** [move_right] after the sizes are set. *)
Lemma wp_move_right h N H nx t p f q g n nq (num : Z) (Q : unit → St → Prop) :
  (p, f) ∈ H → (q, g) ∈ H → p ≠ q → holds h N H nx t → N !! p = Some n → N !! q = Some nq →
  0 ≤ num ≤ order + 1 → nd_num n = num / 2 → nd_num nq = num - num / 2 →
  (∀ n1 n2 t', holds h (<[q := n2]> (<[p := n1]> N)) H nx t' →
    same_links n n1 → same_links nq n2 → nd_num n1 = nd_num n → nd_num n2 = nd_num nq →
    live n1 = take (Z.to_nat (num / 2)) (live (with_num num n)) →
    live n2 = drop (Z.to_nat (num / 2)) (live (with_num num n)) → 
    lrids n2 = drop (Z.to_nat (num / 2)) (lrids (with_num num n)) → Q tt t') →
  wp (move_right f g (num / 2) (num - num / 2)) Q E t.
Proof using Hs0 Hlay.
  intros Hp Hq Hne Hd Hn Hnq Hnum Hn1 Hn2 HQ. pose proof (cap_Z cols tot order Hlay) as Hcap.
  pose proof (holds_facts _ _ _ _ _ _ _ _ _ _ Hd) as Hfacts.
  pose proof (Hfacts _ _ Hn) as Hf. pose proof (Hfacts _ _ Hnq) as Hfq.
  pose proof (nf_nkeys _ _ _ Hf) as Lk. pose proof (nf_nrids _ _ _ Hf) as Lr.
  pose proof (nf_nkeys _ _ _ Hfq) as Lkq. pose proof (nf_nrids _ _ _ Hfq) as Lrq.
  assert (0 ≤ num / 2 ≤ num) as Hhalf by (split; [apply Z.div_pos; lia|apply Z.div_le_upper_bound; lia]).
  set (l := num / 2) in *. set (r := num - l) in *.
  set (ks := take (Z.to_nat r) (drop (Z.to_nat l) (nd_keys n))).
  set (rs := take (Z.to_nat r) (drop (Z.to_nat l) (nd_rids n))).
  assert (length ks = Z.to_nat r) as Lks by (unfold ks; rewrite length_take, length_drop; lia).
  assert (length rs = Z.to_nat r) as Lrs by (unfold rs; rewrite length_take, length_drop; lia).
  unfold move_right. apply wp_bind. eapply wp_hdr; [exact Hd|]. cbv zeta.
  pose proof (hd_fits _ _ _ _ _ _ _ _ _ _ Hd) as Hfit. rewrite (fi_tot _ _ _ _ Hfit).
  apply wp_bind. eapply wp_read_held; [exact Hp|exact Hd|exact Hn|intros ?; apply within_reads|].
  apply (nw_read_keys cols tot order Hlay h Hfit _ l r); [lia|lia|lia|lia|]. fold ks.
  apply wp_bind. eapply wp_write_held; [exact Hq|exact Hd|exact Hnq| |].
  { intros Q' E' HQ'. apply (nw_write_keys cols tot order Hlay h Hfit _ 0 _ ks); [done| |lia|lia|exact HQ'].
    apply Forall_take, Forall_drop, Hf. }
  clear t Hd. intros t Hd.
  apply wp_bind. eapply wp_read_held; [exact Hp|exact Hd|by rewrite lookup_insert_ne|intros ?; apply within_reads|].
  apply (nw_read_rids cols tot order Hlay h Hfit _ l r); [lia|lia|lia|lia|]. fold rs.
  apply wp_bind. eapply wp_write_held; [exact Hq|exact Hd|by rewrite lookup_insert_eq| |].
  { intros Q' E' HQ'. apply (nw_write_rids cols tot order Hlay h Hfit _ 0 _ rs); [done| |lia|lia|exact HQ'].
    apply Forall_take, Forall_drop, Hf. }
  clear t Hd. intros t Hd. rewrite insert_insert_eq in Hd.
  apply wp_bind. eapply wp_write_held; [exact Hp|exact Hd|by rewrite lookup_insert_ne| |].
  { intros Q' E' HQ'. apply (nw_write_keys cols tot order Hlay h Hfit _ l _ (replicate (Z.to_nat r) (replicate (Z.to_nat tot) 0)));
      [|apply Forall_replicate; rewrite <-(la_cols _ _ _ Hlay); apply zero_key_plain, Hlay|lia|rewrite length_replicate; lia|exact HQ'].
    rewrite concat_zeros. f_equal. pose proof (la_tot _ _ _ Hlay). nia. }
  clear t Hd. intros t Hd.
  eapply wp_write_held; [exact Hp|exact Hd|by rewrite lookup_insert_eq| |].
  { intros Q' E' HQ'. apply (nw_write_rids cols tot order Hlay h Hfit _ l _ (replicate (Z.to_nat r) (mkRid 0 0)));
      [|apply Forall_replicate; by split|lia|rewrite length_replicate; lia|exact HQ'].
    rewrite fmap_replicate. change (rid_bytes (mkRid 0 0)) with (replicate 8 0).
    rewrite concat_zeros. f_equal. unfold SIZEOF_Rid. lia. }
  clear t Hd. intros t Hd. rewrite insert_insert_eq in Hd. rewrite insert_insert_ne in Hd by done.
  assert (take (Z.to_nat num) (nd_keys n) = take (Z.to_nat l) (nd_keys n) ++ ks) as Ek.
  { unfold ks. rewrite take_take_drop. f_equal. lia. }
  assert (take (Z.to_nat num) (nd_rids n) = take (Z.to_nat l) (nd_rids n) ++ rs) as Er.
  { unfold rs. rewrite take_take_drop. f_equal. lia. }
  assert (live (with_num num n) = zip (take (Z.to_nat l) (nd_keys n)) (take (Z.to_nat l) (nd_rids n)) ++ zip ks rs) as El.
  { unfold live, lkeys, lrids. cbn [nd_num nd_keys nd_rids with_num]. rewrite Ek, Er.
    apply (zip_with_app pair). rewrite !length_take. lia. }
  eapply HQ; [exact Hd|by split_and!|by split_and!|done|done|..].
  - rewrite El, take_app_exact by (rewrite length_zip, !length_take; lia).
    unfold live, lkeys, lrids. cbn [nd_num nd_keys nd_rids with_rids with_keys]. rewrite Hn1. fold l.
    by rewrite !take_splice_same by lia.
  - rewrite El, drop_app_exact by (rewrite length_zip, !length_take; lia).
    unfold live, lkeys, lrids. cbn [nd_num nd_keys nd_rids with_rids with_keys]. rewrite Hn2. fold l r.
    rewrite <-Lks at 1. rewrite <-Lrs. change (Z.to_nat 0) with 0%nat. by rewrite !take_splice_front.
  - unfold lrids. cbn [nd_num nd_keys nd_rids with_rids with_keys with_num]. rewrite Er, drop_app_exact by (rewrite length_take; lia).
    rewrite Hn2. fold l r. rewrite <-Lrs. change (Z.to_nat 0) with 0%nat. by rewrite take_splice_front.
Qed.

Definition relast p q h : IxFileHdr := if p =? last_leaf_ h then set_last_leaf q h else h.

Lemma wp_link_leaf h N H nx t p f q g n nq ns (Q : unit → St → Prop) :
  (p, f) ∈ H → (q, g) ∈ H → p ≠ q → holds h N H nx t → N !! p = Some n → N !! q = Some nq →
  N !! nd_next n = Some ns → nd_next n ≠ q → room s0 (length H) →
  (∀ t', holds (relast p q h)
     (alter (with_prev q) (nd_next n) (<[q := with_next (nd_next n) (with_prev p nq)]> (<[p := with_next q n]> N))) H nx t' →
     Q tt t') →
  wp (link_leaf fd f g) Q E t.
Proof using HE Hs0 Hlay.
  intros Hp Hq Hne Hd Hn Hnq Hns Hsq Hroom HQ. set (s := nd_next n) in *.
  pose proof (page_i32 _ _ _ _ _ _ _ Hd Hn) as Ip. pose proof (page_i32 _ _ _ _ _ _ _ Hd Hnq) as Iq.
  pose proof (page_i32 _ _ _ _ _ _ _ Hd Hns) as Is.
  unfold link_leaf. apply wp_bind. eapply wp_no; [exact Hp|exact Hd|]. apply wp_bind. eapply wp_no; [exact Hq|exact Hd|].
  apply wp_bind. eapply wp_set_prev; [exact Hq|exact Hd|exact Hnq|done|]. clear t Hd. intros t Hd.
  apply wp_bind. eapply wp_next; [exact Hp|exact Hd|by rewrite lookup_insert_ne|]. fold s.
  apply wp_bind. eapply wp_set_next; [exact Hq|exact Hd|by rewrite lookup_insert_eq|done|]. clear t Hd. intros t Hd.
  rewrite insert_insert_eq in Hd.
  apply wp_bind. eapply wp_set_next; [exact Hp|exact Hd|by rewrite lookup_insert_ne|done|]. clear t Hd. intros t Hd.
  rewrite insert_insert_ne in Hd by done.
  apply wp_bind. eapply wp_next; [exact Hq|exact Hd|by rewrite lookup_insert_eq|]. cbn [nd_next with_next].
  set (N1 := <[q := _]> _) in *. assert (∃ ns', N1 !! s = Some ns') as [ns' Hs'].
  { unfold N1. rewrite lookup_insert_ne by done. destruct (decide (p = s)) as [->|]; [rewrite lookup_insert_eq; by eexists|].
    rewrite lookup_insert_ne by done. by eexists. }
  apply wp_bind. eapply wp_fetch; [done|done|exact Hd|exact Hs'|done|]. clear t Hd. intros f' t Hd _.
  apply wp_bind. eapply wp_set_prev; [by left|exact Hd|exact Hs'|done|]. clear t Hd. intros t Hd.
  replace (<[s := with_prev q ns']> N1) with (alter (with_prev q) s N1) in Hd.
  2: { apply map_eq. intros x. destruct (decide (x = s)) as [->|].
    - by rewrite lookup_insert_eq, lookup_alter_eq, Hs'.
    - by rewrite lookup_insert_ne, lookup_alter_ne. }
  apply wp_bind. eapply wp_unpin_dirty; [done|done|exact Hd|done|]. clear t Hd. intros t Hd.
  apply wp_bind. eapply wp_hdr; [exact Hd|]. unfold relast in HQ. destruct (p =? last_leaf_ h).
  - eapply wp_set_hdr; [exact Hd| |exact HQ]. split; apply Hd.
  - apply wp_ret, HQ, Hd.
Qed.

(** The sizes and the header of the new node. *)
Lemma wp_split_start {A} h N H nx t p f n (k : Z → bool → M St A) (Q : A → St → Prop) :
  (p, f) ∈ H → holds h N H nx t → N !! p = Some n → 0 ≤ nd_num n ≤ order + 1 → nx < MAX_PAGES → room s0 (length H) →
  (∀ g t', holds (add_pages 1 h)
     (<[nx := with_leaf (nd_leaf n) (with_parent (nd_parent n) (with_num (nd_num n - nd_num n / 2) blank))]>
        (<[p := with_num (nd_num n / 2) n]> N)) ((nx, g) :: H) (nx + 1) t' → wp (k g (nd_leaf n)) Q E t') →
  wp (let! right_node := create_node fd in
      do! node f (λ _, set_size (nd_num n / 2)) in
      do! node right_node (λ _, set_size (nd_num n - nd_num n / 2)) in
      let! parent := node f (λ _, get_parent_page_no) in
      do! node right_node (λ _, set_parent_page_no parent) in
      let! leaf := node f (λ _, is_leaf_page) in
      do! node right_node (λ _, set_is_leaf leaf) in k right_node leaf) Q E t.
Proof using HE Hs0 Hlay Hfd.
  intros Hp Hd Hn Hnum Hnx Hroom HQ.
  pose proof (holds_facts _ _ _ _ _ _ _ _ _ _ Hd p n Hn) as Hf.
  assert (0 ≤ nd_num n / 2 ≤ nd_num n) as Hhalf by (split; [apply Z.div_pos; lia|apply Z.div_le_upper_bound; lia]).
  assert (p < nx) as Hpx by (destruct (hd_node _ _ _ _ _ _ _ _ _ _ Hd p n Hn) as [? _]; lia).
  assert (p ≠ nx) as Hne by lia.
  apply wp_bind. eapply wp_create; [done|done|done|done|exact Hd|done|done|]. clear t Hd. intros g t Hnone Hd.
  assert ((p, f) ∈ (nx, g) :: H) as Hp' by by right. assert ((nx, g) ∈ (nx, g) :: H) as Hq by by left.
  apply wp_bind. eapply wp_set_num; [exact Hp'|exact Hd|by rewrite lookup_insert_ne|by eapply size_ok; [done|lia]|].
  clear t Hd. intros t Hd.
  apply wp_bind. eapply wp_set_num; [exact Hq|exact Hd|by rewrite lookup_insert_ne, lookup_insert_eq|by eapply size_ok; [done|lia]|].
  clear t Hd. intros t Hd.
  apply wp_bind. eapply wp_parent; [exact Hp'|exact Hd|by rewrite lookup_insert_ne, lookup_insert_eq|]. cbn [nd_parent with_num].
  apply wp_bind. eapply wp_set_parent; [exact Hq|exact Hd|by rewrite lookup_insert_eq|apply Hf|].
  clear t Hd. intros t Hd. rewrite insert_insert_eq in Hd.
  apply wp_bind. eapply wp_leaf; [exact Hp'|exact Hd|by rewrite lookup_insert_ne, lookup_insert_eq|]. cbn [nd_leaf with_num].
  apply wp_bind. eapply wp_set_leaf; [exact Hq|exact Hd|by rewrite lookup_insert_eq|].
  clear t Hd. intros t Hd. rewrite insert_insert_eq, (insert_insert_ne N), insert_insert_eq in Hd by done.
  by apply HQ.
Qed.

Lemma live_with_num z n : live (with_num z (with_num (nd_num n) n)) = live (with_num z n).
Proof using Type. done. Qed.

Lemma wp_split_leaf h N H nx t p f n ns (Q : Z → St → Prop) :
  (p, f) ∈ H → holds h N H nx t → N !! p = Some n → nd_leaf n = true → 0 ≤ nd_num n ≤ order + 1 →
  N !! nd_next n = Some ns → nx < MAX_PAGES → room s0 (S (length H)) →
  (∀ g N' t', leaf_split N N' p nx n → holds (relast p nx (add_pages 1 h)) N' ((nx, g) :: H) (nx + 1) t' → Q g t') →
  wp (split fd f) Q E t.
Proof using HE Hs0 Hlay Hfd.
  intros Hp Hd Hn Hleaf Hnum Hns Hnx Hroom HQ.
  assert (p ≠ nx) as Hne by (destruct (hd_node _ _ _ _ _ _ _ _ _ _ Hd p n Hn) as [? _]; lia).
  assert (nd_next n ≠ nx) as Hsx by (destruct (hd_node _ _ _ _ _ _ _ _ _ _ Hd _ ns Hns) as [? _]; lia).
  assert (0 ≤ nd_num n / 2 ≤ nd_num n) as Hhalf by (split; [apply Z.div_pos; lia|apply Z.div_le_upper_bound; lia]).
  unfold split. apply wp_bind. eapply wp_size; [exact Hp|exact Hd|exact Hn|]. cbv zeta. rewrite Z.quot_div_nonneg by lia.
  eapply wp_split_start; [exact Hp|exact Hd|exact Hn|done|done|unfold room in *; lia|]. clear t Hd. intros g t Hd.
  rewrite Hleaf in *. set (n0 := with_num _ n) in *. set (q0 := with_leaf _ _) in *.
  assert ((p, f) ∈ (nx, g) :: H) as Hp' by by right. assert ((nx, g) ∈ (nx, g) :: H) as Hq by by left.
  assert (∃ ns', <[nx:=q0]> (<[p:=n0]> N) !! nd_next n0 = Some ns') as [ns' Hns'].
  { rewrite lookup_insert_ne by done. destruct (decide (p = nd_next n0)) as [->|]; [rewrite lookup_insert_eq; by eexists|].
    rewrite lookup_insert_ne by done. by eexists. }
  apply wp_bind. eapply wp_link_leaf; [exact Hp'|exact Hq|done|exact Hd|by rewrite lookup_insert_ne, lookup_insert_eq
    |by rewrite lookup_insert_eq|exact Hns'|done|exact Hroom|]. clear t Hd. intros t Hd. change (nd_next n0) with (nd_next n) in Hd.
  set (s := nd_next n) in *. set (N1 := alter _ _ _) in Hd.
  set (p1 := if decide (s = p) then with_prev nx (with_next nx n0) else with_next nx n0).
  set (q1 := with_next s (with_prev p q0)).
  assert (N1 !! p = Some p1) as Hp1.
  { unfold N1, p1. destruct (decide (s = p)) as [->|].
    - rewrite lookup_alter_eq, lookup_insert_ne, lookup_insert_eq by done. done.
    - rewrite lookup_alter_ne by done. rewrite lookup_insert_ne, lookup_insert_eq by done. done. }
  assert (N1 !! nx = Some q1) as Hq1 by (unfold N1; rewrite lookup_alter_ne by done; by rewrite lookup_insert_eq).
  apply wp_bind. eapply (wp_move_right _ _ _ _ _ _ _ _ _ _ _ (nd_num n)); [exact Hp'|exact Hq|done|exact Hd|exact Hp1|exact Hq1|done| |done|].
  { unfold p1. by case_decide. }
  clear t Hd. intros n1 n2 t Hd (Hs1 & Hs2 & Hs3 & Hs4) (Hs5 & Hs6 & Hs7 & Hs8) Hnum1 Hnum2 Hl1 Hl2 _.
  apply wp_bind. eapply wp_leaf; [exact Hp'|exact Hd|by rewrite lookup_insert_ne, lookup_insert_eq|].
  rewrite Hs2. assert (nd_leaf p1 = true) as -> by (unfold p1; by case_decide). cbn [negb].
  apply wp_bind, wp_ret, wp_ret. eapply HQ; [|exact Hd]. exists n1, n2.
  assert (live (with_num (nd_num n) p1) = live n) as El by (unfold p1; by case_decide).
  assert (nd_num p1 = nd_num n / 2) as E1 by (unfold p1; by case_decide).
  assert (nd_parent p1 = nd_parent n) as E2 by (unfold p1; by case_decide).
  assert (nd_next p1 = nx) as E3 by (unfold p1; by case_decide).
  assert (nd_leaf p1 = true) as E4 by (unfold p1; by case_decide).
  assert (nd_prev p1 = if decide (s = p) then nx else nd_prev n) as E5 by (unfold p1; by case_decide).
  rewrite El in *. split_and!.
  - by rewrite lookup_insert_ne, lookup_insert_eq.
  - by rewrite lookup_insert_eq.
  - split; [congruence|exact Hnum2|exact Hl1|exact Hl2|congruence|by rewrite Hs6, Hleaf|congruence|exact Hs5].
  - congruence.
  - by rewrite Hs3, E5.
  - rewrite Hs8. done.
  - rewrite Hs7. done.
  - intros x Hxp Hxq. rewrite !lookup_insert_ne by done. unfold N1. fold s. destruct (decide (x = s)) as [->|Hx].
    + rewrite lookup_alter_eq, !lookup_insert_ne by done. done.
    + by rewrite lookup_alter_ne, !lookup_insert_ne.
Qed.

Lemma wp_split_inner h N H nx t p f n (Q : Z → St → Prop) :
  (p, f) ∈ H → holds h N H nx t → N !! p = Some n → nd_leaf n = false → 0 ≤ nd_num n ≤ order + 1 →
  (∀ r, r ∈ drop (Z.to_nat (nd_num n / 2)) (lrids n) → page_no r ≠ p ∧ is_Some (N !! page_no r)) →
  nx < MAX_PAGES → room s0 (S (length H)) →
  (∀ g N' t', inner_split N N' p nx n → holds (add_pages 1 h) N' ((nx, g) :: H) (nx + 1) t' → Q g t') →
  wp (split fd f) Q E t.
Proof using HE Hs0 Hlay Hfd.
  intros Hp Hd Hn Hleaf Hnum Hch Hnx Hroom HQ.
  assert (p ≠ nx) as Hne by (destruct (hd_node _ _ _ _ _ _ _ _ _ _ Hd p n Hn) as [? _]; lia).
  assert (∀ x, is_Some (N !! x) → x ≠ nx) as Hin.
  { intros x [m Hm] ->. destruct (hd_node _ _ _ _ _ _ _ _ _ _ Hd nx m Hm) as [? _]; lia. }
  assert (0 ≤ nd_num n / 2 ≤ nd_num n) as Hhalf by (split; [apply Z.div_pos; lia|apply Z.div_le_upper_bound; lia]).
  unfold split. apply wp_bind. eapply wp_size; [exact Hp|exact Hd|exact Hn|]. cbv zeta. rewrite Z.quot_div_nonneg by lia.
  eapply wp_split_start; [exact Hp|exact Hd|exact Hn|done|done|unfold room in *; lia|]. clear t Hd. intros g t Hd.
  rewrite Hleaf in *. set (n0 := with_num _ n) in *. set (q0 := with_leaf _ _) in *.
  assert ((p, f) ∈ (nx, g) :: H) as Hp' by by right. assert ((nx, g) ∈ (nx, g) :: H) as Hq by by left.
  apply wp_bind, wp_ret.
  apply wp_bind. eapply (wp_move_right _ _ _ _ _ _ _ _ _ n0 q0 (nd_num n)); [exact Hp'|exact Hq|done|exact Hd
    |by rewrite lookup_insert_ne, lookup_insert_eq|by rewrite lookup_insert_eq|done|done|done|].
  clear t Hd. intros n1 n2 t Hd (Hs1 & Hs2 & Hs3 & Hs4) (Hs5 & Hs6 & Hs7 & Hs8) Hnum1 Hnum2 Hl1 Hl2 Hr2.
  rewrite insert_insert_ne, insert_insert_eq, insert_insert_ne, insert_insert_eq in Hd by done.
  pose proof (holds_facts _ _ _ _ _ _ _ _ _ _ Hd nx n2 ltac:(by rewrite lookup_insert_eq)) as Hf2.
  change (lrids (with_num (nd_num n) n0)) with (lrids n) in Hr2. change (live (with_num (nd_num n) n0)) with (live n) in *.
  apply wp_bind. eapply wp_leaf; [exact Hp'|exact Hd|by rewrite lookup_insert_ne, lookup_insert_eq|].
  rewrite Hs2. change (nd_leaf n0) with (nd_leaf n). rewrite Hleaf. cbn [negb].
  apply wp_bind, wp_bind. eapply wp_size; [exact Hq|exact Hd|by rewrite lookup_insert_eq|].
  change (nd_num q0) with (nd_num n - nd_num n / 2) in Hnum2.
  unfold maintain_children. rewrite Z.sub_0_r, <-(Z2Nat.id (nd_num n2)) by lia.
  assert (take (Z.to_nat (nd_num n2)) (drop (Z.to_nat 0) (nd_rids n2)) = drop (Z.to_nat (nd_num n / 2)) (lrids n)) as Et.
  { rewrite <-Hr2. change (Z.to_nat 0) with 0%nat. by rewrite drop_0. }
  eapply wp_maintain_children; [exact Hq|unfold room in *; simpl; lia|exact Hd|by rewrite lookup_insert_eq|by rewrite Hs6|done| | |].
  - rewrite Et. intros r Hr. destruct (Hch r Hr) as [Hrp Hrs]. split; [by apply Hin|].
    rewrite !lookup_insert_ne by (done || by apply not_eq_sym, Hin). done.
  - rewrite (nf_nrids _ _ _ Hf2). pose proof (cap_Z cols tot order Hlay). lia.
  - rewrite Et. clear t Hd. intros t Hd. apply wp_ret. eapply HQ; [|exact Hd]. exists n1, n2. 
    assert (∀ x, x ∈ page_no <$> drop (Z.to_nat (nd_num n / 2)) (lrids n) → x ≠ p ∧ x ≠ nx) as Hcs.
    { intros x (r & -> & Hr)%list_elem_of_fmap. destruct (Hch r Hr) as [? ?]. split; [done|by apply Hin]. }
    split_and!.
    + rewrite adopt_lookup, decide_False by (intros Hx; by apply Hcs in Hx as [? _]).
      by rewrite lookup_insert_ne, lookup_insert_eq.
    + rewrite adopt_lookup, decide_False by (intros Hx; by apply Hcs in Hx as [_ ?]). by rewrite lookup_insert_eq.
    + split; [exact Hnum1|exact Hnum2|exact Hl1|exact Hl2|exact Hs2|by rewrite Hs6, Hleaf|exact Hs1|exact Hs5].
    + intros x Hxp Hxq. rewrite adopt_lookup. by rewrite !lookup_insert_ne by done.
Qed.

(** ** Up to the root *)

(** A new child in the parent. *)
Lemma wp_parent_insert h N H nx t P fP n o CA ol p CB k q (Q : Z → St → Prop) :
  (P, fP) ∈ H → holds h N H nx t → N !! P = Some n → nd_leaf n = false → 2 ≤ nd_num n ≤ order →
  children_of o (live n) = CA ++ (ol, p) :: CB → los_ok cols (children_of o (live n)) →
  plain_key cols k → i32_ok q = true → lo_lt cols ol (Some k) → (∀ b, b ∈ CB → lo_gt cols b.1 k) →
  (∀ n' t', holds h (<[P := n']> N) H nx t' → nd_leaf n' = false → nd_parent n' = nd_parent n →
     nd_num n' = nd_num n + 1 → children_of o (live n') = CA ++ (ol, p) :: (Some k, q) :: CB → Q (nd_num n + 1) t') →
  wp (node fP (λ h, insert h k (mkRid q 0))) Q E t.
Proof using Hs0 Hlay.
  intros Hin Hd Hn Hleaf Hnum Hc Hlos Hk Hq Hol HCB HQ.
  assert (first_slot n = 1) as H1 by (unfold first_slot; by rewrite Hleaf).
  eapply wp_node; [done|exact Hd|exact Hn|exact Hin|].
  apply (nw_insert cols tot order Hlay h (hd_fits _ _ _ _ _ _ _ _ _ _ Hd)); [lia|lia|by eapply kids_sorted|done|by split|..].
  - intros A' B' n' Hl HA HA' HB (Hs1 & Hs2 & _ & _) Hnum' Hl' t' Hd'.
    eapply HQ; [exact Hd'|congruence|congruence|done|]. rewrite Hl'. rewrite Hl in Hc, Hlos.
    change q with (page_no (mkRid q 0)) at 2. eapply insert_kids; [exact Hc| |exact Hlos| |exact HB|exact Hol|exact HCB].
    + intros ->. simpl in HA. specialize (HA ltac:(lia)). lia.
    + intros e He. apply HA'. by rewrite H1.
  - intros r Hr. exfalso. unfold searched in Hr. rewrite H1 in Hr. change (Z.to_nat 1) with 1%nat in Hr.
    destruct (live n) as [|e l]; [by apply elem_of_nil in Hr|]. cbn [drop children_of] in *. rewrite drop_0 in Hr.
    assert (child (k, r) ∈ CA ++ (ol, p) :: CB) as Hin'.
    { rewrite <-Hc. right. by apply list_elem_of_fmap_2. }
    rewrite Hc in Hlos. apply los_ok_app in Hlos as (_ & _ & Hlt).
    apply elem_of_app in Hin' as [Hx|[Hx|Hx]%elem_of_cons].
    + specialize (Hlt _ (ol, p) Hx ltac:(by left)). eapply lo_lt_irrefl, lo_lt_trans; [exact Hlt|exact Hol].
    + injection Hx as <- _. by eapply klt_irrefl.
    + apply HCB in Hx. simpl in Hx. by eapply klt_irrefl.
Qed.

(** A new root above the two halves of the old one. *)
Lemma wp_new_root h N H0 nx t p f q g np nq k fuel (Q : unit → St → Prop) :
  holds h N ((p, f) :: (q, g) :: H0) nx t → root_page_ h = p → N !! p = Some np → N !! q = Some nq →
  nd_parent np = -1 → p ≠ q → plain_key cols k → nx < MAX_PAGES → room s0 (length H0 + 2) →
  (k = zero_key → ∀ t', E IndexEntryExistsError t') →
  (∀ h' N' up' nx' t', holds h' N' H0 nx' t' → grown h N nx [] [(None, p); (Some k, q)] h' N' up' nx' → nx' ≤ nx + 1 → Q tt t') →
  wp (insert_into_parent fd (S fuel) f k g) Q E t.
Proof using HE Hs0 Hlay Hfd.
  intros Hd Hroot Hp Hq Hpar Hne Hk Hnx Hroom Hz HQ.
  assert (p < nx) as Hpx by (destruct (hd_node _ _ _ _ _ _ _ _ _ _ Hd p np Hp) as [? _]; lia).
  assert (q < nx) as Hqx by (destruct (hd_node _ _ _ _ _ _ _ _ _ _ Hd q nq Hq) as [? _]; lia).
  assert (p ≠ nx ∧ q ≠ nx) as [Hpn Hqn] by lia.
  assert (∀ x m, N !! x = Some m → x ≠ nx) as Hold.
  { intros x m Hm ->. destruct (hd_node _ _ _ _ _ _ _ _ _ _ Hd nx m Hm) as [? _]. lia. }
  pose proof (page_i32 _ _ _ _ _ _ _ Hd Hp) as Ip. pose proof (page_i32 _ _ _ _ _ _ _ Hd Hq) as Iq.
  assert (i32_ok nx = true) as Ix.
  { pose proof (hd_bound _ _ _ _ _ _ _ _ _ _ Hd). apply i32_ok_range. unfold MAX_PAGES in *. lia. }
  cbn [insert_into_parent]. set (H := (p, f) :: (q, g) :: H0) in *.
  assert ((p, f) ∈ H ∧ (q, g) ∈ H) as [Hpin Hqin] by (unfold H; set_solver).
  apply wp_bind. eapply wp_read_held; [exact Hpin|exact Hd|exact Hp| |].
  { intros ?. unfold is_root_page, get_parent_page_no, field. repeat (within_steps; try apply within_reads). }
  apply nw_is_root. rewrite Hpar. cbn.
  apply wp_bind. eapply wp_no; [exact Hpin|exact Hd|]. apply wp_bind. eapply wp_no; [exact Hqin|exact Hd|].
  apply wp_bind. eapply wp_create; [done|done|done|done|exact Hd|done|simpl; unfold room in *; lia|].
  clear t Hd. intros g' t _ Hd. set (H' := (nx, g') :: H) in *.
  assert ((p, f) ∈ H' ∧ (q, g) ∈ H' ∧ (nx, g') ∈ H') as (Hpin' & Hqin' & Hxin) by (unfold H'; set_solver).
  apply wp_bind. eapply wp_no; [exact Hxin|exact Hd|].
  apply wp_bind. unfold update_root_page_no. eapply wp_set_hdr; [exact Hd|split; apply Hd|]. clear t Hd. intros t Hd.
  set (h' := set_root nx _) in Hd.
  apply wp_bind. eapply wp_set_parent; [exact Hxin|exact Hd|by rewrite lookup_insert_eq|done|]. clear t Hd. intros t Hd.
  rewrite insert_insert_eq in Hd.
  apply wp_bind. eapply wp_set_leaf; [exact Hxin|exact Hd|by rewrite lookup_insert_eq|]. clear t Hd. intros t Hd.
  rewrite insert_insert_eq in Hd.
  apply wp_bind. eapply wp_set_parent; [exact Hpin'|exact Hd|by rewrite lookup_insert_ne|done|]. clear t Hd. intros t Hd.
  apply wp_bind. eapply wp_set_parent; [exact Hqin'|exact Hd|by rewrite !lookup_insert_ne|done|]. clear t Hd. intros t Hd.
  rewrite (insert_insert_ne _ p nx), (insert_insert_ne _ q nx) in Hd by done.
  set (N1 := <[q := _]> (<[p := _]> N)) in Hd.
  pose proof (la_order _ _ _ Hlay) as Hord.
  apply wp_bind. eapply wp_write_held; [exact Hxin|exact Hd|by rewrite lookup_insert_eq| |].
  { intros Q' E' HQ'. apply (nw_set_rid cols tot order Hlay h' (hd_fits _ _ _ _ _ _ _ _ _ _ Hd)); [by split|lia|exact HQ']. }
  clear t Hd. intros t Hd. rewrite insert_insert_eq in Hd.
  apply wp_bind. eapply wp_size; [exact Hxin|exact Hd|by rewrite lookup_insert_eq|]. cbn [nd_num with_rids with_leaf with_parent blank].
  apply wp_bind. eapply wp_set_num; [exact Hxin|exact Hd|by rewrite lookup_insert_eq|done|]. clear t Hd. intros t Hd.
  rewrite insert_insert_eq in Hd. set (nr := with_num _ _) in Hd.
  apply wp_bind. eapply wp_node; [done|exact Hd|by rewrite lookup_insert_eq|exact Hxin|].
  assert (∃ c, cap order = S (S c)) as [c Hc] by (exists (Z.to_nat (order - 1)); unfold cap; lia).
  apply (nw_insert_single cols tot order Hlay h' (hd_fits _ _ _ _ _ _ _ _ _ _ Hd) _ _ _ _ zero_key); try done.
  { unfold nr. cbn. by rewrite Hc. }
  { intros Hzk t' _. by apply Hz. }
  intros n' (Hs1 & Hs2 & _ & _) Hn' Hl'. clear t Hd. intros t Hd. rewrite insert_insert_eq in Hd.
  apply wp_bind. eapply wp_unpin_dirty; [done|done|exact Hd|exact (Permutation_refl H')|]. clear t Hd. intros t Hd.
  apply wp_bind. eapply wp_unpin_dirty; [done|done|exact Hd|exact (Permutation_refl H)|]. clear t Hd. intros t Hd.
  eapply wp_unpin_dirty; [done|done|exact Hd|done|]. clear t Hd. intros t Hd.
  eapply (HQ h' _ [[(None, nx)]]); [exact Hd| |lia].
  assert (live n' = [(zero_key, mkRid p 0); (k, mkRid q 0)]) as El.
  { rewrite Hl'. unfold nr, live, lkeys, lrids. cbn. rewrite Hc. reflexivity. }
  assert (kids (<[nx:=n']> N1) (None, nx) = [(None, p); (Some k, q)]) as Ek.
  { unfold kids. simpl. by rewrite lookup_insert_eq, El. }
  split; try done.
  - cbn [stacked]. split; [split|split].
    + cbn. by rewrite Ek.
    + constructor; [|done]. exists n'. split_and!; [by rewrite lookup_insert_eq|by rewrite Hs2|lia|lia|].
      rewrite Ek. intros c' [->|[->|Hc']%elem_of_cons]%elem_of_cons; [..|by apply elem_of_nil in Hc']; unfold parent_of; simpl.
      * rewrite lookup_insert_ne by done. unfold N1. by rewrite lookup_insert_ne, lookup_insert_eq.
      * rewrite lookup_insert_ne by done. unfold N1. by rewrite lookup_insert_eq.
    + done.
    + unfold parent_of. rewrite lookup_insert_eq. simpl. by rewrite Hs1.
  - intros x m Hm _. rewrite lookup_insert_ne by (by apply not_eq_sym, (Hold x m)). unfold N1.
    destruct (decide (x = q)) as [->|]; [|destruct (decide (x = p)) as [->|]].
    + rewrite lookup_insert_eq. simplify_eq. exists nx. split; [done|]. intros []. right. by left.
    + rewrite lookup_insert_ne, lookup_insert_eq by done. simplify_eq. exists nx. split; [done|]. intros []. by left.
    + rewrite !lookup_insert_ne by done. exists (nd_parent m). split; [by destruct m|done].
  - by apply NoDup_three.
  - intros x Hx. cbn in Hx. right. apply list_elem_of_singleton in Hx as ->. lia.
  - lia.
Qed.

End insert.
