(* ===== verification/IxLeaf.v ===== *)
(** * The leaves of the tree

    The leaf level with its ring and its entries, and what the insertion of an entry and the
    split of a leaf make of it. *)
From Stdlib Require Import Sorting.Sorted.
From S2P Require Import Prelude Bytes Disk Log Meta Keys IxNode IxOrder IxPage IxNodeSpec IxTree IxGrow.

(** ** Chains of leaves *)

Definition next_of (N : gmap Z inode) (p : Z) : option Z := nd_next <$> N !! p.
Definition prev_of (N : gmap Z inode) (p : Z) : option Z := nd_prev <$> N !! p.

Lemma leaf_chain_ext N N' l : ∀ x y,
  (∀ a, a ∈ x :: l → next_of N' a = next_of N a) → (∀ b, b ∈ l ++ [y] → prev_of N' b = prev_of N b) →
  chain N x l y → chain N' x l y.
Proof.
  induction l as [|z l IH]; intros x y Hn Hp; cbn [chain].
  - intros [H1 H2]. split; [rewrite <-H1; apply Hn; by left|rewrite <-H2; apply Hp; by left].
  - intros [[H1 H2] H3]. split; [split|].
    + rewrite <-H1. apply Hn. by left.
    + rewrite <-H2. apply Hp. by left.
    + apply IH; [|intros b Hb; apply Hp; by right|done]. intros a Ha. apply Hn. by right.
Qed.

Lemma chain_app N l1 z l2 : ∀ x y, chain N x (l1 ++ z :: l2) y ↔ chain N x l1 z ∧ chain N z l2 y.
Proof. induction l1 as [|w l1 IH]; intros x y; cbn [chain app]; [tauto|]. rewrite IH. tauto. Qed.

(** The first link of a chain. *)
Lemma chain_next N x l y : chain N x l y → next_of N x = Some (hd y l) ∧ prev_of N (hd y l) = Some x.
Proof. destruct l; cbn [chain hd]; [by intros [? ?]|by intros [[? ?] _]]. Qed.

(** [q] comes behind [p]. *)
Lemma chain_add N N' p q l y :
  chain N p l y → NoDup (p :: l) → y ∉ l → q ∉ p :: l →
  next_of N' p = Some q → prev_of N' q = Some p → next_of N' q = Some (hd y l) → prev_of N' (hd y l) = Some q →
  (∀ x, x ≠ p → x ≠ q → next_of N' x = next_of N x) → (∀ x, x ≠ q → x ≠ hd y l → prev_of N' x = prev_of N x) →
  y ≠ q → chain N' p (q :: l) y.
Proof.
  intros Hc Hnd Hy Hq H1 H2 H3 H4 Hn Hp Hyq. cbn [chain]. split; [done|]. destruct l as [|b l]; cbn [hd chain] in *; [done|].
  destruct Hc as [_ Hc]. split; [done|]. apply NoDup_cons in Hnd as [Hp' Hnd]. apply NoDup_cons in Hnd as [Hb _].
  apply (leaf_chain_ext N); [| |done].
  - intros a Ha. apply Hn; [by intros ->|]. intros ->. apply Hq. by right.
  - intros a Ha. apply Hp; intros ->; apply elem_of_app in Ha as [Ha|Ha%list_elem_of_singleton]; subst; try done.
    + apply Hq. right. by right.
    + apply Hy. by left.
Qed.

Section leaf.
Context (cols : list ColMeta) (order : Z).
Abbreviation klt := (klt cols).
Abbreviation plain := (plain_key cols).
Abbreviation entry := (bytes * Rid)%type.
Abbreviation lo := (option bytes).
Abbreviation sorted := (sorted cols).
Abbreviation los_ok := (los_ok cols).
Abbreviation fenced := (fenced cols).
Implicit Types (o : lo) (it : item) (k : bytes) (N : gmap Z inode) (L : list item) (up : list (list item)).

(** A new leaf in the ring. *)
Lemma ring_add N N' A p q B :
  ring N (A ++ p :: B) → NoDup (A ++ p :: B) → q ∉ A ++ p :: B →
  ∀ s, next_of N p = Some s →
  next_of N' p = Some q → prev_of N' q = Some p → next_of N' q = Some s → prev_of N' s = Some q →
  (∀ x, x ≠ p → x ≠ q → next_of N' x = next_of N x) → (∀ x, x ≠ q → x ≠ s → prev_of N' x = prev_of N x) →
  ring N' (A ++ p :: q :: B).
Proof using Type.
  intros Hr Hnd Hq s Hs H1 H2 H3 H4 Hn Hp. destruct A as [|a A]; cbn [app ring] in *.
  - pose proof (chain_next _ _ _ _ Hr) as [Hs' _]. rewrite Hs in Hs'. injection Hs' as ->.
    apply NoDup_cons in Hnd as Hnd'. destruct Hnd' as [HpB _].
    apply (chain_add N); try done. by intros ->; apply Hq; left.
  - apply chain_app in Hr as [Hr1 Hr2]. apply (chain_app N' A p (q :: B)).
    pose proof (chain_next _ _ _ _ Hr2) as [Hs' _]. rewrite Hs in Hs'. injection Hs' as ->.
    apply NoDup_cons in Hnd as [Ha Hnd]. apply NoDup_app in Hnd as (HndA & Hdis & HndB).
    split.
    + apply (leaf_chain_ext N); [| |done].
      * intros x Hx. apply Hn; intros ->; [|set_solver].
        apply elem_of_cons in Hx as [->|Hx]; [set_solver|]. apply (Hdis _ Hx). by left.
      * intros x Hx. apply Hp; [set_solver|]. intros ->. destruct B as [|b B]; cbn [hd] in *.
        -- apply Ha. set_solver.
        -- apply elem_of_app in Hx as [Hx|Hx%list_elem_of_singleton].
           ++ apply (Hdis _ Hx). right. by left.
           ++ subst. apply NoDup_cons in HndB as [Hb _]. apply Hb. by left.
    + apply (chain_add N); try done; set_solver.
Qed.

Lemma hd_elem {A} (y : A) l : hd y l ∈ y :: l.
Proof using Type. destruct l; [by left|right; by left]. Qed.

Lemma ring_next N ps p : ring N ps → p ∈ ps → ∃ s, s ∈ ps ∧ next_of N p = Some s ∧ prev_of N s = Some p.
Proof using Type.
  intros Hr (A & B & ->)%list_elem_of_split. destruct A as [|a A]; cbn [app ring] in Hr.
  - apply chain_next in Hr as [? ?]. exists (hd p B). split; [apply hd_elem|done].
  - apply chain_app in Hr as [_ Hr]. apply chain_next in Hr as [? ?]. exists (hd a B). split; [|done].
    pose proof (hd_elem a B). set_solver.
Qed.

(** ** The leaf level *)

Record leaves N L (first lst : Z) (es : list entry) : Prop := {
  lv_leaves : Forall (leaf_ok order N) L;
  lv_entries : entries N L = es;
  lv_sorted : sorted es;
  lv_fenced : fenced N L;
  lv_ring : ring N (pages L);
  lv_first : head (pages L) = Some first;
  lv_last : last (pages L) = Some lst;
}.

Lemma tree_leaves N L up root first lst es : tree_at cols order N L up root first lst es → leaves N L first lst es.
Proof using Type. intros H. destruct H. by split. Qed.

Lemma leaves_tree N L up root first lst es :
  stacked order N L up root → los_ok L → leaves N L first lst es → NoDup (pages (concat (L :: up))) →
  tree_at cols order N L up root first lst es.
Proof using Type. intros Hs Hl Hv Hn. destruct Hv. by split. Qed.

(** What the leaf level sees of a node. *)
Definition leaf_of N (p : Z) : option (bool * Z * Z * Z * list entry) :=
  (λ n, (nd_leaf n, nd_num n, nd_prev n, nd_next n, live n)) <$> N !! p.

Lemma leaf_of_entries N N' p : leaf_of N' p = leaf_of N p → entries_at N' p = entries_at N p.
Proof using Type. unfold leaf_of. intros H. apply entries_at_ext. destruct (N' !! p), (N !! p); simplify_eq/=; congruence. Qed.
Lemma leaf_of_next N N' p : leaf_of N' p = leaf_of N p → next_of N' p = next_of N p.
Proof using Type. unfold leaf_of, next_of. intros H. destruct (N' !! p), (N !! p); simplify_eq/=; congruence. Qed.
Lemma leaf_of_prev N N' p : leaf_of N' p = leaf_of N p → prev_of N' p = prev_of N p.
Proof using Type. unfold leaf_of, prev_of. intros H. destruct (N' !! p), (N !! p); simplify_eq/=; congruence. Qed.
Lemma leaf_of_ok N N' it : leaf_of N' it.2 = leaf_of N it.2 → leaf_ok order N it → leaf_ok order N' it.
Proof using Type.
  unfold leaf_of. intros H (n & Hn & Hl & Hnum). rewrite Hn in H. destruct (N' !! it.2) as [n'|] eqn:Hn'; simplify_eq/=.
  exists n'. split_and!; [done|congruence|lia|lia].
Qed.

Lemma leaves_ext N N' L first lst es :
  (∀ p, p ∈ pages L → leaf_of N' p = leaf_of N p) → leaves N L first lst es → leaves N' L first lst es.
Proof using Type.
  intros Hext Hv. destruct Hv. split; try done.
  - apply Forall_forall. intros it Hit. eapply Forall_forall in lv_leaves0; [|exact Hit].
    by apply (leaf_of_ok N); [apply Hext, pages_elem|].
  - rewrite <-lv_entries0. apply entries_ext. intros p Hp. by apply leaf_of_entries, Hext.
  - apply (fenced_ext cols N); [|done]. intros p Hp. by apply leaf_of_entries, Hext.
  - destruct (pages L) as [|x l]; [done|]. cbn [ring] in *. apply (leaf_chain_ext N); [| |done]; intros y Hy.
    + by apply leaf_of_next, Hext.
    + apply leaf_of_prev, Hext. set_solver.
Qed.

End leaf.

Section change.
Context (cols : list ColMeta) (order : Z).
Abbreviation klt := (klt cols).
Abbreviation plain := (plain_key cols).
Abbreviation leaves := (leaves cols).
Implicit Types (o : option bytes) (it : item) (k : bytes) (N : gmap Z inode) (L : list item) (up : list (list item)).

(** ** A new entry *)

Lemma level_at N A o p B n :
  NoDup (pages (A ++ (o, p) :: B)) → N !! p = Some n →
  ∀ n', (∀ x, x ∈ pages (A ++ B) → entries_at (<[p := n']> N) x = entries_at N x) ∧
  entries (<[p := n']> N) (A ++ (o, p) :: B) = entries N A ++ live n' ++ entries N B.
Proof using Type.
  intros Hnd Hn n'. assert (∀ x, x ∈ pages (A ++ B) → entries_at (<[p := n']> N) x = entries_at N x) as Hx.
  { intros x Hx. unfold entries_at. rewrite lookup_insert_ne; [done|]. intros ->.
    rewrite pages_app in Hnd, Hx. apply NoDup_app in Hnd as (_ & Hd & Hnd). cbn in Hd, Hnd. apply NoDup_cons in Hnd as [Hnd _].
    apply elem_of_app in Hx as [Hx|Hx]; [|done]. apply (Hd _ Hx). by left. }
  split; [done|]. rewrite entries_app. rewrite (entries_ext N _ A) by (intros x Ha; apply Hx; rewrite pages_app; set_solver).
  f_equal. unfold entries at 1. cbn. unfold entries_at at 1. rewrite lookup_insert_eq. f_equal.
  fold (pages B). apply entries_ext. intros x Hb. apply Hx. rewrite pages_app. set_solver.
Qed.

Lemma leaves_insert N L first lst es A o p B k v n A' B' n' :
  facts cols order N → leaves order N L first lst es → los_ok cols L → NoDup (pages L) → plain k →
  covers cols L k A (o, p) B → N !! p = Some n → live n = A' ++ B' →
  (∀ e, e ∈ A' → klt e.1 k) → (∀ e, e ∈ B' → klt k e.1) → live n' = A' ++ (k, v) :: B' →
  nd_leaf n' = nd_leaf n → nd_next n' = nd_next n → nd_prev n' = nd_prev n → nd_num n' = nd_num n + 1 →
  k ∉ es.*1 ∧ leaves (order + 1) (<[p := n']> N) L first lst (index_insert cols k v es).
Proof using Type.
  intros Hf Hv Hlos Hnd Hk Hcov Hn Hl HA' HB' Hl' Hleaf Hnext Hprev Hnum. destruct Hv.
  destruct (covers_entries cols N L k A (o, p) B Hcov Hlos lv_fenced0 Hk) as (Hes & HA & HB);
    [intros e; by apply (entries_plain cols order)|].
  assert (entries_at N p = A' ++ B') as Hat by (unfold entries_at; by rewrite Hn).
  cbn [snd] in Hes. rewrite Hat in Hes. destruct Hcov as (HL & Hle & Hgt). simpl in Hle. subst L.
  destruct (level_at N A o p B n Hnd Hn n') as [Hext HesN].
  assert (index_insert cols k v es = entries N A ++ (A' ++ (k, v) :: B') ++ entries N B) as Hins.
  { rewrite <-lv_entries0, Hes, <-(assoc_L (++) A'), (assoc_L (++) (entries N A)).
    rewrite index_insert_at; [by rewrite <-!(assoc_L (++))|..]; intros e [He|He]%elem_of_app; auto. }
  split.
  { rewrite <-lv_entries0, Hes. intros (e & -> & He)%list_elem_of_fmap.
    apply elem_of_app in He as [He|[[He|He]%elem_of_app|He]%elem_of_app]; apply (klt_irrefl cols e.1); auto. }
  split.
  - apply Forall_forall. intros it Hit. eapply Forall_forall in lv_leaves0 as (m & Hm & Hml & Hmn); [|exact Hit].
    unfold leaf_ok. destruct (decide (it.2 = p)) as [Heq|Hne].
    + rewrite Heq in Hm |- *. rewrite lookup_insert_eq. exists n'. split; [done|]. assert (m = n) as -> by congruence.
      split; [congruence|]. rewrite Hnum. lia.
    + rewrite lookup_insert_ne by done. exists m. split_and!; [done|done|lia|lia].
  - etrans; [exact HesN|]. by rewrite Hl', Hins.
  - apply index_insert_sorted. done.
  - apply fenced_app in lv_fenced0 as (FA & FB & FAB). apply fenced_cons in FB as [Fp FB].
    apply fenced_app. split_and!.
    + apply (fenced_ext cols N); [|done]. intros x Hx. apply Hext. rewrite pages_app. set_solver.
    + apply fenced_cons. split.
      * intros e He. unfold entries_at in He. cbn [snd] in He. rewrite lookup_insert_eq, Hl' in He.
        cbn [snd] in Fp. rewrite Hat in Fp.
        apply elem_of_app in He as [He|[->|He]%elem_of_cons]; [apply Fp; set_solver| |apply Fp; set_solver].
        split; [done|]. exact Hgt.
      * apply (fenced_ext cols N); [|done]. intros x Hx. apply Hext. rewrite pages_app. set_solver.
    + intros a e b Ha He. apply (FAB a e b); [done|]. rewrite <-Hext; [done|]. apply pages_elem. set_solver.
  - assert (∀ x, next_of (<[p := n']> N) x = next_of N x ∧ prev_of (<[p := n']> N) x = prev_of N x) as Hlink.
    { intros x. unfold next_of, prev_of. destruct (decide (x = p)) as [->|]; [|by rewrite lookup_insert_ne].
      rewrite lookup_insert_eq, Hn. simpl. by rewrite Hnext, Hprev. }
    destruct (pages _) as [|x l]; [done|]. cbn [ring] in *. by apply (leaf_chain_ext N); [intros y _; apply Hlink|intros y _; apply Hlink|].
  - done.
  - done.
Qed.

(** The bound on the sizes is the order again when the leaf has room. *)
Lemma leaves_bound N L first lst es :
  (∀ x n, x ∈ pages L → N !! x = Some n → nd_num n ≤ order) → leaves (order + 1) N L first lst es → leaves order N L first lst es.
Proof using Type.
  intros Hb Hv. destruct Hv. split; try done. apply Forall_forall. intros it Hit.
  eapply Forall_forall in lv_leaves0 as (m & Hm & Hml & Hmn); [|exact Hit]. exists m. split_and!; [done|done|lia|].
  eapply Hb; [by apply pages_elem|done].
Qed.

(** ** A leaf is split *)

Context (tot : Z) (Hlay : layout_ok cols tot order).

Lemma leaves_split N N2 L first lst es A o p B q n n2 k2 r2 l2 :
  leaves (order + 1) N L first lst es → L = A ++ (o, p) :: B → NoDup (pages L) → q ∉ pages L →
  (∀ x m, x ∈ pages (A ++ B) → N !! x = Some m → nd_num m ≤ order) →
  N !! p = Some n → nd_num n = order + 1 → length (live n) = Z.to_nat (nd_num n) →
  leaf_split N N2 p q n → N2 !! q = Some n2 → live n2 = (k2, r2) :: l2 →
  leaves order N2 (A ++ (o, p) :: (Some k2, q) :: B) first (if p =? lst then q else lst) es.
Proof using Hlay.
  intros Hv -> Hnd Hq Hbound Hn Hnum Hlen (n1 & n2' & Hp2 & Hq2 & Hhv & Hnx1 & Hpv1 & Hnx2 & Hpv2 & Hrest) Hn2 Hl2.
  rewrite Hq2 in Hn2. injection Hn2 as ->. destruct Hv. pose proof (la_order _ _ _ Hlay) as Hord.
  pose proof (Z.div_mod (order + 1) 2 ltac:(lia)). pose proof (Z.mod_pos_bound (order + 1) 2 ltac:(lia)).
  assert (p ≠ q) as Hpq.
  { intros ->. apply Hq. rewrite pages_app. apply elem_of_app. right. by left. }
  assert (∀ x, x ∈ pages (A ++ B) → x ≠ p ∧ x ≠ q) as Hne.
  { intros x Hx. rewrite pages_app in Hx. rewrite pages_app in Hnd, Hq. apply NoDup_app in Hnd as (_ & Hd & Hnd).
    cbn in Hd, Hnd, Hq. apply NoDup_cons in Hnd as [Hnd _]. split; intros ->.
    - apply elem_of_app in Hx as [Hx|Hx]; [|done]. apply (Hd _ Hx). by left.
    - apply Hq. apply elem_of_app. apply elem_of_app in Hx as [?|?]; [by left|right; by right]. }
  assert (∀ x, x ≠ p → x ≠ q → nd_leaf <$> N2 !! x = nd_leaf <$> N !! x ∧ nd_num <$> N2 !! x = nd_num <$> N !! x ∧
    live <$> N2 !! x = live <$> N !! x ∧ next_of N2 x = next_of N x ∧ (x ≠ nd_next n → prev_of N2 x = prev_of N x)) as Hsame.
  { intros x Hxp Hxq. unfold next_of, prev_of. rewrite (Hrest x Hxp Hxq). destruct (decide (x = nd_next n)); [|by repeat split].
    by destruct (N !! x) as [m|]; repeat split. }
  assert (∀ x, x ∈ pages (A ++ B) → entries_at N2 x = entries_at N x) as Hext.
  { intros x Hx. destruct (Hne x Hx) as [Hxp Hxq]. destruct (Hsame x Hxp Hxq) as (_ & _ & Hlv & _).
    by apply entries_at_ext. }
  assert (entries_at N p = entries_at N2 p ++ entries_at N2 q) as Hat.
  { unfold entries_at. rewrite Hn, Hp2, Hq2, (hv_live1 _ _ _ Hhv), (hv_live2 _ _ _ Hhv). by rewrite take_drop. }
  assert ((∀ e, e ∈ entries N A → klt e.1 k2) ∧ (∀ e, e ∈ entries_at N2 p → klt e.1 k2) ∧ (∀ e, e ∈ l2 → klt k2 e.1))
    as (HkA & Hk12 & Hk22).
  { rewrite <-lv_entries0, entries_app in lv_sorted0. unfold entries at 2 in lv_sorted0.
    cbn [pages fmap list_fmap snd concat] in lv_sorted0. rewrite Hat in lv_sorted0.
    assert (entries_at N2 q = (k2, r2) :: l2) as Eq by (unfold entries_at; by rewrite Hq2). rewrite Eq in lv_sorted0.
    unfold sorted in lv_sorted0. rewrite !fmap_app, fmap_cons in lv_sorted0.
    apply sorted_keys_app in lv_sorted0 as (_ & S2 & SA). apply sorted_keys_app in S2 as (S2 & _ & _).
    apply sorted_keys_app in S2 as (_ & S2 & S1). apply sorted_keys_cons in S2 as [_ S2].
    split_and!; intros e He.
    - apply (SA e.1 k2); [by apply list_elem_of_fmap_2|]. apply elem_of_app. left. apply elem_of_app. right. by left.
    - apply (S1 e.1 k2); [by apply list_elem_of_fmap_2|]. by left.
    - apply (S2 e.1). by apply list_elem_of_fmap_2. }
  split.
  - rewrite Forall_app, !Forall_cons. rewrite Forall_app, Forall_cons in lv_leaves0. destruct lv_leaves0 as (LA & Lp & LB).
    destruct Lp as (n0 & Hn0 & Hleaf & _). cbn [snd] in Hn0. assert (n0 = n) as -> by congruence.
    assert (∀ it, it.2 ∈ pages (A ++ B) → leaf_ok (order + 1) N it → leaf_ok order N2 it) as Hok.
    { intros it Hit (m & Hm & Hml & Hmn). destruct (Hne _ Hit) as [Hxp Hxq].
      destruct (Hsame _ Hxp Hxq) as (E1 & E2 & _). rewrite Hm in E1, E2. destruct (N2 !! it.2) as [m'|] eqn:Hm'; [|done].
      specialize (Hbound _ _ Hit Hm). simplify_eq/=. exists m'. split_and!; [done|congruence|lia|lia]. }
    split_and!.
    + apply Forall_forall. intros it Hit. apply Hok; [apply pages_elem; set_solver|]. by eapply Forall_forall in LA.
    + exists n1. split; [done|]. rewrite (hv_leaf1 _ _ _ Hhv), (hv_num1 _ _ _ Hhv), Hnum. split; [done|]. lia.
    + exists n2. split; [done|]. rewrite (hv_leaf2 _ _ _ Hhv), (hv_num2 _ _ _ Hhv), Hnum. split; [done|]. lia.
    + apply Forall_forall. intros it Hit. apply Hok; [apply pages_elem; set_solver|]. by eapply Forall_forall in LB.
  - rewrite <-lv_entries0. rewrite !entries_app. f_equal.
    + apply entries_ext. intros x Hx. apply Hext. rewrite pages_app. set_solver.
    + unfold entries. cbn [pages fmap list_fmap snd concat]. rewrite Hat, <-(assoc_L (++)). f_equal. f_equal.
      apply entries_ext. intros x Hx. apply Hext. rewrite pages_app. set_solver.
  - done.
  - apply fenced_app in lv_fenced0 as (FA & FB & FAB). apply fenced_cons in FB as [Fp FB]. cbn [snd] in Fp. rewrite Hat in Fp.
    apply fenced_app. split_and!.
    + apply (fenced_ext cols N); [|done]. intros x Hx. apply Hext. rewrite pages_app. set_solver.
    + apply fenced_cons. split; [|apply fenced_cons; split].
      * intros e He. cbn [snd] in He. destruct (Fp e) as [Hle Hgt]; [set_solver|]. split; [done|].
        intros b [->|Hb]%elem_of_cons; [by apply Hk12|by apply Hgt].
      * intros e He. cbn [snd] in He. destruct (Fp e) as [_ Hgt]; [set_solver|]. split; [|done].
        unfold entries_at in He. rewrite Hq2, Hl2 in He. apply elem_of_cons in He as [->|He]; [by apply klt_irrefl|].
        by apply klt_asym, Hk22.
      * apply (fenced_ext cols N); [|done]. intros x Hx. apply Hext. rewrite pages_app. set_solver.
    + intros a e b Ha He. assert (e ∈ entries_at N a.2) as He' by (rewrite <-Hext; [done|apply pages_elem; set_solver]).
      intros [->|[->|Hb]%elem_of_cons]%elem_of_cons; 
        [apply (FAB a e (o, p)); [done|done|by left]| |apply (FAB a e b); [done|done|by right]].
      apply HkA. apply elem_of_entries. eauto.
  - unfold pages in *. rewrite fmap_app in *. cbn [fmap list_fmap snd] in *.
    destruct (ring_next N _ p lv_ring0) as (s & Hs & Hns & Hps); [set_solver|].
    assert (s = nd_next n) as -> by (unfold next_of in Hns; rewrite Hn in Hns; simpl in Hns; congruence).
    assert (nd_next n ≠ q) as Hsq by (intros Heq; by rewrite Heq in Hs).
    apply (ring_add N N2 _ p q _ lv_ring0 Hnd Hq (nd_next n) Hns); unfold next_of, prev_of in *.
    + rewrite Hp2. simpl. by rewrite Hnx1.
    + rewrite Hq2. simpl. by rewrite Hpv2.
    + rewrite Hq2. simpl. by rewrite Hnx2.
    + destruct (decide (nd_next n = p)) as [Heq|Hsp].
      * rewrite Heq, Hp2. simpl. by rewrite Hpv1.
      * rewrite Hrest by done. rewrite decide_True by done. by destruct (N !! nd_next n).
    + intros x Hxp Hxq. by apply Hsame.
    + intros x Hxq Hxs. destruct (decide (x = p)) as [->|Hxp]; [|by apply Hsame].
      rewrite Hp2, Hn. simpl. rewrite Hpv1. by rewrite decide_False by congruence.
  - by destruct A.
  - unfold pages in *. rewrite fmap_app in *. cbn [fmap list_fmap snd] in *. rewrite last_app, !last_cons in *.
    destruct (last B.*2) as [b|] eqn:EB.
    + apply last_Some_elem_of in EB. injection lv_last0 as ->.
      destruct (Z.eqb_spec p lst) as [->|]; [|done]. exfalso.
      apply NoDup_app in Hnd as (_ & _ & Hnd). by apply NoDup_cons in Hnd as [? _].
    + injection lv_last0 as ->. by rewrite Z.eqb_refl.
Qed.

(** The levels above do not know of the new leaf yet. *)
Lemma lo_le_lt_trans o k k' :
  lo_plain cols o → plain k → plain k' → lo_le cols o k → klt k k' → lo_lt cols o (Some k').
Proof using Type.
  destruct o as [l|]; simpl; [|done]. intros Hl Hk Hk' Hle Hlt.
  destruct (klt_total cols l k) as [?|[->|?]]; [done..|by eapply klt_trans|done|done].
Qed.

Lemma split_pending N N2 L up root first lst es A o p B q n n2 k2 r2 l2 :
  facts cols order N → leaves (order + 1) N L first lst es → stacked order N L up root → los_ok cols L →
  NoDup (pages (concat (L :: up))) → q ∉ pages (concat (L :: up)) → L = A ++ (o, p) :: B →
  N !! p = Some n → nd_num n = order + 1 → length (live n) = Z.to_nat (nd_num n) →
  leaf_split N N2 p q n → N2 !! q = Some n2 → live n2 = (k2, r2) :: l2 →
  pending cols order N2 L up root A o p B k2 q n2.
Proof using Hlay.
  intros Hf Hv Hst Hlos Hnd Hq HL Hn Hnum Hlen (n1 & n2' & Hp2 & Hq2 & Hhv & _ & _ & _ & _ & Hrest) Hn2 Hl2.
  rewrite Hq2 in Hn2. injection Hn2 as ->. destruct Hv. pose proof (la_order _ _ _ Hlay) as Hord.
  pose proof (Z.div_mod (order + 1) 2 ltac:(lia)). pose proof (Z.mod_pos_bound (order + 1) 2 ltac:(lia)).
  assert ((o, p) ∈ L) as HpL by (rewrite HL; apply elem_of_app; right; by left).
  assert (p ∈ pages L) as HpP by by apply (list_elem_of_fmap_2 snd _ (o, p)).
  assert (∀ x, x ≠ q → parent_of N2 x = parent_of N x) as Hpar.
  { intros x Hxq. unfold parent_of. destruct (decide (x = p)) as [->|Hxp].
    - rewrite Hp2, Hn. simpl. by rewrite (hv_parent1 _ _ _ Hhv).
    - rewrite Hrest by done. case_decide; [|done]. by destruct (N !! x). }
  assert (entries_at N p = live n1 ++ (k2, r2) :: l2) as Hat.
  { unfold entries_at. rewrite Hn, <-Hl2, (hv_live1 _ _ _ Hhv), (hv_live2 _ _ _ Hhv). by rewrite take_drop. }
  assert (∀ e, e ∈ live n1 ++ (k2, r2) :: l2 → plain e.1) as Hpl.
  { intros e He. apply (entries_plain cols order N L e Hf). apply elem_of_entries. exists (o, p). cbn [snd]. by rewrite Hat. }
  assert (plain k2) as Hk2 by (apply (Hpl (k2, r2)); set_solver).
  assert (∀ e, e ∈ live n1 ++ (k2, r2) :: l2 → lo_le cols o e.1 ∧ ∀ b, b ∈ B → lo_gt cols b.1 e.1) as Hfen.
  { rewrite <-Hat. rewrite HL in lv_fenced0. apply fenced_app in lv_fenced0 as (_ & Fp & _). by apply fenced_cons in Fp as [Fp _]. }
  split; try done.
  - apply (stacked_ext order N); [| |done]; intros x Hx.
    + cbn [concat] in Hnd, Hq. rewrite pages_app in Hnd, Hq. apply NoDup_app in Hnd as (_ & Hd & _).
      assert (x ≠ p) as Hxp by (intros ->; by apply (Hd p)).
      assert (x ≠ q) as Hxq by (intros ->; apply Hq, elem_of_app; by right).
      unfold body_of. rewrite Hrest by done. case_decide; [|done]. by destruct (N !! x).
    + apply Hpar. by intros ->.
  - destruct (live n1) as [|e1 l1] eqn:El1.
    { exfalso. rewrite (hv_live1 _ _ _ Hhv) in El1. apply (f_equal length) in El1. rewrite length_take, Hlen, Hnum in El1.
      simpl in El1. lia. }
    destruct (Hfen e1) as [Hle _]; [by left|]. apply (lo_le_lt_trans o e1.1 k2); [|apply Hpl; by left|done|done|].
    + destruct Hlos as [_ Hlos]. eapply Forall_forall; [exact Hlos|]. by apply (list_elem_of_fmap_2 fst _ (o, p)).
    + rewrite <-lv_entries0, HL, entries_app in lv_sorted0. unfold entries at 2 in lv_sorted0.
      cbn [pages fmap list_fmap snd concat] in lv_sorted0. rewrite Hat in lv_sorted0. unfold sorted in lv_sorted0.
      rewrite !fmap_app, fmap_cons in lv_sorted0. apply sorted_keys_app in lv_sorted0 as (_ & S2 & _).
      apply sorted_keys_app in S2 as (S2 & _ & _). apply sorted_keys_cons in S2 as [_ S2]. apply S2. set_solver.
  - intros b Hb. destruct (Hfen (k2, r2)) as [_ Hb']; [set_solver|]. by apply Hb'.
  - intros x Hx. destruct (decide (x = p)) as [->|Hxp]; [by eexists|].
    assert (x ≠ q) as Hxq by (intros ->; apply Hq; cbn [concat]; rewrite pages_app; apply elem_of_app; by left).
    rewrite Hrest by done. apply list_elem_of_fmap in Hx as (it & -> & Hit).
    eapply Forall_forall in lv_leaves0 as (m & -> & _); [|exact Hit]. case_decide; by eexists.
  - unfold parent_of. rewrite Hp2. simpl. by rewrite (hv_parent1 _ _ _ Hhv), (hv_parent2 _ _ _ Hhv).
Qed.

(** What the way up keeps of the leaves. *)
Lemma grown_tree up L h N2 nx h' N' up' nx' first lst es :
  grown order h N2 nx up L h' N' up' nx' → leaves order N2 L first lst es → los_ok cols L →
  (∀ x, x ∈ pages L → x ∉ pages (concat up)) → tree_at cols order N' L up' (root_page_ h') first lst es.
Proof using Type.
  intros Hg Hv Hlos Hdis. apply leaves_tree; [apply Hg|done| |apply Hg]. apply (leaves_ext cols order N2); [|done].
  intros x Hx. apply list_elem_of_fmap in Hx as (it & -> & Hit). pose proof (lv_leaves _ _ _ _ _ _ _ Hv) as Hl.
  eapply Forall_forall in Hl as (m & Hm & _); [|exact Hit].
  destruct (gr_moved _ _ _ _ _ _ _ _ _ _ Hg it.2 m Hm) as (pr & Hm' & _); [by apply Hdis, pages_elem|].
  unfold leaf_of. rewrite Hm, Hm'. by destruct m.
Qed.

Lemma stacked_root N L up root : stacked order N L up root → is_Some (N !! root).
Proof using Type.
  revert L. induction up as [|L1 up IH]; intros L [H1 H2]; [|by eapply IH].
  unfold parent_of in H2. destruct (N !! root); [by eexists|done].
Qed.

End change.
