(* ===== verification/IxInsert.v ===== *)
(** * Insertion into the tree

    The way up to the root after a split, and [insert_entry], which adds the entry to the
    sorted list the tree holds. *)
From S2P Require Import Prelude Bytes Disk Log Replacer BufferPool Record PoolRun Meta Keys IxNode IxOrder.
From S2P Require Import IxPage IxNodeSpec Index IxPool IxTree IxSearch IxGrow IxSplit IxLeaf.
Import IxNodeHandle IxIndexHandle.

Lemma elem_of_middle {A} (X CA CB Y : list A) a b x : x ∈ CA ++ a :: b :: CB → x ∈ (X ++ CA) ++ a :: b :: (CB ++ Y).
Proof. rewrite !elem_of_app, !elem_of_cons, elem_of_app. tauto. Qed.

Section insert.
Context {R : Type} `{!Replacer R, !ReplacerLaws R}.
Context (fd : Z) (Hfd : 0 ≤ fd < MAX_FD).
Context (cols : list ColMeta) (tot order : Z) (Hlay : layout_ok cols tot order).
Context (s0 : Storage R) (Hs0 : pool_inv s0).
Abbreviation St := (IxFileHdr * Storage R)%type.
Context (E : exn → St → Prop) (HE : ∀ e t, io_error e = true → E e t).
Abbreviation holds := (holds fd cols tot order s0).
Abbreviation table s := (page_table_ (s_bpm s)).
Abbreviation grown := (grown order).
Abbreviation level_with A o p B k q := (A ++ (o, p) :: (Some k, q) :: B).
Abbreviation blank := (blank tot order).
Abbreviation zero_key := (zero_key tot).
Implicit Types (h : IxFileHdr) (N : gmap Z inode) (H : list (Z * Z)) (nx p f : Z) (t : St) (k : bytes).

Abbreviation page_i32 := (page_i32 fd cols tot order s0).
Abbreviation wp_new_root := (wp_new_root fd Hfd cols tot order Hlay s0 Hs0 E HE).
Abbreviation wp_split_inner := (wp_split_inner fd Hfd cols tot order Hlay s0 Hs0 E HE).
Abbreviation wp_split_leaf := (wp_split_leaf fd Hfd cols tot order Hlay s0 Hs0 E HE).
Abbreviation wp_parent_insert := (wp_parent_insert fd cols tot order Hlay s0 Hs0 E).

(** ** The way up *)

Abbreviation pending := (pending cols order).

Lemma grown_hdr h h1 N nx up L' h' N' up' nx' :
  first_leaf_ h1 = first_leaf_ h → last_leaf_ h1 = last_leaf_ h →
  grown h1 N nx up L' h' N' up' nx' → grown h N nx up L' h' N' up' nx'.
Proof using Type. intros H1 H2 Hg. destruct Hg. split; congruence || done. Qed.

Lemma insert_into_parent_spec : ∀ up fuel L A o p B k q h N H0 nx t f g nq (Q : unit → St → Prop),
  (length up < fuel)%nat → holds h N ((p, f) :: (q, g) :: H0) nx t → pending N L up (root_page_ h) A o p B k q nq →
  nx + len up < MAX_PAGES → room s0 (length H0 + 4) →
  (Some zero_key ∈ (level_with A o p B k q).*1 → ∀ t', E IndexEntryExistsError t') →
  (∀ h' N' up' nx' t', holds h' N' H0 nx' t' → grown h N nx up (level_with A o p B k q) h' N' up' nx' →
     nx' ≤ nx + len up + 1 → Q tt t') →
  wp (insert_into_parent fd fuel f k g) Q E t.
Proof using HE Hs0 Hlay Hfd.
  induction up as [|L1 up IH]; intros fuel L A o p B k q h N H0 nx t f g nq Q Hfuel Hd Hpe Hnx Hroom Hz HQ;
    (destruct fuel as [|fuel]; [lia|]).
  - destruct (pe_stack _ _ _ _ _ _ _ _ _ _ _ _ _ Hpe) as [HL Hroot]. rewrite (pe_split _ _ _ _ _ _ _ _ _ _ _ _ _ Hpe) in HL.
    destruct A as [|a A]; [|by destruct A]. injection HL as -> Hp ->.
    assert (p ≠ q) as Hpq.
    { intros ->. apply (pe_new _ _ _ _ _ _ _ _ _ _ _ _ _ Hpe). rewrite (pe_split _ _ _ _ _ _ _ _ _ _ _ _ _ Hpe). by left. }
    unfold parent_of in Hroot. rewrite <-Hp in Hroot. destruct (N !! p) as [np|] eqn:Hnp; [|done]. injection Hroot as Hpar.
    eapply wp_new_root; [exact Hd|done|exact Hnp|apply Hpe|done|done|apply Hpe|simpl in Hnx; lia|unfold room in *; lia| |].
    { intros ->. apply Hz. simpl. set_solver. }
    intros h' N' up' nx' t' Hd' Hg Hle. eapply HQ; [exact Hd'|exact Hg|simpl; lia].
  - destruct (pe_stack _ _ _ _ _ _ _ _ _ _ _ _ _ Hpe) as [Hlink Hst].
    pose proof (holds_facts _ _ _ _ _ _ _ _ _ _ Hd) as Hfacts.
    destruct (parent_item order N L L1 A o p B Hlink) as (A1 & [o1 P] & B1 & CA & CB & HL1 & HA & HB & Hkids & Hin & HPp);
      [apply Hpe|]. simpl in HPp.
    destruct Hin as (n & Hn & Hleaf & Hnum & Hch). simpl in Hn, Hch.
    assert (is_Some (N !! p)) as [np Hnp] by (unfold parent_of in HPp; destruct (N !! p); [by eexists|done]).
    assert (nd_parent np = P) as Hpar by (unfold parent_of in HPp; rewrite Hnp in HPp; by injection HPp).
    pose proof (pe_q _ _ _ _ _ _ _ _ _ _ _ _ _ Hpe) as Hnq.
    pose proof (page_i32 _ _ _ _ _ _ _ Hd Hnq) as Iq.
    assert (∀ x m, N !! x = Some m → x < nx) as Hold.
    { intros x m Hm. destruct (hd_node _ _ _ _ _ _ _ _ _ _ Hd x m Hm) as [? _]. lia. }
    assert (0 ≤ P < nx) as HPx by (destruct (hd_node _ _ _ _ _ _ _ _ _ _ Hd P n Hn) as [? _]; lia).
    pose proof (pe_hi _ _ _ _ _ _ _ _ _ _ _ _ _ Hpe) as Hhi.
    assert (los_ok cols (kids N (o1, P))) as Hlosk.
    { pose proof (pe_los _ _ _ _ _ _ _ _ _ _ _ _ _ Hpe) as Hlos. destruct Hlink as [-> _].
      eapply los_ok_kids; [exact Hlos|]. rewrite HL1. set_solver. }
    pose proof Hkids as Hkc. unfold kids in Hkc, Hlosk. simpl in Hkc, Hlosk. rewrite Hn in Hkc, Hlosk.
    set (H := (p, f) :: (q, g) :: H0) in *.
    assert ((p, f) ∈ H ∧ (q, g) ∈ H) as [Hpin Hqin] by (unfold H; set_solver).
    cbn [insert_into_parent].
    apply wp_bind. eapply wp_read_held; [exact Hpin|exact Hd|exact Hnp| |].
    { intros ?. unfold is_root_page, get_parent_page_no, field. repeat (within_steps; try apply within_reads). }
    apply nw_is_root. rewrite Hpar. destruct (Z.eqb_spec P (-1)) as [?|_]; [lia|].
    apply wp_bind. eapply wp_no; [exact Hpin|exact Hd|]. apply wp_bind. eapply wp_no; [exact Hqin|exact Hd|].
    apply wp_bind. eapply wp_parent; [exact Hpin|exact Hd|exact Hnp|]. rewrite Hpar.
    apply wp_bind. eapply wp_fetch; [done|done|exact Hd|exact Hn|unfold room in *; simpl; lia|]. clear t Hd. intros fP t Hd _.
    set (H1 := (P, fP) :: H) in *. assert ((P, fP) ∈ H1) as HPin by by left.
    apply wp_bind. eapply wp_parent_insert; [exact HPin|exact Hd|exact Hn|done|done|exact Hkc|exact Hlosk
      |apply Hpe|done|apply Hpe| |].
    { intros b Hb. apply Hhi. rewrite HB. apply elem_of_app. by left. }
    clear t Hd. intros n' t Hd Hleaf' Hpar' Hnum' Hc'.
    apply wp_bind. eapply wp_size; [exact HPin|exact Hd|by rewrite lookup_insert_eq|].
    apply wp_bind. eapply wp_hdr; [exact Hd|]. rewrite (fi_order _ _ _ _ (hd_fits _ _ _ _ _ _ _ _ _ _ Hd)), Z.gtb_ltb.
    destruct (Z.ltb_spec order (nd_num n')) as [Hbig|Hsmall].
    2: { (* no split *)
      apply wp_bind. eapply wp_unpin_dirty; [done|done|exact Hd|symmetry; apply (Permutation_middle [_])|]. clear t Hd. intros t Hd.
      cbn [app] in Hd.
      apply wp_bind. eapply wp_unpin_dirty; [done|done|exact Hd|symmetry; apply (Permutation_middle [_])|]. clear t Hd. intros t Hd.
      cbn [app] in Hd. eapply wp_unpin_dirty; [done|done|exact Hd|done|]. clear t Hd. intros t Hd.
      eapply HQ; [exact Hd| |simpl; lia].
      eapply grown_here; try done; lia. }
    (* the parent is split *)
    assert (nd_num n' = order + 1) as Hnum1 by lia.
    pose proof (holds_facts _ _ _ _ _ _ _ _ _ _ Hd P n' ltac:(by rewrite lookup_insert_eq)) as Hf'.
    assert (page_no <$> lrids n' = pages (CA ++ (o, p) :: (Some k, q) :: CB)) as Hrids.
    { rewrite <-Hc'. unfold pages. rewrite children_pages, (live_rids cols tot order Hlay n' Hf') by lia. done. }
    assert (∀ x, x ∈ pages (CA ++ (o, p) :: (Some k, q) :: CB) → x ≠ P ∧ is_Some (N !! x)) as Hcin.
    { intros x (c & -> & Hx)%list_elem_of_fmap. destruct (pending_in _ _ _ _ _ _ _ _ _ _ _ _ _ c.2 Hpe) as [? Hnot].
      - rewrite HA, HB. apply pages_elem. by apply elem_of_middle.
      - split; [|done]. intros Hc. apply Hnot. rewrite Hc. cbn [concat]. rewrite HL1.
        apply elem_of_pages. exists o1. apply elem_of_app. left. apply elem_of_app. right. by left. }
    assert (∀ m r, r ∈ drop m (lrids n') → page_no r ∈ pages (CA ++ (o, p) :: (Some k, q) :: CB)) as Hdrop.
    { intros m r Hr. rewrite <-Hrids. apply list_elem_of_fmap_2. rewrite <-(take_drop m (lrids n')). apply elem_of_app. by right. }
    apply wp_bind. eapply wp_split_inner; [exact HPin|exact Hd|by rewrite lookup_insert_eq|done|lia| |simpl in Hnx; lia|unfold room in *; simpl; lia|].
    { intros r Hr. destruct (Hcin (page_no r)) as [HrP Hrs]; [by eapply Hdrop|].
      split; [done|]. by rewrite lookup_insert_ne. }
    clear t Hd. intros g2 N2 t (n1 & n2 & HP2 & Hr2 & Hhv & Hrest) Hd.
    set (m := Z.to_nat (nd_num n' / 2)) in *.
    pose proof (la_order _ _ _ Hlay) as Hord.
    pose proof (Z.div_mod (order + 1) 2 ltac:(lia)). pose proof (Z.mod_pos_bound (order + 1) 2 ltac:(lia)).
    assert (length (live n2) = Z.to_nat (nd_num n2)) as Ln2.
    { rewrite (hv_live2 _ _ _ Hhv), length_drop, (live_length cols tot order Hlay n' Hf'), (hv_num2 _ _ _ Hhv) by lia. unfold m. rewrite Hnum1. lia. }
    rewrite (hv_num2 _ _ _ Hhv), Hnum1 in Ln2.
    destruct (live n2) as [|[k2 rid2] l2] eqn:El2; [simpl in Ln2; lia|].
    assert (split_up cols order N L L1 up (root_page_ h) A o p B k q nq A1 o1 P B1 CA CB n n' n1 n2 k2 nx N2) as Hsu.
    { split; try done.
      - rewrite (live_length cols tot order Hlay n' Hf') by lia. done.
      - rewrite El2. eauto.
      - destruct (N !! nx) as [m'|] eqn:Em; [|done]. specialize (Hold _ _ Em). lia.
      - intros x HxP Hxr. rewrite Hrest by done. rewrite lookup_insert_ne by done.
        assert (page_no <$> drop m (lrids n') = pages (drop m (CA ++ (o, p) :: (Some k, q) :: CB))) as ->; [|done].
        rewrite fmap_drop, Hrids. unfold pages. by rewrite fmap_drop. }
    destruct (live_slot n2 0 k2 rid2) as [Hk2 _]; [rewrite (hv_num2 _ _ _ Hhv), Hnum1; lia|by rewrite El2|].
    apply wp_bind. eapply wp_read_held; [by left|exact Hd|exact Hr2| |].
    { intros ?. apply within_reads. }
    eapply (nw_key cols tot order Hlay _ (hd_fits _ _ _ _ _ _ _ _ _ _ Hd)); [lia|exact Hk2|].
    apply wp_bind. eapply wp_unpin_dirty; [done|done|exact Hd|symmetry; apply (Permutation_middle [_; _])|]. clear t Hd. intros t Hd.
    cbn [app] in Hd.
    apply wp_bind. eapply wp_unpin_dirty; [done|done|exact Hd|symmetry; apply (Permutation_middle [_; _])|]. clear t Hd. intros t Hd.
    cbn [app] in Hd.
    eapply (IH fuel L1 A1 o1 P B1 k2 nx (add_pages 1 h) N2 H0 (nx + 1) t fP g2 n2);
      [simpl in Hfuel; lia|eapply holds_perm; [apply perm_swap|exact Hd]
      |by eapply su_pending_up|simpl in Hnx; lia|done| |].
    { intros Hzk. apply Hz. by eapply su_los. }
    intros h' N' up' nx' t' Hd' Hg Hle. eapply HQ; [exact Hd'| |simpl; lia].
    by eapply (su_grown_up _ _ _ _ _ _ _ _ _ _ _ _ _ _ _ _ _ _ _ _ _ _ _ _ _ _ _ Hsu h (add_pages 1 h)).
Qed.

(** ** Insertion of an entry *)

Abbreviation wp_create := (wp_create fd Hfd cols tot order Hlay s0 Hs0 E HE).
Abbreviation wp_find_leaf := (wp_find_leaf fd cols tot order Hlay s0 Hs0 E HE).
Abbreviation wp_unpin_dirty := (wp_unpin_dirty fd cols tot order s0 Hs0 E HE).
Abbreviation wp_set_leaf := (wp_set_leaf fd cols tot order Hlay s0 Hs0 E).
Abbreviation wp_set_parent := (wp_set_parent fd cols tot order Hlay s0 Hs0 E).
Abbreviation wp_set_next := (wp_set_next fd cols tot order Hlay s0 Hs0 E).
Abbreviation wp_set_prev := (wp_set_prev fd cols tot order Hlay s0 Hs0 E).
Abbreviation tree := (tree cols order).
Abbreviation tree_at := (tree_at cols order).

(** The first entry makes the root, a leaf alone in its ring. *)
Lemma wp_insert_empty fuel h N nx t k v (Q : Z → St → Prop) :
  holds h N [] nx t → root_page_ h = IX_NO_PAGE → plain_key cols k → rid_ok v → nx < MAX_PAGES → room s0 0 →
  (∀ h' N' p t', holds h' N' [] (nx + 1) t' → tree N' h' [(None, nx)] [] [(k, v)] → Q p t') →
  wp (insert_entry fd fuel k v) Q E t.
Proof using HE Hs0 Hlay Hfd.
  intros Hd Hroot Hk Hv Hnx Hroom HQ. unfold insert_entry, is_empty. apply wp_bind, wp_bind.
  eapply wp_hdr; [exact Hd|]. apply wp_ret. rewrite Hroot. cbn [Z.eqb IX_NO_PAGE Pos.eqb].
  apply wp_bind. eapply wp_create; [exact Hd|done|done|]. clear t Hd. intros f t Hnone Hd.
  assert ((nx, f) ∈ [(nx, f)]) as Hin by by left.
  assert (i32_ok nx = true) as Ix by (by eapply page_i32; [exact Hd|rewrite lookup_insert_eq]).
  apply wp_bind. eapply wp_no; [exact Hin|exact Hd|].
  apply wp_bind. eapply wp_set_hdr; [exact Hd|by split; apply Hd|]. clear t Hd. intros t Hd.
  apply wp_bind. eapply wp_set_hdr; [exact Hd|by split; apply Hd|]. clear t Hd. intros t Hd.
  apply wp_bind. eapply wp_set_hdr; [exact Hd|by split; apply Hd|]. clear t Hd. intros t Hd.
  set (h1 := set_last_leaf nx _) in Hd.
  apply wp_bind. eapply wp_set_leaf; [exact Hin|exact Hd|by rewrite lookup_insert_eq|]. clear t Hd. intros t Hd.
  rewrite insert_insert_eq in Hd.
  apply wp_bind. eapply wp_set_parent; [exact Hin|exact Hd|by rewrite lookup_insert_eq|done|]. clear t Hd. intros t Hd.
  rewrite insert_insert_eq in Hd.
  apply wp_bind. eapply wp_set_next; [exact Hin|exact Hd|by rewrite lookup_insert_eq|done|]. clear t Hd. intros t Hd.
  rewrite insert_insert_eq in Hd.
  apply wp_bind. eapply wp_set_prev; [exact Hin|exact Hd|by rewrite lookup_insert_eq|done|]. clear t Hd. intros t Hd.
  rewrite insert_insert_eq in Hd. set (n0 := with_prev nx _) in Hd. pose proof (la_order _ _ _ Hlay) as Hord.
  apply wp_bind. eapply wp_node; [done|exact Hd|by rewrite lookup_insert_eq|exact Hin|].
  apply (nw_insert cols tot order Hlay h1 (hd_fits _ _ _ _ _ _ _ _ _ _ Hd)); [cbn; lia|by right|constructor|done|done| |].
  2: { intros r Hr. by apply elem_of_nil in Hr. }
  intros A B n1 Hl _ _ _ (Hs1 & Hs2 & Hs3 & Hs4) Hnum Hl1. clear t Hd. intros t Hd. rewrite insert_insert_eq in Hd.
  assert (live n0 = []) as E0 by done. rewrite E0 in Hl. destruct A; [|done]. destruct B; [|done].
  apply wp_bind. eapply wp_unpin_dirty; [exact Hd|done|]. intros t2 Hd2.
  eapply wp_some_page_no; [exact Hd2|eapply held_frame; [exact Hd|exact Hin]|]. intros p. apply (HQ h1 (<[nx:=n1]> N)); [done|].
  assert (0 ≤ nx) as H0 by (destruct (hd_node _ _ _ _ _ _ _ _ _ _ Hd nx n1) as [? _]; [by rewrite lookup_insert_eq|lia]).
  unfold tree. rewrite decide_False by (unfold IX_NO_PAGE; cbn; lia). cbn [root_page_ first_leaf_ last_leaf_ h1 set_last_leaf set_first_leaf set_root].
  split; try done.
  - split; [done|]. unfold parent_of. rewrite lookup_insert_eq. simpl. by rewrite Hs1.
  - split; [by repeat constructor|by repeat constructor].
  - apply Forall_singleton. exists n1. cbn [snd]. rewrite lookup_insert_eq. split; [done|]. rewrite Hs2, Hnum. cbn. split; [done|lia].
  - cbn. unfold entries_at. by rewrite lookup_insert_eq, Hl1.
  - unfold sorted, sorted_keys. by repeat constructor.
  - split; [|done]. intros e _. split; [done|]. intros b Hb. by apply elem_of_nil in Hb.
  - cbn. unfold link. rewrite lookup_insert_eq. simpl. by rewrite Hs3, Hs4.
  - apply NoDup_singleton.
Qed.

(** The entry in the leaf that covers its key. *)
Lemma wp_leaf_insert h N L up root first lst es nx t A o p B n f k v (Q : Z → St → Prop) :
  holds h N [(p, f)] nx t → tree_at N L up root first lst es → covers cols L k A (o, p) B → N !! p = Some n →
  nd_leaf n = true → 1 ≤ nd_num n ≤ order → plain_key cols k → rid_ok v →
  (∀ n' t', holds h (<[p := n']> N) [(p, f)] nx t' → nd_leaf n' = true → nd_num n' = nd_num n + 1 →
     stacked order (<[p := n']> N) L up root → k ∉ es.*1 →
     leaves cols (order + 1) (<[p := n']> N) L first lst (index_insert cols k v es) → Q (nd_num n + 1) t') →
  (∀ t', holds h N [(p, f)] nx t' → k ∈ es.*1 → E IndexEntryExistsError t') →
  wp (node f (λ h, insert h k v)) Q E t.
Proof using Hs0 Hlay.
  intros Hd Ht Hcov Hn Hleaf Hnum Hk Hv HQ Hdup. pose proof (holds_facts _ _ _ _ _ _ _ _ _ _ Hd) as Hfacts.
  pose proof Hcov as (HL & _ & _). assert (live n = searched n) as Hsl by (unfold searched, first_slot; by rewrite Hleaf, drop_0).
  pose proof (tr_nodup _ _ _ _ _ _ _ _ _ Ht) as Hnd. pose proof Hnd as Hnd'. cbn [concat] in Hnd'. rewrite pages_app in Hnd'.
  apply NoDup_app in Hnd' as (HndL & Hdis & _).
  assert (p ∈ pages L) as HpL by (rewrite HL; apply elem_of_pages; exists o; apply elem_of_app; right; by left).
  eapply (wp_node fd cols tot order s0 Hs0 E); [exact Hd|exact Hn|by left|].
  apply (nw_insert cols tot order Hlay h (hd_fits _ _ _ _ _ _ _ _ _ _ Hd)); [lia|left; unfold first_slot; rewrite Hleaf; lia| |done|done| |].
  - apply (leaf_sorted cols N A (o, p) B); [|done|done]. rewrite <-HL, (tr_entries _ _ _ _ _ _ _ _ _ Ht). apply Ht.
  - intros A' B' n' Hl _ HA' HB' (Hs1 & Hs2 & Hs3 & Hs4) Hn' Hl' t' Hd'.
    unfold first_slot in HA'. rewrite Hleaf, drop_0 in HA'.
    destruct (leaves_insert cols order N L first lst es A o p B k v n A' B' n') as [Hfresh Hleaves];
      try done; [by eapply tree_leaves|apply Ht|].
    apply (HQ n' t'); try done; [congruence|].
    apply (stacked_ext order N); [..|apply Ht]; intros x Hx.
    + unfold body_of. rewrite lookup_insert_ne; [done|]. intros ->. by apply (Hdis x).
    + unfold parent_of. destruct (decide (x = p)) as [->|]; [|by rewrite lookup_insert_ne].
      rewrite lookup_insert_eq, Hn. simpl. by rewrite Hs1.
  - intros r Hr t' Ht'. rewrite (insert_id N p n Hn) in Ht'. apply Hdup; [done|].
    rewrite <-(tr_entries _ _ _ _ _ _ _ _ _ Ht). apply (list_elem_of_fmap_2 fst _ (k, r)), elem_of_entries.
    exists (o, p). split; [rewrite HL; apply elem_of_app; right; by left|]. unfold entries_at. cbn [snd]. by rewrite Hn, Hsl.
Qed.

(** A leaf that has become too big is split. *)
Lemma wp_leaf_overflow fuel h N1 L up es nx t A o p B n' f (Q : unit → St → Prop) :
  holds h N1 [(p, f)] nx t → root_page_ h ≠ IX_NO_PAGE → stacked order N1 L up (root_page_ h) →
  leaves cols (order + 1) N1 L (first_leaf_ h) (last_leaf_ h) es → los_ok cols L → NoDup (pages (concat (L :: up))) →
  L = A ++ (o, p) :: B → N1 !! p = Some n' → nd_leaf n' = true → nd_num n' = order + 1 →
  (∀ x m, x ∈ pages (A ++ B) → N1 !! x = Some m → nd_num m ≤ order) →
  (length up ≤ 19)%nat → nx + 21 ≤ MAX_PAGES → room s0 4 → (20 ≤ fuel)%nat →
  (Some zero_key ∈ L.*1 ∨ zero_key ∈ es.*1 → ∀ t', E IndexEntryExistsError t') →
  (∀ h' N' L' up' nx' t', holds h' N' [] nx' t' → tree N' h' L' up' es →
     (∀ x, Some x ∈ L'.*1 → Some x ∈ L.*1 ∨ x ∈ es.*1) → Q tt t') →
  wp (let! right_node := split fd f in
      let! new_key := node right_node (λ h, key_ h 0) in
      insert_into_parent fd fuel f new_key right_node) Q E t.
Proof using HE Hs0 Hlay Hfd.
  intros Hd Hroot Hst Hlv Hlosk Hnd HL Hn1 Hleaf' Hnum' Hothers Hup Hnx Hroom Hfuel Hz HQ.
  assert ((p, f) ∈ [(p, f)]) as Hin by by left. pose proof (la_order _ _ _ Hlay) as Hord.
  pose proof (holds_facts _ _ _ _ _ _ _ _ _ _ Hd) as Hfacts1.
  pose proof (live_length cols tot order Hlay n' (Hfacts1 _ _ Hn1) ltac:(lia)) as Hlen.
  pose proof Hnd as Hnd'. cbn [concat] in Hnd'. rewrite pages_app in Hnd'.
  apply NoDup_app in Hnd' as (HndL & Hdis & _).
  assert (p ∈ pages L) as HpL by (rewrite HL; apply elem_of_pages; exists o; apply elem_of_app; right; by left).
  destruct (ring_next N1 (pages L) p) as (s & _ & Hs & Hs'); [apply Hlv|done|].
  unfold next_of in Hs. rewrite Hn1 in Hs. injection Hs as <-.
  assert (is_Some (N1 !! nd_next n')) as [ns Hns] by (unfold prev_of in Hs'; destruct (N1 !! nd_next n'); [by eexists|done]).
  apply wp_bind. eapply wp_split_leaf; [exact Hin|exact Hd|exact Hn1|done|lia|exact Hns|lia|unfold room in *; simpl; lia|].
  assert (∀ x, x ∈ pages (concat (L :: up)) → is_Some (N1 !! x)) as Hdom.
  { intros x. cbn [concat]. rewrite pages_app. intros [Hx|Hx]%elem_of_app; [|by eapply stacked_dom].
    apply list_elem_of_fmap in Hx as (it & -> & Hit). pose proof (lv_leaves _ _ _ _ _ _ _ Hlv) as Hl.
    eapply Forall_forall in Hl as (m & Hm & _); [by eexists|exact Hit]. }
  assert (nx ∉ pages (concat (L :: up))) as Hxnew.
  { intros Hx. apply Hdom in Hx as [m Hm]. destruct (hd_node _ _ _ _ _ _ _ _ _ _ Hd nx m Hm) as [? _]. lia. }
  clear t Hd. intros g N2 t Hspl Hd. pose proof Hspl as (n1 & n2 & Hp2 & Hx2 & Hhv & _).
  destruct (live n2) as [|[k2 r2] l2] eqn:El2.
  { exfalso. rewrite (hv_live2 _ _ _ Hhv) in El2. apply (f_equal length) in El2. rewrite length_drop, Hlen in El2. simpl in El2.
    pose proof (Z.div_lt (nd_num n') 2 ltac:(lia) ltac:(lia)). lia. }
  assert (pending N2 L up (root_page_ h) A o p B k2 nx n2) as Hpe.
  { eapply (split_pending cols order tot Hlay N1); try done. }
  assert (leaves cols order N2 (level_with A o p B k2 nx) (first_leaf_ h) (if p =? last_leaf_ h then nx else last_leaf_ h)
    es) as Hlv2.
  { eapply (leaves_split cols order tot Hlay N1); try done.
    intros Hx. apply Hxnew. cbn [concat]. rewrite pages_app. apply elem_of_app. by left. }
  assert (k2 ∈ es.*1) as Hk2.
  { rewrite <-(lv_entries _ _ _ _ _ _ _ Hlv2). apply (list_elem_of_fmap_2 fst _ (k2, r2)), elem_of_entries.
    exists (Some k2, nx). split; [apply elem_of_app; right; right; by left|]. unfold entries_at. cbn [snd]. rewrite Hx2, El2. by left. }
  destruct (live_slot n2 0 k2 r2) as [Hkey _]; [rewrite (hv_num2 _ _ _ Hhv)|by rewrite El2|].
  { pose proof (Z.div_lt (nd_num n') 2 ltac:(lia) ltac:(lia)). lia. }
  apply wp_bind. eapply wp_read_held; [by left|exact Hd|exact Hx2|intros ?; apply within_reads|].
  eapply (nw_key cols tot order Hlay _ (hd_fits _ _ _ _ _ _ _ _ _ _ Hd)); [lia|exact Hkey|].
  assert (∀ x, Some x ∈ (level_with A o p B k2 nx).*1 → Some x ∈ L.*1 ∨ x = k2) as Hlos.
  { intros x. rewrite HL, !fmap_app. cbn [fmap list_fmap fst]. rewrite !elem_of_app, !elem_of_cons. naive_solver. }
  eapply (insert_into_parent_spec up fuel L A o p B k2 nx (relast p nx (add_pages 1 h)) N2 [] (nx + 1) t f g n2);
    [lia|eapply holds_perm; [apply perm_swap|exact Hd]| |lia|unfold room in *; simpl; lia| |].
  { unfold relast. cbn [add_pages last_leaf_]. by destruct (p =? last_leaf_ h). }
  { intros [?|Hzk]%Hlos; apply Hz; [by left|right; by rewrite Hzk]. }
  clear t Hd. intros h' N' up' nx' t Hd Hg Hle. eapply (HQ h' N'); [exact Hd| |].
  2: { intros x [?| ->]%Hlos; [by left|by right]. }
  assert (root_page_ h' ≠ IX_NO_PAGE) as Hroot'.
  { destruct (stacked_root order N' _ up' (root_page_ h') (gr_stack _ _ _ _ _ _ _ _ _ _ Hg)) as [m Hm].
    destruct (hd_node _ _ _ _ _ _ _ _ _ _ Hd _ m Hm) as [? _]. unfold IX_NO_PAGE. lia. }
  unfold tree. rewrite decide_False by done. rewrite (gr_first _ _ _ _ _ _ _ _ _ _ Hg), (gr_last _ _ _ _ _ _ _ _ _ _ Hg).
  eapply grown_tree; [exact Hg| |by eapply los_ok_with|].
  - unfold relast. cbn [add_pages last_leaf_]. by destruct (p =? last_leaf_ h).
  - intros x Hx. by eapply pending_in.
Qed.

Lemma wp_insert_entry fuel h N L up es nx t k v (Q : Z → St → Prop) :
  holds h N [] nx t → tree N h L up es → plain_key cols k → rid_ok v →
  nx + 21 ≤ MAX_PAGES → room s0 4 → (20 ≤ fuel)%nat →
  (∀ H h' N' L' up' nx' p t', (length H ≤ 1)%nat → holds h' N' H nx' t' → tree N' h' L' up' (index_insert cols k v es) →
     k ∉ es.*1 → (∀ x, Some x ∈ L'.*1 → Some x ∈ L.*1 ∨ x ∈ (index_insert cols k v es).*1) → Q p t') →
  (∀ H t', (length H ≤ 1)%nat → holds h N H nx t' → k ∈ es.*1 → E IndexEntryExistsError t') →
  (Some zero_key ∈ L.*1 ∨ zero_key ∈ (index_insert cols k v es).*1 → ∀ t', E IndexEntryExistsError t') →
  wp (insert_entry fd fuel k v) Q E t.
Proof using HE Hs0 Hlay Hfd.
  intros Hd Ht Hk Hv Hnx Hroom Hfuel HQ Hdup Hz. pose proof (tree_height fd cols tot order Hlay s0 _ _ _ _ _ _ _ Hd Ht) as Hup.
  destruct (decide (root_page_ h = IX_NO_PAGE)) as [Hroot|Hroot].
  { eapply wp_insert_empty; [exact Hd|done|done|done|lia|unfold room in *; lia|].
    intros h' N' p t' Hd' Ht'. unfold tree in Ht. rewrite decide_True in Ht by done. destruct Ht as (-> & -> & ->).
    eapply (HQ [] h' N'); [simpl; lia|exact Hd'|exact Ht'|apply not_elem_of_nil|].
    intros x Hx. cbn in Hx. by apply list_elem_of_singleton in Hx. }
  pose proof Ht as Hta. unfold tree in Hta. rewrite decide_False in Hta by done.
  unfold insert_entry, is_empty. apply wp_bind, wp_bind. eapply wp_hdr; [exact Hd|]. apply wp_ret.
  destruct (Z.eqb_spec (root_page_ h) IX_NO_PAGE) as [|_]; [done|].
  apply wp_bind. eapply wp_find_leaf; [exact Hd|exact Ht|done|done|unfold room in *; lia|lia|]. clear t Hd.
  intros A o p B n f t Hcov Hn Hleaf Hnum Hd _. assert ((p, f) ∈ [(p, f)]) as Hin by by left.
  apply wp_bind. eapply wp_size; [exact Hin|exact Hd|exact Hn|]. apply wp_bind. eapply wp_hdr; [exact Hd|].
  rewrite (fi_order _ _ _ _ (hd_fits _ _ _ _ _ _ _ _ _ _ Hd)), Z.geb_leb.
  assert (∀ h' N' nx' t', holds h' N' [(p, f)] nx' t' → ∀ Q : Z → St → Prop, (∀ p', Q p' t') → wp (get_page_no f) Q E t') as Hno.
  { intros h' N' nx' t' Hd' Q' HQ'. eapply wp_no; [exact Hin|exact Hd'|done]. }
  pose proof (held_frame _ _ _ _ _ _ _ _ _ _ _ _ Hd Hin) as Hframe.
  pose proof (holds_facts _ _ _ _ _ _ _ _ _ _ Hd) as Hfacts.
  assert (∀ x m, x ∈ pages L → N !! x = Some m → nd_num m ≤ order) as Hold.
  { intros x m (it & -> & Hit)%list_elem_of_fmap Hm. pose proof (tr_leaves _ _ _ _ _ _ _ _ _ Hta) as Hl.
    eapply Forall_forall in Hl as (m' & Hm' & _ & ?); [|exact Hit]. replace m with m' by congruence. lia. }
  destruct (Z.leb_spec order (nd_num n)) as [Hfull|Hspace].
  2: { (* the leaf has room *)
    apply wp_bind, wp_bind. eapply wp_leaf_insert; [exact Hd|exact Hta|exact Hcov|exact Hn|done|done|done|done| |].
    2: { intros t' Hd' He. by eapply (Hdup [(p, f)]). }
    clear t Hd. intros n' t Hd Hleaf' Hnum' Hst Hfresh Hlv. apply wp_ret. eapply Hno; [exact Hd|]. intros p'.
    eapply (HQ [(p, f)]); [done|exact Hd| |done|by left]. unfold tree. rewrite decide_False by done.
    apply leaves_tree; [exact Hst|apply Hta| |apply Hta]. apply leaves_bound; [|done]. intros x m Hx Hm.
    destruct (decide (x = p)) as [->|Hxp]; [rewrite lookup_insert_eq in Hm; injection Hm as <-; lia|].
    rewrite lookup_insert_ne in Hm by done. by eapply Hold. }
  (* the leaf is split *)
  assert (nd_num n = order) as Hnumo by lia.
  apply wp_bind, wp_bind. eapply wp_leaf_insert; [exact Hd|exact Hta|exact Hcov|exact Hn|done|done|done|done| |].
  2: { intros t' Hd' He. by eapply (Hdup [(p, f)]). }
  clear t Hd. intros n' t Hd Hleaf' Hnum' Hst Hfresh Hlv. pose proof Hcov as (HL & _ & _).
  assert (NoDup (pages L)) as HndL.
  { pose proof (tr_nodup _ _ _ _ _ _ _ _ _ Hta) as Hnd. cbn [concat] in Hnd. rewrite pages_app in Hnd.
    by apply NoDup_app in Hnd as (? & _). }
  eapply wp_leaf_overflow; [exact Hd|done|exact Hst|exact Hlv|apply Hta|apply Hta|exact HL|apply lookup_insert_eq|done|lia
    | |done|done|done|done|exact Hz|].
  { intros x m Hx Hm. rewrite HL in HndL. unfold pages in HndL, Hx. rewrite fmap_app in HndL, Hx. cbn [fmap list_fmap snd] in HndL.
    apply NoDup_app in HndL as (_ & Hd1 & Hd2). apply NoDup_cons in Hd2 as [Hd2 _].
    assert (x ≠ p) as Hxp by (intros ->; apply elem_of_app in Hx as [Hx|Hx]; [apply (Hd1 _ Hx); by left|done]).
    rewrite lookup_insert_ne in Hm by done. apply (Hold x m); [|done].
    rewrite HL. unfold pages. rewrite fmap_app. cbn [fmap list_fmap]. apply elem_of_app in Hx as [?|?]; apply elem_of_app; [by left|right; by right]. }
  intros h' N' L' up' nx' t' Hd' Ht' Hlos. eapply wp_some_page_no; [exact Hd'|exact Hframe|]. intros p'.
  by eapply (HQ [] h' N'); [simpl; lia|..].
Qed.

End insert.

(** ** The specification *)

Lemma index_insert_keys cols x k v es : x ∈ (index_insert cols k v es).*1 → x = k ∨ x ∈ es.*1.
Proof.
  unfold index_insert. rewrite fmap_app, elem_of_app, fmap_cons, elem_of_cons.
  intros [H|[->|H]]; [right|by left|right]; apply list_elem_of_fmap in H as (e & -> & He);
    apply list_elem_of_filter in He as [_ He]; by apply list_elem_of_fmap_2.
Qed.

(** What [insert_entry] leaves when it returns, and when it throws. *)
Definition entry_added {R} `{!Replacer R, !ReplacerLaws R} fd cols tot order z es key value
    (t t' : IxFileHdr * Storage R) : Prop :=
  ∃ H, (length H ≤ 1)%nat ∧ others_kept fd H t.2 t'.2 ∧ key ∉ es.*1 ∧
    index fd cols tot order z t' (index_insert cols key value es).
Definition entry_refused {R} `{!Replacer R, !ReplacerLaws R} fd cols tot order z es key e
    (t t' : IxFileHdr * Storage R) : Prop :=
  io_error e = true ∨
  e = IndexEntryExistsError ∧
    ((∃ H, (length H ≤ 1)%nat ∧ others_kept fd H t.2 t'.2 ∧ key ∈ es.*1 ∧ index fd cols tot order z t' es) ∨ z = false).

(** C10: On an index of up to 2^19 - 21 pages [insert_entry] adds the entry at its place in
    the sorted list of the entries, through any number of splits up to a new root, and
    leaves pages and pins of all other files as they were; the leaf stays pinned when it was
    not split.  With the key in the index it answers [IndexEntryExistsError], and the entries
    are as before, as are pages and pins of all other files.  The same error comes out of a
    half-done split only when the key of zeroes is one of the keys ([z] is [false]). *)
Theorem insert_entry_refines {R} `{!Replacer R, !ReplacerLaws R} fd cols tot order z es key value fuel
    (t : IxFileHdr * Storage R) :
  0 ≤ fd < MAX_FD → layout_ok cols tot order → index fd cols tot order z t es →
  plain_key cols key → rid_ok value → (z = true → key ≠ zero_key tot) →
  room t.2 4 → get_fd2pageno (s_disk t.2) fd + 21 ≤ MAX_PAGES → (20 ≤ fuel)%nat →
  wp (insert_entry fd fuel key value)
    (λ _ t', entry_added fd cols tot order z es key value t t')
    (λ e t', entry_refused fd cols tot order z es key e t t') t.
Proof.
  intros Hfd Hlay (N & L & up & nx & Hd & Ht & Hz) Hk Hv Hkz Hroom Hnx Hfuel. rewrite (hd_next _ _ _ _ _ _ _ _ _ _ Hd) in Hnx.
  eapply (wp_insert_entry fd Hfd cols tot order Hlay t.2 (hd_inv _ _ _ _ _ _ _ _ _ _ Hd));
    [by left|exact Hd|exact Ht|done|done|lia|done|done|..].
  - intros H h' N' L' up' nx' p t' HH Hd' Ht' Hfresh Hlos. apply holds_rebase in Hd' as [Hd' Hkept].
    exists H. split_and!; [done|done|done|]. exists N', L', up', nx'.
    rewrite (hd_hdr _ _ _ _ _ _ _ _ _ _ Hd'). split_and!; [done|done|]. intros Hzt. destruct (Hz Hzt) as [Hz1 Hz2].
    assert (zero_key tot ∉ (index_insert cols key value es).*1) as Hz3.
    { intros [Heq|?]%index_insert_keys; [by apply (Hkz Hzt)|done]. }
    split; [done|]. intros [?|?]%Hlos; done.
  - intros H t' HH Hd' Hin. right. split; [done|]. left. apply holds_rebase in Hd' as [Hd' Hkept]. exists H. split_and!; [done..|].
    exists N, L, up, nx. rewrite (hd_hdr _ _ _ _ _ _ _ _ _ _ Hd'). done.
  - intros Hzero t'. right. split; [done|]. right. destruct z; [|done]. exfalso. destruct (Hz eq_refl) as [Hz1 Hz2].
    destruct Hzero as [?|[Heq|?]%index_insert_keys]; [done|by apply Hkz|done].
Qed.

(** *** An empty index *)

Lemma index_empty {R} `{!Replacer R, !ReplacerLaws R} fd cols tot order z (t : IxFileHdr * Storage R) :
  fits cols tot order t.1 → root_page_ t.1 = IX_NO_PAGE → pool_inv t.2 → data_fd t.2 fd → small_pages t.2 →
  0 ≤ get_fd2pageno (s_disk t.2) fd ≤ MAX_PAGES →
  (∀ p, get_fd2pageno (s_disk t.2) fd ≤ p → page_table_ (s_bpm t.2) !! (fd, p) = None) →
  index fd cols tot order z t [].
Proof.
  intros Hf Hroot Hi Hfd Hsm Hb Hfr. exists ∅, [], [], (get_fd2pageno (s_disk t.2) fd). split_and!.
  - split; try done.
    + intros q. unfold held_count. simpl. case_decide; lia.
    + intros p f Hin. by apply elem_of_nil in Hin.
    + by intros ?.
  - unfold tree. by rewrite decide_True.
  - intros _. split; apply not_elem_of_nil.
Qed.

(** *** Witness: the first entry of an index over one INT column *)

#[local] Existing Instance LRU.lru_replacer.
#[local] Existing Instance LRU.lru_laws.

Definition demo_cols : list ColMeta := [mkCol [] [] TYPE_INT 4 0 false].
Definition demo_order : Z := 338.
Definition demo_index_state : IxFileHdr * Storage LRU.LRUReplacer :=
  (IxManager.created_hdr demo_cols 4 demo_order, demo_storage 6 None).

Lemma demo_layout : layout_ok demo_cols 4 demo_order.
Proof.
  split; [by apply Forall_singleton|done|done|done|]. vm_compute. discriminate.
Qed.

Lemma demo_index_empty z : index 3 demo_cols 4 demo_order z demo_index_state [].
Proof.
  apply index_empty.
  - split; reflexivity.
  - reflexivity.
  - apply demo_storage_inv.
  - apply demo_data_fd.
  - intros pid f H. vm_compute in H. discriminate.
  - vm_compute. split; discriminate.
  - intros p _. reflexivity.
Qed.

Lemma demo_plain : plain_key demo_cols (i32 7).
Proof.
  exists (i32 7), []. split_and!; [done|done| |done]. vm_compute. split; [done|]. repeat constructor; discriminate.
Qed.

Lemma insert_entry_refines_witness :
  wp (insert_entry 3 20 (i32 7) (mkRid 1 0))
    (λ _ t', entry_added 3 demo_cols 4 demo_order true [] (i32 7) (mkRid 1 0) demo_index_state t')
    (λ e t', entry_refused 3 demo_cols 4 demo_order true [] (i32 7) e demo_index_state t') demo_index_state.
Proof.
  apply (insert_entry_refines 3 demo_cols 4 demo_order true [] (i32 7) (mkRid 1 0) 20 demo_index_state).
  - vm_compute. split; [discriminate|reflexivity].
  - apply demo_layout.
  - apply demo_index_empty.
  - apply demo_plain.
  - split; reflexivity.
  - intros _ H. vm_compute in H. discriminate.
  - unfold room. vm_compute. repeat constructor.
  - vm_compute. discriminate.
  - repeat constructor.
Defined.
