(* ===== verification/IxRange.v ===== *)
(** * Places in the leaves and scans over them

    The place of an entry is its leaf and its slot; [lower_bound] answers the place of the
    first entry that is not below the key, and a scan between two places visits the entries
    between them in the order of their keys. *)
From Stdlib Require Import Sorting.Sorted.
From S2P Require Import Prelude Bytes Disk Log Replacer BufferPool Record PoolRun Meta Keys IxNode IxOrder.
From S2P Require Import IxPage IxNodeSpec Index IxPool IxTree IxSearch IxGrow IxLeaf IxInsert.
Import IxNodeHandle IxIndexHandle.

Section place.
Abbreviation entry := (bytes * Rid)%type.
Implicit Types (o : option bytes) (it : item) (k : bytes) (N : gmap Z inode) (L : list item) (X Y : list entry).

(** [iid] is the place between the entries [X] and [Y]; a place is in the first leaf it can
    be in that has an entry behind it. *)
Definition place N L X Y (iid : Iid) : Prop := ∃ A o p B n l1 l2,
  L = A ++ (o, p) :: B ∧ N !! p = Some n ∧ live n = l1 ++ l2 ∧ X = entries N A ++ l1 ∧ Y = l2 ++ entries N B ∧
  iid = mkIid p (len l1) ∧ (l2 = [] → B = []).

Lemma place_entries N L X Y iid : place N L X Y iid → entries N L = X ++ Y.
Proof using Type.
  intros (A & o & p & B & n & l1 & l2 & -> & Hn & Hl & -> & -> & _ & _). rewrite entries_app. unfold entries at 2.
  cbn [pages fmap list_fmap snd concat]. unfold entries_at at 1. rewrite Hn, Hl. by rewrite <-!(assoc_L (++)).
Qed.

Lemma pages_unique (A A' : list item) o o' p B B' :
  NoDup (pages (A ++ (o, p) :: B)) → A ++ (o, p) :: B = A' ++ (o', p) :: B' → A = A' ∧ B = B'.
Proof using Type.
  revert A'. induction A as [|a A IH]; intros A' Hnd Heq.
  - destruct A' as [|a' A']; simplify_eq/=; [done|]. exfalso. apply NoDup_cons in Hnd as [Hnd _]. apply Hnd.
    unfold pages. rewrite fmap_app. apply elem_of_app. right. by left.
  - destruct A' as [|a' A']; simplify_eq/=.
    + exfalso. apply NoDup_cons in Hnd as [Hnd _]. apply Hnd. unfold pages. rewrite fmap_app. apply elem_of_app. right. by left.
    + apply NoDup_cons in Hnd as [_ Hnd]. by destruct (IH A' Hnd) as [-> ->].
Qed.

(** Different places are different. *)
Lemma place_inj N L X Y X' Y' iid : NoDup (pages L) → place N L X Y iid → place N L X' Y' iid → X = X' ∧ Y = Y'.
Proof using Type.
  intros Hnd (A & o & p & B & n & l1 & l2 & HL & Hn & Hl & -> & -> & -> & _)
    (A' & o' & p' & B' & n' & l1' & l2' & HL' & Hn' & Hl' & -> & -> & Hi & _).
  injection Hi as <- Hlen. rewrite HL in Hnd. destruct (pages_unique A A' o o' p B B') as [-> ->]; [exact Hnd|exact (eq_trans (eq_sym HL) HL')|].
  assert (n' = n) as -> by congruence. rewrite Hl in Hl'. apply app_inj_1 in Hl' as [-> ->]; [done|lia].
Qed.

(** A place is known by the entries in front of it. *)
Lemma place_fun N L X Y iid iid' :
  NoDup (pages L) → Forall (λ it, entries_at N it.2 ≠ []) L → place N L X Y iid → place N L X Y iid' → iid = iid'.
Proof using Type.
  intros Hnd Hne (A & o & p & B & n & l1 & l2 & HL & Hn & Hl & HX & HY & -> & Hend)
    (A' & o' & p' & B' & n' & l1' & l2' & HL' & Hn' & Hl' & HX' & HY' & -> & Hend').
  assert (∀ (A A' : list item) o o' p p' B B' n l1 l2 l1' (M : list item),
    L = A ++ (o, p) :: B → L = A' ++ (o', p') :: B' → N !! p = Some n → live n = l1 ++ l2 → (l2 = [] → B = []) →
    entries N A ++ l1 = entries N A' ++ l1' → A' = A ++ M → M = []) as Hkey.
  { clear. intros A A' o o' p p' B B' n l1 l2 l1' M HL HL' Hn Hl Hend Heq ->. destruct M as [|it M]; [done|]. exfalso.
    rewrite HL, <-(assoc_L (++)) in HL'. apply app_inv_head in HL'. injection HL' as <- HB.
    rewrite entries_app, <-(assoc_L (++)) in Heq. apply app_inv_head in Heq. unfold entries in Heq.
    cbn [pages fmap list_fmap snd concat] in Heq. unfold entries_at at 1 in Heq. rewrite Hn, Hl in Heq.
    apply (f_equal length) in Heq. rewrite !length_app in Heq. destruct l2; [|simpl in Heq; lia]. rewrite Hend in HB by done.
    by destruct M. }
  assert (A = A') as ->.
  { pose proof (eq_trans (eq_sym HL) HL') as Heq.
    apply app_eq_inv in Heq as [(M & -> & HM)|(M & -> & HM)].
    - rewrite (Hkey A' (A' ++ M) o' o p' p B' B n' l1' l2' l1 M); try done; [by rewrite app_nil_r|exact (eq_trans (eq_sym HX') HX)].
    - rewrite (Hkey A (A ++ M) o o' p p' B B' n l1 l2 l1' M); try done; [by rewrite app_nil_r|exact (eq_trans (eq_sym HX) HX')]. }
  rewrite HL in HL'. apply app_inv_head in HL'. injection HL' as <- <- <-.
  rewrite HX in HX'. apply app_inv_head in HX' as ->. done.
Qed.

End place.

Section leaf_places.
Context (cols : list ColMeta) (tot order : Z) (Hlay : layout_ok cols tot order).
Context (N : gmap Z inode) (L : list item) (first lst : Z) (es : list (bytes * Rid)).
Context (Hf : facts cols order N) (Hv : leaves cols order N L first lst es) (Hnd : NoDup (pages L)).
Abbreviation entry := (bytes * Rid)%type.
Implicit Types (o : option bytes) (X Y : list entry).

Lemma leaf_node it : it ∈ L → ∃ n, N !! it.2 = Some n ∧ nd_leaf n = true ∧ 1 ≤ nd_num n ≤ order ∧
  length (live n) = Z.to_nat (nd_num n).
Proof using Hlay Hf Hv.
  intros Hit. pose proof (lv_leaves _ _ _ _ _ _ _ Hv) as Hl. eapply Forall_forall in Hl as (n & Hn & Hleaf & Hnum); [|exact Hit].
  exists n. split_and!; try done; try lia. apply (live_length cols tot order Hlay n (Hf _ _ Hn)). lia.
Qed.

Lemma leaves_nonempty : Forall (λ it : item, entries_at N it.2 ≠ []) L.
Proof using Hlay Hf Hv.
  apply Forall_forall. intros it (n & Hn & _ & Hnum & Hlen)%leaf_node. unfold entries_at. rewrite Hn.
  intros E. rewrite E in Hlen. simpl in Hlen. lia.
Qed.

Lemma ring_succ A o p o' p' B n : L = A ++ (o, p) :: (o', p') :: B → N !! p = Some n → nd_next n = p'.
Proof using Hv.
  intros HL Hn. pose proof (lv_ring _ _ _ _ _ _ _ Hv) as Hr. rewrite HL in Hr. unfold pages in Hr. rewrite fmap_app in Hr.
  cbn [fmap list_fmap snd] in Hr. assert (next_of N p = Some p') as Hnx.
  { destruct (A.*2) as [|a A2]; cbn [app ring] in Hr; [by apply chain_next in Hr as [? _]|].
    apply chain_app in Hr as [_ Hr]. by apply chain_next in Hr as [? _]. }
  unfold next_of in Hnx. rewrite Hn in Hnx. by injection Hnx.
Qed.

Lemma last_leaf_is A o p B : L = A ++ (o, p) :: B → (p =? lst) = bool_decide (B = []).
Proof using Hv Hnd.
  intros HL. pose proof (lv_last _ _ _ _ _ _ _ Hv) as Hlast. rewrite HL in Hlast, Hnd. unfold pages in Hlast, Hnd.
  rewrite fmap_app in Hlast, Hnd. cbn [fmap list_fmap snd] in Hlast, Hnd. rewrite last_app, last_cons in Hlast.
  destruct (last B.*2) as [b|] eqn:EB.
  - injection Hlast as ->. apply last_Some_elem_of in EB. rewrite bool_decide_false by (by intros ->; apply elem_of_nil in EB).
    apply Z.eqb_neq. intros ->. apply NoDup_app in Hnd as (_ & _ & Hd). by apply NoDup_cons in Hd as [? _].
  - injection Hlast as ->. apply last_None, fmap_nil_inv in EB. by rewrite bool_decide_true, Z.eqb_refl.
Qed.

(** The place behind all entries of a leaf. *)
Lemma place_behind A o p B n : L = A ++ (o, p) :: B → N !! p = Some n →
  place N L (entries N A ++ live n) (entries N B) (if p =? lst then mkIid p (nd_num n) else mkIid (nd_next n) 0).
Proof using Hlay Hf Hv Hnd.
  intros HL Hn. rewrite (last_leaf_is A o p B HL). destruct B as [|[o' p'] B].
  - rewrite bool_decide_true by done. exists A, o, p, [], n, (live n), []. rewrite app_nil_r. split_and!; try done.
    destruct (leaf_node (o, p)) as (n' & Hn' & _ & ? & Hlen); [rewrite HL; set_solver|]. cbn [snd] in Hn'.
    assert (n' = n) as -> by congruence. f_equal. lia.
  - rewrite bool_decide_false by done. rewrite (ring_succ A o p o' p' B n HL Hn).
    destruct (leaf_node (o', p')) as (n' & Hn' & _ & ? & Hlen); [rewrite HL; set_solver|]. cbn [snd] in Hn'.
    exists (A ++ [(o, p)]), o', p', B, n', [], (live n'). split_and!; try done.
    + by rewrite <-(assoc_L (++)).
    + rewrite entries_app, app_nil_r. f_equal. unfold entries. cbn. unfold entries_at. by rewrite Hn, app_nil_r.
    + unfold entries. cbn [pages fmap list_fmap snd concat]. unfold entries_at at 1. by rewrite Hn'.
    + intros E. rewrite E in Hlen. simpl in Hlen. lia.
Qed.

(** The place of the next entry, the way [IxScan::next] computes it. *)
Lemma place_next X e Y p i : place N L X (e :: Y) (mkIid p i) → ∃ n,
  (∃ o, (o, p) ∈ L) ∧ N !! p = Some n ∧ nd_leaf n = true ∧ 0 ≤ i < nd_num n ∧ live n !! Z.to_nat i = Some e ∧
  place N L (X ++ [e]) Y (if negb (p =? lst) && (i + 1 =? nd_num n) then mkIid (nd_next n) 0 else mkIid p (i + 1)).
Proof using Hlay Hf Hv Hnd.
  intros (A & o & p' & B & n & l1 & l2 & HL & Hn & Hl & -> & HY & Hi & Hend). injection Hi as <- ->.
  assert ((o, p) ∈ L) as Hin by (rewrite HL; set_solver).
  destruct (leaf_node (o, p) Hin) as (n' & Hn' & Hleaf & Hnum & Hlen). cbn [snd] in Hn'. assert (n' = n) as -> by congruence.
  destruct l2 as [|e' l2]; [by rewrite (Hend eq_refl) in HY|]. injection HY as <- ->.
  assert (len l1 + 1 + len l2 = nd_num n) as Hsum by (rewrite Hl, length_app in Hlen; simpl in Hlen; lia).
  exists n. split_and!; [by exists o|done|done|lia|lia| |].
  { rewrite Hl, Nat2Z.id. apply list_lookup_middle. done. }
  assert (place N L ((entries N A ++ l1) ++ [e]) (l2 ++ entries N B) (mkIid p (len l1 + 1)) ∨ l2 = [] ∧ B ≠ []) as Hcase.
  { destruct l2 as [|e2 l2]; [destruct B as [|b B]; [left|by right]|left].
    - exists A, o, p, [], n, (l1 ++ [e]), []. rewrite Hl, <-!(assoc_L (++)). split_and!; try done.
      f_equal. rewrite length_app. simpl. lia.
    - exists A, o, p, B, n, (l1 ++ [e]), (e2 :: l2). rewrite Hl, <-!(assoc_L (++)). split_and!; try done.
      f_equal. rewrite length_app. simpl. lia. }
  rewrite (last_leaf_is A o p B HL). destruct (Z.eqb_spec (len l1 + 1) (nd_num n)) as [Hfull|Hmore].
  - assert (l2 = []) as -> by (destruct l2; [done|simpl in Hsum; lia]). rewrite andb_true_r.
    case_bool_decide as HB; [destruct Hcase as [?|[_ ?]]; done|]. cbn [negb].
    pose proof (place_behind A o p B n HL Hn) as Hb. rewrite (last_leaf_is A o p B HL), bool_decide_false in Hb by done.
    rewrite Hl in Hb. by rewrite <-(assoc_L (++)).
  - rewrite andb_false_r. destruct Hcase as [?|[-> _]]; [done|]. simpl in Hsum. lia.
Qed.

End leaf_places.

Section range.
Context {R : Type} `{!Replacer R, !ReplacerLaws R}.
Context (fd : Z) (cols : list ColMeta) (tot order : Z) (Hlay : layout_ok cols tot order).
Context (s0 : Storage R) (Hs0 : pool_inv s0).
Abbreviation St := (IxFileHdr * Storage R)%type.
Context (E : exn → St → Prop) (HE : ∀ e t, io_error e = true → E e t).
Abbreviation holds := (holds fd cols tot order s0).
Abbreviation table s := (page_table_ (s_bpm s)).
Abbreviation tree := (tree cols order).
Abbreviation tree_at := (tree_at cols order).
Abbreviation wp_find_leaf := (wp_find_leaf fd cols tot order Hlay s0 Hs0 E HE).
Abbreviation wp_fetch_for := (wp_fetch_for fd cols tot order s0 Hs0 E HE).
Abbreviation wp_unpin := (wp_unpin fd cols tot order s0 Hs0 E HE).
Implicit Types (h : IxFileHdr) (N : gmap Z inode) (H : list (Z * Z)) (nx p f : Z) (t : St) (k : bytes).

Lemma tree_pages N L up root first lst es : tree_at N L up root first lst es → NoDup (pages L).
Proof using Type.
  intros Ht. pose proof (tr_nodup _ _ _ _ _ _ _ _ _ Ht) as Hnd. cbn [concat] in Hnd. unfold pages in Hnd. rewrite fmap_app in Hnd.
  by apply NoDup_app in Hnd as (? & _).
Qed.

(** A read of a node through a pointer to its frame, held or just released. *)
Lemma wp_see {A} (m : IxFileHdr → M bytes A) h N H nx t p n f (Q : A → St → Prop) :
  holds h N H nx t → N !! p = Some n → table t.2 !! (fd, p) = Some f → (∀ h, within eq (m h)) →
  (fits cols tot order h → node_wp cols tot order (m h) n (λ a _, Q a t) (λ e _, E e t)) → wp (node f m) Q E t.
Proof using Type. intros Hd Hn Hf Hro Hm. eapply wp_node_read; [exact Hd|exact Hn|exact Hf|exact Hro|]. apply Hm, Hd. Qed.

(** ** The bounds of a range *)

Lemma wp_lower_bound k h N L up es nx t fuel (Q : Iid → St → Prop) :
  holds h N [] nx t → tree N h L up es → root_page_ h ≠ IX_NO_PAGE → plain_key cols k → room s0 0 → (length up ≤ fuel)%nat →
  (∀ X Y iid t', holds h N [] nx t' → (∀ e, e ∈ X → klt cols e.1 k) → (∀ e, e ∈ Y → ¬ klt cols e.1 k) →
     place N L X Y iid → Q iid t') →
  wp (IxIndexHandle.lower_bound fd fuel k) Q E t.
Proof using HE Hlay Hs0.
  intros Hd Ht Hroot Hk Hroom Hfuel HQ. pose proof Ht as Hta. unfold tree in Hta. rewrite decide_False in Hta by done.
  pose proof (holds_facts _ _ _ _ _ _ _ _ _ _ Hd) as Hfacts. pose proof (tree_leaves _ _ _ _ _ _ _ _ _ Hta) as Hlv.
  pose proof (tree_pages _ _ _ _ _ _ _ Hta) as Hnd.
  unfold IxIndexHandle.lower_bound. apply wp_bind. eapply wp_find_leaf; [exact Hd|exact Ht|done|done|done|done|]. clear t Hd.
  intros A o p B n f t Hcov Hn Hleaf Hnum Hd Hun. pose proof Hcov as (HL & _ & _).
  assert (table t.2 !! (fd, p) = Some f) as Hf by (apply (hd_held _ _ _ _ _ _ _ _ _ _ Hd); by left).
  destruct (covers_entries cols N L k A (o, p) B Hcov (tr_los _ _ _ _ _ _ _ _ _ Hta) (lv_fenced _ _ _ _ _ _ _ Hlv) Hk) as (Hes & HA & HB).
  { intros e. by apply (entries_plain cols order). }
  assert (∀ e, e ∈ entries N B → ¬ klt cols e.1 k) as HB' by (intros e He; by apply klt_asym, HB).
  assert (sorted cols (searched n)) as Hsort.
  { apply (leaf_sorted cols N A (o, p) B); [|done|done]. rewrite <-HL, (tr_entries _ _ _ _ _ _ _ _ _ Hta). apply Hta. }
  assert (searched n = live n) as Hsl by (unfold searched, first_slot; by rewrite Hleaf, drop_0).
  assert (first_slot n = 0) as Hfs by (unfold first_slot; by rewrite Hleaf).
  assert (∀ X Y iid, (∀ e, e ∈ X → klt cols e.1 k) → (∀ e, e ∈ Y → ¬ klt cols e.1 k) → place N L X Y iid →
    wp (do! unpin_node_page fd f false in ret iid) Q E t) as Hend.
  { intros X Y iid HX HY Hpl. apply wp_bind. eapply wp_unpin; [exact Hd|done|done|]. intros t' Hd' _ _. apply wp_ret.
    by eapply HQ. }
  apply wp_bind. eapply wp_see; [exact Hd|exact Hn|exact Hf|intros ?; apply within_bound; intros; apply within_judge|].
  intros Hfit. apply (nw_lower_pairs cols tot order Hlay _ Hfit); try done; [by apply Hfacts in Hn|lia|lia| |].
  - rewrite Hsl. intros Hall. apply wp_bind. unfold iid_of. apply wp_bind. eapply wp_page_no; [exact Hd|exact Hf|]. cbn [Z.eqb].
    apply wp_bind. eapply wp_hdr; [exact Hd|]. pose proof (place_behind cols tot order Hlay N L _ _ es Hfacts Hlv Hnd A o p B n HL Hn) as Hpl.
    destruct (p =? last_leaf_ h).
    + apply wp_bind. eapply wp_see; [exact Hd|exact Hn|exact Hf|intros ?; apply within_reads|]. intros _. apply nw_get_size, wp_ret.
      eapply Hend; [|exact HB'|exact Hpl]. intros e [?|?]%elem_of_app; auto.
    + apply wp_bind. eapply wp_see; [exact Hd|exact Hn|exact Hf|intros ?; apply within_reads|]. intros _. apply nw_get_next, wp_ret.
      eapply Hend; [|exact HB'|exact Hpl]. intros e [?|?]%elem_of_app; auto.
  - rewrite Hfs. intros A' k' r B' Hl _ HA' Hk'. change (drop (Z.to_nat 0) A') with A' in HA'. apply wp_bind. unfold iid_of. apply wp_bind.
    eapply wp_page_no; [exact Hd|exact Hf|]. destruct (Z.eqb_spec (len A') (-1)) as [|_]; [lia|]. apply wp_ret.
    eapply (Hend (entries N A ++ A') (((k', r) :: B') ++ entries N B)).
    + intros e [?|?]%elem_of_app; auto.
    + intros e [He|He]%elem_of_app; [|by apply HB'].
      apply elem_of_cons in He as [->|He]; [done|]. intros Hlt. apply Hk'. eapply klt_trans; [|exact Hlt].
      rewrite Hsl, Hl in Hsort. unfold sorted in Hsort. rewrite fmap_app, fmap_cons in Hsort.
      apply sorted_keys_app in Hsort as (_ & Hsort & _). apply sorted_keys_cons in Hsort as [_ Hsort]. apply Hsort.
      by apply list_elem_of_fmap_2.
    + exists A, o, p, B, n, A', ((k', r) :: B'). by split_and!.
Qed.

(** ** The steps of a scan *)

Lemma wp_fetch_raw p (Q : Z → St → Prop) t :
  wp (fetch_node fd p) Q E t → wp (pool (fetch_page (fd, p))) (λ _ t', ∃ f, Q f t') E t.
Proof using Type.
  unfold wp, fetch_node, pool, zoom, bind. destruct (fetch_page (fd, p) t.2) as [[[f|]|e|] s]; cbn; [by eauto|done..].
Qed.

Lemma wp_get_rid N h L up es nx H X e Y iid t (Q : Rid → St → Prop) :
  holds h N H nx t → tree_at N L up (root_page_ h) (first_leaf_ h) (last_leaf_ h) es →
  place N L X (e :: Y) iid → room_for fd s0 H.*1 →
  (∀ t', holds h N H nx t' → Q e.2 t') → wp (get_rid fd iid) Q E t.
Proof using HE Hlay Hs0.
  intros Hd Hta Hpl Hroom HQ. pose proof (holds_facts _ _ _ _ _ _ _ _ _ _ Hd) as Hfacts.
  destruct iid as [p i]. destruct (place_next cols tot order Hlay N L _ _ es Hfacts (tree_leaves _ _ _ _ _ _ _ _ _ Hta)
    (tree_pages _ _ _ _ _ _ _ Hta) X e Y p i Hpl) as (n & _ & Hn & Hleaf & Hi & He & _).
  unfold get_rid. cbn [iid_page_no iid_slot_no]. apply wp_bind. eapply wp_fetch_for; [exact Hd|exact Hn|exact Hroom|].
  clear t Hd. intros f t Hd Hun. assert (table t.2 !! (fd, p) = Some f) as Hf by (apply (hd_held _ _ _ _ _ _ _ _ _ _ Hd); by left).
  apply wp_bind. eapply wp_see; [exact Hd|exact Hn|exact Hf|intros ?; apply within_reads|]. intros _. apply nw_get_size.
  rewrite Z.geb_leb. destruct (Z.leb_spec (nd_num n) i) as [|_]; [lia|].
  apply wp_bind. eapply wp_unpin; [exact Hd|done|done|]. clear Hun. intros t' Hd' Htab _. rewrite <-Htab in Hf.
  destruct e as [ke r]. destruct (live_slot n i ke r Hi He) as [_ Hr].
  eapply wp_see; [exact Hd'|exact Hn|exact Hf|intros ?; apply within_reads|]. intros Hfit.
  eapply (nw_rid cols tot order Hlay _ Hfit); [lia|exact Hr|]. by apply HQ.
Qed.

(** [next] leaves the page of the leaf pinned twice. *)
Lemma wp_next_step N h L up es nx H X e Y iid last_iid t (Q : IxScan.IxScan → St → Prop) :
  holds h N H nx t → tree_at N L up (root_page_ h) (first_leaf_ h) (last_leaf_ h) es →
  place N L X (e :: Y) iid → iid ≠ last_iid → room_for fd s0 (iid_page_no iid :: H.*1) →
  (∀ iid' p f g t', holds h N ((p, g) :: (p, f) :: H) nx t' → p = iid_page_no iid → place N L (X ++ [e]) Y iid' →
     Q (IxScan.mkIxScan iid' last_iid) t') →
  wp (IxScan.next fd (IxScan.mkIxScan iid last_iid)) Q E t.
Proof using HE Hlay Hs0.
  intros Hd Hta Hpl Hne Hroom HQ. pose proof (holds_facts _ _ _ _ _ _ _ _ _ _ Hd) as Hfacts.
  destruct iid as [p i]. destruct (place_next cols tot order Hlay N L _ _ es Hfacts (tree_leaves _ _ _ _ _ _ _ _ _ Hta)
    (tree_pages _ _ _ _ _ _ _ Hta) X e Y p i Hpl) as (n & _ & Hn & Hleaf & Hi & _ & Hnext).
  unfold IxScan.next, IxScan.is_end. cbn [IxScan.iid_ IxScan.end_ iid_page_no iid_slot_no] in *. rewrite bool_decide_false by done.
  apply wp_bind, wp_ret, wp_bind. eapply wp_mono; [eapply wp_fetch_raw, wp_fetch_for; [exact Hd|exact Hn| |]|..].
  { eapply room_for_sub; [|exact Hroom]. intros q Hq. by right. }
  { intros f t' Ht' _. exact (ex_intro (λ f, holds h N ((p, f) :: H) nx t') f Ht'). }
  clear t Hd. intros _ t (f0 & f & Hd). apply wp_bind. eapply wp_fetch_for; [exact Hd|exact Hn|exact Hroom|].
  clear t Hd. intros g t Hd _. assert (table t.2 !! (fd, p) = Some g) as Hf by (apply (hd_held _ _ _ _ _ _ _ _ _ _ Hd); by left).
  apply wp_bind. eapply wp_see; [exact Hd|exact Hn|exact Hf|intros ?; apply within_reads|]. intros _. apply nw_is_leaf.
  rewrite Hleaf. apply wp_bind, wp_ret.
  apply wp_bind. eapply wp_see; [exact Hd|exact Hn|exact Hf|intros ?; apply within_reads|]. intros _. apply nw_get_size.
  destruct (Z.ltb_spec i (nd_num n)) as [_|]; [|lia]. apply wp_bind, wp_ret. apply wp_bind. eapply wp_hdr; [exact Hd|].
  destruct (negb (p =? last_leaf_ h) && (i + 1 =? nd_num n)).
  - apply wp_bind. eapply wp_see; [exact Hd|exact Hn|exact Hf|intros ?; apply within_reads|]. intros _. apply nw_get_next, wp_ret.
    by eapply HQ.
  - apply wp_ret. by eapply HQ.
Qed.

(** ** The loop over a scan *)

(** What a client of the scan does: take the place's [Rid], go on, until the end. *)
Fixpoint scan_loop (fuel : nat) (sc : IxScan.IxScan) : M St (list Rid) :=
  match fuel with
  | O => stuck
  | S fuel =>
      if IxScan.is_end sc then ret [] else
      let! r := IxScan.rid fd sc in
      let! sc := IxScan.next fd sc in
      let! rs := scan_loop fuel sc in
      ret (r :: rs)
  end.

Lemma wp_scan_loop N h L up es nx Z0 last_iid Y : ∀ fuel H X iid t (Q : list Rid → St → Prop),
  holds h N H nx t → tree_at N L up (root_page_ h) (first_leaf_ h) (last_leaf_ h) es →
  place N L X (Y ++ Z0) iid → place N L (X ++ Y) Z0 last_iid → (length Y < fuel)%nat →
  H.*1 ⊆ pages L → room_for fd s0 (pages L) →
  (∀ H' t', holds h N H' nx t' → H'.*1 ⊆ pages L → Q Y.*2 t') →
  wp (scan_loop fuel (IxScan.mkIxScan iid last_iid)) Q E t.
Proof using HE Hlay Hs0.
  induction Y as [|e Y IH]; intros fuel H X iid t Q Hd Hta Hpl Hend Hfuel HH Hroom HQ;
    (destruct fuel as [|fuel]; [lia|]); cbn [scan_loop]; unfold IxScan.is_end; cbn [IxScan.iid_ IxScan.end_];
    pose proof (holds_facts _ _ _ _ _ _ _ _ _ _ Hd) as Hfacts; pose proof (tree_leaves _ _ _ _ _ _ _ _ _ Hta) as Hlv;
    pose proof (tree_pages _ _ _ _ _ _ _ Hta) as Hnd.
  - rewrite app_nil_r in Hend. rewrite (place_fun N L X Z0 iid last_iid Hnd) by (done || by eapply leaves_nonempty).
    rewrite bool_decide_true by done. apply wp_ret. by eapply HQ.
  - assert (iid ≠ last_iid) as Hne.
    { intros ->. destruct (place_inj N L _ _ _ _ _ Hnd Hpl Hend) as [HX _]. apply (f_equal length) in HX.
      rewrite length_app in HX. simpl in HX. lia. }
    rewrite bool_decide_false by done. cbn [app] in Hpl.
    assert (iid_page_no iid ∈ pages L) as Hin.
    { destruct iid as [p i]. destruct (place_next cols tot order Hlay N L _ _ es Hfacts Hlv Hnd X e (Y ++ Z0) p i Hpl) as (n & [o Ho] & _).
      by apply (list_elem_of_fmap_2 snd _ (o, p)). }
    apply wp_bind. unfold IxScan.rid. cbn [IxScan.iid_]. eapply wp_get_rid; [exact Hd|exact Hta|exact Hpl|by eapply room_for_sub|].
    clear t Hd. intros t Hd. apply wp_bind. eapply wp_next_step; [exact Hd|exact Hta|exact Hpl|done| |].
    { eapply room_for_sub; [|exact Hroom]. intros q [->|Hq]%elem_of_cons; [done|by apply HH]. }
    clear t Hd. intros iid' p f g t Hd -> Hpl'. apply wp_bind.
    eapply (IH fuel); [exact Hd|exact Hta|exact Hpl'|by rewrite <-(assoc_L (++))|simpl in Hfuel; lia| |done|].
    { intros q [->|[->|Hq]%elem_of_cons]%elem_of_cons; [done|done|by apply HH]. }
    intros H' t' Hd' HH'. apply wp_ret. by eapply HQ.
Qed.

End range.

(** ** The specification *)

(** The scan of the entries from the key [lo] on and below the key [hi]. *)
Definition range_scan {R} `{Replacer R} (fd : Z) (fuel : nat) (lo hi : bytes) : M (IxFileHdr * Storage R) (list Rid) :=
  let! lower := IxIndexHandle.lower_bound fd fuel lo in
  let! upper := IxIndexHandle.lower_bound fd fuel hi in
  scan_loop fd fuel (IxScan.mkIxScan lower upper).
Definition in_range (cols : list ColMeta) (lo hi : bytes) (es : list (bytes * Rid)) : list (bytes * Rid) :=
  filter (λ e, ¬ klt cols e.1 lo ∧ klt cols e.1 hi) es.

Lemma in_range_at cols lo hi (X M Y : list (bytes * Rid)) :
  (∀ e, e ∈ X → klt cols e.1 lo) → (∀ e, e ∈ M → ¬ klt cols e.1 lo ∧ klt cols e.1 hi) →
  (∀ e, e ∈ Y → ¬ klt cols e.1 hi) → in_range cols lo hi (X ++ M ++ Y) = M.
Proof.
  intros HX HM HY. unfold in_range. rewrite !filter_app.
  rewrite (filter_none _ X), (filter_all _ M), (filter_none _ Y); [by rewrite app_nil_r|..].
  - intros e He [_ ?]. by apply (HY e).
  - done.
  - intros e He [Hn _]. by apply Hn, HX.
Qed.

(** C12: On an index that has entries, with a free frame for each of its pages, since the
    scan does not unpin the leaves it comes to: two calls of [lower_bound], with plain keys of
    which the second is not before the first, and the loop over the scan between the two
    places return, or meet an error of the file system; they give the [Rid]s of the entries
    from the one key on and below the other, in the order of the keys, and leave the index
    and all other files as they are.  On the empty index [lower_bound] asks for page -1. *)
Theorem index_scan_enumerates_range {R} `{!Replacer R, !ReplacerLaws R} fd cols tot order z es lo hi fuel
    (t : IxFileHdr * Storage R) :
  layout_ok cols tot order → index fd cols tot order z t es → es ≠ [] →
  plain_key cols lo → plain_key cols hi → ¬ klt cols hi lo →
  room t.2 (Z.to_nat (get_fd2pageno (s_disk t.2) fd)) → (20 ≤ fuel)%nat → (length es < fuel)%nat →
  wp (range_scan fd fuel lo hi)
    (λ rs t', rs = (in_range cols lo hi es).*2 ∧ index fd cols tot order z t' es ∧ ∃ H, others_kept fd H t.2 t'.2)
    (λ e _, io_error e = true) t.
Proof.
  intros Hlay (N & L & up & nx & Hd & Ht & Hz) Hes Hlo Hhi Hle Hroom Hfuel Hlen.
  rewrite (hd_next _ _ _ _ _ _ _ _ _ _ Hd) in Hroom. pose proof (hd_inv _ _ _ _ _ _ _ _ _ _ Hd) as Hi.
  assert (root_page_ t.1 ≠ IX_NO_PAGE) as Hroot by (intros Hr; unfold tree in Ht; rewrite decide_True in Ht by done; by destruct Ht as (_ & ? & _)).
  pose proof (tree_height fd cols tot order Hlay t.2 _ _ _ _ _ _ _ Hd Ht) as Hup.
  pose proof (holds_facts _ _ _ _ _ _ _ _ _ _ Hd) as Hfacts.
  pose proof Ht as Hta. unfold tree in Hta. rewrite decide_False in Hta by done.
  assert (room t.2 0) as Hroom0 by (unfold room in *; lia).
  unfold range_scan. apply wp_bind.
  eapply (wp_lower_bound fd cols tot order Hlay t.2 Hi); [done|exact Hd|exact Ht|done|done|done|lia|].
  intros X1 Y1 lower t1 Hd1 HX1 HY1 Hp1. apply wp_bind.
  eapply (wp_lower_bound fd cols tot order Hlay t.2 Hi); [done|exact Hd1|exact Ht|done|done|done|lia|].
  intros X2 Y2 upper t2 Hd2 HX2 HY2 Hp2.
  pose proof (place_entries _ _ _ _ _ Hp1) as E1. pose proof (place_entries _ _ _ _ _ Hp2) as E2.
  assert (∃ M, X2 = X1 ++ M ∧ Y1 = M ++ Y2) as (M & -> & ->).
  { rewrite E1 in E2. apply app_eq_inv in E2 as [(M & HX & HY)|(M & HX & HY)]; [|by exists M].
    destruct M as [|e M]; [exists []; rewrite app_nil_r in *; by subst|]. exfalso.
    assert (e ∈ X1) as He1 by (rewrite HX; set_solver). assert (e ∈ Y2) as He2 by (rewrite HY; set_solver).
    assert (plain_key cols e.1) as Hpe by (apply (entries_plain cols order N L e Hfacts); rewrite E1; set_solver).
    destruct (klt_total cols hi e.1) as [?|[->|?]]; [done|done| | |by apply (HY2 e)].
    - apply Hle. eapply klt_trans; [done|by apply HX1].
    - by apply Hle, HX1. }
  eapply (wp_scan_loop fd cols tot order Hlay t.2 Hi); [done|exact Hd2|exact Hta|exact Hp1|exact Hp2| | | |].
  { pose proof (tr_entries _ _ _ _ _ _ _ _ _ Hta) as Ees. rewrite E1 in Ees. rewrite <-Ees, !length_app in Hlen. lia. }
  { intros q Hq. by apply elem_of_nil in Hq. }
  { eapply room_room_for; [|exact Hroom]. rewrite <-(length_seqZ 0 nx). apply submseteq_length, NoDup_submseteq; [by eapply tree_pages|].
    intros p Hp. apply list_elem_of_fmap in Hp as (it & -> & Hit). pose proof (tr_leaves _ _ _ _ _ _ _ _ _ Hta) as Hl.
    eapply Forall_forall in Hl as (n & Hn & _); [|exact Hit]. apply elem_of_seqZ.
    destruct (hd_node _ _ _ _ _ _ _ _ _ _ Hd _ _ Hn) as [? _]. lia. }
  intros H t' Hd' _. split.
  - rewrite <-(tr_entries _ _ _ _ _ _ _ _ _ Hta), E1, in_range_at; [done|done| |done].
    intros e He. split; [apply HY1; set_solver|apply HX2; set_solver].
  - apply holds_rebase in Hd' as [Hd' Hkept]. split; [|by exists H]. exists N, L, up, nx.
    rewrite (hd_hdr _ _ _ _ _ _ _ _ _ _ Hd'). done.
Qed.

(** *** Witness: an index with the keys 7 and 9 *)

#[local] Existing Instance LRU.lru_replacer.
#[local] Existing Instance LRU.lru_laws.

Definition demo_two : IxFileHdr * Storage LRU.LRUReplacer :=
  (insert_entry 3 20 (i32 9) (mkRid 1 1) (insert_entry 3 20 (i32 7) (mkRid 1 0) demo_index_state).2).2.
Definition demo_entries : list (bytes * Rid) := [(i32 7, mkRid 1 0); (i32 9, mkRid 1 1)].

Lemma insert_run es k v (t t' : IxFileHdr * Storage LRU.LRUReplacer) o :
  index 3 demo_cols 4 demo_order false t es → plain_key demo_cols k → rid_ok v → room t.2 4 →
  get_fd2pageno (s_disk t.2) 3 + 21 ≤ MAX_PAGES → insert_entry 3 20 k v t = (Ok o, t') →
  index 3 demo_cols 4 demo_order false t' (index_insert demo_cols k v es).
Proof.
  intros (N & L & up & nx & Hd & Ht & Hz) Hk Hv Hroom Hnx Hrun. rewrite (hd_next _ _ _ _ _ _ _ _ _ _ Hd) in Hnx.
  enough (wp (insert_entry 3 20 k v) (λ _ t', index 3 demo_cols 4 demo_order false t' (index_insert demo_cols k v es))
    (λ _ _, True) t) as Hwp by (unfold wp in Hwp; by rewrite Hrun in Hwp).
  eapply (wp_insert_entry 3 ltac:(vm_compute; split; [discriminate|reflexivity]) demo_cols 4 demo_order demo_layout t.2
    (hd_inv _ _ _ _ _ _ _ _ _ _ Hd)); [done|exact Hd|exact Ht|done|done|lia|done|lia|..|done].
  - intros H h' N' L' up' nx' p t1 HH Hd' Ht' Hfresh Hlos. apply holds_rebase in Hd' as [Hd' _].
    exists N', L', up', nx'. rewrite (hd_hdr _ _ _ _ _ _ _ _ _ _ Hd'). split_and!; done.
  - done.
Qed.

Lemma demo_keys n : In n [7; 8; 9; 10] → plain_key demo_cols (i32 n).
Proof.
  intros Hn. exists (i32 n), []. destruct Hn as [<-|[<-|[<-|[<-|[]]]]]; (split_and!; [done|done| |done]);
    vm_compute; (split; [done|]); repeat constructor; discriminate.
Qed.

Lemma demo_two_index : index 3 demo_cols 4 demo_order false demo_two demo_entries.
Proof.
  eapply (insert_run [(i32 7, mkRid 1 0)] (i32 9) (mkRid 1 1) (insert_entry 3 20 (i32 7) (mkRid 1 0) demo_index_state).2 demo_two).
  - eapply (insert_run [] (i32 7) (mkRid 1 0) demo_index_state); [apply demo_index_empty|apply demo_keys; by left|done| | |].
    + unfold room. vm_compute. repeat constructor.
    + vm_compute. discriminate.
    + apply run_outcome; [reflexivity|vm_compute; reflexivity].
  - apply demo_keys. right. right. by left.
  - done.
  - unfold room. vm_compute. repeat constructor.
  - vm_compute. discriminate.
  - apply run_outcome; [reflexivity|vm_compute; reflexivity].
Qed.

Lemma index_scan_enumerates_range_witness :
  wp (range_scan 3 20 (i32 8) (i32 10))
    (λ rs t', rs = (in_range demo_cols (i32 8) (i32 10) demo_entries).*2 ∧
       index 3 demo_cols 4 demo_order false t' demo_entries ∧ ∃ H, others_kept 3 H demo_two.2 t'.2)
    (λ e _, io_error e = true) demo_two ∧
  (in_range demo_cols (i32 8) (i32 10) demo_entries).*2 = [mkRid 1 1].
Proof.
  split; [|vm_compute; reflexivity].
  apply (index_scan_enumerates_range 3 demo_cols 4 demo_order false demo_entries (i32 8) (i32 10) 20 demo_two).
  - apply demo_layout.
  - apply demo_two_index.
  - discriminate.
  - apply demo_keys. right. by left.
  - apply demo_keys. right. right. right. by left.
  - vm_compute. discriminate.
  - unfold room. vm_compute. repeat constructor.
  - repeat constructor.
  - vm_compute. repeat constructor.
Defined.
