(* ===== verification/Txn.v ===== *)
(** * Transactions and lock names (src/src/transaction/txn_defs.h and transaction.h)

    A [Transaction *] is the transaction's number; the objects are in a map from the
    numbers.  The sets of index pages of a transaction, which nothing reads, and its
    thread are left out. *)
From S2P Require Import Prelude Bytes Disk Log.

Inductive TransactionState : Type := DEFAULT | GROWING | SHRINKING | COMMITTED | ABORTED.
#[export] Instance TransactionState_eq_dec : EqDecision TransactionState.
Proof. solve_decision. Defined.

(** A change of a transaction, for its rollback: the pointers are set or null. *)
Inductive WType : Type := INSERT_TUPLE | DELETE_TUPLE | UPDATE_TUPLE.
Record WriteRecord := mkWrite {
  wtype_ : WType;
  tab_name_ : bytes;
  wr_rid_ : Rid;
  record_ : option bytes;
  record_old_ : option bytes;
}.

Inductive LockDataType : Type := TABLE | RECORD.
#[export] Instance LockDataType_eq_dec : EqDecision LockDataType.
Proof. solve_decision. Defined.

Record LockDataId := mkLockId { lk_fd : Z; lk_rid : Rid; lk_type : LockDataType }.
#[export] Instance LockDataId_eq_dec : EqDecision LockDataId.
Proof. solve_decision. Defined.
#[export] Instance LockDataId_countable : Countable LockDataId.
Proof.
  refine (inj_countable'
    (λ i, (lk_fd i, page_no (lk_rid i), slot_no (lk_rid i), match lk_type i with TABLE => true | RECORD => false end))
    (λ '(fd, p, s, b), mkLockId fd (mkRid p s) (if b : bool then TABLE else RECORD)) _).
  by intros [fd [p s] []].
Defined.

(** The two constructors. *)
Definition table_id (fd : Z) : LockDataId := mkLockId fd (mkRid (-1) (-1)) TABLE.
Definition record_id (fd : Z) (rid : Rid) : LockDataId := mkLockId fd rid RECORD.

Record Transaction := mkTxn {
  txn_mode_ : bool;
  state_ : TransactionState;
  prev_lsn : Z;
  txn_id_ : Z;
  start_ts_ : Z;
  write_set_ : list WriteRecord;
  lock_set_ : gset LockDataId;
}.

(** The constructor; [txn_mode_] and [start_ts_] are not initialised. *)
Definition Transaction_new (txn_id : Z) (mode : bool) (ts : Z) : Transaction :=
  mkTxn mode DEFAULT INVALID_LSN txn_id ts [] ∅.

Definition set_state (s : TransactionState) (t : Transaction) : Transaction :=
  mkTxn (txn_mode_ t) s (prev_lsn t) (txn_id_ t) (start_ts_ t) (write_set_ t) (lock_set_ t).
Definition set_prev_lsn (l : Z) (t : Transaction) : Transaction :=
  mkTxn (txn_mode_ t) (state_ t) l (txn_id_ t) (start_ts_ t) (write_set_ t) (lock_set_ t).
Definition set_start_ts (ts : Z) (t : Transaction) : Transaction :=
  mkTxn (txn_mode_ t) (state_ t) (prev_lsn t) (txn_id_ t) ts (write_set_ t) (lock_set_ t).
Definition set_write_set (ws : list WriteRecord) (t : Transaction) : Transaction :=
  mkTxn (txn_mode_ t) (state_ t) (prev_lsn t) (txn_id_ t) (start_ts_ t) ws (lock_set_ t).
Definition append_write_record (w : WriteRecord) (t : Transaction) : Transaction :=
  set_write_set (write_set_ t ++ [w]) t.
Definition set_lock_set (l : gset LockDataId) (t : Transaction) : Transaction :=
  mkTxn (txn_mode_ t) (state_ t) (prev_lsn t) (txn_id_ t) (start_ts_ t) (write_set_ t) l.
