(* ===== verification/Lock.v ===== *)
(** * The lock manager (src/src/transaction/concurrency/lock_manager.h and .cpp)

    Transactions lock records and tables, and gaps between the keys of an index.  A lock
    name has a queue of requests; [group_mode_] sums up the granted ones.  A request that
    conflicts makes its transaction wait, if it is older (has a smaller number) than every
    other transaction of the queue, or else "die": wait-die.

    The model has the objects the code shares: queues, which outlive their entry of
    [lock_table_] as long as a thread points to them, and gaps, which a queue and a waiting
    thread share, are in stores of their own; a queue object is named by the lock it was
    made for and a number.  A call runs up to a point where its thread waits, for a latch
    or in [cv_.wait], as one step, and from there on as another ([resume]); calls of
    different transactions interleave at these points.  The code takes [latch_] for the
    accesses to [lock_table_] only and [unlock] does not take the latches of the queues, so
    on a real machine calls can also race within such a step; this is left out. *)
From S2P Require Import Prelude Bytes Disk Log Streams Meta Keys Txn.

(** ** Data *)

Inductive LockMode : Type := SHARED | EXLUCSIVE | GAP | INTENSION_SHARED | INTENSION_EXLUCSIVE.
#[export] Instance LockMode_eq_dec : EqDecision LockMode.
Proof. solve_decision. Defined.

Module GroupMode.
Inductive t : Type := NO_LOCK | S | X | GAP | TAB_X | IS | IX.
#[global] Instance eq_dec : EqDecision t.
Proof. solve_decision. Defined.
End GroupMode.
Abbreviation GroupMode := GroupMode.t.

(** A null key pointer is [None]; an [IxIndexHandle *] is the descriptor of its file. *)
Record Gap := mkGap {
  lower_key_ : option bytes;
  upper_key_ : option bytes;
  index_meta_ : IndexMeta;
  conds_ : list Condition;
  gap_ih_ : Z;
  conflicted : bool;
}.

(** [rq_id] names the request object, [gaps] the gap objects. *)
Record LockRequest := mkRequest {
  rq_id : Z;
  rq_txn : Z;
  lock_mode_ : LockMode;
  granted_ : bool;
  gaps : list Z;
}.

Record InsertKey := mkInsertKey {
  ik_id : Z;
  insert_key : bytes;
  indexMeta : IndexMeta;
  ik_txn : Z;
  ik_rid : Rid;
  ik_ih_ : Z;
  is_waited : bool;
}.

(** [latched]: a waiting thread holds the queue's [latch_]. *)
Record LockRequestQueue := mkQueue {
  request_queue_ : list LockRequest;
  latched : bool;
  upgrading_ : Z;
  group_mode_ : GroupMode;
  insert_keys_ : list InsertKey;
}.
Definition new_queue : LockRequestQueue := mkQueue [] false INVALID_TXN_ID GroupMode.NO_LOCK [].

Abbreviation qid := (LockDataId * Z)%type.

(** The lock table, with null pointers as [None], the stores of the queues and gaps, and
    the transactions.  [next_] names the next object. *)
Record LockManager := mkLocks {
  lock_table_ : gmap LockDataId (option Z);
  queues : gmap qid LockRequestQueue;
  gap_store : gmap Z Gap;
  next_ : Z;
  txns : gmap Z Transaction;
}.
Abbreviation LM := (M LockManager).

(** *** Fields *)

Definition set_requests (l : list LockRequest) (q : LockRequestQueue) : LockRequestQueue :=
  mkQueue l (latched q) (upgrading_ q) (group_mode_ q) (insert_keys_ q).
Definition set_latched (b : bool) (q : LockRequestQueue) : LockRequestQueue :=
  mkQueue (request_queue_ q) b (upgrading_ q) (group_mode_ q) (insert_keys_ q).
Definition set_upgrading (t : Z) (q : LockRequestQueue) : LockRequestQueue :=
  mkQueue (request_queue_ q) (latched q) t (group_mode_ q) (insert_keys_ q).
Definition set_group (g : GroupMode) (q : LockRequestQueue) : LockRequestQueue :=
  mkQueue (request_queue_ q) (latched q) (upgrading_ q) g (insert_keys_ q).
Definition set_keys (l : list InsertKey) (q : LockRequestQueue) : LockRequestQueue :=
  mkQueue (request_queue_ q) (latched q) (upgrading_ q) (group_mode_ q) l.

Definition set_granted (b : bool) (r : LockRequest) : LockRequest :=
  mkRequest (rq_id r) (rq_txn r) (lock_mode_ r) b (gaps r).
Definition set_mode (m : LockMode) (r : LockRequest) : LockRequest :=
  mkRequest (rq_id r) (rq_txn r) m (granted_ r) (gaps r).
Definition push_gap (g : Z) (r : LockRequest) : LockRequest :=
  mkRequest (rq_id r) (rq_txn r) (lock_mode_ r) (granted_ r) (gaps r ++ [g]).
Definition set_conflicted (b : bool) (g : Gap) : Gap :=
  mkGap (lower_key_ g) (upper_key_ g) (index_meta_ g) (conds_ g) (gap_ih_ g) b.
Definition set_bounds (lo hi : bytes) (g : Gap) : Gap :=
  mkGap (Some lo) (Some hi) (index_meta_ g) (conds_ g) (gap_ih_ g) (conflicted g).
Definition set_waited (b : bool) (k : InsertKey) : InsertKey :=
  mkInsertKey (ik_id k) (insert_key k) (indexMeta k) (ik_txn k) (ik_rid k) (ik_ih_ k) b.

(** Changing the request object [id] of a queue; pushing one behind. *)
Definition upd_request (id : Z) (f : LockRequest → LockRequest) (q : LockRequestQueue) : LockRequestQueue :=
  set_requests ((λ r, if rq_id r =? id then f r else r) <$> request_queue_ q) q.
Definition push_request (r : LockRequest) (q : LockRequestQueue) : LockRequestQueue :=
  set_requests (request_queue_ q ++ [r]) q.

Definition set_lock_table (t : gmap LockDataId (option Z)) (s : LockManager) : LockManager :=
  mkLocks t (queues s) (gap_store s) (next_ s) (txns s).
Definition set_queues (m : gmap qid LockRequestQueue) (s : LockManager) : LockManager :=
  mkLocks (lock_table_ s) m (gap_store s) (next_ s) (txns s).
Definition set_gaps (m : gmap Z Gap) (s : LockManager) : LockManager :=
  mkLocks (lock_table_ s) (queues s) m (next_ s) (txns s).
Definition set_next (n : Z) (s : LockManager) : LockManager :=
  mkLocks (lock_table_ s) (queues s) (gap_store s) n (txns s).
Definition set_txns (m : gmap Z Transaction) (s : LockManager) : LockManager :=
  mkLocks (lock_table_ s) (queues s) (gap_store s) (next_ s) m.

Definition get_queue (q : qid) : LM LockRequestQueue :=
  let! o := gets (λ s, queues s !! q) in of_option o.
Definition mod_queue (q : qid) (f : LockRequestQueue → LockRequestQueue) : LM unit :=
  let! v := get_queue q in modify (λ s, set_queues (<[q := f v]> (queues s)) s).
Definition get_gap (g : Z) : LM Gap := let! o := gets (λ s, gap_store s !! g) in of_option o.
Definition mod_gap (g : Z) (f : Gap → Gap) : LM unit :=
  let! v := get_gap g in modify (λ s, set_gaps (<[g := f v]> (gap_store s)) s).
Definition fresh : LM Z :=
  let! n := gets next_ in do! modify (set_next (n + 1)) in ret n.
Definition get_txn (t : Z) : LM Transaction := let! o := gets (λ s, txns s !! t) in of_option o.
Definition mod_txn (t : Z) (f : Transaction → Transaction) : LM unit :=
  let! v := get_txn t in modify (λ s, set_txns (<[t := f v]> (txns s)) s).
(** [txn->get_lock_set()->emplace(id)] *)
Definition emplace (txn : Z) (id : LockDataId) : LM unit :=
  mod_txn txn (λ t, set_lock_set ({[id]} ∪ lock_set_ t) t).

(** A loop that looks for an element and breaks when it has found one. *)
Fixpoint any_ok {A} (p : A → outcome bool) (l : list A) : outcome bool :=
  match l with
  | [] => Ok false
  | a :: l => match p a with Ok true => Ok true | Ok false => any_ok p l | o => o end
  end.

(** ** Requests and conflicts *)

(** [std::find_if] for the transaction's request. *)
Definition find_request (txn : Z) (q : LockRequestQueue) : option LockRequest :=
  snd <$> list_find (λ r, rq_txn r = txn) (request_queue_ q).
Definition granted_to_other (txn : Z) (q : LockRequestQueue) : bool :=
  existsb (λ r, granted_ r && negb (rq_txn r =? txn)) (request_queue_ q).
Definition exclusive_to_other (txn : Z) (q : LockRequestQueue) : bool :=
  existsb (λ r, granted_ r && negb (rq_txn r =? txn) && bool_decide (lock_mode_ r = EXLUCSIVE))
    (request_queue_ q).

(** The key lies strictly between the bounds of the gap. *)
Definition inside (key : bytes) (cols : list ColMeta) (g : Gap) : outcome bool :=
  match lower_key_ g, upper_key_ g with
  | Some lo, Some hi =>
      match ix_compare key lo cols with
      | Ok c =>
          if c >? 0 then
            match ix_compare hi key cols with Ok c' => Ok (c' >? 0) | Throw e => Throw e | Stuck => Stuck end
          else Ok false
      | Throw e => Throw e
      | Stuck => Stuck
      end
  | _, _ => Ok false
  end.

(** The conflict of the insert key [k] with a gap of transaction [t], as the lock calls test
    it (by the index's descriptor) and as [grant_lock] does (by its metadata). *)
Definition key_in_gap (k : InsertKey) (t : Z) (g : Gap) : outcome bool :=
  if negb (ik_txn k =? t) && (ik_ih_ k =? gap_ih_ g)
  then inside (insert_key k) (ix_cols (indexMeta k)) g else Ok false.
Definition waits_for_key (k : InsertKey) (t : Z) (g : Gap) : outcome bool :=
  if is_waited k then Ok false else key_in_gap k t g.
Definition key_in_gap_meta (k : InsertKey) (t : Z) (g : Gap) : outcome bool :=
  if negb (is_waited k) && negb (ik_txn k =? t) && bool_decide (indexMeta k = index_meta_ g)
  then inside (insert_key k) (ix_cols (indexMeta k)) g else Ok false.

(** Some gap of a request of the queue holds the key; [m] is the store of the gaps. *)
Definition gap_of (m : gmap Z Gap) (g : Z) : outcome Gap :=
  match m !! g with Some v => Ok v | None => Stuck end.
Definition key_conflicts (m : gmap Z Gap) (k : InsertKey) (q : LockRequestQueue) : outcome bool :=
  any_ok (λ r, any_ok (λ g, match gap_of m g with Ok v => key_in_gap k (rq_txn r) v | Throw e => Throw e | Stuck => Stuck end)
                 (gaps r))
    (request_queue_ q).

(** A gap that is not in conflict counts as held, in a queue whose mode is [GAP]. *)
Definition holds_gap (m : gmap Z Gap) (r : LockRequest) : bool :=
  existsb (λ g, match m !! g with Some v => negb (conflicted v) | None => false end) (gaps r).
Definition table_held_by_other (m : gmap Z Gap) (txn : Z) (q : LockRequestQueue) : bool :=
  existsb (λ r,
    negb (rq_txn r =? txn) &&
    (granted_ r ||
     bool_decide (group_mode_ q = GroupMode.GAP) && bool_decide (lock_mode_ r = GAP) && holds_gap m r))
    (request_queue_ q).

Definition drop_txn_keys (txn : Z) (q : LockRequestQueue) : LockRequestQueue :=
  set_keys (filter (λ k, ik_txn k ≠ txn) (insert_keys_ q)) q.

(** [wait_die]: with an older transaction in the queue, give up and die. *)
Definition wait_die (q : qid) (txn : Z) : LM unit :=
  let! v := get_queue q in
  if existsb (λ r, txn >? rq_txn r) (request_queue_ v) then
    do! mod_txn txn (set_state ABORTED) in
    do! mod_queue q (λ v,
      drop_txn_keys txn
        (set_requests (filter (λ r, rq_txn r ≠ txn) (request_queue_ v))
          (if upgrading_ v =? txn then set_upgrading INVALID_TXN_ID v else v))) in
    throw (TransactionAbortException txn DEADLOCK_PREVENTION)
  else ret tt.

(** ** Waiting *)

(** The places where a thread waits: for a latch before the body of a call, or in
    [cv_.wait], named after what the code does when it goes on. *)
Inductive call : Type :=
  | CShared (q : qid)
  | CExclusive (qr qt : qid) (key : bytes) (meta : IndexMeta) (rid : Rid) (ih : Z)
  | CGap (q : qid) (g : Z)
  | CIS (q : qid)
  | CIX (q : qid)
  | CTableX (q : qid).

Inductive wait_point : Type :=
  | AtLatch (c : call)
  | AtTableLatch (qr qt : qid) (k : Z)   (* exclusive lock: has the record queue's latch *)
  | SharedAgain (q : qid) (r : Z)
  | SharedNew (q : qid) (r : Z)
  | Upgrading (q : qid) (r : Z)
  | ExclusiveNew (qr qt : qid) (r : Z)
  | GapLatched (q : qid) (g : Z)          (* holds the queue's latch *)
  | GapLatchedNew (q : qid) (g : Z)       (* the same, with a new request *)
  | GapFirst (q : qid) (g : Z)
  | GapNew (q : qid) (g : Z)
  | ISAgain (q : qid) (r : Z)
  | ISNew (q : qid) (r : Z)
  | IXAgain (q : qid) (r : Z)
  | IXNew (q : qid) (r : Z)
  | TableUpgrading (q : qid) (r : Z)
  | TableXNew (q : qid) (r : Z).

Inductive lock_result : Type := Returned (b : bool) | Waits (w : wait_point).

Definition call_queue (c : call) : qid :=
  match c with
  | CShared q | CExclusive q _ _ _ _ _ | CGap q _ | CIS q | CIX q | CTableX q => q
  end.

Definition latch_free (q : qid) (s : LockManager) : bool :=
  match queues s !! q with Some v => negb (latched v) | None => false end.
Definition is_granted (q : qid) (r : Z) (s : LockManager) : bool :=
  match queues s !! q with
  | Some v => existsb (λ x, (rq_id x =? r) && granted_ x) (request_queue_ v)
  | None => false
  end.
Definition gap_free (g : Z) (s : LockManager) : bool :=
  match gap_store s !! g with Some v => negb (conflicted v) | None => false end.

(** What the thread waits for. *)
Definition ready (w : wait_point) (s : LockManager) : bool :=
  match w with
  | AtLatch c => latch_free (call_queue c) s
  | AtTableLatch _ qt _ => latch_free qt s
  | SharedAgain q r | SharedNew q r | Upgrading q r | ExclusiveNew q _ r | ISAgain q r | ISNew q r
  | IXAgain q r | IXNew q r | TableUpgrading q r | TableXNew q r => is_granted q r s
  | GapLatched _ g | GapLatchedNew _ g | GapFirst _ g | GapNew _ g => gap_free g s
  end.

Definition returned (b : bool) : LM lock_result := ret (Returned b).

Definition end_upgrade (txn : Z) (v : LockRequestQueue) : LockRequestQueue :=
  if upgrading_ v =? txn then set_upgrading INVALID_TXN_ID v else v.

(** The code behind [cv_.wait]. *)
Definition wake (txn : Z) (w : wait_point) : LM lock_result :=
  match w with
  | SharedAgain q _ =>
      do! mod_queue q (λ v, set_group (if decide (group_mode_ v = GroupMode.X) then group_mode_ v else GroupMode.S) v) in
      returned true
  | SharedNew q _ => do! emplace txn q.1 in returned true
  | Upgrading q _ => do! mod_queue q (λ v, end_upgrade txn (set_group GroupMode.X v)) in returned true
  | ExclusiveNew qr qt _ =>
      do! mod_queue qr (set_group GroupMode.X) in
      do! emplace txn qr.1 in
      do! emplace txn qt.1 in
      returned true
  | GapLatched q _ => do! mod_queue q (set_latched false) in returned true
  | GapLatchedNew q _ => do! mod_queue q (set_latched false) in do! emplace txn q.1 in returned true
  | GapFirst q _ =>
      do! mod_queue q (set_group GroupMode.GAP) in do! emplace txn q.1 in returned true
  | GapNew q _ => do! emplace txn q.1 in returned true
  | ISAgain q _ =>
      do! mod_queue q (λ v, if decide (group_mode_ v = GroupMode.NO_LOCK) then set_group GroupMode.IS v else v) in
      returned true
  | ISNew q _ | IXNew q _ => do! emplace txn q.1 in returned true
  | IXAgain q r =>
      do! mod_queue q (λ v,
        if decide (group_mode_ v = GroupMode.GAP) then v
        else set_group (if existsb (λ x, (rq_id x =? r) && bool_decide (lock_mode_ x = GAP)) (request_queue_ v)
                        then GroupMode.GAP else GroupMode.IX) v) in
      returned true
  | TableUpgrading q _ => do! mod_queue q (λ v, end_upgrade txn (set_group GroupMode.TAB_X v)) in returned true
  | TableXNew q _ =>
      do! mod_queue q (set_group GroupMode.TAB_X) in do! emplace txn q.1 in returned true
  | AtLatch _ | AtTableLatch _ _ _ => stuck
  end.

(** [cv_.wait]: goes on at once if there is nothing to wait for. *)
Definition park (txn : Z) (w : wait_point) : LM lock_result := λ s,
  if ready w s then wake txn w s else (Ok (Waits w), s).

(** ** The lock calls *)

(** [ABORTED] returns false, [SHRINKING] aborts. *)
Definition guarded (txn : Z) (m : LM lock_result) : LM lock_result :=
  let! t := get_txn txn in
  match state_ t with
  | ABORTED => returned false
  | SHRINKING =>
      do! mod_txn txn (set_state ABORTED) in
      throw (TransactionAbortException txn LOCK_ON_SHIRINKING)
  | _ => m
  end.

(** Finds or creates the queue of a lock. *)
Definition find_or_create (id : LockDataId) : LM qid :=
  let! o := gets (λ s, lock_table_ s !! id) in
  match o with
  | Some (Some n) => ret (id, n)
  | _ =>
      let! n := fresh in
      do! modify (λ s, set_queues (<[(id, n) := new_queue]> (queues s)) s) in
      do! modify (λ s, set_lock_table (<[id := Some n]> (lock_table_ s)) s) in
      ret (id, n)
  end.

(** *** Shared lock on a record *)

Definition shared_body (txn : Z) (q : qid) : LM lock_result :=
  let! v := get_queue q in
  let grant r := do! mod_queue q (upd_request (rq_id r) (set_granted true)) in returned true in
  let new :=
    let! id := fresh in
    do! mod_queue q (push_request (mkRequest id txn SHARED false [])) in
    if decide (group_mode_ v = GroupMode.X) then
      do! wait_die q txn in park txn (SharedNew q id)
    else
      do! mod_queue q (λ v, set_group GroupMode.S (upd_request id (set_granted true) v)) in
      do! emplace txn q.1 in returned true in
  match find_request txn v with
  | None => new
  | Some it =>
      match group_mode_ v with
      | GroupMode.X =>
          if exclusive_to_other txn v then
            do! mod_queue q (upd_request (rq_id it) (set_granted false)) in
            do! wait_die q txn in park txn (SharedAgain q (rq_id it))
          else grant it
      | GroupMode.S => grant it
      | _ => new
      end
  end.

(** *** Exclusive lock on a record, with the key it adds to an index *)

(** The table queue's mode is read again only to die there, too. *)
Definition die_on_gap (qt : qid) (txn : Z) : LM unit :=
  let! vt := get_queue qt in
  if decide (group_mode_ vt = GroupMode.GAP) then wait_die qt txn else ret tt.

Definition exclusive_body (txn : Z) (qr qt : qid) (k : InsertKey) : LM lock_result :=
  let! vt := get_queue qt in
  let! m := gets gap_store in
  let! waited := of_outcome (key_conflicts m k vt) in
  do! mod_queue qt (λ v, set_keys ((λ x, if ik_id x =? ik_id k then set_waited (is_waited x || waited) x else x)
                                    <$> insert_keys_ v) v) in
  let! v := get_queue qr in
  let new :=
    let! id := fresh in
    do! mod_queue qr (push_request (mkRequest id txn EXLUCSIVE false [])) in
    let take :=
      do! mod_queue qr (λ v, set_group GroupMode.X (upd_request id (set_granted true) v)) in
      do! emplace txn qr.1 in
      do! emplace txn qt.1 in
      returned true in
    match request_queue_ v with
    | [] =>
        if waited then
          do! die_on_gap qt txn in do! wait_die qr txn in park txn (ExclusiveNew qr qt id)
        else take
    | _ =>
        if negb (granted_to_other txn v) && negb waited then take
        else do! wait_die qr txn in do! die_on_gap qt txn in park txn (ExclusiveNew qr qt id)
    end in
  match find_request txn v with
  | None => new
  | Some it =>
      match lock_mode_ it with
      | SHARED =>
          if negb (upgrading_ v =? INVALID_TXN_ID) then
            do! mod_txn txn (set_state ABORTED) in
            throw (TransactionAbortException txn UPGRADE_CONFLICT)
          else
            do! mod_queue qr (set_upgrading txn) in
            if granted_to_other txn v || waited then
              do! mod_queue qr (upd_request (rq_id it) (λ r, set_mode EXLUCSIVE (set_granted false r))) in
              do! wait_die qr txn in
              do! die_on_gap qt txn in
              park txn (Upgrading qr (rq_id it))
            else
              do! mod_queue qr (λ v, end_upgrade txn
                (set_group GroupMode.X (upd_request (rq_id it) (λ r, set_mode EXLUCSIVE (set_granted true r)) v))) in
              returned true
      | EXLUCSIVE => returned true
      | _ => new
      end
  end.

(** The insert key is in the table's queue before the table's latch is asked for. *)
Definition exclusive_start (txn : Z) (qr qt : qid) (key : bytes) (meta : IndexMeta) (rid : Rid) (ih : Z) :
    LM lock_result :=
  let! id := fresh in
  let k := mkInsertKey id key meta txn rid ih false in
  do! mod_queue qt (λ v, set_keys (insert_keys_ v ++ [k]) v) in
  let! free := gets (latch_free qt) in
  if free then exclusive_body txn qr qt k
  else do! mod_queue qr (set_latched true) in ret (Waits (AtTableLatch qr qt id)).

(** *** Gap lock on a table *)

Definition other_key_in (m : gmap Z Gap) (g : Z) (txn : Z) (v : LockRequestQueue) : outcome bool :=
  match gap_of m g with
  | Ok gap => any_ok (λ k, waits_for_key k txn gap) (insert_keys_ v)
  | Throw e => Throw e
  | Stuck => Stuck
  end.

Definition gap_body (txn : Z) (q : qid) (g : Z) : LM lock_result :=
  do! mod_queue q (λ v, if decide (group_mode_ v = GroupMode.TAB_X) then v else set_group GroupMode.GAP v) in
  let! v := get_queue q in
  let! m := gets gap_store in
  let push it := mod_queue q (upd_request (rq_id it) (push_gap g)) in
  let mode it := mod_queue q (upd_request (rq_id it) (set_mode GAP)) in
  (* waits with the queue's latch *)
  let wait_latched w :=
    do! wait_die q txn in
    do! mod_queue q (set_latched true) in
    park txn w in
  match find_request txn v with
  | Some it =>
      if decide (group_mode_ v = GroupMode.TAB_X) then
        if exclusive_to_other txn v then
          do! mode it in
          do! mod_gap g (set_conflicted true) in
          do! push it in
          wait_latched (GapLatched q g)
        else do! push it in returned true
      else
        do! mode it in
        let! c := of_outcome (other_key_in m g txn v) in
        if c then
          do! mod_gap g (set_conflicted true) in
          do! push it in
          wait_latched (GapLatched q g)
        else do! push it in returned true
  | None =>
      let! id := fresh in
      do! mod_queue q (push_request (mkRequest id txn GAP false [g])) in
      if decide (request_queue_ v = [] ) then
        let! c := of_outcome (other_key_in m g txn v) in
        if c then
          do! mod_gap g (set_conflicted true) in
          do! wait_die q txn in
          park txn (GapFirst q g)
        else
          do! mod_queue q (set_group GroupMode.GAP) in do! emplace txn q.1 in returned true
      else if decide (group_mode_ v = GroupMode.TAB_X) then
        do! mod_gap g (set_conflicted true) in
        do! mod_queue q (upd_request id (push_gap g)) in
        wait_latched (GapLatchedNew q g)
      else
        let! c := of_outcome (other_key_in m g txn v) in
        if c then
          do! mod_gap g (set_conflicted true) in
          do! wait_die q txn in
          park txn (GapNew q g)
        else do! emplace txn q.1 in returned true
  end.

(** *** Intention locks on a table *)

Definition IS_body (txn : Z) (q : qid) : LM lock_result :=
  let! v := get_queue q in
  let grant r := do! mod_queue q (upd_request (rq_id r) (set_granted true)) in returned true in
  let new :=
    let! id := fresh in
    let r := mkRequest id txn INTENSION_SHARED false [] in
    if decide (request_queue_ v = []) then
      do! mod_queue q (λ v, set_group GroupMode.IS (push_request (set_granted true r) v)) in
      do! emplace txn q.1 in returned true
    else
      do! mod_queue q (push_request r) in
      match group_mode_ v with
      | GroupMode.GAP | GroupMode.IS | GroupMode.IX =>
          do! mod_queue q (upd_request id (set_granted true)) in
          do! emplace txn q.1 in returned true
      | GroupMode.TAB_X => do! wait_die q txn in park txn (ISNew q id)
      | _ => stuck   (* the function ends without a [return] *)
      end in
  match find_request txn v with
  | None => new
  | Some it =>
      match group_mode_ v with
      | GroupMode.GAP | GroupMode.IS | GroupMode.IX => grant it
      | GroupMode.TAB_X =>
          if exclusive_to_other txn v then
            do! mod_queue q (upd_request (rq_id it) (set_granted false)) in
            do! wait_die q txn in park txn (ISAgain q (rq_id it))
          else grant it
      | _ => new
      end
  end.

Definition IX_body (txn : Z) (q : qid) : LM lock_result :=
  let! v := get_queue q in
  let new :=
    let! id := fresh in
    let r := mkRequest id txn INTENSION_EXLUCSIVE false [] in
    if decide (request_queue_ v = []) then
      do! mod_queue q (λ v, set_group GroupMode.IX (push_request (set_granted true r) v)) in
      do! emplace txn q.1 in returned true
    else
      do! mod_queue q (push_request r) in
      match group_mode_ v with
      | GroupMode.GAP | GroupMode.IX =>
          do! mod_queue q (upd_request id (set_granted true)) in
          do! emplace txn q.1 in returned true
      | GroupMode.IS =>
          do! mod_queue q (λ v, set_group GroupMode.IX (upd_request id (set_granted true) v)) in
          do! emplace txn q.1 in returned true
      | GroupMode.TAB_X => do! wait_die q txn in park txn (IXNew q id)
      | _ => do! emplace txn q.1 in returned true   (* not granted, and yet *)
      end in
  match find_request txn v with
  | None => new
  | Some it =>
      match group_mode_ v with
      | GroupMode.GAP | GroupMode.IX =>
          do! mod_queue q (upd_request (rq_id it) (λ r,
            set_granted true
              (if decide (lock_mode_ r = INTENSION_SHARED) then set_mode INTENSION_EXLUCSIVE r else r))) in
          returned true
      | GroupMode.IS =>
          do! mod_queue q (λ v, set_group GroupMode.IX
            (upd_request (rq_id it) (λ r, set_mode INTENSION_EXLUCSIVE (set_granted true r)) v)) in
          returned true
      | GroupMode.TAB_X =>
          if exclusive_to_other txn v then
            do! mod_queue q (upd_request (rq_id it) (λ r,
              set_mode (if decide (lock_mode_ r = GAP) then GAP else INTENSION_EXLUCSIVE) (set_granted false r))) in
            do! wait_die q txn in park txn (IXAgain q (rq_id it))
          else
            do! mod_queue q (upd_request (rq_id it) (set_granted true)) in returned true
      | _ => new
      end
  end.

(** *** Exclusive lock on a table *)

Definition table_X_body (txn : Z) (q : qid) : LM lock_result :=
  let! v := get_queue q in
  let! m := gets gap_store in
  match find_request txn v with
  | Some it =>
      if negb (upgrading_ v =? INVALID_TXN_ID) then
        do! mod_txn txn (set_state ABORTED) in
        throw (TransactionAbortException txn UPGRADE_CONFLICT)
      else
        do! mod_queue q (set_upgrading txn) in
        if table_held_by_other m txn v then
          do! mod_queue q (upd_request (rq_id it) (λ r, set_mode EXLUCSIVE (set_granted false r))) in
          do! wait_die q txn in park txn (TableUpgrading q (rq_id it))
        else
          do! mod_queue q (λ v, end_upgrade txn
            (set_group GroupMode.TAB_X (upd_request (rq_id it) (λ r, set_mode EXLUCSIVE (set_granted true r)) v))) in
          returned true
  | None =>
      let! id := fresh in
      let r := mkRequest id txn EXLUCSIVE false [] in
      let take :=
        do! mod_queue q (λ v, set_group GroupMode.TAB_X (upd_request id (set_granted true) v)) in
        do! emplace txn q.1 in returned true in
      do! mod_queue q (push_request r) in
      if decide (request_queue_ v = []) then take
      else if decide (group_mode_ v = GroupMode.NO_LOCK) then take
      else do! wait_die q txn in park txn (TableXNew q id)
  end.

(** *** The calls *)

(** The body of a call, once its queue's latch is free. *)
Definition call_body (txn : Z) (c : call) : LM lock_result :=
  match c with
  | CShared q => shared_body txn q
  | CExclusive qr qt key meta rid ih => exclusive_start txn qr qt key meta rid ih
  | CGap q g => gap_body txn q g
  | CIS q => IS_body txn q
  | CIX q => IX_body txn q
  | CTableX q => table_X_body txn q
  end.
Definition enter (txn : Z) (c : call) : LM lock_result := λ s,
  if latch_free (call_queue c) s then call_body txn c s else (Ok (Waits (AtLatch c)), s).

Definition lock_shared_on_record (txn : Z) (rid : Rid) (tab_fd : Z) : LM lock_result :=
  guarded txn (let! q := find_or_create (record_id tab_fd rid) in enter txn (CShared q)).
Definition lock_exclusive_on_record (txn : Z) (rid : Rid) (tab_fd : Z) : LM lock_result := returned true.
Definition lock_exclusive_on_record_gap (txn : Z) (rid : Rid) (tab_fd : Z) (key : bytes)
    (indexMeta : IndexMeta) (ih : Z) : LM lock_result :=
  guarded txn
    (let! qr := find_or_create (record_id tab_fd rid) in
     let! qt := find_or_create (table_id tab_fd) in
     enter txn (CExclusive qr qt key indexMeta rid ih)).
Definition lock_GAP_on_table (txn : Z) (tab_fd : Z) (lower_key upper_key : option bytes)
    (index_meta : IndexMeta) (conds : list Condition) (ih : Z) : LM lock_result :=
  guarded txn
    (let! g := fresh in
     do! modify (λ s, set_gaps (<[g := mkGap lower_key upper_key index_meta conds ih false]> (gap_store s)) s) in
     let! q := find_or_create (table_id tab_fd) in
     enter txn (CGap q g)).
Definition lock_IS_on_table (txn : Z) (tab_fd : Z) : LM lock_result :=
  guarded txn (let! q := find_or_create (table_id tab_fd) in enter txn (CIS q)).
Definition lock_IX_on_table (txn : Z) (tab_fd : Z) : LM lock_result :=
  guarded txn (let! q := find_or_create (table_id tab_fd) in enter txn (CIX q)).
Definition lock_exclusive_on_table (txn : Z) (tab_fd : Z) : LM lock_result :=
  guarded txn (let! q := find_or_create (table_id tab_fd) in enter txn (CTableX q)).

(** A waiting thread goes on. *)
Definition resume (txn : Z) (w : wait_point) : LM lock_result := λ s,
  if ready w s then
    match w with
    | AtLatch c => call_body txn c s
    | AtTableLatch qr qt id =>
        (do! mod_queue qr (set_latched false) in
         let! vt := get_queue qt in
         let! k := of_option (snd <$> list_find (λ k, ik_id k = id) (insert_keys_ vt)) in
         exclusive_body txn qr qt k) s
    | w => wake txn w s
    end
  else (Ok (Waits w), s).

(** ** Releasing *)

(** Granting within a queue works on the queue and the gaps. *)
Abbreviation QG := (M (LockRequestQueue * gmap Z Gap)).
Definition mod_q (f : LockRequestQueue → LockRequestQueue) : QG unit := modify (λ s, (f s.1, s.2)).

(** Gaps in conflict that no longer are; true if there is one. *)
Fixpoint recheck_gaps (txn : Z) (gs : list Z) : QG bool :=
  match gs with
  | [] => ret false
  | g :: gs =>
      let! gap := (let! o := gets (λ s, s.2 !! g) in of_option o) in
      let! keys := gets (λ s, insert_keys_ s.1) in
      let! is_conflict := of_outcome (any_ok (λ k, key_in_gap_meta k txn gap) keys) in
      let free := negb is_conflict && conflicted gap in
      do! (if free then modify (λ s, (s.1, <[g := set_conflicted false gap]> s.2)) else ret tt) in
      let! b := recheck_gaps txn gs in
      ret (free || b)
  end.

Definition get_request (id : Z) : QG LockRequest :=
  let! l := gets (λ s, request_queue_ s.1) in
  of_option (snd <$> list_find (λ r, rq_id r = id) l).
Definition grant_request (id : Z) : QG unit := mod_q (upd_request id (set_granted true)).
Definition get_group : QG GroupMode := gets (λ s, group_mode_ s.1).

(** A request that is not granted, by its mode; the answer is [is_granted]. *)
Definition grant_waiting (type : LockDataType) (id : Z) (r : LockRequest) : QG bool :=
  let! group := get_group in
  match type, lock_mode_ r with
  | TABLE, EXLUCSIVE =>
      if decide (group = GroupMode.NO_LOCK)
      then do! grant_request id in do! mod_q (set_group GroupMode.TAB_X) in ret true
      else ret false
  | TABLE, INTENSION_SHARED =>
      if decide (group = GroupMode.TAB_X) then ret false
      else
        do! grant_request id in
        do! (if decide (group = GroupMode.NO_LOCK) then mod_q (set_group GroupMode.IS) else ret tt) in
        ret true
  | TABLE, INTENSION_EXLUCSIVE =>
      if decide (group = GroupMode.TAB_X) then ret false
      else
        do! grant_request id in
        do! (match group with
             | GroupMode.NO_LOCK | GroupMode.IS => mod_q (set_group GroupMode.IX)
             | _ => ret tt end) in
        ret true
  | TABLE, GAP =>
      if decide (group = GroupMode.TAB_X) then ret false else recheck_gaps (rq_txn r) (gaps r)
  | RECORD, SHARED =>
      if decide (group = GroupMode.X) then ret false
      else do! grant_request id in do! mod_q (set_group GroupMode.S) in ret false
  | _, _ => ret false
  end.
(** A granted request with gap locks: its gaps, and the mode of the queue. *)
Definition grant_gaps (type : LockDataType) (is_granted : bool) (r : LockRequest) : QG bool :=
  match type, lock_mode_ r with
  | TABLE, GAP =>
      if granted_ r then
        let! b := recheck_gaps (rq_txn r) (gaps r) in
        let is_granted := is_granted || b in
        let! group := get_group in
        do! (if is_granted && negb (bool_decide (group = GroupMode.TAB_X))
             then mod_q (set_group GroupMode.GAP) else ret tt) in
        ret is_granted
      else ret is_granted
  | _, _ => ret is_granted
  end.
(** The transaction that waits to upgrade its table lock. *)
Definition grant_upgrade (type : LockDataType) (id : Z) (is_granted : bool) (r : LockRequest) : QG unit :=
  let! s := gets (λ s, s) in
  match type with
  | TABLE =>
      if negb is_granted && (rq_txn r =? upgrading_ s.1) && negb (table_held_by_other s.2 (rq_txn r) s.1)
      then do! grant_request id in mod_q (set_group GroupMode.TAB_X) else ret tt
  | RECORD => ret tt
  end.
(** One round of the loop of [grant_lock]. *)
Definition grant_one (type : LockDataType) (id : Z) : QG unit :=
  let! r := get_request id in
  let! is_granted := if granted_ r then ret false else grant_waiting type id r in
  let! r := get_request id in
  let! is_granted := grant_gaps type is_granted r in
  grant_upgrade type id is_granted r.
Fixpoint grant_loop (type : LockDataType) (ids : list Z) : QG unit :=
  match ids with
  | [] => ret tt
  | id :: ids => do! grant_one type id in grant_loop type ids
  end.
Definition on_queue {A} (q : qid) (m : QG A) : LM A := λ s,
  match queues s !! q with
  | None => (Stuck, s)
  | Some v => let '(o, (v', g)) := m (v, gap_store s) in (o, set_gaps g (set_queues (<[q := v']> (queues s)) s))
  end.
Definition grant_lock (q : qid) (type : LockDataType) : LM unit :=
  on_queue q (let! l := gets (λ s, request_queue_ s.1) in grant_loop type (rq_id <$> l)).

(** The mode a queue has by its requests. *)
Fixpoint record_group (l : list LockRequest) (group_lock : GroupMode) : GroupMode :=
  match l with
  | [] => group_lock
  | r :: l =>
      record_group l
        (if granted_ r then
           match lock_mode_ r with
           | EXLUCSIVE => GroupMode.X
           | SHARED => if decide (group_lock = GroupMode.NO_LOCK) then GroupMode.S else group_lock
           | _ => group_lock
           end
         else group_lock)
  end.
Fixpoint table_group (m : gmap Z Gap) (l : list LockRequest) (group_lock : GroupMode) : GroupMode :=
  match l with
  | [] => group_lock
  | r :: l =>
      let group_lock :=
        if bool_decide (lock_mode_ r = GAP) && negb (bool_decide (group_lock = GroupMode.TAB_X)) && holds_gap m r
        then GroupMode.GAP else group_lock in
      table_group m l
        (if granted_ r then
           match lock_mode_ r with
           | EXLUCSIVE => GroupMode.TAB_X
           | INTENSION_EXLUCSIVE =>
               match group_lock with GroupMode.TAB_X | GroupMode.GAP => group_lock | _ => GroupMode.IX end
           | INTENSION_SHARED => if decide (group_lock = GroupMode.NO_LOCK) then GroupMode.IS else group_lock
           | _ => group_lock
           end
         else group_lock)
  end.
Definition regroup (type : LockDataType) (m : gmap Z Gap) (v : LockRequestQueue) : LockRequestQueue :=
  set_group
    (match type with
     | TABLE => table_group m (request_queue_ v) GroupMode.NO_LOCK
     | RECORD => record_group (request_queue_ v) GroupMode.NO_LOCK
     end) v.

(** [lock_table_[id]]: an absent entry is made, with a null pointer. *)
Definition table_entry (id : LockDataId) : LM (option qid) := λ s,
  match lock_table_ s !! id with
  | Some o => (Ok (pair id <$> o), s)
  | None => (Ok None, set_lock_table (<[id := None]> (lock_table_ s)) s)
  end.

(** [std::list::erase] of the request found. *)
Definition erase_request (id : Z) (v : LockRequestQueue) : LockRequestQueue :=
  set_requests (filter (λ r, rq_id r ≠ id) (request_queue_ v)) v.

(** The insert keys that wait for a gap of the table's queue that was released. *)
Fixpoint grant_keys (fd : Z) (q : qid) (ks : list InsertKey) : LM unit :=
  match ks with
  | [] => ret tt
  | k :: ks =>
      do! (if is_waited k then
             let! v := get_queue q in
             let! m := gets gap_store in
             let! held := of_outcome (key_conflicts m k v) in
             let! e := table_entry (record_id fd (ik_rid k)) in
             let! qr := of_option e in
             let! vr := get_queue qr in
             match find_request (ik_txn k) vr with
             | Some it =>
                 if decide (lock_mode_ it = EXLUCSIVE) then
                   let grant :=
                     do! mod_queue qr (upd_request (rq_id it) (set_granted true)) in
                     mod_queue q (λ v, set_keys ((λ x, if ik_id x =? ik_id k then set_waited false x else x)
                                                  <$> insert_keys_ v) v) in
                   if negb held then grant
                   else if rq_txn it =? upgrading_ v then
                     do! grant in mod_queue q (set_group GroupMode.X)
                   else ret tt
                 else ret tt
             | None => ret tt
             end
           else ret tt) in
      grant_keys fd q ks
  end.

(** The requests of a record's queue that [grant_lock] leaves waiting. *)
Fixpoint grant_records (ids : list Z) (v : LockRequestQueue) : LockRequestQueue :=
  match ids with
  | [] => v
  | id :: ids =>
      grant_records ids
        (match list_find (λ r, rq_id r = id) (request_queue_ v) with
         | Some (_, r) =>
             if granted_ r then v
             else if bool_decide (group_mode_ v = GroupMode.NO_LOCK) && bool_decide (lock_mode_ r = EXLUCSIVE)
             then set_group GroupMode.X (upd_request id (set_granted true) v)
             else if (rq_txn r =? upgrading_ v) && negb (granted_to_other (rq_txn r) v)
             then set_group GroupMode.X (upd_request id (set_granted true) v)
             else v
         | None => v
         end)
  end.

(** Taking the transaction's request out of its queue [q]. *)
Definition unlock_remove (txn : Z) (q : qid) (it : LockRequest) : LM unit :=
  let! v := get_queue q in
  let! m := gets gap_store in
  let remove := mod_queue q (λ v, regroup (lk_type q.1) m (erase_request (rq_id it) v)) in
  match lk_type q.1, group_mode_ v with
  | TABLE, (GroupMode.GAP | GroupMode.TAB_X) => do! mod_queue q (drop_txn_keys txn) in remove
  | RECORD, GroupMode.X =>
      let! e := table_entry (table_id (lk_fd q.1)) in
      do! (match e with Some qt => mod_queue qt (drop_txn_keys txn) | None => ret tt end) in
      remove
  | _, _ => remove
  end.
(** Granting what the release allows. *)
Definition unlock_grant (q : qid) : LM unit :=
  do! grant_lock q (lk_type q.1) in
  match lk_type q.1 with
  | TABLE => let! v := get_queue q in grant_keys (lk_fd q.1) q (insert_keys_ v)
  | RECORD =>
      let! e := table_entry (table_id (lk_fd q.1)) in
      match e with
      | Some qt =>
          let! vt := get_queue qt in
          match group_mode_ vt with
          | GroupMode.GAP | GroupMode.TAB_X => ret tt
          | _ => mod_queue q (λ v, grant_records (rq_id <$> request_queue_ v) v)
          end
      | None => ret tt
      end
  end.
Definition unlock (txn : Z) (lock_data_id : LockDataId) : LM bool :=
  let! o := gets (λ s, lock_table_ s !! lock_data_id) in
  match o with
  | None => ret false
  | Some e =>
      let! n := of_option e in
      let q := (lock_data_id, n) in
      let! v := get_queue q in
      match find_request txn v with
      | None => ret false
      | Some it =>
          do! unlock_remove txn q it in
          do! mod_queue q (end_upgrade txn) in
          let! v := get_queue q in
          if bool_decide (request_queue_ v = []) && bool_decide (base.length (insert_keys_ v) = O) then
            do! mod_queue q (set_group GroupMode.NO_LOCK) in
            do! modify (λ s, set_lock_table (delete lock_data_id (lock_table_ s)) s) in
            ret true
          else do! unlock_grant q in ret true
      end
  end.

(** The release at the end of a transaction: [for (id : *lock_set) unlock(txn, id)], in the
    order [ids] of the set, and [lock_set->clear()]. *)
Fixpoint unlock_all (txn : Z) (ids : list LockDataId) : LM unit :=
  match ids with
  | [] => mod_txn txn (set_lock_set ∅)
  | id :: ids => do! unlock txn id in unlock_all txn ids
  end.

(** ** Gaps after a rollback *)

(** What the lock manager calls of an index, by its descriptor; [get_key] fills a buffer,
    [minus_one] may move the place it is given. *)
Class IndexOps (I : Type) := {
  ix_leaf_begin : Z → M I Iid;
  ix_leaf_end : Z → M I Iid;
  ix_lower_bound : Z → bytes → M I Iid;
  ix_upper_bound : Z → bytes → M I Iid;
  ix_get_key : Z → Iid → bytes → M I bytes;
  ix_minus_one : Z → Iid → M I (bool * Iid);
}.

(** [memcpy(key + offset, value.raw->data, len)] *)
Definition put_value (key : bytes) (offset : Z) (v : Value) (length : Z) : outcome bytes :=
  match (r ← raw v; bs ← rd r 0 length; wr key offset bs) with Some k => Ok k | None => Stuck end.

(** With no condition: each column's value goes to offset 0. *)
Fixpoint put_columns (gen : ColType → Z → Value → outcome Value) (cols : list ColMeta) (key : bytes) :
    outcome bytes :=
  match cols with
  | [] => Ok key
  | c :: cols =>
      match gen (col_type c) (col_len c) (mkValue (col_type c) 0 [] None) with
      | Ok v => match put_value key 0 v (col_len c) with Ok key => put_columns gen cols key | o => o end
      | Throw e => Throw e
      | Stuck => Stuck
      end
  end.

(** The values of the conditions on the columns, and the last operators of the two sides. *)
Record Bounds := mkBounds {
  lower_values : list Value;
  upper_values : list Value;
  lower_comp : CompOp;
  upper_comp : CompOp;
}.
Definition add_cond (col : ColMeta) (b : Bounds) (cond : Condition) : Bounds :=
  if decide (col_name col = lhs_name cond) then
    match cond_op cond with
    | OP_EQ => mkBounds (lower_values b ++ [rhs_val cond]) (upper_values b ++ [rhs_val cond]) (lower_comp b) (upper_comp b)
    | OP_GT | OP_GE => mkBounds (lower_values b ++ [rhs_val cond]) (upper_values b) (cond_op cond) (upper_comp b)
    | OP_LT | OP_LE => mkBounds (lower_values b) (upper_values b ++ [rhs_val cond]) (lower_comp b) (cond_op cond)
    | OP_NE => b
    end
  else b.
Definition match_conds (cols : list ColMeta) (conds : list Condition) : Bounds :=
  foldl (λ b col, foldl (add_cond col) b conds) (mkBounds [] [] OP_EQ OP_EQ) cols.

(** The columns that no condition bounds. *)
Fixpoint fill_values (gen : ColType → Z → Value → outcome Value) (cols : list ColMeta) : outcome (list Value) :=
  match cols with
  | [] => Ok []
  | c :: cols =>
      match gen (col_type c) (col_len c) (mkValue (col_type c) 0 [] None) with
      | Ok v => match fill_values gen cols with Ok vs => Ok (v :: vs) | o => o end
      | Throw e => Throw e
      | Stuck => Stuck
      end
  end.
Fixpoint put_values (cols : list ColMeta) (vs : list Value) (offset : Z) (key : bytes) : outcome bytes :=
  match cols with
  | [] => Ok key
  | c :: cols =>
      match vs with
      | [] => Stuck
      | v :: vs =>
          match put_value key offset v (col_len c) with
          | Ok key => put_values cols vs (offset + col_len c) key
          | o => o
          end
      end
  end.

Section gap_keys.
Context {I : Type} `{IndexOps I}.

(** The key buffers come in, as [new char[]] left them, and go out with the places. *)
Definition get_bound (lower_key upper_key : bytes) (meta : IndexMeta) (conds : list Condition) (ih : Z) :
    M I (bytes * bytes * (Iid * Iid)) :=
  match conds with
  | [] =>
      let! upper_key := of_outcome (put_columns generate_max (ix_cols meta) upper_key) in
      let! lower_key := of_outcome (put_columns generate_min (ix_cols meta) lower_key) in
      let! b := ix_leaf_begin ih in
      let! e := ix_leaf_end ih in
      ret (lower_key, upper_key, (b, e))
  | _ =>
      let b := match_conds (ix_cols meta) conds in
      let match_lower := len (lower_values b) in
      let match_upper := len (upper_values b) in
      do! massert (Z.abs (match_lower - match_upper) <=? 1) in
      let cols := take (Z.to_nat (col_num meta)) (ix_cols meta) in
      do! massert (len cols =? Z.max 0 (col_num meta)) in
      let! lo := of_outcome (fill_values
        (if decide (lower_comp b = OP_GT) then generate_max else generate_min) (drop (Z.to_nat match_lower) cols)) in
      let! hi := of_outcome (fill_values
        (if decide (upper_comp b = OP_LT) then generate_min else generate_max) (drop (Z.to_nat match_upper) cols)) in
      let! lower_key := of_outcome (put_values cols (lower_values b ++ lo) 0 lower_key) in
      let! upper_key := of_outcome (put_values cols (upper_values b ++ hi) 0 upper_key) in
      let! upper := if decide (upper_comp b = OP_LT) then ix_lower_bound ih upper_key else ix_upper_bound ih upper_key in
      let! lower := if decide (lower_comp b = OP_GT) then ix_upper_bound ih lower_key else ix_lower_bound ih lower_key in
      ret (lower_key, upper_key, (lower, upper))
  end.

(** The keys of the entries around the range. *)
Definition get_gap_lock_key (lower_key upper_key : bytes) (bound : Iid * Iid) (meta : IndexMeta) (ih : Z)
    (junk : bytes) : M I (bytes * bytes) :=
  let! lower_bound := ix_get_key ih bound.1 junk in
  let! upper_bound := ix_get_key ih bound.2 junk in
  let! c := of_outcome (ix_compare lower_key lower_bound (ix_cols meta)) in
  let! lower_key :=
    if c <? 0 then
      let! r := ix_minus_one ih bound.1 in
      if r.1 : bool then ix_get_key ih r.2 lower_bound else ret lower_key
    else do! massert (c =? 0) in ret lower_key in
  ret (lower_key, upper_bound).

Definition on_locks {A} (m : LM A) : M (LockManager * I) A := zoom fst (λ s t, (s, t.2)) m.
Definition on_index {A} (m : M I A) : M (LockManager * I) A := zoom snd (λ s t, (t.1, s)) m.

(** [junk] is what the new buffers hold. *)
Fixpoint recalculate (junk : bytes) (gs : list Z) : M (LockManager * I) unit :=
  match gs with
  | [] => ret tt
  | g :: gs =>
      let! gap := on_locks (get_gap g) in
      let n := Z.to_nat (col_tot_len (index_meta_ gap)) in
      let buffer := take n (junk ++ replicate n 0) in
      let! b := on_index (get_bound buffer buffer (index_meta_ gap) (conds_ gap) (gap_ih_ gap)) in
      let! k := on_index (get_gap_lock_key b.1.1 b.1.2 b.2 (index_meta_ gap) (gap_ih_ gap) buffer) in
      do! on_locks (mod_gap g (set_bounds k.1 k.2)) in
      recalculate junk gs
  end.
Definition calculate_gaps_on_table (junk : bytes) (lock_data_id : LockDataId) : M (LockManager * I) unit :=
  match lk_type lock_data_id with
  | RECORD => ret tt
  | TABLE =>
      let! o := on_locks (gets (λ s, lock_table_ s !! lock_data_id)) in
      match o with
      | None => ret tt
      | Some e =>
          let! n := on_locks (of_option e) in
          let! v := on_locks (get_queue (lock_data_id, n)) in
          if decide (group_mode_ v = GroupMode.GAP)
          then recalculate junk (concat (gaps <$> request_queue_ v))
          else ret tt
      end
  end.

End gap_keys.
