(* ===== verification/LockSafety.v ===== *)
(** * What the lock manager keeps, as long as nobody locks gaps

    [lstep] interleaves the calls of Lock.v: a call of a transaction that does not wait, the
    wake-up of one that does, a release, a new transaction.  [Inv] is the invariant of all
    configurations that are reached without gap locks; LockGaps.v shows what gap locks do
    to it. *)
From S2P Require Import Prelude Bytes Disk Log Streams Meta Keys Txn Lock.

(** ** Interleavings *)

Inductive lock_op : Type :=
  | LShared (rid : Rid) (fd : Z)
  | LExclusive (rid : Rid) (fd : Z) (key : bytes) (meta : IndexMeta) (ih : Z)
  | LGap (fd : Z) (lower upper : option bytes) (meta : IndexMeta) (conds : list Condition) (ih : Z)
  | LIS (fd : Z)
  | LIX (fd : Z)
  | LTableX (fd : Z).

Definition run_op (txn : Z) (op : lock_op) : LM lock_result :=
  match op with
  | LShared rid fd => lock_shared_on_record txn rid fd
  | LExclusive rid fd key meta ih => lock_exclusive_on_record_gap txn rid fd key meta ih
  | LGap fd lo hi meta conds ih => lock_GAP_on_table txn fd lo hi meta conds ih
  | LIS fd => lock_IS_on_table txn fd
  | LIX fd => lock_IX_on_table txn fd
  | LTableX fd => lock_exclusive_on_table txn fd
  end.

(** The lock manager and what the threads that wait are waiting for. *)
Record config := mkConfig { locks : LockManager; waiting : gmap Z wait_point }.

(** The configuration after a step of [txn]; an abort of the transaction is caught. *)
Definition settle (txn : Z) (W : gmap Z wait_point) (r : outcome lock_result * LockManager) : option config :=
  match r with
  | (Ok (Returned _), s) => Some (mkConfig s (delete txn W))
  | (Ok (Waits w), s) => Some (mkConfig s (<[txn := w]> W))
  | (Throw (TransactionAbortException _ _), s) => Some (mkConfig s (delete txn W))
  | _ => None
  end.

Inductive lstep (ok : lock_op → Prop) : config → config → Prop :=
  | step_call txn op c c' :
      waiting c !! txn = None → ok op → settle txn (waiting c) (run_op txn op (locks c)) = Some c' →
      lstep ok c c'
  | step_wake txn w c c' :
      waiting c !! txn = Some w → ready w (locks c) = true →
      settle txn (waiting c) (resume txn w (locks c)) = Some c' → lstep ok c c'
  | step_release txn t ids st c s' :
      waiting c !! txn = None → txns (locks c) !! txn = Some t → ids ≡ₚ elements (lock_set_ t) →
      (do! unlock_all txn ids in mod_txn txn (set_state st)) (locks c) = (Ok tt, s') →
      lstep ok c (mkConfig s' (waiting c))
  | step_begin txn mode ts c :
      txns (locks c) !! txn = None →
      lstep ok c (mkConfig (set_txns (<[txn := set_state GROWING (Transaction_new txn mode ts)]> (txns (locks c))) (locks c))
                    (waiting c)).

Definition start : config := mkConfig (mkLocks ∅ ∅ ∅ 0 ∅) ∅.
Definition reachable (ok : lock_op → Prop) (c : config) : Prop := rtc (lstep ok) start c.

(** The steps as events, to run an interleaving. *)
Inductive event : Type :=
  | EBegin (txn : Z)
  | ECall (txn : Z) (op : lock_op)
  | EWake (txn : Z)
  | ERelease (txn : Z) (ids : list LockDataId) (st : TransactionState).

Definition do_event (e : event) (c : config) : option config :=
  match e with
  | EBegin txn =>
      match txns (locks c) !! txn with
      | Some _ => None
      | None =>
          Some (mkConfig (set_txns (<[txn := set_state GROWING (Transaction_new txn false 0)]> (txns (locks c))) (locks c))
                  (waiting c))
      end
  | ECall txn op =>
      match waiting c !! txn with
      | Some _ => None
      | None => settle txn (waiting c) (run_op txn op (locks c))
      end
  | EWake txn =>
      match waiting c !! txn with
      | Some w => if ready w (locks c) then settle txn (waiting c) (resume txn w (locks c)) else None
      | None => None
      end
  | ERelease txn ids st =>
      match waiting c !! txn, txns (locks c) !! txn with
      | None, Some t =>
          if bool_decide (NoDup ids ∧ list_to_set ids = lock_set_ t) then
            match (do! unlock_all txn ids in mod_txn txn (set_state st)) (locks c) with
            | (Ok _, s') => Some (mkConfig s' (waiting c))
            | _ => None
            end
          else None
      | _, _ => None
      end
  end.
Definition event_ok (ok : lock_op → Prop) (e : event) : Prop := match e with ECall _ op => ok op | _ => True end.
Fixpoint do_events (es : list event) (c : config) : option config :=
  match es with [] => Some c | e :: es => match do_event e c with Some c' => do_events es c' | None => None end end.

Lemma do_event_step ok e c c' : event_ok ok e → do_event e c = Some c' → lstep ok c c'.
Proof.
  intros Hok. destruct e as [t|t op|t|t ids st]; cbn.
  - destruct (txns _ !! t) eqn:E; [done|]. intros [= <-]. by apply step_begin.
  - destruct (waiting c !! t) eqn:E; [done|]. intros H. by eapply step_call.
  - destruct (waiting c !! t) eqn:E; [|done]. destruct (ready _ _) eqn:Er; [|done]. intros H. by eapply step_wake.
  - destruct (waiting c !! t) eqn:E; [done|]. destruct (txns _ !! t) as [T|] eqn:Et; [|done].
    case_bool_decide as Hids; [|done]. destruct Hids as [Hnd Hset].
    destruct (bind _ _ _) as [[[]| |] s'] eqn:Er; try done. intros [= <-].
    eapply step_release; [done..| |exact Er]. apply NoDup_Permutation; [done|apply NoDup_elements|].
    intros id. by rewrite elem_of_elements, <-Hset, elem_of_list_to_set.
Qed.

Lemma do_events_steps ok es c c' : Forall (event_ok ok) es → do_events es c = Some c' → rtc (lstep ok) c c'.
Proof.
  intros Hes. revert c. induction Hes as [|e es He Hes IH]; intros c; cbn; [by intros [= ->]|].
  destruct (do_event e c) as [c1|] eqn:E; [|done]. intros H. eapply rtc_l; [by eapply do_event_step|by apply IH].
Qed.

(** A lock call of an aborted transaction returns false and does nothing; one of a
    transaction that already releases aborts it and does nothing else. *)
Theorem finished_transactions_get_no_locks t T op s :
  txns s !! t = Some T →
  (state_ T = ABORTED → run_op t op s = (Ok (Returned false), s)) ∧
  (state_ T = SHRINKING → run_op t op s =
     (Throw (TransactionAbortException t LOCK_ON_SHIRINKING), set_txns (<[t := set_state ABORTED T]> (txns s)) s)).
Proof.
  intros HT. assert (∀ m, (state_ T = ABORTED → guarded t m s = (Ok (Returned false), s)) ∧
    (state_ T = SHRINKING → guarded t m s =
      (Throw (TransactionAbortException t LOCK_ON_SHIRINKING), set_txns (<[t := set_state ABORTED T]> (txns s)) s))) as H.
  { intros m. unfold guarded, get_txn, mod_txn, bind, gets, of_option, ret. rewrite HT.
    split; intros ->; cbn; by rewrite ?HT. }
  by destruct op; apply H.
Qed.

Lemma finished_transactions_get_no_locks_witness :
  let s := mkLocks ∅ ∅ ∅ 0 {[ 7 := set_state SHRINKING (Transaction_new 7 false 0) ]} in
  run_op 7 (LIX 3) s = (Throw (TransactionAbortException 7 LOCK_ON_SHIRINKING),
    set_txns (<[7 := set_state ABORTED (set_state SHRINKING (Transaction_new 7 false 0))]> (txns s)) s).
Proof. apply finished_transactions_get_no_locks; [vm_compute; reflexivity|reflexivity]. Defined.

Definition no_gap_lock (op : lock_op) : Prop := match op with LGap _ _ _ _ _ _ => False | _ => True end.

(** ** The invariant *)

(** Two locks of different transactions that may be held together. *)
Definition compatible (m m' : LockMode) : Prop := m ≠ EXLUCSIVE ∧ m' ≠ EXLUCSIVE.

Definition mode_ok (type : LockDataType) (m : LockMode) : Prop :=
  match type, m with
  | RECORD, (SHARED | EXLUCSIVE) => True
  | TABLE, (INTENSION_SHARED | INTENSION_EXLUCSIVE | EXLUCSIVE) => True
  | _, _ => False
  end.

(** The mode of the queue, if it has a granted request of mode [m]. *)
Definition covers (type : LockDataType) (g : GroupMode) (m : LockMode) : Prop :=
  match type, m with
  | RECORD, EXLUCSIVE => g = GroupMode.X
  | RECORD, _ => g = GroupMode.S ∨ g = GroupMode.X
  | TABLE, EXLUCSIVE => g = GroupMode.TAB_X
  | TABLE, INTENSION_EXLUCSIVE => g = GroupMode.IX ∨ g = GroupMode.TAB_X
  | TABLE, _ => g = GroupMode.IS ∨ g = GroupMode.IX ∨ g = GroupMode.TAB_X
  end.
Definition group_ok (type : LockDataType) (g : GroupMode) : Prop :=
  match type, g with
  | RECORD, (GroupMode.NO_LOCK | GroupMode.S | GroupMode.X) => True
  | TABLE, (GroupMode.NO_LOCK | GroupMode.IS | GroupMode.IX | GroupMode.TAB_X) => True
  | _, _ => False
  end.

(** The requests of a queue of the mode [g]. *)
Record requests_ok (type : LockDataType) (g : GroupMode) (l : list LockRequest) : Prop := {
  ro_group : group_ok type g;
  ro_ids : NoDup (rq_id <$> l);
  ro_txns : NoDup (rq_txn <$> l);
  ro_gaps r : r ∈ l → gaps r = [];
  ro_modes r : r ∈ l → mode_ok type (lock_mode_ r);
  ro_covers r : r ∈ l → granted_ r = true → covers type g (lock_mode_ r);
  ro_compatible r r' : r ∈ l → r' ∈ l → granted_ r = true → granted_ r' = true →
    rq_txn r ≠ rq_txn r' → compatible (lock_mode_ r) (lock_mode_ r');
}.

(** What a thread waits for in a run without gap locks: a request in a queue of the type. *)
Definition waits_on (type : LockDataType) (q : qid) (r : Z) : option (qid * Z) :=
  if decide (lk_type q.1 = type) then Some (q, r) else None.
Definition pending (w : wait_point) : option (qid * Z) :=
  match w with
  | SharedNew q r | Upgrading q r | ExclusiveNew q _ r => waits_on RECORD q r
  | ISNew q r | IXNew q r | TableUpgrading q r | TableXNew q r => waits_on TABLE q r
  | _ => None
  end.
Lemma waits_on_type type q r : lk_type q.1 = type → waits_on type q r = Some (q, r).
Proof. intros Ht. unfold waits_on. by rewrite decide_True. Qed.
(** The lock is not in the transaction's set before it goes on. *)
Definition is_new (w : wait_point) : bool :=
  match w with Upgrading _ _ | TableUpgrading _ _ => false | _ => true end.

Record queue_ok (W : gmap Z wait_point) (q : qid) (v : LockRequestQueue) : Prop := {
  qo_latched : latched v = false;
  qo_keys k : k ∈ insert_keys_ v → is_waited k = false;
  qo_requests : requests_ok (lk_type q.1) (group_mode_ v) (request_queue_ v);
  qo_granted r : r ∈ request_queue_ v → granted_ r = false →
    ∃ w, W !! rq_txn r = Some w ∧ pending w = Some (q, rq_id r);
  qo_progress : lk_type q.1 = TABLE → request_queue_ v ≠ [] →
    ∃ r, r ∈ request_queue_ v ∧ granted_ r = true;
}.

Definition in_lock_set (s : LockManager) (txn : Z) (id : LockDataId) : Prop :=
  ∃ t, txns s !! txn = Some t ∧ id ∈ lock_set_ t.
(** The transactions stay, with at least the locks they had. *)
Definition sets_grow (s s' : LockManager) : Prop :=
  ∀ t T, txns s !! t = Some T → ∃ T', txns s' !! t = Some T' ∧ lock_set_ T ⊆ lock_set_ T'.
(** The transaction will release the request. *)
Definition owned (s : LockManager) (W : gmap Z wait_point) (q : qid) (r : LockRequest) : Prop :=
  in_lock_set s (rq_txn r) q.1 ∨
  ∃ w, W !! rq_txn r = Some w ∧ pending w = Some (q, rq_id r) ∧ is_new w = true.

Record Inv (s : LockManager) (W : gmap Z wait_point) : Prop := {
  inv_queues q v : queues s !! q = Some v → queue_ok W q v;
  inv_owned q v r : queues s !! q = Some v → r ∈ request_queue_ v → owned s W q r;
  inv_ids q v r : queues s !! q = Some v → r ∈ request_queue_ v → rq_id r < next_ s;
  inv_gens q v : queues s !! q = Some v → q.2 < next_ s;
  inv_old q v : queues s !! q = Some v → lock_table_ s !! q.1 ≠ Some (Some q.2) → request_queue_ v = [];
  inv_current id n : lock_table_ s !! id = Some (Some n) → is_Some (queues s !! (id, n));
  inv_waiting t w : W !! t = Some w → ∃ q r, pending w = Some (q, r);
  inv_null id : lock_table_ s !! id = Some None → lk_type id = TABLE;
  inv_txns t : is_Some (W !! t) → is_Some (txns s !! t);
}.

Lemma sets_grow_in s s' t id : sets_grow s s' → in_lock_set s t id → in_lock_set s' t id.
Proof. intros H (T & HT & Hid). destruct (H t T HT) as (T' & HT' & Hsub). exists T'. split; [done|set_solver]. Qed.

Lemma sets_grow_txn s s' t : sets_grow s s' → is_Some (txns s !! t) → is_Some (txns s' !! t).
Proof. intros H [T HT]. destruct (H t T HT) as (T' & HT' & _). by exists T'. Qed.

#[export] Instance sets_grow_refl : Reflexive sets_grow.
Proof. intros s t T HT. by exists T. Qed.
#[export] Instance sets_grow_trans : Transitive sets_grow.
Proof.
  intros s1 s2 s3 H1 H2 t T HT. destruct (H1 t T HT) as (T' & HT' & Hsub).
  destruct (H2 t T' HT') as (T'' & HT'' & Hsub'). exists T''. split; [done|set_solver].
Qed.
#[export] Hint Resolve sets_grow_in sets_grow_txn : core.

Lemma Inv_start : Inv (locks start) (waiting start).
Proof. split; intros *; simpl; rewrite ?lookup_empty; done. Qed.

(** *** Lists of requests up to order *)

#[export] Instance requests_ok_proper type g : Proper ((≡ₚ) ==> iff) (requests_ok type g).
Proof.
  assert (∀ l l', l ≡ₚ l' → requests_ok type g l → requests_ok type g l') as H.
  { intros l l' Hl [Hg Hi Ht Hgap Hm Hc Hcomp].
    split; [done|by rewrite <-Hl|by rewrite <-Hl|..]; intros *; rewrite <-!Hl; auto. }
  intros l l' Hl. split; apply H; [done|by symmetry].
Qed.

Lemma requests_ok_cons type g r l :
  requests_ok type g (r :: l) ↔
  requests_ok type g l ∧ rq_id r ∉ rq_id <$> l ∧ rq_txn r ∉ rq_txn <$> l ∧ gaps r = [] ∧
  mode_ok type (lock_mode_ r) ∧ (granted_ r = true → covers type g (lock_mode_ r)) ∧
  (granted_ r = true → ∀ r', r' ∈ l → granted_ r' = true → compatible (lock_mode_ r) (lock_mode_ r')).
Proof.
  split.
  - intros [Hg Hi Ht Hgap Hm Hc Hcomp]. rewrite !fmap_cons, !NoDup_cons in *.
    destruct Hi as [Hi1 Hi2], Ht as [Ht1 Ht2]. split_and!; try done.
    + split; try done; intros *; try set_solver.
    + apply Hgap. left.
    + apply Hm. left.
    + apply Hc. left.
    + intros Hr r' Hr' Hgr'. apply Hcomp; [left|by right|done..|].
      intros Heq. apply Ht1. rewrite Heq. by apply list_elem_of_fmap_2.
  - intros ([Hg Hi Ht Hgap Hm Hc Hcomp] & Hi' & Ht' & Hgap' & Hm' & Hc' & Hcomp').
    split; rewrite ?fmap_cons, ?NoDup_cons; try done; intros *; rewrite ?elem_of_cons.
    + intros [->|?]; auto.
    + intros [->|?]; auto.
    + intros [->|?]; auto.
    + intros [->|Hr] [->|Hr']; intros; [done|by auto| |by auto].
      apply and_comm. apply Hcomp'; auto.
Qed.

Lemma requests_ok_regroup type g g' l :
  requests_ok type g l → group_ok type g' →
  (∀ r, r ∈ l → granted_ r = true → covers type g (lock_mode_ r) → covers type g' (lock_mode_ r)) →
  requests_ok type g' l.
Proof. intros [Hg Hi Ht Hgap Hm Hc Hcomp] Hg' Hcov. split; eauto. Qed.

Lemma requests_ok_nil type g : group_ok type g → requests_ok type g [].
Proof. intros Hg. split; [done|constructor|constructor|..]; intros *; by intros ?%not_elem_of_nil. Qed.

Lemma find_request_Some txn v it :
  find_request txn v = Some it → rq_txn it = txn ∧ ∃ rest, request_queue_ v ≡ₚ it :: rest.
Proof.
  unfold find_request. destruct (list_find _ _) as [[i r]|] eqn:E; [|done]. intros [= <-].
  apply list_find_Some in E as (Hi & Ht & _). split; [done|].
  exists (take i (request_queue_ v) ++ drop (S i) (request_queue_ v)).
  rewrite <-(take_drop_middle _ _ _ Hi) at 1. by rewrite Permutation_middle.
Qed.

Lemma find_request_None txn v : find_request txn v = None → txn ∉ rq_txn <$> request_queue_ v.
Proof.
  unfold find_request. destruct (list_find _ _) as [[i r]|] eqn:E; [done|]. intros _.
  apply list_find_None in E. intros (r & -> & Hr)%list_elem_of_fmap.
  rewrite Forall_forall in E. by apply (E r).
Qed.

(** Changing a request that is in the list once. *)
Lemma upd_other id f (l : list LockRequest) :
  id ∉ rq_id <$> l → (λ r, if rq_id r =? id then f r else r) <$> l = l.
Proof.
  intros Hid. rewrite <-(list_fmap_id l) at 2. apply list_fmap_ext. intros i r Hr.
  destruct (rq_id r =? id) eqn:E; [|done]. apply Z.eqb_eq in E.
  destruct Hid. rewrite <-E. apply list_elem_of_fmap_2. by eapply list_elem_of_lookup_2.
Qed.

Lemma upd_request_perm f it rest v :
  request_queue_ v ≡ₚ it :: rest → rq_id it ∉ rq_id <$> rest →
  request_queue_ (upd_request (rq_id it) f v) ≡ₚ f it :: rest.
Proof.
  intros Hl Hid. unfold upd_request. simpl. rewrite Hl. simpl. by rewrite Z.eqb_refl, upd_other.
Qed.

Lemma erase_request_perm it rest v :
  request_queue_ v ≡ₚ it :: rest → rq_id it ∉ rq_id <$> rest →
  request_queue_ (erase_request (rq_id it) v) ≡ₚ rest.
Proof.
  intros Hl Hid. unfold erase_request. simpl. rewrite Hl, filter_cons_False by auto.
  rewrite filter_all; [done|]. intros r Hr Heq. apply Hid. rewrite <-Heq. by apply list_elem_of_fmap_2.
Qed.

(** *** A weakest precondition for the lock calls *)

(** The run ends, [Q] holds of its result, [E] of the state an abort leaves. *)
Definition aborted (E : LockManager → Prop) (e : exn) (s : LockManager) : Prop :=
  match e with TransactionAbortException _ _ => E s | _ => False end.
Abbreviation lwp m Q E s := (wp m Q (aborted E) s).

Lemma wp_abort {A} E t reason (Q : A → LockManager → Prop) s :
  E s → wp (throw (TransactionAbortException t reason)) Q (aborted E) s.
Proof. done. Qed.

Section wp_locks.
Context (E : LockManager → Prop).
Implicit Types (s : LockManager).

Lemma wp_fresh (Q : Z → _) s : Q (next_ s) (set_next (next_ s + 1) s) → lwp fresh Q E s.
Proof. done. Qed.

Lemma wp_get_queue q (Q : _ → _ → Prop) s :
  is_Some (queues s !! q) → (∀ v, queues s !! q = Some v → Q v s) → lwp (get_queue q) Q E s.
Proof. intros Hq H. unfold get_queue. by apply wp_bind, wp_gets, wp_of_option. Qed.

Lemma wp_mod_queue q f (Q : unit → _) s :
  is_Some (queues s !! q) →
  (∀ v, queues s !! q = Some v → Q tt (set_queues (<[q := f v]> (queues s)) s)) → lwp (mod_queue q f) Q E s.
Proof. intros Hq H. unfold mod_queue. apply wp_bind, wp_get_queue; [done|]. intros v Hv. by apply wp_modify, H. Qed.

Lemma wp_get_txn t (Q : _ → _ → Prop) s :
  is_Some (txns s !! t) → (∀ T, txns s !! t = Some T → Q T s) → lwp (get_txn t) Q E s.
Proof. intros Ht H. unfold get_txn. by apply wp_bind, wp_gets, wp_of_option. Qed.

Lemma wp_mod_txn t f (Q : unit → _) s :
  is_Some (txns s !! t) →
  (∀ T, txns s !! t = Some T → Q tt (set_txns (<[t := f T]> (txns s)) s)) → lwp (mod_txn t f) Q E s.
Proof. intros Ht H. unfold mod_txn. apply wp_bind, wp_get_txn; [done|]. intros T HT. by apply wp_modify, H. Qed.

(** Either nobody older is there, or the transaction's requests and keys leave the queue. *)
Lemma wp_wait_die q t (Q : unit → _) s :
  is_Some (queues s !! q) → is_Some (txns s !! t) →
  (∀ v, queues s !! q = Some v → (∀ r, r ∈ request_queue_ v → t ≤ rq_txn r) → Q tt s) →
  (∀ v T v', queues s !! q = Some v → txns s !! t = Some T →
     request_queue_ v' = filter (λ r, rq_txn r ≠ t) (request_queue_ v) → latched v' = latched v →
     group_mode_ v' = group_mode_ v → (∀ k, k ∈ insert_keys_ v' → k ∈ insert_keys_ v) →
     E (set_queues (<[q := v']> (queues s)) (set_txns (<[t := set_state ABORTED T]> (txns s)) s))) →
  lwp (wait_die q t) Q E s.
Proof.
  intros Hq Ht HQ HE. unfold wait_die. apply wp_bind, wp_get_queue; [done|]. intros v Hv.
  destruct (existsb _ _) eqn:Eold.
  - apply wp_bind, wp_mod_txn; [done|]. intros T HT. apply wp_bind, wp_mod_queue; [done|]. simpl.
    intros v0 Hv0. simplify_eq.
    apply wp_abort. eapply HE; [done..| | | |]; simpl; destruct (upgrading_ v =? t); simpl; try done.
    all: intros k; rewrite list_elem_of_filter; naive_solver.
  - apply wp_ret, (HQ v Hv). intros r Hr.
    destruct (t >? rq_txn r) eqn:Er; [|lia].
    assert (existsb (λ r, t >? rq_txn r) (request_queue_ v) = true) as Hold.
    { apply existsb_exists. exists r. by rewrite <-list_elem_of_In. }
    congruence.
Qed.
End wp_locks.

(** ** Steps keep the invariant *)

(** The threads that wait after a step of [t]: it may be one more. *)
Definition may_wait (t : Z) (W W' : gmap Z wait_point) : Prop :=
  W' = W ∨ ∃ w q r, W' = <[t := w]> W ∧ pending w = Some (q, r).

Section keeps.
Context (W : gmap Z wait_point) (t : Z) (Ht : W !! t = None).
Implicit Types (s : LockManager) (q : qid) (v : LockRequestQueue) (r : LockRequest).

Lemma may_wait_other W' t' : may_wait t W W' → t' ≠ t → W' !! t' = W !! t'.
Proof using Type. intros [->|(w & q & r & -> & _)] Hne; [done|]. by rewrite lookup_insert_ne. Qed.

Lemma own_granted q v r : queue_ok W q v → r ∈ request_queue_ v → rq_txn r = t → granted_ r = true.
Proof using Ht.
  intros Hv Hr Hrt. destruct (granted_ r) eqn:Eg; [done|].
  destruct (qo_granted _ _ _ Hv r Hr Eg) as (w & Hw & _). by rewrite Hrt, Ht in Hw.
Qed.

(** A queue that [t] has no part in. *)
Lemma queue_ok_other W' q v : queue_ok W q v → may_wait t W W' → queue_ok W' q v.
Proof using Ht.
  intros Hv HW'. split; try apply Hv. intros r Hr Hg.
  destruct (qo_granted _ _ _ Hv r Hr Hg) as (w & Hw & Hp). exists w. split; [|done].
  rewrite (may_wait_other W'); [done..|]. intros Heq. by rewrite Heq, Ht in Hw.
Qed.

Lemma owned_other s s' W' q r :
  owned s W q r → may_wait t W W' → sets_grow s s' → owned s' W' q r.
Proof using Ht.
  intros [Ho|(w & Hw & Hp & Hn)] HW' Hl; [left; by eauto|right]. exists w. split; [|done].
  rewrite (may_wait_other W'); [done..|]. intros Heq. by rewrite Heq, Ht in Hw.
Qed.

(** A step of [t] that changes its own request in the queue [q]. *)
Lemma inv_own s s' W' q v v' r rest :
  is_Some (txns s !! t) → Inv s W → queues s !! q = Some v → lock_table_ s !! q.1 = Some (Some q.2) → may_wait t W W' →
  queues s' = <[q := v']> (queues s) → lock_table_ s' = lock_table_ s → next_ s ≤ next_ s' →
  sets_grow s s' →
  request_queue_ v' ≡ₚ r :: rest → (∀ x, x ∈ rest → x ∈ request_queue_ v ∧ rq_txn x ≠ t) →
  latched v' = latched v → insert_keys_ v' = insert_keys_ v →
  requests_ok (lk_type q.1) (group_mode_ v') (r :: rest) →
  rq_txn r = t → rq_id r < next_ s' →
  (granted_ r = true ∧ in_lock_set s' t q.1 ∨
   (∃ w, W' !! t = Some w ∧ pending w = Some (q, rq_id r) ∧ (is_new w = false → in_lock_set s' t q.1)) ∧
   (lk_type q.1 = TABLE → ∃ x, x ∈ rest ∧ granted_ x = true)) →
  Inv s' W'.
Proof using Ht.
  intros Htx HI Hv Hcur HW' Hq' Hlt Hnext Hsets Hperm Hrest Hlatch Hkeys Hok Hrt Hid Hgr.
  pose proof (inv_queues _ _ HI _ _ Hv) as Hqv.
  assert (queue_ok W' q v') as Hqv'.
  { split.
    - rewrite Hlatch. apply Hqv.
    - rewrite Hkeys. apply Hqv.
    - by rewrite Hperm.
    - intros x. rewrite Hperm, elem_of_cons. intros [->|Hx] Hg.
      + destruct Hgr as [[Hg' _]|[(w & Hw & Hp & _) _]]; [congruence|]. exists w. by rewrite Hrt.
      + destruct (Hrest x Hx) as [Hx' Hxt].
        destruct (qo_granted _ _ _ Hqv x Hx' Hg) as (w & Hw & Hp). exists w.
        by rewrite (may_wait_other W').
    - intros HT _. destruct Hgr as [[Hg' _]|[_ Hp]].
      + exists r. rewrite Hperm. by split; [left|].
      + destruct (Hp HT) as (x & Hx & Hgx). exists x. rewrite Hperm. by split; [right|]. }
  split.
  - intros q0 v0. rewrite Hq'. intros [(<- & <-)|(Hne & H0)]%lookup_insert_Some; [done|].
    eapply queue_ok_other; [by eapply inv_queues|done].
  - intros q0 v0 r0. rewrite Hq'. intros [(<- & <-)|(Hne & H0)]%lookup_insert_Some Hr0.
    + rewrite Hperm in Hr0. apply elem_of_cons in Hr0 as [->|Hr0].
      * destruct Hgr as [[_ Hs]|[(w & Hw & Hp & Hn) _]]; [left; by rewrite Hrt|].
        destruct (is_new w) eqn:En; [right; exists w; by rewrite Hrt|left; rewrite Hrt; auto].
      * destruct (Hrest _ Hr0) as [Hx' Hxt]. eapply owned_other; [by eapply inv_owned|done..].
    + eapply owned_other; [by eapply inv_owned|done..].
  - intros q0 v0 r0. rewrite Hq'. intros [(<- & <-)|(Hne & H0)]%lookup_insert_Some Hr0.
    + rewrite Hperm in Hr0. apply elem_of_cons in Hr0 as [->|Hr0]; [done|].
      destruct (Hrest _ Hr0) as [Hx' Hxt]. pose proof (inv_ids _ _ HI _ _ _ Hv Hx'). lia.
    + pose proof (inv_ids _ _ HI _ _ _ H0 Hr0). lia.
  - intros q0 v0. rewrite Hq'. intros [(<- & <-)|(Hne & H0)]%lookup_insert_Some.
    + pose proof (inv_gens _ _ HI _ _ Hv). lia.
    + pose proof (inv_gens _ _ HI _ _ H0). lia.
  - intros q0 v0. rewrite Hq', Hlt. intros [(<- & <-)|(Hne & H0)]%lookup_insert_Some; [done|].
    by eapply inv_old.
  - intros id n. rewrite Hq', Hlt. intros Hn. apply lookup_insert_is_Some'. right. by eapply inv_current.
  - intros t' w. destruct HW' as [->|(w0 & q0 & r0 & -> & Hp)]; [by eapply inv_waiting|].
    intros [(<- & <-)|(Hne & H0)]%lookup_insert_Some; [by eauto|]. by eapply inv_waiting.
  - intros id. rewrite Hlt. apply HI.
  - intros t' Ht'. eapply sets_grow_txn; [done|].
    destruct HW' as [->|(w0 & q0 & r0 & -> & _)]; [by eapply inv_txns|].
    apply lookup_insert_is_Some' in Ht' as [<-|Ht']; [done|]. by eapply inv_txns.
Qed.

(** Requests of the queue [q] leave or are granted; the queue may leave the lock table when
    it is empty. *)
Lemma inv_less s s' q v v' :
  Inv s W → queues s !! q = Some v → queues s' = <[q := v']> (queues s) → next_ s ≤ next_ s' →
  (∀ id o, lock_table_ s' !! id = Some o → lock_table_ s !! id = Some o) →
  (∀ id n, lock_table_ s !! id = Some (Some n) → lock_table_ s' !! id = Some (Some n) ∨
     (id, n) = q ∧ request_queue_ v' = []) →
  sets_grow s s' →
  (∀ r, r ∈ request_queue_ v' → ∃ r0, r0 ∈ request_queue_ v ∧ rq_id r0 = rq_id r ∧ rq_txn r0 = rq_txn r ∧
     (granted_ r = false → granted_ r0 = false)) →
  latched v' = latched v → (∀ k, k ∈ insert_keys_ v' → k ∈ insert_keys_ v) →
  requests_ok (lk_type q.1) (group_mode_ v') (request_queue_ v') →
  (lk_type q.1 = TABLE → request_queue_ v' ≠ [] → ∃ r, r ∈ request_queue_ v' ∧ granted_ r = true) →
  Inv s' W.
Proof using Type.
  intros HI Hv Hq' Hnext Hlt1 Hlt2 Hsets Hl Hlatch Hkeys Hok Hpr.
  pose proof (inv_queues _ _ HI _ _ Hv) as Hqv.
  assert (∀ q0 v0, queues s' !! q0 = Some v0 → ∃ v1, queues s !! q0 = Some v1 ∧
    ∀ r, r ∈ request_queue_ v0 → ∃ r0, r0 ∈ request_queue_ v1 ∧ rq_id r0 = rq_id r ∧ rq_txn r0 = rq_txn r) as Hold.
  { intros q0 v0. rewrite Hq'. intros [(<- & <-)|(Hne & H0)]%lookup_insert_Some; [|by eauto 10].
    exists v. split; [done|]. intros r Hr. destruct (Hl r Hr) as (r0 & ? & ? & ? & _). eauto. }
  split.
  - intros q0 v0. rewrite Hq'. intros [(<- & <-)|(Hne & H0)]%lookup_insert_Some; [|by eapply inv_queues].
    split; [by rewrite Hlatch; apply Hqv| |done| |done].
    + intros k Hk. by apply Hqv, Hkeys.
    + intros r Hr Hg. destruct (Hl r Hr) as (r0 & Hr0 & <- & <- & Hg0). apply Hqv; auto.
  - intros q0 v0 r0 H0 Hr0. destruct (Hold _ _ H0) as (v1 & H1 & Hr1). destruct (Hr1 _ Hr0) as (r1 & Hr & Hid & Htx).
    destruct (inv_owned _ _ HI _ _ _ H1 Hr) as [Ho|Ho]; rewrite Htx in Ho; [left; by eauto|right; by rewrite <-Hid].
  - intros q0 v0 r0 H0 Hr0. destruct (Hold _ _ H0) as (v1 & H1 & Hr1). destruct (Hr1 _ Hr0) as (r1 & Hr & <- & _).
    pose proof (inv_ids _ _ HI _ _ _ H1 Hr). lia.
  - intros q0 v0 H0. destruct (Hold _ _ H0) as (v1 & H1 & _).
    pose proof (inv_gens _ _ HI _ _ H1). lia.
  - intros q0 v0 H0 Hn. destruct (decide (lock_table_ s !! q0.1 = Some (Some q0.2))) as [Hc|Hc].
    + destruct (Hlt2 _ _ Hc) as [?|[Heq Hnil]]; [done|]. rewrite <-surjective_pairing in Heq. subst q0.
      rewrite Hq', lookup_insert_eq in H0. by simplify_eq.
    + destruct (request_queue_ v0) as [|r l] eqn:El; [done|]. destruct (Hold _ _ H0) as (v1 & H1 & Hr1).
      destruct (Hr1 r) as (r1 & Hr & _); [rewrite El; left|].
      rewrite (inv_old _ _ HI _ _ H1 Hc) in Hr. by apply not_elem_of_nil in Hr.
  - intros id n Hn. rewrite Hq'. apply lookup_insert_is_Some'. right. by eapply inv_current, Hlt1.
  - apply HI.
  - intros id Hn. by eapply inv_null, Hlt1.
  - intros t' Ht'. eapply sets_grow_txn; [done|]. by eapply inv_txns.
Qed.
End keeps.

(** *** The bodies of the calls *)

Definition fin (W : gmap Z wait_point) (t : Z) (r : lock_result) (s : LockManager) : Prop :=
  match r with Returned _ => Inv s W | Waits w => Inv s (<[t := w]> W) end.

(** [t] may have changed the queue [q] to [v'], taken names and grown lock sets. *)
Record touched (s : LockManager) (q : qid) (v' : LockRequestQueue) (s' : LockManager) : Prop := {
  to_queues : queues s' = <[q := v']> (queues s);
  to_table : lock_table_ s' = lock_table_ s;
  to_next : next_ s ≤ next_ s';
  to_sets : sets_grow s s';
}.

Lemma lock_sets_kept s s' t T T' :
  txns s !! t = Some T → txns s' = <[t := T']> (txns s) → lock_set_ T ⊆ lock_set_ T' → sets_grow s s'.
Proof.
  intros HT Hs' Hsub t' T0 HT0. rewrite Hs'. destruct (decide (t' = t)) as [->|Hne].
  - rewrite lookup_insert_eq. simplify_eq. by exists T'.
  - rewrite lookup_insert_ne by done. eauto.
Qed.

Section body.
Context (W : gmap Z wait_point) (t : Z) (Ht : W !! t = None).
Context (s : LockManager) (q : qid) (v : LockRequestQueue).
Context (HI : Inv s W) (Hv : queues s !! q = Some v) (Hcur : lock_table_ s !! q.1 = Some (Some q.2)).
Context (Htx : is_Some (txns s !! t)).
Abbreviation l := (request_queue_ v).
Abbreviation type := (lk_type q.1).

Lemma body_ok : requests_ok type (group_mode_ v) l.
Proof using HI Hv. apply (inv_queues _ _ HI _ _ Hv). Qed.

Lemma fresh_id r : r ∈ l → rq_id r ≠ next_ s.
Proof using HI Hv. intros Hr. pose proof (inv_ids _ _ HI _ _ _ Hv Hr). lia. Qed.

Lemma fresh_ids : next_ s ∉ rq_id <$> l.
Proof using HI Hv. intros (r & Heq & Hr)%list_elem_of_fmap. by eapply fresh_id. Qed.

(** A new request of [t], granted or waiting. *)
Lemma fin_new g' m b s' v' W' :
  touched s q v' s' → next_ s < next_ s' → t ∉ rq_txn <$> l → may_wait t W W' →
  latched v' = latched v → insert_keys_ v' = insert_keys_ v → group_mode_ v' = g' →
  request_queue_ v' ≡ₚ mkRequest (next_ s) t m b [] :: l →
  mode_ok type m → requests_ok type g' l →
  (b = true ∧ covers type g' m ∧ (∀ r, r ∈ l → granted_ r = true → compatible m (lock_mode_ r)) ∧
     in_lock_set s' t q.1 ∨
   b = false ∧ (∃ w, W' !! t = Some w ∧ pending w = Some (q, next_ s) ∧ is_new w = true) ∧
     (type = TABLE → ∃ x, x ∈ l ∧ granted_ x = true)) →
  Inv s' W'.
Proof using Ht HI Hv Hcur Htx.
  intros [Hq Hlt _ Hsets] Hnext Hnt HW' Hlatch Hkeys Hg' Hperm Hm Hok Hcase.
  eapply (inv_own W t Ht s s' W' q v v'); [done..|lia|done|exact Hperm| |done|done| |done|simpl; lia|].
  - intros x Hx. split; [done|]. intros <-. by apply Hnt, list_elem_of_fmap_2.
  - rewrite Hg'. apply requests_ok_cons. simpl. split_and!; try done.
    + apply fresh_ids.
    + intros ->. naive_solver.
    + intros ->. naive_solver.
  - destruct Hcase as [(-> & _ & _ & Hs)|(-> & (w & Hw & Hp & Hn) & Hpr)]; [by left|right].
    split; [|done]. exists w. rewrite Hn. done.
Qed.

(** The requests of [t] leave the queue as [t] dies. *)
Lemma fin_die s' v' :
  touched s q v' s' → latched v' = latched v → (∀ k, k ∈ insert_keys_ v' → k ∈ insert_keys_ v) →
  group_mode_ v' = group_mode_ v → request_queue_ v' ≡ₚ filter (λ r, rq_txn r ≠ t) l →
  (type = TABLE → filter (λ r, rq_txn r ≠ t) l ≠ [] →
     ∃ r, r ∈ l ∧ rq_txn r ≠ t ∧ granted_ r = true) →
  Inv s' W.
Proof using HI Hv Hcur.
  intros [Hq Hlt Hnext Hsets] Hlatch Hkeys Hg Hperm Hpr.
  eapply (inv_less W s s' q v v'); [done|done|done|done|by rewrite Hlt|rewrite Hlt; by left|done| |done|done|..].
  - intros r. rewrite Hperm. intros [_ Hr]%list_elem_of_filter. eauto 10.
  - rewrite Hg, Hperm. pose proof body_ok as [H1 H2 H3 H4 H5 H6 H7].
    split; [done|by apply NoDup_fmap_filter|by apply NoDup_fmap_filter|..];
      intros *; rewrite ?list_elem_of_filter; naive_solver.
  - intros HTab Hne. setoid_rewrite Hperm.
    destruct (Hpr HTab) as (r & Hr & Hrt & Hg'); [|exists r; by rewrite list_elem_of_filter].
    intros Heq. apply Hne. rewrite Heq in Hperm. by apply Permutation_nil_r in Hperm.
Qed.

(** [t] changes the request it has. *)
Lemma fin_change g' r r' rest s' v' W' :
  touched s q v' s' → l ≡ₚ r :: rest → rq_txn r = t → may_wait t W W' →
  latched v' = latched v → insert_keys_ v' = insert_keys_ v → group_mode_ v' = g' →
  request_queue_ v' ≡ₚ r' :: rest → rq_id r' = rq_id r → rq_txn r' = t → gaps r' = gaps r →
  mode_ok type (lock_mode_ r') → requests_ok type g' rest →
  (granted_ r' = true ∧ covers type g' (lock_mode_ r') ∧
     (∀ x, x ∈ rest → granted_ x = true → compatible (lock_mode_ r') (lock_mode_ x)) ∨
   granted_ r' = false ∧ (∃ w, W' !! t = Some w ∧ pending w = Some (q, rq_id r)) ∧
     (type = TABLE → ∃ x, x ∈ rest ∧ granted_ x = true)) →
  Inv s' W'.
Proof using Ht HI Hv Hcur Htx.
  intros [Hq Hlt Hnext Hsets] Hl Hrt HW' Hlatch Hkeys Hg' Hperm Hid Hrt' Hgaps Hm Hok Hcase.
  pose proof body_ok as Hbody. rewrite Hl in Hbody. apply requests_ok_cons in Hbody as (_ & Hi & Hx & Hgap & _).
  assert (r ∈ l) as Hr by (rewrite Hl; left).
  assert (in_lock_set s' t q.1) as Hset.
  { destruct (inv_owned _ _ HI _ _ _ Hv Hr) as [Ho|(w & Hw & _)]; [rewrite Hrt in Ho; by eauto|].
    by rewrite Hrt, Ht in Hw. }
  eapply (inv_own W t Ht s s' W' q v v'); [done..|exact Hperm| |done|done| |done| |].
  - intros x Hx'. split; [rewrite Hl; by right|]. intros Heq. apply Hx. rewrite Hrt, <-Heq.
    by apply list_elem_of_fmap_2.
  - rewrite Hg'. apply requests_ok_cons. rewrite Hid, Hrt', Hgaps, <-Hrt.
    split_and!; try done; intros Hg; destruct Hcase as [(_ & Hc & Hcomp)|(Hg0 & _)]; congruence || done.
  - rewrite Hid. pose proof (inv_ids _ _ HI _ _ _ Hv Hr). lia.
  - destruct Hcase as [(Hg & _)|(Hg & (w & Hw & Hp) & Hpr)]; [by left|right].
    split; [|done]. exists w. by rewrite Hid.
Qed.
End body.

(** A queue or transaction that a state is known to have. *)
Ltac there :=
  cbn; rewrite ?lookup_insert_is_Some'; rewrite ?lookup_insert_ne by done;
  first [done | by eexists | rewrite lookup_insert_eq; by eexists | by eauto | tauto].
(** One step of a body's run. *)
Ltac wp_step :=
  cbv zeta; simpl;
  lazymatch goal with
  | |- lwp (bind _ _) _ _ _ => apply wp_bind
  | |- lwp (ret _) _ _ _ => apply wp_ret
  | |- lwp (returned _) _ _ _ => apply wp_ret
  | |- lwp (gets _) _ _ _ => apply wp_gets
  | |- lwp (modify _) _ _ _ => apply wp_modify
  | |- wp fresh _ _ _ => apply wp_fresh
  | |- lwp (throw (TransactionAbortException _ _)) _ _ _ => apply wp_abort
  | |- lwp (get_queue _) _ _ _ => apply wp_get_queue; [there|]; let v := fresh "v" in let H := fresh "Hv" in intros v H
  | |- lwp (mod_queue _ _) _ _ _ => apply wp_mod_queue; [there|]; let v := fresh "v" in let H := fresh "Hv" in intros v H
  | |- lwp (mod_txn _ _) _ _ _ => apply wp_mod_txn; [there|]; let T := fresh "T" in let H := fresh "HT" in intros T H
  | |- lwp (emplace _ _) _ _ _ => unfold emplace
  end.
Ltac wp_steps := repeat (wp_step; simpl in *; simplify_map_eq).

Lemma wp_park t w (Q : lock_result → LockManager → Prop) E s :
  ready w s = false → Q (Waits w) s → lwp (park t w) Q E s.
Proof. intros Hr HQ. unfold wp, park. by rewrite Hr. Qed.

Lemma park_waits t w s : ready w s = false → park t w s = (Ok (Waits w), s).
Proof. intros Hr. unfold park. by rewrite Hr. Qed.

Lemma not_granted q id v r rest s :
  queues s !! q = Some v → request_queue_ v ≡ₚ r :: rest → id = rq_id r → id ∉ rq_id <$> rest →
  granted_ r = false → is_granted q id s = false.
Proof.
  intros Hv Hl -> Hid Hg. unfold is_granted. rewrite Hv. apply not_true_iff_false.
  rewrite existsb_exists. intros (x & Hx & [Hxr Hxg]%andb_true_iff).
  apply list_elem_of_In in Hx. rewrite Hl in Hx. apply Z.eqb_eq in Hxr.
  apply elem_of_cons in Hx as [->|Hx]; [congruence|]. apply Hid. rewrite <-Hxr.
  by apply list_elem_of_fmap_2.
Qed.

Lemma push_request_perm r v : request_queue_ (push_request r v) ≡ₚ r :: request_queue_ v.
Proof. simpl. by rewrite Permutation_app_comm. Qed.

Lemma upd_pushed f r v :
  rq_id r ∉ rq_id <$> request_queue_ v →
  request_queue_ (upd_request (rq_id r) f (push_request r v)) ≡ₚ f r :: request_queue_ v.
Proof. intros Hid. apply upd_request_perm; [apply push_request_perm|done]. Qed.

Lemma touched_txns s q v' s' t T T' :
  txns s !! t = Some T → txns s' = <[t := T']> (txns s) → lock_set_ T ⊆ lock_set_ T' →
  queues s' = <[q := v']> (queues s) → lock_table_ s' = lock_table_ s → next_ s ≤ next_ s' →
  touched s q v' s'.
Proof. intros HT HT' Hsub ???. split; [done..|]. by eapply lock_sets_kept. Qed.

Lemma touched_same s q v' s' :
  txns s' = txns s →
  queues s' = <[q := v']> (queues s) → lock_table_ s' = lock_table_ s → next_ s ≤ next_ s' →
  touched s q v' s'.
Proof. intros HT ???. split; [done..|]. intros t T Ht. exists T. by rewrite HT. Qed.

Lemma touched_trans s q v1 s1 v2 s2 : touched s q v1 s1 → touched s1 q v2 s2 → touched s q v2 s2.
Proof.
  intros [H1 H2 H3 H4] [H1' H2' H3' H4']. split.
  - by rewrite H1', H1, insert_insert_eq.
  - by rewrite H2'.
  - lia.
  - by etrans.
Qed.

Section bodies.
Context (W : gmap Z wait_point) (t : Z) (Ht : W !! t = None).
Context (s : LockManager) (q : qid) (v : LockRequestQueue).
Context (HI : Inv s W) (Hv : queues s !! q = Some v) (Hcur : lock_table_ s !! q.1 = Some (Some q.2)).
Context (Htx : is_Some (txns s !! t)).
Abbreviation l := (request_queue_ v).
Abbreviation type := (lk_type q.1).

(** [wait_die] in a state that differs from [s] in the requests of [t] only. *)
Lemma wp_die s1 v1 (Q : unit → _) :
  touched s q v1 s1 → latched v1 = latched v → insert_keys_ v1 = insert_keys_ v →
  group_mode_ v1 = group_mode_ v →
  filter (λ r, rq_txn r ≠ t) (request_queue_ v1) ≡ₚ filter (λ r, rq_txn r ≠ t) l →
  (type = TABLE → ∃ r, r ∈ l ∧ rq_txn r ≠ t ∧ granted_ r = true) →
  is_Some (txns s1 !! t) → Q tt s1 → lwp (wait_die q t) Q (λ s', Inv s' W) s1.
Proof using HI Hv Hcur.
  intros Ht1 Hlatch Hkeys Hg Hf Hpr Htx1 HQ.
  apply wp_wait_die; [rewrite (to_queues _ _ _ _ Ht1); there|done|done|].
  intros v0 T v' Hv0 HT Hl' Hlatch' Hg' Hkeys'.
  assert (v0 = v1) as ->.
  { pose proof (to_queues _ _ _ _ Ht1) as Hq. rewrite Hq, lookup_insert_eq in Hv0. by simplify_eq. }
  eapply (fin_die W t s q v HI Hv Hcur _ v'); [|congruence| |congruence| |by auto].
  - eapply touched_trans; [exact Ht1|]. by eapply (touched_txns _ _ _ _ t T (set_state ABORTED T)).
  - intros k Hk. rewrite <-Hkeys. auto.
  - by rewrite Hl', Hf.
Qed.

(** A new request that is not granted: [t] dies or waits. *)
Lemma wp_wait_new m w k s1 v1 :
  touched s q v1 s1 → next_ s < next_ s1 → t ∉ rq_txn <$> l →
  latched v1 = latched v → insert_keys_ v1 = insert_keys_ v → group_mode_ v1 = group_mode_ v →
  request_queue_ v1 ≡ₚ mkRequest (next_ s) t m false [] :: l → mode_ok type m →
  pending w = Some (q, next_ s) → is_new w = true →
  (type = TABLE → ∃ x, x ∈ l ∧ granted_ x = true) →
  (is_granted q (next_ s) s1 = false → k s1 = (Ok (Waits w), s1)) →
  lwp (do! wait_die q t in k) (fin W t) (λ s', Inv s' W) s1.
Proof using Ht HI Hv Hcur Htx.
  intros Ht1 Hnext Hnt Hlatch Hkeys Hg Hl1 Hm Hp Hn Hpr Hk. apply wp_bind.
  eapply wp_die; [done..| | | |].
  { rewrite Hl1. by rewrite filter_cons_False by (simpl; naive_solver). }
  { intros HTab. destruct (Hpr HTab) as (r & Hr & Hgr). exists r. split_and!; [done| |done].
    intros <-. by apply Hnt, list_elem_of_fmap_2. }
  { eapply sets_grow_txn; [apply Ht1|done]. }
  assert (queues s1 !! q = Some v1) as Hv1 by (rewrite (to_queues _ _ _ _ Ht1); apply lookup_insert_eq).
  unfold wp. rewrite Hk.
  - simpl. eapply (fin_new W t Ht s q v HI Hv Hcur Htx _ m false); [done| | |right; by eauto 10| | | | | | |]; try done.
    + by apply (body_ok W s q v).
    + right. split; [done|]. split; [|done]. exists w. by rewrite lookup_insert_eq.
  - eapply not_granted; [done..| |done]. by eapply fresh_ids.
Qed.
End bodies.

(** A call that finds its lock granted changes nothing. *)
Lemma upd_request_id f it v :
  it ∈ request_queue_ v → NoDup (rq_id <$> request_queue_ v) → f it = it → upd_request (rq_id it) f v = v.
Proof.
  intros Hit Hnd Hf. destruct v as [l b u g k]. unfold upd_request, set_requests. simpl in *. f_equal.
  rewrite <-(list_fmap_id l) at 2. apply list_fmap_ext. intros i r Hr. simpl.
  destruct (rq_id r =? rq_id it) eqn:E; [|done]. apply Z.eqb_eq in E.
  apply list_elem_of_lookup in Hit as (j & Hj).
  assert (i = j) as <-.
  { eapply NoDup_lookup; [exact Hnd|by rewrite list_lookup_fmap, Hr|]. by rewrite list_lookup_fmap, Hj, E. }
  congruence.
Qed.

Lemma set_queues_id s q v : queues s !! q = Some v → set_queues (<[q := v]> (queues s)) s = s.
Proof. intros Hv. unfold set_queues. rewrite insert_id by done. by destruct s. Qed.

Lemma wp_same W t s q v it f :
  Inv s W → queues s !! q = Some v → it ∈ request_queue_ v → f it = it →
  lwp (do! mod_queue q (upd_request (rq_id it) f) in returned true) (fin W t) (λ s', Inv s' W) s.
Proof.
  intros HI Hv Hit Hf. apply wp_bind, wp_mod_queue; [there|]. intros v0 Hv0. simplify_eq. apply wp_ret.
  pose proof (inv_queues _ _ HI _ _ Hv) as Hq.
  by rewrite upd_request_id, set_queues_id by (try done; apply (ro_ids _ _ _ (qo_requests _ _ _ Hq))).
Qed.

Lemma set_granted_id r : granted_ r = true → set_granted true r = r.
Proof. destruct r. simpl. by intros ->. Qed.

Lemma exclusive_to_other_spec t v :
  exclusive_to_other t v = true ↔
  ∃ r, r ∈ request_queue_ v ∧ granted_ r = true ∧ rq_txn r ≠ t ∧ lock_mode_ r = EXLUCSIVE.
Proof.
  unfold exclusive_to_other. rewrite existsb_exists. split.
  - intros (r & Hr & [[Hg Ht]%andb_true_iff Hm]%andb_true_iff). exists r.
    rewrite list_elem_of_In. apply bool_decide_eq_true in Hm. apply negb_true_iff, Z.eqb_neq in Ht. done.
  - intros (r & Hr & Hg & Ht & Hm). exists r. rewrite <-list_elem_of_In. split; [done|].
    rewrite Hg, Hm, bool_decide_eq_true_2 by done. apply Z.eqb_neq in Ht. by rewrite Ht.
Qed.

(** While [t] holds the lock nobody else holds it exclusively. *)
Lemma not_exclusive_to_other type g t v it :
  requests_ok type g (request_queue_ v) → it ∈ request_queue_ v → rq_txn it = t → granted_ it = true →
  exclusive_to_other t v = false.
Proof.
  intros Hok Hit Ht Hg. apply not_true_iff_false. intros (r & Hr & Hgr & Hrt & Hm)%exclusive_to_other_spec.
  destruct (ro_compatible _ _ _ Hok it r) as [_ Hn]; [done..|congruence|]. done.
Qed.

Lemma find_request_own W t s q v it :
  W !! t = None → Inv s W → queues s !! q = Some v → find_request t v = Some it →
  rq_txn it = t ∧ granted_ it = true ∧ it ∈ request_queue_ v ∧ ∃ rest, request_queue_ v ≡ₚ it :: rest.
Proof.
  intros Ht HI Hv (Hit & rest & Hl)%find_request_Some.
  assert (it ∈ request_queue_ v) as Hin by (rewrite Hl; left).
  split_and!; [done| |done|by eauto].
  eapply own_granted; [exact Ht|by eapply inv_queues|done..].
Qed.

Ltac touch t :=
  first [ apply touched_same; cbn; [done| |done|lia]; by rewrite ?insert_insert_eq
        | eapply (touched_txns _ _ _ _ t); cbn; [eassumption|rewrite ?insert_insert_eq; reflexivity|set_solver| |done|lia];
          by rewrite ?insert_insert_eq ].
Ltac in_set := unfold in_lock_set; cbn; rewrite ?lookup_insert_eq; eexists; split; [done|set_solver].

Lemma Inv_txn W t s T T' :
  Inv s W → txns s !! t = Some T → lock_set_ T ⊆ lock_set_ T' → Inv (set_txns (<[t := T']> (txns s)) s) W.
Proof.
  intros HI HT Hsub. assert (sets_grow s (set_txns (<[t := T']> (txns s)) s)) as Hg by by eapply lock_sets_kept.
  split; try apply HI.
  - intros q v r Hv Hr. destruct (inv_owned _ _ HI _ _ _ Hv Hr) as [Ho|Ho]; [left; by eauto|by right].
  - intros t' Ht'. eapply sets_grow_txn; [exact Hg|]. by apply (inv_txns _ _ HI).
Qed.

Section bodies2.
Context (W : gmap Z wait_point) (t : Z) (Ht : W !! t = None).
Context (s : LockManager) (q : qid) (v : LockRequestQueue).
Context (HI : Inv s W) (Hv : queues s !! q = Some v) (Hcur : lock_table_ s !! q.1 = Some (Some q.2)).
Context (Htx : is_Some (txns s !! t)).
Abbreviation body m := (lwp m (fin W t) (λ s', Inv s' W) s).

(** [wait_die] after a request was pushed behind the queue. *)
Lemma wp_push_wait m w k :
  let pushed :=
    set_queues (<[q := push_request (mkRequest (next_ s) t m false []) v]> (queues s)) (set_next (next_ s + 1) s) in
  t ∉ rq_txn <$> request_queue_ v → mode_ok (lk_type q.1) m →
  pending w = Some (q, next_ s) → is_new w = true →
  (lk_type q.1 = TABLE → ∃ x, x ∈ request_queue_ v ∧ granted_ x = true) →
  (is_granted q (next_ s) pushed = false → k pushed = (Ok (Waits w), pushed)) →
  lwp (do! wait_die q t in k) (fin W t) (λ s', Inv s' W) pushed.
Proof using Ht HI Hv Hcur Htx.
  intros pushed Hnt Hm Hp Hn Hpr Hk.
  eapply (wp_wait_new W t Ht s q v HI Hv Hcur Htx m w k _ (push_request (mkRequest (next_ s) t m false []) v));
    [touch t|simpl; lia|try done..].
  apply push_request_perm.
Qed.

(** A new request that is granted at once. *)
Lemma fin_take g' m s' v' :
  touched s q v' s' → next_ s < next_ s' → in_lock_set s' t q.1 → t ∉ rq_txn <$> request_queue_ v →
  latched v' = latched v → insert_keys_ v' = insert_keys_ v → group_mode_ v' = g' →
  request_queue_ v' ≡ₚ mkRequest (next_ s) t m true [] :: request_queue_ v →
  mode_ok (lk_type q.1) m → requests_ok (lk_type q.1) g' (request_queue_ v) → covers (lk_type q.1) g' m →
  (∀ r, r ∈ request_queue_ v → granted_ r = true → compatible m (lock_mode_ r)) →
  Inv s' W.
Proof using Ht HI Hv Hcur Htx.
  intros. eapply (fin_new W t Ht s q v HI Hv Hcur Htx g' m true); try done; [by left|]. left. done.
Qed.

Lemma shared_body_ok : lk_type q.1 = RECORD → body (shared_body t q).
Proof using Ht HI Hv Hcur Htx.
  intros Htype. unfold shared_body. wp_step. apply wp_get_queue; [there|]. intros v0 Hv0. simplify_eq.
  pose proof (body_ok W s q v HI Hv) as Hok. pose proof (fresh_ids W s q v HI Hv) as Hfr.
  rewrite Htype in Hok. cbv zeta.
  destruct (find_request t v) as [it|] eqn:Eit.
  - apply (find_request_own W _ s q) in Eit as (Hit & Hg & Hin & _); [|done..].
    pose proof (ro_covers _ _ _ Hok it Hin Hg) as Hc. pose proof (ro_modes _ _ _ Hok it Hin) as Hm.
    pose proof (wp_same W t s q v it (set_granted true) HI Hv Hin (set_granted_id _ Hg)) as Hsame.
    destruct (group_mode_ v); [|done| |..]; try (by destruct (lock_mode_ it); naive_solver).
    by rewrite (not_exclusive_to_other _ _ _ _ it Hok).
  - apply find_request_None in Eit. wp_steps. case_decide as HX.
    + eapply (wp_push_wait SHARED (SharedNew q (next_ s))); rewrite ?Htype; try done; [by apply waits_on_type|]. intros; by apply park_waits.
    + wp_steps. eapply (fin_take GroupMode.S SHARED); [touch t|simpl; lia|in_set|done..| | | | |].
      * exact (upd_pushed (set_granted true) (mkRequest (next_ s) t SHARED false []) v Hfr).
      * by rewrite Htype.
      * rewrite Htype. eapply requests_ok_regroup; [done..|].
        intros r Hr Hgr. pose proof (ro_modes _ _ _ Hok r Hr) as Hm.
        destruct (lock_mode_ r); simpl in *; naive_solver.
      * rewrite Htype. by left.
      * intros r Hr Hgr. split; [done|]. intros Hm. pose proof (ro_covers _ _ _ Hok r Hr Hgr) as Hc.
        by rewrite Hm in Hc.
Qed.
(** What the mode of a table's queue says about its requests. *)
Lemma table_progress x : lk_type q.1 = TABLE → x ∈ request_queue_ v →
  ∃ r, r ∈ request_queue_ v ∧ granted_ r = true ∧ covers TABLE (group_mode_ v) (lock_mode_ r).
Proof using HI Hv.
  intros HT Hx. pose proof (inv_queues _ _ HI _ _ Hv) as Hq.
  destruct (qo_progress _ _ _ Hq HT) as (r & Hr & Hg); [intros Heq; rewrite Heq in Hx; by apply not_elem_of_nil in Hx|].
  exists r. split_and!; [done..|]. rewrite <-HT. by apply (ro_covers _ _ _ (qo_requests _ _ _ Hq)).
Qed.

Lemma no_exclusive : lk_type q.1 = TABLE → group_mode_ v ≠ GroupMode.TAB_X →
  ∀ r, r ∈ request_queue_ v → granted_ r = true → lock_mode_ r ≠ EXLUCSIVE.
Proof using HI Hv.
  intros HT HX r Hr Hg Hm. pose proof (body_ok W s q v HI Hv) as Hok.
  pose proof (ro_covers _ _ _ Hok r Hr Hg) as Hc. by rewrite Hm, HT in Hc.
Qed.

Lemma IS_body_ok : lk_type q.1 = TABLE → body (IS_body t q).
Proof using Ht HI Hv Hcur Htx.
  intros Htype. unfold IS_body. wp_step. apply wp_get_queue; [there|]. intros v0 Hv0. simplify_eq.
  pose proof (body_ok W s q v HI Hv) as Hok. pose proof (fresh_ids W s q v HI Hv) as Hfr.
  pose proof (no_exclusive Htype) as Hnx. rewrite Htype in Hok. cbv zeta.
  pose proof (ro_group _ _ _ Hok) as Hgr.
  destruct (find_request t v) as [it|] eqn:Eit.
  - apply (find_request_own W _ s q) in Eit as (Hit & Hg & Hin & _); [|done..].
    pose proof (ro_covers _ _ _ Hok it Hin Hg) as Hc. pose proof (ro_modes _ _ _ Hok it Hin) as Hm.
    pose proof (wp_same W t s q v it (set_granted true) HI Hv Hin (set_granted_id _ Hg)) as Hsame.
    destruct (group_mode_ v); try done; [by destruct (lock_mode_ it); naive_solver|].
    by rewrite (not_exclusive_to_other _ _ _ _ it Hok).
  - apply find_request_None in Eit. wp_steps. case_decide as HX.
    + wp_steps. rewrite HX in *.
      eapply (fin_take GroupMode.IS INTENSION_SHARED); [touch t|simpl; lia|in_set|..]; rewrite ?Htype, ?HX; try done.
      * cbn. by rewrite HX.
      * by apply requests_ok_nil.
      * by left.
      * set_solver.
    + wp_steps. destruct (request_queue_ v) as [|x l] eqn:El; [done|].
      destruct (table_progress x) as (r & Hr & Hgrant & Hc); [done|rewrite El; left|]. rewrite <-El in *.
      destruct (group_mode_ v) eqn:Eg; try done.
      1: by destruct (lock_mode_ r); naive_solver.
      1: { eapply (wp_push_wait INTENSION_SHARED (ISNew q (next_ s)));
             rewrite ?Htype; try done; [by apply waits_on_type|intros _; by eauto|intros; by apply park_waits]. }
      1: { wp_steps. eapply (fin_take GroupMode.IS INTENSION_SHARED); [touch t|simpl; lia|in_set|..]; rewrite ?Htype; try done.
           - exact (upd_pushed (set_granted true) (mkRequest (next_ s) t INTENSION_SHARED false []) v Hfr).
           - by left.
           - intros y Hy Hgy. split; [done|auto]. }
      1: { wp_steps. eapply (fin_take GroupMode.IX INTENSION_SHARED); [touch t|simpl; lia|in_set|..]; rewrite ?Htype; try done.
           - exact (upd_pushed (set_granted true) (mkRequest (next_ s) t INTENSION_SHARED false []) v Hfr).
           - by right; left.
           - intros y Hy Hgy. split; [done|auto]. }
Qed.
(** [t] changes the request it holds in place. *)
Lemma fin_change_own g' it f v' s' :
  touched s q v' s' → find_request t v = Some it →
  latched v' = latched v → insert_keys_ v' = insert_keys_ v → group_mode_ v' = g' →
  request_queue_ v' = request_queue_ (upd_request (rq_id it) f v) →
  rq_id (f it) = rq_id it → rq_txn (f it) = rq_txn it → gaps (f it) = gaps it → granted_ (f it) = true →
  mode_ok (lk_type q.1) (lock_mode_ (f it)) → covers (lk_type q.1) g' (lock_mode_ (f it)) →
  requests_ok (lk_type q.1) g' (request_queue_ v) →
  (∀ x, x ∈ request_queue_ v → rq_txn x ≠ t → granted_ x = true → compatible (lock_mode_ (f it)) (lock_mode_ x)) →
  Inv s' W.
Proof using Ht HI Hv Hcur Htx.
  intros Ht1 Hfind Hlatch Hkeys Hg Hl' Hid Htid Hgaps Hgr Hm Hc Hok Hcomp.
  destruct (find_request_own W t s q v it Ht HI Hv Hfind) as (Hit & _ & Hin & rest & Hl).
  rewrite Hl in Hok. apply requests_ok_cons in Hok as (Hok & Hid' & Htx' & _).
  eapply (fin_change W t Ht s q v HI Hv Hcur Htx g' it (f it) rest s' v' W); try done; [by left| |congruence|left].
  - rewrite Hl'. by apply upd_request_perm.
  - split_and!; [done..|]. intros x Hx. apply Hcomp; [rewrite Hl; by right|].
    intros Heq. apply Htx'. rewrite Hit, <-Heq. by apply list_elem_of_fmap_2.
Qed.

Lemma IX_body_ok : lk_type q.1 = TABLE → body (IX_body t q).
Proof using Ht HI Hv Hcur Htx.
  intros Htype. unfold IX_body. wp_step. apply wp_get_queue; [there|]. intros v0 Hv0. simplify_eq.
  pose proof (body_ok W s q v HI Hv) as Hok. pose proof (fresh_ids W s q v HI Hv) as Hfr.
  pose proof (no_exclusive Htype) as Hnx. rewrite Htype in Hok. cbv zeta.
  pose proof (ro_group _ _ _ Hok) as Hgr.
  destruct (find_request t v) as [it|] eqn:Eit.
  - pose proof Eit as Eit'. apply (find_request_own W _ s q) in Eit as (Hit & Hg & Hin & _); [|done..].
    pose proof (ro_covers _ _ _ Hok it Hin Hg) as Hc. pose proof (ro_modes _ _ _ Hok it Hin) as Hm.
    pose proof (wp_same W t s q v it (set_granted true) HI Hv Hin (set_granted_id _ Hg)) as Hsame.
    destruct (group_mode_ v) eqn:Eg; try done; [by destruct (lock_mode_ it); naive_solver| | |].
    + by rewrite (not_exclusive_to_other _ _ _ _ it Hok).
    + clear Hit. wp_steps. eapply (fin_change_own GroupMode.IX it
        (λ r, set_mode INTENSION_EXLUCSIVE (set_granted true r))); [touch t|..]; rewrite ?Htype; try done.
      * by left.
      * eapply requests_ok_regroup; [done..|]. intros r Hr Hgr'. destruct (lock_mode_ r); simpl; naive_solver.
      * intros x Hx _ Hgx. split; [done|auto].
    + clear Hit. wp_steps. eapply (fin_change_own GroupMode.IX it
        (λ r, set_granted true (if decide (lock_mode_ r = INTENSION_SHARED) then set_mode INTENSION_EXLUCSIVE r else r)));
        [touch t|..]; rewrite ?Htype; repeat case_decide; try done; cbn.
      * by left.
      * intros x Hx _ Hgx. split; [done|auto].
      * intros x Hx _ Hgx. split; [|auto]. auto.
  - apply find_request_None in Eit. wp_steps. case_decide as HX.
    + wp_steps. rewrite HX in *.
      eapply (fin_take GroupMode.IX INTENSION_EXLUCSIVE); [touch t|simpl; lia|in_set|..]; rewrite ?Htype, ?HX; try done.
      * cbn. by rewrite HX.
      * by apply requests_ok_nil.
      * by left.
      * set_solver.
    + wp_steps. destruct (request_queue_ v) as [|x l] eqn:El; [done|].
      destruct (table_progress x) as (r & Hr & Hgrant & Hc); [done|rewrite El; left|]. rewrite <-El in *.
      destruct (group_mode_ v) eqn:Eg; try done.
      1: by destruct (lock_mode_ r); naive_solver.
      1: { eapply (wp_push_wait INTENSION_EXLUCSIVE (IXNew q (next_ s)));
             rewrite ?Htype; try done; [by apply waits_on_type|intros _|intros; by apply park_waits]. eauto. }
      1: { wp_steps. eapply (fin_take GroupMode.IX INTENSION_EXLUCSIVE); [touch t|simpl; lia|in_set|..]; rewrite ?Htype; try done.
           - exact (upd_pushed (set_granted true) (mkRequest (next_ s) t INTENSION_EXLUCSIVE false []) v Hfr).
           - eapply requests_ok_regroup; [done..|]. intros y Hy Hgy. destruct (lock_mode_ y); simpl; naive_solver.
           - by left.
           - intros y Hy Hgy. split; [done|auto]. }
      1: { wp_steps. eapply (fin_take GroupMode.IX INTENSION_EXLUCSIVE); [touch t|simpl; lia|in_set|..]; rewrite ?Htype; try done.
           - exact (upd_pushed (set_granted true) (mkRequest (next_ s) t INTENSION_EXLUCSIVE false []) v Hfr).
           - by left.
           - intros y Hy Hgy. split; [done|auto]. }
Qed.
(** Giving up the lock for an exclusive one: the thread waits. *)
Lemma fin_upgrade_wait it w v' s' :
  touched s q v' s' → find_request t v = Some it →
  latched v' = latched v → insert_keys_ v' = insert_keys_ v → group_mode_ v' = group_mode_ v →
  request_queue_ v' = request_queue_ (upd_request (rq_id it) (λ r, set_mode EXLUCSIVE (set_granted false r)) v) →
  pending w = Some (q, rq_id it) →
  (lk_type q.1 = TABLE → ∃ r, r ∈ request_queue_ v ∧ rq_txn r ≠ t ∧ granted_ r = true) →
  Inv s' (<[t := w]> W).
Proof using Ht HI Hv Hcur Htx.
  intros Ht1 Hfind Hlatch Hkeys Hg Hl' Hp Hpr.
  destruct (find_request_own W t s q v it Ht HI Hv Hfind) as (Hit & _ & Hin & rest & Hl).
  pose proof (body_ok W s q v HI Hv) as Hok. pose proof (ro_modes _ _ _ Hok it Hin) as Hm.
  rewrite Hl in Hok. apply requests_ok_cons in Hok as (Hok & Hid' & Htx' & _).
  eapply (fin_change W t Ht s q v HI Hv Hcur Htx _ it (set_mode EXLUCSIVE (set_granted false it)) rest s' v');
    try done; [right; by eauto 10| | |right].
  - rewrite Hl'. by rewrite (upd_request_perm _ it rest).
  - by destruct (lk_type q.1).
  - split_and!; [done|exists w; by rewrite lookup_insert_eq|]. intros HT.
    destruct (Hpr HT) as (r & Hr & Hrt & Hgr). exists r. split; [|done].
    rewrite Hl in Hr. apply elem_of_cons in Hr as [->|Hr]; [congruence|done].
Qed.

(** ... and for dying the request is as good as the one before. *)
Lemma upd_filter it f :
  find_request t v = Some it → rq_txn (f it) = rq_txn it →
  filter (λ r, rq_txn r ≠ t) (request_queue_ (upd_request (rq_id it) f v)) ≡ₚ
  filter (λ r, rq_txn r ≠ t) (request_queue_ v).
Proof using Ht HI Hv.
  intros Hfind Hf. pose proof (body_ok W s q v HI Hv) as Hok.
  destruct (find_request_own W t s q v it Ht HI Hv Hfind) as (Hit & _ & Hin & rest & Hl).
  rewrite Hl in Hok. apply requests_ok_cons in Hok as (_ & Hid' & _).
  rewrite (upd_request_perm f it rest) by done. rewrite Hl.
  rewrite !filter_cons_False; [done|naive_solver|]. rewrite Hf. naive_solver.
Qed.

Lemma not_granted_upd it f v' s' :
  queues s' !! q = Some v' → find_request t v = Some it → rq_id (f it) = rq_id it → granted_ (f it) = false →
  request_queue_ v' = request_queue_ (upd_request (rq_id it) f v) → is_granted q (rq_id it) s' = false.
Proof using Ht HI Hv.
  intros Hv' Hfind Hid Hg Hl'. pose proof (body_ok W s q v HI Hv) as Hok.
  destruct (find_request_own W t s q v it Ht HI Hv Hfind) as (Hit & _ & Hin & rest & Hl).
  rewrite Hl in Hok. apply requests_ok_cons in Hok as (_ & Hid' & _).
  apply (not_granted q _ v' (f it) rest); [done| |done..]. rewrite Hl'. by apply upd_request_perm.
Qed.

Lemma in_set_touched v' s' : touched s q v' s' → queues s' !! q = Some v'.
Proof using Type. intros H. rewrite (to_queues _ _ _ _ H). apply lookup_insert_eq. Qed.

Lemma table_held_spec m : group_mode_ v ≠ GroupMode.GAP →
  table_held_by_other m t v = true ↔ ∃ r, r ∈ request_queue_ v ∧ rq_txn r ≠ t ∧ granted_ r = true.
Proof using Type.
  intros Hg. unfold table_held_by_other. rewrite existsb_exists.
  rewrite (bool_decide_eq_false_2 (group_mode_ v = GroupMode.GAP)) by done. cbn.
  setoid_rewrite <-list_elem_of_In. setoid_rewrite orb_false_r. setoid_rewrite andb_true_iff.
  setoid_rewrite negb_true_iff. by setoid_rewrite Z.eqb_neq.
Qed.

Lemma Inv_touched v' s' :
  touched s q v' s' → request_queue_ v' = request_queue_ v → group_mode_ v' = group_mode_ v →
  latched v' = latched v → (∀ k, k ∈ insert_keys_ v' → is_waited k = false) → Inv s' W.
Proof using HI Hv Hcur.
  intros [Hq Hlt Hnext Hsets] Hl Hg Hlatch Hkeys.
  assert (∀ q0 v0, queues s' !! q0 = Some v0 → ∃ v1, queues s !! q0 = Some v1 ∧
    request_queue_ v0 = request_queue_ v1 ∧ group_mode_ v0 = group_mode_ v1 ∧ latched v0 = latched v1 ∧
    ∀ k, k ∈ insert_keys_ v0 → is_waited k = false) as Hold.
  { intros q0 v0. rewrite Hq. intros [(<- & <-)|(Hne & H0)]%lookup_insert_Some; [by eauto 10|].
    exists v0. split_and!; [done..|]. apply (inv_queues _ _ HI _ _ H0). }
  split.
  - intros q0 v0 H0. destruct (Hold _ _ H0) as (v1 & H1 & E1 & E2 & E3 & E4).
    destruct (inv_queues _ _ HI _ _ H1) as [F1 F2 F3 F4 F5]. split; try done; rewrite ?E1, ?E2, ?E3; done.
  - intros q0 v0 r H0. destruct (Hold _ _ H0) as (v1 & H1 & -> & _). intros Hr.
    destruct (inv_owned _ _ HI _ _ _ H1 Hr) as [Ho|Ho]; [left; by eauto|by right].
  - intros q0 v0 r H0. destruct (Hold _ _ H0) as (v1 & H1 & -> & _). intros Hr.
    pose proof (inv_ids _ _ HI _ _ _ H1 Hr). lia.
  - intros q0 v0 H0. destruct (Hold _ _ H0) as (v1 & H1 & _). pose proof (inv_gens _ _ HI _ _ H1). lia.
  - intros q0 v0 H0. destruct (Hold _ _ H0) as (v1 & H1 & -> & _). rewrite Hlt. by eapply inv_old.
  - intros id n. rewrite Hlt, Hq. intros Hn. apply lookup_insert_is_Some'. right. by eapply inv_current.
  - apply HI.
  - intros id. rewrite Hlt. apply HI.
  - intros t' Ht'. eapply sets_grow_txn; [exact Hsets|]. by apply (inv_txns _ _ HI).
Qed.

Lemma table_X_body_ok : lk_type q.1 = TABLE → body (table_X_body t q).
Proof using Ht HI Hv Hcur Htx.
  intros Htype. unfold table_X_body. wp_step. apply wp_get_queue; [there|]. intros v0 Hv0. simplify_eq.
  pose proof (body_ok W s q v HI Hv) as Hok. pose proof (fresh_ids W s q v HI Hv) as Hfr.
  rewrite Htype in Hok. cbv zeta.
  assert (group_mode_ v ≠ GroupMode.GAP) as Hgap by (intros E; pose proof (ro_group _ _ _ Hok) as HG; by rewrite E in HG).
  apply wp_bind, wp_gets.
  destruct (find_request t v) as [it|] eqn:Eit.
  - destruct (negb _).
    + wp_steps. eapply (Inv_touched v); [|done..|]; [|apply (inv_queues _ _ HI _ _ Hv)].
      eapply (touched_txns _ _ _ _ t); cbn; [eassumption|done|done|by rewrite insert_id|done|lia].
    + wp_step. apply wp_mod_queue; [there|]. intros v0 Hv0. simplify_eq.
      destruct (table_held_by_other _ _ _) eqn:Eh.
      * apply (table_held_spec _ Hgap) in Eh. wp_step. apply wp_mod_queue; [there|]. intros v1 Hv1. simplify_map_eq.
        apply wp_bind. eapply (wp_die W t s q v HI Hv Hcur); [touch t|done..| | | |].
        -- by apply upd_filter.
        -- naive_solver.
        -- there.
        -- apply wp_park.
           ++ eapply (not_granted_upd it (λ r, set_mode EXLUCSIVE (set_granted false r)));
                [cbn; apply lookup_insert_eq|done..].
           ++ eapply fin_upgrade_wait; [touch t|done|done|done|done|done|by apply waits_on_type|]. naive_solver.
      * wp_steps. eapply (fin_change_own GroupMode.TAB_X it (λ r, set_mode EXLUCSIVE (set_granted true r)));
          [touch t|done|..]; rewrite ?Htype; unfold end_upgrade; cbn; rewrite ?Z.eqb_refl; try done.
        -- eapply requests_ok_regroup; [done..|]. intros r Hr _ Hc.
           pose proof (ro_modes _ _ _ Hok r Hr) as Hm. destruct (lock_mode_ r); naive_solver.
        -- intros x Hx Hxt Hgx. exfalso. apply not_true_iff_false in Eh. apply Eh, table_held_spec; eauto.
  - apply find_request_None in Eit. wp_steps. case_decide as HX; [|case_decide as HN].
    + wp_steps. rewrite HX in *.
      eapply (fin_take GroupMode.TAB_X EXLUCSIVE); [touch t|simpl; lia|in_set|..]; rewrite ?Htype, ?HX; try done.
      * cbn. rewrite HX. cbn. by rewrite Z.eqb_refl.
      * by apply requests_ok_nil.
      * set_solver.
    + exfalso. destruct (request_queue_ v) as [|x l] eqn:El; [done|].
      destruct (table_progress x) as (r & Hr & Hgrant & Hc); [done|rewrite El; left|].
      rewrite HN in Hc. by destruct (lock_mode_ r); naive_solver.
    + eapply (wp_push_wait EXLUCSIVE (TableXNew q (next_ s)));
             rewrite ?Htype; try done; [by apply waits_on_type|intros _|intros; by apply park_waits].
      destruct (request_queue_ v) as [|x l] eqn:El; [done|]. rewrite <-El.
      destruct (table_progress x) as (r & Hr & Hgrant & Hc); [done|rewrite El; left|]. eauto.
Qed.
End bodies2.

(** *** The exclusive lock *)

Lemma any_ok_false {A} (p : A → outcome bool) l : (∀ x, x ∈ l → p x = Ok false) → any_ok p l = Ok false.
Proof.
  induction l as [|x l IH]; intros Hp; [done|]. simpl. rewrite (Hp x) by left.
  apply IH. intros y Hy. apply Hp. by right.
Qed.

Lemma granted_to_other_spec t v :
  granted_to_other t v = true ↔ ∃ r, r ∈ request_queue_ v ∧ rq_txn r ≠ t ∧ granted_ r = true.
Proof.
  unfold granted_to_other. rewrite existsb_exists. setoid_rewrite <-list_elem_of_In.
  setoid_rewrite andb_true_iff. setoid_rewrite negb_true_iff. setoid_rewrite Z.eqb_neq. naive_solver.
Qed.

Lemma no_key_conflicts m k v : (∀ r, r ∈ request_queue_ v → gaps r = []) → key_conflicts m k v = Ok false.
Proof. intros Hg. apply any_ok_false. intros r Hr. by rewrite (Hg r Hr). Qed.

Lemma die_on_gap_run qt t vt s :
  queues s !! qt = Some vt → group_mode_ vt ≠ GroupMode.GAP → die_on_gap qt t s = (Ok tt, s).
Proof.
  intros Hvt Hg. unfold die_on_gap, get_queue, bind, gets, of_option, ret. rewrite Hvt.
  by rewrite decide_False.
Qed.

Lemma table_not_gap W s qt vt : Inv s W → queues s !! qt = Some vt → group_mode_ vt ≠ GroupMode.GAP.
Proof.
  intros HI Hvt E. pose proof (ro_group _ _ _ (qo_requests _ _ _ (inv_queues _ _ HI _ _ Hvt))) as Hg.
  rewrite E in Hg. by destruct (lk_type qt.1).
Qed.

Section exclusive.
Context (W : gmap Z wait_point) (t : Z) (Ht : W !! t = None).
Implicit Types (s : LockManager).

Lemma exclusive_body_ok s qr qt k :
  is_Some (txns s !! t) → Inv s W → lock_table_ s !! qr.1 = Some (Some qr.2) → lock_table_ s !! qt.1 = Some (Some qt.2) →
  lk_type qr.1 = RECORD → lk_type qt.1 = TABLE →
  lwp (exclusive_body t qr qt k) (fin W t) (λ s', Inv s' W) s.
Proof using Ht.
  intros Htx HI0 Hcr Hct Hr Hqt. unfold exclusive_body.
  destruct (inv_current _ _ HI0 _ _ Hct) as [vt0 Hvt0]. destruct (inv_current _ _ HI0 _ _ Hcr) as [vr0 Hvr0].
  rewrite <-surjective_pairing in Hvt0, Hvr0.
  apply wp_bind, wp_get_queue; [there|]. intros vt Hvt. clear Hvt0 vt0. apply wp_bind, wp_gets.
  pose proof (inv_queues _ _ HI0 _ _ Hvt) as Hqvt.
  rewrite no_key_conflicts by apply (ro_gaps _ _ _ (qo_requests _ _ _ Hqvt)).
  apply wp_bind, wp_ret, wp_bind, wp_mod_queue; [there|]. intros v0 Hv0. simplify_eq.
  match goal with |- wp _ _ _ ?s1 => assert (Inv s1 W) as HI; [|set (s0 := s1) in *] end.
  { eapply (Inv_touched W s qt vt); [done..|by apply touched_same|done|done|done|].
    intros x (y & -> & Hy)%list_elem_of_fmap. pose proof (qo_keys _ _ _ Hqvt y Hy) as Hw.
    destruct (ik_id y =? ik_id k); [|done]. simpl. by rewrite Hw. }
  assert (lock_table_ s0 !! qr.1 = Some (Some qr.2)) as Hcur by done.
  assert (is_Some (queues s0 !! qt)) as [vt' Hvt'] by (unfold s0; cbn; rewrite lookup_insert_eq; eauto).
  assert (is_Some (queues s0 !! qr)) as Hvr by (unfold s0; there).
  assert (is_Some (txns s0 !! t)) as Htx0 by done.
  clearbody s0. clear HI0 Hvt Hqvt vt Hcr Hvr0 Htx s Hct. pose proof (table_not_gap _ _ _ _ HI Hvt') as Hgap.
  apply wp_bind, wp_get_queue; [done|]. intros v Hv.
  pose proof (body_ok W s0 qr v HI Hv) as Hok. pose proof (fresh_ids W s0 qr v HI Hv) as Hfr.
  assert (qt ≠ qr) as Hne by (intros ->; congruence). cbv zeta. rewrite Hr in Hok.
  destruct (find_request t v) as [it|] eqn:Eit.
  - pose proof Eit as Eit'. apply (find_request_own W _ s0 qr) in Eit as (Hit & Hg & Hin & _); [|done..].
    pose proof (ro_modes _ _ _ Hok it Hin) as Hm. destruct (lock_mode_ it) eqn:Em; try done.
    destruct (negb _).
    + clear Hit. wp_steps. eapply (Inv_touched W s0 qr v HI Hv Hcur v); [|done..|]; [|apply (inv_queues _ _ HI _ _ Hv)].
      eapply (touched_txns _ _ _ _ t); cbn; [eassumption|done|done|by rewrite insert_id|done|lia].
    + clear Hit. wp_step. apply wp_mod_queue; [there|]. intros v0 Hv0. simplify_eq.
      rewrite orb_false_r. destruct (granted_to_other t v) eqn:Eh.
      * wp_step. apply wp_mod_queue; [there|]. intros v1 Hv1. simplify_map_eq.
        apply wp_bind. eapply (wp_die W t s0 qr v HI Hv Hcur); [touch t|done..| | | |].
        -- exact (upd_filter W t Ht s0 qr v HI Hv it (λ r, set_mode EXLUCSIVE (set_granted false r)) Eit' eq_refl).
        -- congruence.
        -- there.
        -- unfold wp. unfold bind. erewrite die_on_gap_run; [|cbn; rewrite !lookup_insert_ne by done; exact Hvt'|done].
           apply wp_park.
           ++ eapply (not_granted_upd W t Ht s0 qr v HI Hv it (λ r, set_mode EXLUCSIVE (set_granted false r)));
                [cbn; apply lookup_insert_eq|done..].
           ++ eapply fin_upgrade_wait; [done..|touch t|done|done|done|done|done|by apply waits_on_type|congruence].
      * wp_steps. eapply (fin_change_own W t Ht s0 qr v HI Hv Hcur Htx0 GroupMode.X it
          (λ r, set_mode EXLUCSIVE (set_granted true r)));
          [touch t|done|..]; rewrite ?Hr; unfold end_upgrade; cbn; rewrite ?Z.eqb_refl; try done.
        -- eapply requests_ok_regroup; [done..|]. intros r Hr' _ Hc.
           destruct (lock_mode_ r); naive_solver.
        -- intros x Hx Hxt Hgx. exfalso. apply not_true_iff_false in Eh. apply Eh.
           apply granted_to_other_spec; eauto.
  - apply find_request_None in Eit. wp_steps.
    assert (granted_to_other t v = false → lwp
      (do! mod_queue qr (λ v, set_group GroupMode.X (upd_request (next_ s0) (set_granted true) v)) in
       do! emplace t qr.1 in do! emplace t qt.1 in returned true) (fin W t) (λ s', Inv s' W)
      (set_queues (<[qr := push_request (mkRequest (next_ s0) t EXLUCSIVE false []) v]> (queues s0))
        (set_next (next_ s0 + 1) s0))) as Htake.
    { intros Eh. wp_steps. eapply (fin_take W t Ht s0 qr v HI Hv Hcur Htx0 GroupMode.X EXLUCSIVE);
        [touch t|simpl; lia|in_set|..]; rewrite ?Hr; try done.
      - exact (upd_pushed (set_granted true) (mkRequest (next_ s0) t EXLUCSIVE false []) v Hfr).
      - eapply requests_ok_regroup; [done..|]. intros r Hr' _ Hc. destruct (lock_mode_ r); naive_solver.
      - intros x Hx Hgx. exfalso. apply not_true_iff_false in Eh. apply Eh, granted_to_other_spec.
        exists x. split_and!; [done| |done]. intros <-. by apply Eit, list_elem_of_fmap_2. }
    destruct (request_queue_ v) as [|x0 l0] eqn:El.
    { apply Htake. unfold granted_to_other. by rewrite El. }
    rewrite <-El in *. destruct (granted_to_other t v) eqn:Eh; [|by apply Htake].
    eapply (wp_push_wait W t Ht s0 qr v HI Hv Hcur Htx0 EXLUCSIVE (ExclusiveNew qr qt (next_ s0))); rewrite ?Hr; try done; [by apply waits_on_type|].
    intros Hng. unfold bind. erewrite die_on_gap_run; [|cbn; rewrite !lookup_insert_ne by done; exact Hvt'|done].
    by apply park_waits.
Qed.

Lemma exclusive_start_ok s qr qt key meta rid ih :
  is_Some (txns s !! t) → Inv s W → lock_table_ s !! qr.1 = Some (Some qr.2) → lock_table_ s !! qt.1 = Some (Some qt.2) →
  lk_type qr.1 = RECORD → lk_type qt.1 = TABLE →
  lwp (exclusive_start t qr qt key meta rid ih) (fin W t) (λ s', Inv s' W) s.
Proof using Ht.
  intros Htx HI Hcr Hct Hr Hqt. unfold exclusive_start.
  destruct (inv_current _ _ HI _ _ Hct) as [vt0 Hvt0]. rewrite <-surjective_pairing in Hvt0.
  apply wp_bind, wp_fresh. cbv zeta. apply wp_bind, wp_mod_queue; [there|]. intros vt Hvt. cbn in Hvt.
  pose proof (inv_queues _ _ HI _ _ Hvt) as Hqvt.
  match goal with |- wp _ _ _ ?s1 => assert (Inv s1 W) as HI' end.
  { eapply (Inv_touched W s qt vt); [done..|apply touched_same; try done; simpl; lia|done|done|done|].
    cbn. intros x [Hx|Hx%list_elem_of_singleton]%elem_of_app; [by eapply qo_keys|by subst]. }
  apply wp_bind, wp_gets. unfold latch_free at 1. cbn. rewrite lookup_insert_eq. cbn.
  rewrite (qo_latched _ _ _ Hqvt). cbn. by apply exclusive_body_ok.
Qed.
End exclusive.

(** *** Finding the queue *)

Lemma Inv_new_queue W s id :
  Inv s W → (∀ n, lock_table_ s !! id ≠ Some (Some n)) →
  Inv (set_lock_table (<[id := Some (next_ s)]> (lock_table_ s))
         (set_queues (<[(id, next_ s) := new_queue]> (queues s)) (set_next (next_ s + 1) s))) W.
Proof.
  intros HI Hid. split; cbn.
  - intros q v [(<- & <-)|(Hne & Hq)]%lookup_insert_Some; [|by apply HI].
    split; cbn; try done; try (intros *; by intros ?%not_elem_of_nil).
    apply requests_ok_nil. by destruct (lk_type id).
  - intros q v r [(<- & <-)|(Hne & Hq)]%lookup_insert_Some Hr; [by apply not_elem_of_nil in Hr|].
    exact (inv_owned _ _ HI _ _ _ Hq Hr).
  - intros q v r [(<- & <-)|(Hne & Hq)]%lookup_insert_Some Hr; [by apply not_elem_of_nil in Hr|].
    pose proof (inv_ids _ _ HI _ _ _ Hq Hr). lia.
  - intros q v [(<- & <-)|(Hne & Hq)]%lookup_insert_Some; cbn; [lia|]. pose proof (inv_gens _ _ HI _ _ Hq). lia.
  - intros q v [(<- & <-)|(Hne & Hq)]%lookup_insert_Some Hc; [done|].
    apply (inv_old _ _ HI _ _ Hq). intros Hc'. apply Hc. rewrite lookup_insert_ne; [done|].
    intros Heq. apply (Hid q.2). by rewrite Heq.
  - intros id' n [(<- & [= <-])|(Hne & Hn)]%lookup_insert_Some.
    + by rewrite lookup_insert_eq.
    + apply lookup_insert_is_Some'. right. by apply (inv_current _ _ HI).
  - apply HI.
  - intros id' [(_ & ?)|(_ & Hn)]%lookup_insert_Some; [done|]. by apply (inv_null _ _ HI).
  - apply HI.
Qed.

Lemma wp_find_or_create W id (Q : qid → _ → Prop) E s :
  Inv s W →
  (∀ n s', Inv s' W → lock_table_ s' !! id = Some (Some n) → txns s' = txns s →
     (∀ id' n', id' ≠ id → lock_table_ s !! id' = Some (Some n') → lock_table_ s' !! id' = Some (Some n')) →
     Q (id, n) s') →
  lwp (find_or_create id) Q E s.
Proof.
  intros HI HQ. unfold find_or_create. apply wp_bind, wp_gets.
  destruct (lock_table_ s !! id) as [[n|]|] eqn:E0; [apply wp_ret; by apply HQ|..].
  all: wp_steps; apply HQ; [apply Inv_new_queue; [done|congruence]|cbn; by rewrite lookup_insert_eq|done|].
  all: intros; cbn; by rewrite lookup_insert_ne.
Qed.

(** ** The calls *)

Section calls.
Context (W : gmap Z wait_point) (t : Z) (Ht : W !! t = None).
Implicit Types (s : LockManager).
Abbreviation body m := (wp m (fin W t) (aborted (λ s', Inv s' W))).

Lemma wp_enter c s v :
  Inv s W → queues s !! call_queue c = Some v → body (call_body t c) s → body (enter t c) s.
Proof using Type.
  intros HI Hv Hb. unfold enter, wp, latch_free. rewrite Hv.
  by rewrite (qo_latched _ _ _ (inv_queues _ _ HI _ _ Hv)).
Qed.

Lemma wp_guarded m s : is_Some (txns s !! t) → Inv s W → body m s → body (guarded t m) s.
Proof using Type.
  intros Htx HI Hm. unfold guarded. apply wp_bind, wp_get_txn; [done|]. intros T HT.
  destruct (state_ T); try done.
  apply wp_bind, wp_mod_txn; [done|]. intros T' HT'. apply wp_abort. by apply (Inv_txn W t s T' (set_state ABORTED T')).
Qed.

Lemma run_op_ok op s : no_gap_lock op → is_Some (txns s !! t) → Inv s W → body (run_op t op) s.
Proof using Ht.
  intros Hop Htx HI. destruct op; try done; cbn [run_op]; apply wp_guarded; try done.
  all: apply wp_bind, (wp_find_or_create W); [exact HI|]; intros n s1 HI1 Hn1 Htx1 Hkeep; rewrite <-Htx1 in Htx; clear Htx1.
  2: { apply wp_bind, (wp_find_or_create W); [done|]. intros n2 s2 HI2 Hn2 Htx2 Hkeep2. rewrite <-Htx2 in Htx.
       destruct (inv_current _ _ HI2 _ _ (Hkeep2 (record_id fd rid) n ltac:(done) Hn1)) as [v Hv].
       eapply wp_enter; [done..|]. apply exclusive_start_ok; try done. by apply Hkeep2. }
  all: destruct (inv_current _ _ HI1 _ _ Hn1) as [v Hv]; (eapply wp_enter; [done..|]).
  - by eapply shared_body_ok.
  - by eapply IS_body_ok.
  - by eapply IX_body_ok.
  - by eapply table_X_body_ok.
Qed.
End calls.

(** ** What a lock call leaves of a transaction *)

(** No transaction goes, and none loses a change it made. *)
Definition writes_kept (l l' : LockManager) : Prop :=
  ∀ t T, txns l !! t = Some T → ∃ T', txns l' !! t = Some T' ∧ write_set_ T' = write_set_ T.
#[export] Instance writes_kept_preorder : PreOrder writes_kept.
Proof.
  split; [by intros l t T; exists T|]. intros l1 l2 l3 H12 H23 t T (T2 & H2 & E2)%H12.
  apply H23 in H2 as (T3 & ? & ?). exists T3. split; congruence.
Qed.
Abbreviation kept := (within writes_kept).

Lemma kept_modify f : (∀ l, txns (f l) = txns l) → kept (modify f).
Proof. intros H l t T. cbn. rewrite H. eauto. Qed.
Lemma kept_mod_txn t0 f : (∀ T, write_set_ (f T) = write_set_ T) → kept (mod_txn t0 f).
Proof.
  intros Hf s t T HT. unfold mod_txn, get_txn, bind, gets, of_option. destruct (txns s !! t0) as [T0|] eqn:H0; [|eauto]. cbn.
  destruct (decide (t0 = t)) as [->|Hne]; [rewrite lookup_insert_eq|rewrite lookup_insert_ne by done; eauto].
  simplify_eq. eauto.
Qed.
Lemma kept_of_outcome {A} (o : outcome A) : kept (of_outcome o).
Proof. destruct o; apply within_ret || apply within_throw || apply within_stuck; typeclasses eauto. Qed.

(** [kept_steps]: the updates of transactions, and those that do not touch them. *)
Ltac kept_steps :=
  repeat (within_steps; try first [by apply kept_modify|by apply kept_mod_txn|apply kept_of_outcome]).

Lemma kept_mod_queue q f : kept (mod_queue q f).
Proof. unfold mod_queue, get_queue. kept_steps. Qed.
Lemma kept_mod_gap g f : kept (mod_gap g f).
Proof. unfold mod_gap, get_gap. kept_steps. Qed.
Lemma kept_fresh : kept fresh.
Proof. unfold fresh. kept_steps. Qed.
Lemma kept_get_queue q : kept (get_queue q).
Proof. unfold get_queue. kept_steps. Qed.

Ltac kept_queue_steps :=
  repeat (kept_steps; try first [apply kept_mod_queue|apply kept_mod_gap|apply kept_fresh|apply kept_get_queue]).

Lemma kept_wait_die q t0 : kept (wait_die q t0).
Proof. unfold wait_die. kept_queue_steps. Qed.
Lemma kept_find_or_create id : kept (find_or_create id).
Proof. unfold find_or_create. kept_queue_steps. Qed.
Lemma kept_park t0 w : kept (park t0 w).
Proof.
  assert (kept (wake t0 w)) as Hw by (unfold wake, emplace, returned; kept_queue_steps).
  intros s. unfold park. destruct (ready w s); [apply Hw|reflexivity].
Qed.

Lemma kept_call_body t0 c : kept (call_body t0 c).
Proof.
  destruct c; cbn [call_body]; unfold shared_body, exclusive_start, exclusive_body, die_on_gap, gap_body, IS_body, IX_body,
    table_X_body, emplace, returned; cbv zeta.
  all: repeat (kept_queue_steps; try first [apply kept_wait_die|apply kept_park]).
  all: intros s; reflexivity.
Qed.

Lemma kept_run_op t0 op : kept (run_op t0 op).
Proof.
  assert (∀ c, kept (enter t0 c)) as He.
  { intros c s. unfold enter. destruct (latch_free _ s); [apply kept_call_body|reflexivity]. }
  destruct op; cbn [run_op]; unfold lock_shared_on_record, lock_exclusive_on_record_gap, lock_GAP_on_table,
    lock_IS_on_table, lock_IX_on_table, lock_exclusive_on_table, guarded, get_txn, returned.
  all: repeat (kept_queue_steps; try first [apply kept_find_or_create|apply He]).
Qed.

(** ** Waking up *)

Section waking.
Context (s : LockManager) (W : gmap Z wait_point) (t : Z) (w : wait_point) (q : qid) (v : LockRequestQueue).
Context (x : LockRequest).
Context (HI : Inv s W) (Hw : W !! t = Some w) (Hp : pending w = Some (q, rq_id x)).
Context (Hv : queues s !! q = Some v) (Hx : x ∈ request_queue_ v) (Hg : granted_ x = true).

(** The thread of [t] waited for nothing else. *)
Lemma woken_other q0 v0 r :
  queues s !! q0 = Some v0 → r ∈ request_queue_ v0 → granted_ r = false → rq_txn r ≠ t.
Proof using HI Hw Hp Hv Hx Hg.
  intros H0 Hr Hgr Heq. destruct (qo_granted _ _ _ (inv_queues _ _ HI _ _ H0) r Hr Hgr) as (w' & Hw' & Hp').
  rewrite Heq, Hw in Hw'. simplify_eq. pose proof (qo_requests _ _ _ (inv_queues _ _ HI _ _ Hv)) as Hok.
  assert (x = r); [|congruence].
  apply list_elem_of_lookup in Hx as (i & Hi), Hr as (j & Hj).
  assert (i = j) as <-; [|congruence].
  eapply NoDup_lookup; [apply (ro_ids _ _ _ Hok)|by rewrite list_lookup_fmap, Hi|]. rewrite list_lookup_fmap, Hj. cbn. congruence.
Qed.

Lemma Inv_wake v' s' :
  touched s q v' s' → request_queue_ v' = request_queue_ v → latched v' = latched v →
  insert_keys_ v' = insert_keys_ v → requests_ok (lk_type q.1) (group_mode_ v') (request_queue_ v) →
  (is_new w = true → in_lock_set s' t q.1) → Inv s' (delete t W).
Proof using HI Hw Hp Hv Hx Hg.
  intros [Hq Hlt Hnext Hsets] Hl Hlatch Hkeys Hok Hnew.
  assert (∀ q0 v0, queues s' !! q0 = Some v0 → ∃ v1, queues s !! q0 = Some v1 ∧
    request_queue_ v0 = request_queue_ v1 ∧ latched v0 = latched v1 ∧ insert_keys_ v0 = insert_keys_ v1 ∧
    requests_ok (lk_type q0.1) (group_mode_ v0) (request_queue_ v0)) as Hold.
  { intros q0 v0. rewrite Hq. intros [(<- & <-)|(Hne & H0)]%lookup_insert_Some; [rewrite Hl; by eauto 10|].
    exists v0. split_and!; [done..|]. apply (inv_queues _ _ HI _ _ H0). }
  split.
  - intros q0 v0 H0. destruct (Hold _ _ H0) as (v1 & H1 & E1 & E2 & E3 & E4).
    destruct (inv_queues _ _ HI _ _ H1) as [F1 F2 F3 F4 F5]. split; rewrite ?E2, ?E3; try done; rewrite E1; [|done].
    intros r Hr Hgr. rewrite lookup_delete_ne; [by apply F4|]. intros Heq. by eapply (woken_other q0 v1 r).
  - intros q0 v0 r H0. destruct (Hold _ _ H0) as (v1 & H1 & -> & _). intros Hr.
    destruct (inv_owned _ _ HI _ _ _ H1 Hr) as [Ho|(w' & Hw' & Hp' & Hn')]; [left; by eauto|].
    destruct (decide (rq_txn r = t)) as [Heq|Hne].
    + rewrite Heq, Hw in Hw'. simplify_eq. left. auto.
    + right. exists w'. by rewrite lookup_delete_ne.
  - intros q0 v0 r H0. destruct (Hold _ _ H0) as (v1 & H1 & -> & _). intros Hr.
    pose proof (inv_ids _ _ HI _ _ _ H1 Hr). lia.
  - intros q0 v0 H0. destruct (Hold _ _ H0) as (v1 & H1 & _). pose proof (inv_gens _ _ HI _ _ H1). lia.
  - intros q0 v0 H0. destruct (Hold _ _ H0) as (v1 & H1 & -> & _). rewrite Hlt. by eapply inv_old.
  - intros id n. rewrite Hlt, Hq. intros Hn. apply lookup_insert_is_Some'. right. by eapply inv_current.
  - intros t' w' [_ Hw']%lookup_delete_Some. by eapply inv_waiting.
  - intros id. rewrite Hlt. apply HI.
  - intros t' [w' [_ Hw']%lookup_delete_Some]. eapply sets_grow_txn; [done|]. by eapply (inv_txns _ _ HI), mk_is_Some.
Qed.
End waking.

Lemma waits_on_Some type q r p : waits_on type q r = Some p → lk_type q.1 = type ∧ p = (q, r).
Proof. unfold waits_on. case_decide; naive_solver. Qed.

Lemma resume_ok W t w s :
  W !! t = Some w → ready w s = true → Inv s W →
  lwp (resume t w) (fin (delete t W) t) (λ s', Inv s' (delete t W)) s.
Proof.
  intros Hw Hrdy HI. destruct (inv_waiting _ _ HI t w Hw) as (q & r & Hp).
  assert (is_granted q r s = true ∧ lwp (wake t w) (fin (delete t W) t) (λ s', Inv s' (delete t W)) s) as [_ H].
  2: { unfold wp, resume. rewrite Hrdy. by destruct w. }
  assert (is_granted q r s = true) as Hg.
  { destruct w; try done; cbn in Hp; apply waits_on_Some in Hp as [_ ?]; simplify_eq; done. }
  split; [done|]. unfold is_granted in Hg. destruct (queues s !! q) as [v|] eqn:Hv; [|done].
  apply existsb_exists in Hg as (x & Hx%list_elem_of_In & [Hxr%Z.eqb_eq Hg]%andb_true_iff). subst r.
  pose proof (qo_requests _ _ _ (inv_queues _ _ HI _ _ Hv)) as Hok.
  pose proof (Inv_wake s W t w q v x HI Hw Hp Hv Hx Hg) as Hwake.
  assert (∀ g, group_ok (lk_type q.1) g → g = GroupMode.X ∨ g = GroupMode.TAB_X →
    requests_ok (lk_type q.1) g (request_queue_ v)) as Hgr.
  { intros g Hgo HX. eapply requests_ok_regroup; [done..|]. intros y Hy Hgy Hc.
    pose proof (ro_modes _ _ _ Hok y Hy). destruct (lk_type q.1), (lock_mode_ y), HX as [-> | ->]; naive_solver. }
  pose proof (inv_txns _ _ HI t (mk_is_Some _ _ Hw)) as Htx.
  destruct w; try done; cbn in Hp; apply waits_on_Some in Hp as [Htype ?]; simplify_eq; rewrite Htype in *; wp_steps.
  all: first [eapply Hwake; [touch t|..]|apply (Hwake v)].
  all: try (unfold end_upgrade; cbn; case_match).
  all: try first [done|by apply Hgr; auto|intros; in_set].
  all: eapply (touched_txns _ _ _ _ t); cbn; [eassumption|done|set_solver|by rewrite insert_id|done|lia].
Qed.
