(* ===== verification/LockRelease.v ===== *)
(** * What the lock manager promises, as long as nobody locks gaps

    The releases of LockSafety.v's interleavings: granting goes over the requests of a queue,
    each grant keeps what is granted compatible; [unlock] takes one request out and grants
    what it can, and the release at the end of a transaction leaves none.  The theorems are
    at the end. *)
From S2P Require Import Prelude Bytes Disk Log Streams Meta Keys Txn Lock LockSafety.

(** ** Granting *)

(** Some more of the requests are granted. *)
Record granted_more (v v' : LockRequestQueue) : Prop := {
  gm_requests : Forall2 (λ r r', r' = r ∨ r' = set_granted true r) (request_queue_ v) (request_queue_ v');
  gm_latched : latched v' = latched v;
  gm_keys : insert_keys_ v' = insert_keys_ v;
}.
#[export] Instance granted_more_refl : Reflexive granted_more.
Proof. intros v. split; [|done..]. apply Forall_Forall2_diag, Forall_true. auto. Qed.
#[export] Instance granted_more_trans : Transitive granted_more.
Proof.
  intros v1 v2 v3 [H1 L1 K1] [H2 L2 K2]. split; [|congruence..].
  eapply Forall2_trans; [|exact H1|exact H2]. intros r1 r2 r3 [E1|E1] [E2|E2]; subst; auto.
Qed.

(** A queue with no gap locks, and with a granted request unless its mode says otherwise. *)
Definition queue_fine (type : LockDataType) (v : LockRequestQueue) : Prop :=
  requests_ok type (group_mode_ v) (request_queue_ v).
Definition has_granted (v : LockRequestQueue) : Prop := ∃ r, r ∈ request_queue_ v ∧ granted_ r = true.

Lemma has_granted_more v v' : granted_more v v' → has_granted v → has_granted v'.
Proof.
  intros [Hl _ _] (r & (i & Hi)%list_elem_of_lookup & Hg).
  destruct (Forall2_lookup_l _ _ _ _ _ Hl Hi) as (r' & Hi' & Hr').
  exists r'. split; [by eapply list_elem_of_lookup_2|]. by destruct Hr' as [-> | ->].
Qed.

Lemma granted_more_in v v' r : granted_more v v' → r ∈ request_queue_ v' →
  ∃ r0, r0 ∈ request_queue_ v ∧ (r = r0 ∨ r = set_granted true r0).
Proof.
  intros [Hl _ _] (i & Hi)%list_elem_of_lookup.
  destruct (Forall2_lookup_r _ _ _ _ _ Hl Hi) as (r' & Hi' & Hr').
  exists r'. split; [by eapply list_elem_of_lookup_2|]. naive_solver.
Qed.

Lemma grant_more id g v : granted_more v (set_group g (upd_request id (set_granted true) v)).
Proof.
  split; [|done..]. cbn. apply Forall2_fmap_r, Forall_Forall2_diag, Forall_true.
  intros r. cbn. destruct (rq_id r =? id); auto.
Qed.

Lemma request_split type v r : queue_fine type v → r ∈ request_queue_ v →
  ∃ rest, request_queue_ v ≡ₚ r :: rest ∧ rq_id r ∉ rq_id <$> rest ∧ rq_txn r ∉ rq_txn <$> rest.
Proof.
  intros Hok (i & Hi)%list_elem_of_lookup. exists (take i (request_queue_ v) ++ drop (S i) (request_queue_ v)).
  assert (request_queue_ v ≡ₚ r :: take i (request_queue_ v) ++ drop (S i) (request_queue_ v)) as Hl.
  { rewrite <-(take_drop_middle _ _ _ Hi) at 1. by rewrite Permutation_middle. }
  unfold queue_fine in Hok. rewrite Hl in Hok. apply requests_ok_cons in Hok. naive_solver.
Qed.

Lemma grant_fine type v r g :
  queue_fine type v → r ∈ request_queue_ v → group_ok type g → covers type g (lock_mode_ r) →
  (∀ x, x ∈ request_queue_ v → granted_ x = true → covers type (group_mode_ v) (lock_mode_ x) →
     rq_txn x ≠ rq_txn r → covers type g (lock_mode_ x) ∧ compatible (lock_mode_ r) (lock_mode_ x)) →
  queue_fine type (set_group g (upd_request (rq_id r) (set_granted true) v)) ∧
  has_granted (set_group g (upd_request (rq_id r) (set_granted true) v)).
Proof.
  intros Hok Hr Hg Hc Hx. destruct (request_split type v r Hok Hr) as (rest & Hl & Hid & Htx).
  pose proof (upd_request_perm (set_granted true) r rest v Hl Hid) as Hl'.
  split; [|exists (set_granted true r); cbn; rewrite Hl'; by split; [left|]].
  unfold queue_fine in *. change (requests_ok type g (request_queue_ (upd_request (rq_id r) (set_granted true) v))).
  assert (∀ x, x ∈ rest → x ∈ request_queue_ v ∧ rq_txn x ≠ rq_txn r) as Hrest.
  { intros x Hxr. split; [rewrite Hl; by right|]. intros Heq. apply Htx. rewrite <-Heq. by apply list_elem_of_fmap_2. }
  rewrite Hl'. rewrite Hl in Hok. apply requests_ok_cons in Hok as (Hok & _ & _ & Hgap & Hm & _).
  apply requests_ok_cons. split_and!; try done.
  - eapply requests_ok_regroup; [done..|]. intros x Hxr Hgx Hcx. destruct (Hrest x Hxr). by apply Hx.
  - intros _ x Hxr Hgx. destruct (Hrest x Hxr). apply Hx; try done. by apply (ro_covers _ _ _ Hok).
Qed.

Lemma get_request_run type v m r : queue_fine type v → r ∈ request_queue_ v →
  get_request (rq_id r) (v, m) = (Ok r, (v, m)).
Proof.
  intros Hok Hr. unfold get_request, bind, gets, of_option. cbn.
  destruct (list_find _ _) as [[i r']|] eqn:E.
  - apply list_find_Some in E as (Hi & Hid & _). cbn. do 2 f_equal.
    destruct (request_split type v r Hok Hr) as (rest & Hl & Hn & _).
    apply list_elem_of_lookup_2 in Hi. rewrite Hl in Hi. apply elem_of_cons in Hi as [->|Hi]; [done|].
    destruct Hn. rewrite <-Hid. by apply list_elem_of_fmap_2.
  - apply list_find_None in E. rewrite Forall_forall in E. by destruct (E r Hr).
Qed.

(** A run of the granting code that ends in a queue with [P]. *)
Definition grants {A} (type : LockDataType) (m : QG A) (v : LockRequestQueue) (P : A → LockRequestQueue → Prop) : Prop :=
  ∀ G, ∃ a v', m (v, G) = (Ok a, (v', G)) ∧ granted_more v v' ∧ queue_fine type v' ∧ P a v'.

Lemma grants_ret {A} type (a : A) v P : queue_fine type v → P a v → grants type (ret a) v P.
Proof. intros Hok HP G. by exists a, v. Qed.

Lemma grants_bind {A B} type (m : QG A) (k : A → QG B) v P Q :
  grants type m v P → (∀ a v', P a v' → granted_more v v' → queue_fine type v' → grants type (k a) v' Q) →
  grants type (bind m k) v Q.
Proof.
  intros Hm Hk G. destruct (Hm G) as (a & v1 & Hr & Hg1 & Hok1 & HP).
  destruct (Hk a v1 HP Hg1 Hok1 G) as (b & v2 & Hr2 & Hg2 & Hok2 & HQ).
  exists b, v2. rewrite (bind_run _ _ _ _ _ Hr). split_and!; [done|by etrans|done..].
Qed.


Lemma grants_mono {A} type (m : QG A) v (P Q : A → LockRequestQueue → Prop) :
  grants type m v P → (∀ a v', P a v' → Q a v') → grants type m v Q.
Proof. intros Hm HPQ G. destruct (Hm G) as (a & v' & H1 & H2 & H3 & H4). exists a, v'. auto. Qed.

Lemma grants_group type v : queue_fine type v → grants type get_group v (λ g v', g = group_mode_ v ∧ v' = v).
Proof. intros Hok G. exists (group_mode_ v), v. by split_and!. Qed.

(** Granting a request and setting the mode. *)
Lemma grants_take {A} type (m : QG A) a v r g :
  queue_fine type v → r ∈ request_queue_ v → group_ok type g → covers type g (lock_mode_ r) →
  (∀ x, x ∈ request_queue_ v → granted_ x = true → covers type (group_mode_ v) (lock_mode_ x) →
     rq_txn x ≠ rq_txn r → covers type g (lock_mode_ x) ∧ compatible (lock_mode_ r) (lock_mode_ x)) →
  (∀ G, m (upd_request (rq_id r) (set_granted true) v, G) =
        (Ok a, (set_group g (upd_request (rq_id r) (set_granted true) v), G))) →
  grants type (do! grant_request (rq_id r) in m) v (λ a' v', a' = a ∧ has_granted v').
Proof.
  intros Hok Hr Hg Hc Hx Hm G. destruct (grant_fine type v r g Hok Hr Hg Hc Hx) as [H1 H2].
  eexists a, _. split; [exact (Hm G)|]. split_and!; [apply grant_more|done..].
Qed.

Lemma set_group_id v : set_group (group_mode_ v) v = v.
Proof. by destruct v. Qed.

(** The modes [grant_lock] gives a queue cover what is granted, and rule out exclusive locks. *)
Definition group_IS (g : GroupMode) : GroupMode := if decide (g = GroupMode.NO_LOCK) then GroupMode.IS else g.
Definition group_IX (g : GroupMode) : GroupMode :=
  match g with GroupMode.NO_LOCK | GroupMode.IS => GroupMode.IX | _ => g end.

Lemma covers_IS g m : mode_ok TABLE m → covers TABLE g m → g ≠ GroupMode.TAB_X →
  covers TABLE (group_IS g) m ∧ compatible INTENSION_SHARED m.
Proof. destruct m, g; cbn; unfold compatible; naive_solver. Qed.
Lemma covers_IX g m : mode_ok TABLE m → covers TABLE g m → g ≠ GroupMode.TAB_X →
  covers TABLE (group_IX g) m ∧ compatible INTENSION_EXLUCSIVE m.
Proof. destruct m, g; cbn; unfold compatible; naive_solver. Qed.
Lemma covers_S g m : mode_ok RECORD m → covers RECORD g m → g ≠ GroupMode.X →
  covers RECORD GroupMode.S m ∧ compatible SHARED m.
Proof. destruct m, g; cbn; unfold compatible; naive_solver. Qed.
Lemma covers_IS_self g : group_ok TABLE g → g ≠ GroupMode.TAB_X →
  group_ok TABLE (group_IS g) ∧ covers TABLE (group_IS g) INTENSION_SHARED.
Proof. destruct g; cbn; naive_solver. Qed.
Lemma covers_IX_self g : group_ok TABLE g → g ≠ GroupMode.TAB_X →
  group_ok TABLE (group_IX g) ∧ covers TABLE (group_IX g) INTENSION_EXLUCSIVE.
Proof. destruct g; cbn; naive_solver. Qed.

(** A request that waits is granted, if the mode of the queue admits it. *)
Lemma grant_waiting_ok type v r :
  queue_fine type v → r ∈ request_queue_ v → granted_ r = false →
  (type = TABLE → group_mode_ v = GroupMode.NO_LOCK ∨ has_granted v) →
  grants type (grant_waiting type (rq_id r) r) v (λ b v', type = TABLE → has_granted v').
Proof.
  intros Hok Hr Hgr Hpr. pose proof (ro_modes _ _ _ Hok) as Hm.
  pose proof (ro_group _ _ _ Hok) as Hgo. pose proof (Hm r Hr) as Hmr.
  assert (group_mode_ v ≠ GroupMode.NO_LOCK ∨ type = RECORD →
    grants type (ret false) v (λ b v', type = TABLE → has_granted v')) as Hret.
  { intros Hn. apply grants_ret; [done|]. intros HT. destruct (Hpr HT), Hn; congruence. }
  unfold grant_waiting. eapply grants_bind; [by apply grants_group|]. intros g v' [-> ->] _ _.
  destruct type, (lock_mode_ r) eqn:Em; try done; try (case_decide as Hd; [|]);
    try (apply Hret; first [left; congruence|by right]).
  - eapply grants_mono; [eapply (grants_take TABLE _ true v r GroupMode.TAB_X)|by intros ? ? [_ ?]]; rewrite ?Em; try done.
    intros x Hx Hgx Hc _. exfalso. rewrite Hd in Hc. destruct (lock_mode_ x); cbn in Hc; intuition congruence.
  - destruct (covers_IS_self _ Hgo Hd).
    eapply grants_mono; [eapply (grants_take TABLE _ true v r (group_IS (group_mode_ v)))|by intros ? ? [_ ?]]; rewrite ?Em; try done.
    + intros x Hx Hgx Hc _. apply covers_IS; auto.
    + intros G. unfold group_IS. case_decide; [done|]. by destruct v.
  - destruct (covers_IX_self _ Hgo Hd).
    eapply grants_mono; [eapply (grants_take TABLE _ true v r (group_IX (group_mode_ v)))|by intros ? ? [_ ?]]; rewrite ?Em; try done.
    + intros x Hx Hgx Hc _. apply covers_IX; auto.
    + intros G. by destruct v as [l b u [] k].
  - eapply grants_mono; [eapply (grants_take RECORD _ false v r GroupMode.S)|by intros ? ? [_ ?]]; rewrite ?Em; try done; [by left|].
    intros x Hx Hgx Hc _. apply covers_S with (group_mode_ v); auto.
Qed.

Lemma grant_gaps_none type b r v :
  queue_fine type v → r ∈ request_queue_ v → grants type (grant_gaps type b r) v (λ _ v', v' = v).
Proof.
  intros Hok Hr G. pose proof (ro_modes _ _ _ Hok r Hr) as Hm. exists b, v. split; [|by split_and!].
  unfold grant_gaps. by destruct type, (lock_mode_ r).
Qed.

Lemma grant_upgrade_ok type b r v :
  queue_fine type v → r ∈ request_queue_ v →
  grants type (grant_upgrade type (rq_id r) b r) v (λ _ v', has_granted v → has_granted v').
Proof.
  intros Hok Hr G. unfold grant_upgrade. destruct type; [|by apply grants_ret].
  unfold bind at 1. cbn [gets fst snd].
  destruct (_ && _) eqn:E; [|by apply grants_ret].
  apply andb_true_iff in E as [_ Eh%negb_true_iff].
  eapply grants_mono; [eapply (grants_take TABLE _ tt v r GroupMode.TAB_X)|by intros ? ? [_ ?]]; try done.
  - pose proof (ro_modes _ _ _ Hok r Hr) as Hm. destruct (lock_mode_ r); cbn; auto.
  - intros x Hx Hgx _ Hne. exfalso. apply not_true_iff_false in Eh. apply Eh, table_held_spec.
    + intros Eg. pose proof (ro_group _ _ _ Hok) as Hg. by rewrite Eg in Hg.
    + eauto.
Qed.

Lemma granted_more_request v v' r : granted_more v v' → r ∈ request_queue_ v →
  ∃ r', r' ∈ request_queue_ v' ∧ rq_id r' = rq_id r.
Proof.
  intros [Hl _ _] (i & Hi)%list_elem_of_lookup.
  destruct (Forall2_lookup_l _ _ _ _ _ Hl Hi) as (r' & Hi' & Hr').
  exists r'. split; [by eapply list_elem_of_lookup_2|]. by destruct Hr' as [-> | ->].
Qed.

Lemma grant_one_ok type v r :
  queue_fine type v → r ∈ request_queue_ v →
  (type = TABLE → group_mode_ v = GroupMode.NO_LOCK ∨ has_granted v) →
  grants type (grant_one type (rq_id r)) v (λ _ v', type = TABLE → has_granted v').
Proof.
  intros Hok Hr Hpr. unfold grant_one.
  assert (∀ v r, queue_fine type v → r ∈ request_queue_ v →
    grants type (get_request (rq_id r)) v (λ r' v', r' = r ∧ v' = v)) as Hget.
  { intros v0 r0 Hok0 Hr0 G. exists r0, v0. split_and!; [by eapply get_request_run|done..]. }
  eapply grants_bind; [by apply Hget|]. intros r0 v0 [-> ->] _ _.
  apply grants_bind with (λ _ v', type = TABLE → has_granted v').
  - destruct (granted_ r) eqn:Eg; [|by apply grant_waiting_ok].
    apply grants_ret; [done|]. intros _. by exists r.
  - intros b v1 Hpr1 Hmore1 Hok1. destruct (granted_more_request _ _ _ Hmore1 Hr) as (r1 & Hr1 & <-).
    eapply grants_bind; [by apply Hget|]. intros r2 v2 [-> ->] _ _.
    eapply grants_bind; [by apply grant_gaps_none|]. intros b' v3 -> _ _.
    eapply grants_mono; [by apply grant_upgrade_ok|]. cbn. auto.
Qed.

Lemma grant_loop_ok type ids v :
  queue_fine type v → (∀ id, id ∈ ids → id ∈ rq_id <$> request_queue_ v) →
  (type = TABLE → (group_mode_ v = GroupMode.NO_LOCK ∧ ids ≠ []) ∨ has_granted v) →
  grants type (grant_loop type ids) v (λ _ v', type = TABLE → has_granted v').
Proof.
  revert v. induction ids as [|id ids IH]; intros v Hok Hids Hpr; cbn [grant_loop].
  { apply grants_ret; [done|]. intros HT. destruct (Hpr HT) as [[_ ?]|?]; done. }
  assert (id ∈ rq_id <$> request_queue_ v) as (r & -> & Hr)%list_elem_of_fmap by (apply Hids; left).
  eapply grants_bind; [apply grant_one_ok; [done..|]; intros HT; destruct (Hpr HT) as [[? _]|?]; auto|].
  intros u v1 Hg1 Hmore Hok1. apply IH; [done| |auto].
  intros id Hid.
  assert (id ∈ rq_id <$> request_queue_ v) as (x & -> & Hx)%list_elem_of_fmap by (apply Hids; by right).
  destruct (granted_more_request _ _ _ Hmore Hx) as (x' & Hx' & <-). by apply list_elem_of_fmap_2.
Qed.

(** *** The mode of a queue by its requests *)

Lemma record_group_ok l g m :
  (∀ r, r ∈ l → mode_ok RECORD (lock_mode_ r)) → group_ok RECORD g →
  group_ok RECORD (record_group l g) ∧
  (covers RECORD g m → covers RECORD (record_group l g) m) ∧
  (∀ r, r ∈ l → granted_ r = true → lock_mode_ r = m → covers RECORD (record_group l g) m).
Proof.
  revert g. induction l as [|r l IH]; intros g Hm Hg; cbn [record_group].
  { split_and!; [done|done|]. by intros r ?%not_elem_of_nil. }
  set (g1 := if granted_ r then _ else _).
  assert (group_ok RECORD g1 ∧ (covers RECORD g m → covers RECORD g1 m) ∧
    (granted_ r = true → lock_mode_ r = m → covers RECORD g1 m)) as (H1 & H2 & H3).
  { pose proof (Hm r ltac:(left)) as Hmr. unfold g1.
    destruct (granted_ r), (lock_mode_ r), g; cbn in *; try case_decide; destruct m; cbn in *; intuition congruence. }
  destruct (IH g1) as (I1 & I2 & I3); [by intros x Hx; apply Hm; right|done|].
  split_and!; [done|auto|]. intros x [->|Hx]%elem_of_cons; eauto.
Qed.

Lemma table_group_ok G l g m :
  (∀ r, r ∈ l → mode_ok TABLE (lock_mode_ r)) → group_ok TABLE g →
  group_ok TABLE (table_group G l g) ∧
  (covers TABLE g m → covers TABLE (table_group G l g) m) ∧
  (∀ r, r ∈ l → granted_ r = true → lock_mode_ r = m → covers TABLE (table_group G l g) m) ∧
  ((∀ r, r ∈ l → granted_ r = false) → table_group G l g = g).
Proof.
  revert g. induction l as [|r l IH]; intros g Hm Hg; cbn [table_group].
  { split_and!; [done|done| |done]. by intros r ?%not_elem_of_nil. }
  pose proof (Hm r ltac:(left)) as Hmr.
  rewrite (bool_decide_eq_false_2 (lock_mode_ r = GAP)) by (intros E; by rewrite E in Hmr). cbn [andb].
  set (g1 := if granted_ r then _ else _).
  assert (group_ok TABLE g1 ∧ (covers TABLE g m → covers TABLE g1 m) ∧
    (granted_ r = true → lock_mode_ r = m → covers TABLE g1 m)) as (H1 & H2 & H3).
  { unfold g1. destruct (granted_ r), (lock_mode_ r), g; cbn in *; try case_decide; destruct m; cbn in *; intuition congruence. }
  destruct (IH g1) as (I1 & I2 & I3 & I4); [by intros x Hx; apply Hm; right|done|].
  split_and!; [done|auto| |].
  - intros x [->|Hx]%elem_of_cons; eauto.
  - intros Hn. rewrite I4 by (intros x Hx; apply Hn; by right). unfold g1. by rewrite Hn by left.
Qed.

Lemma regroup_fine type G v g :
  requests_ok type g (request_queue_ v) →
  queue_fine type (regroup type G v) ∧
  (type = TABLE → group_mode_ (regroup type G v) = GroupMode.NO_LOCK ∨ has_granted (regroup type G v)).
Proof.
  intros Hok. pose proof (ro_modes _ _ _ Hok) as Hm. destruct type.
  - split.
    + eapply requests_ok_regroup; [exact Hok|by apply (table_group_ok G _ _ GAP Hm)|].
      intros r Hr Hg _. by eapply (table_group_ok G _ GroupMode.NO_LOCK _ Hm).
    + intros _. destruct (existsb granted_ (request_queue_ v)) eqn:E.
      * right. apply existsb_exists in E as (r & Hr & Hg). exists r. by rewrite list_elem_of_In.
      * left. apply (table_group_ok G _ _ GAP Hm); [done|]. intros r Hr. apply not_true_iff_false.
        intros Hg. apply not_true_iff_false in E. apply E, existsb_exists. exists r. by rewrite <-list_elem_of_In.
  - split; [|done]. eapply requests_ok_regroup; [exact Hok|by apply (record_group_ok _ _ GAP Hm)|].
    intros r Hr Hg _. by eapply (record_group_ok _ GroupMode.NO_LOCK _ Hm).
Qed.

(** *** Exclusive locks on records *)

Lemma covers_X m : mode_ok RECORD m → covers RECORD GroupMode.X m.
Proof. destruct m; cbn; auto. Qed.

Lemma grant_records_ok ids v :
  queue_fine RECORD v → queue_fine RECORD (grant_records ids v) ∧ granted_more v (grant_records ids v).
Proof.
  revert v. induction ids as [|id ids IH]; intros v Hok; cbn [grant_records]; [done|].
  match goal with |- queue_fine _ (grant_records _ ?v1) ∧ _ =>
    assert (queue_fine RECORD v1 ∧ granted_more v v1) as [Hok1 Hg1] end.
  - destruct (list_find _ _) as [[i r]|] eqn:E; [|done].
    apply list_find_Some in E as (Hi & <- & _). apply list_elem_of_lookup_2 in Hi.
    destruct (granted_ r) eqn:Eg; [done|].
    assert ((∀ x, x ∈ request_queue_ v → granted_ x = true → rq_txn x ≠ rq_txn r → False) →
      queue_fine RECORD (set_group GroupMode.X (upd_request (rq_id r) (set_granted true) v)) ∧
      granted_more v (set_group GroupMode.X (upd_request (rq_id r) (set_granted true) v))) as Hgrant.
    { intros Hno. split; [|by apply grant_more]. apply grant_fine; [done|done|done| |].
      - apply covers_X. by apply (ro_modes _ _ _ Hok).
      - intros x Hx Hgx _ Hne. by destruct (Hno x). }
    destruct (_ && _) eqn:E1; [|destruct (_ && negb _) eqn:E2; [|done]]; apply Hgrant.
    + apply andb_true_iff in E1 as [E1%bool_decide_eq_true _]. intros x Hx Hgx _.
      pose proof (ro_covers _ _ _ Hok x Hx Hgx) as Hc. rewrite E1 in Hc.
      destruct (lock_mode_ x); cbn in Hc; intuition congruence.
    + apply andb_true_iff in E2 as [_ E2%negb_true_iff]. intros x Hx Hgx Hne.
      apply not_true_iff_false in E2. apply E2, granted_to_other_spec. eauto.
  - destruct (IH _ Hok1) as [Hok2 Hg2]. split; [done|by etrans].
Qed.

(** *** The release of a lock *)

Definition has_request (s : LockManager) (t : Z) (id : LockDataId) : Prop :=
  ∃ n v r, queues s !! (id, n) = Some v ∧ r ∈ request_queue_ v ∧ rq_txn r = t.
(** Some transaction has a request for the lock. *)
Definition wanted (s : LockManager) (id : LockDataId) : Prop := ∃ t, has_request s t id.

Section unlocking.
Context (W : gmap Z wait_point) (t : Z) (Ht : W !! t = None).
Implicit Types (s : LockManager).

(** Nothing is added while [t] releases the lock [id0], and the rest of the table stays. *)
Record fewer (id0 : LockDataId) (s s' : LockManager) : Prop := {
  fw_inv : Inv s' W;
  fw_txns : txns s' = txns s;
  fw_requests id : has_request s' t id → has_request s t id;
  fw_same t' id : id ≠ id0 → has_request s t' id → has_request s' t' id;
}.

Lemma fewer_refl id0 s : Inv s W → fewer id0 s s.
Proof using Type. by split. Qed.

Lemma fewer_trans id0 s1 s2 s3 : fewer id0 s1 s2 → fewer id0 s2 s3 → fewer id0 s1 s3.
Proof using Type. intros [I1 T1 R1 S1] [I2 T2 R2 S2]. split; [done|congruence|auto|auto]. Qed.

Lemma fewer_table id0 s fd :
  Inv s W → lock_table_ s !! table_id fd = None →
  fewer id0 s (set_lock_table (<[table_id fd := None]> (lock_table_ s)) s).
Proof using Type.
  intros HI Hid. split; [|done..]. split; try apply HI; cbn.
  - intros q v Hv Hc. apply (inv_old _ _ HI _ _ Hv). intros Hc'. apply Hc.
    rewrite lookup_insert_ne; [done|]. intros Heq. congruence.
  - intros id' n [(<- & ?)|(Hne & Hn)]%lookup_insert_Some; [done|]. by apply (inv_current _ _ HI).
  - intros id' [(<- & _)|(_ & Hn)]%lookup_insert_Some; [done|]. by apply (inv_null _ _ HI).
Qed.

Lemma wp_table_entry id0 fd s (Q : option qid → LockManager → Prop) E :
  Inv s W → (∀ o s', fewer id0 s s' → queues s' = queues s → (∀ q, o = Some q → q.1 = table_id fd ∧ is_Some (queues s' !! q)) →
    (∀ id' n, lock_table_ s !! id' = Some (Some n) → lock_table_ s' !! id' = Some (Some n)) → Q o s') →
  lwp (table_entry (table_id fd)) Q E s.
Proof using Type.
  intros HI HQ. unfold wp, table_entry. destruct (lock_table_ s !! table_id fd) as [o|] eqn:E0.
  - apply HQ; [by apply fewer_refl|done| |done]. destruct o; intros q [= <-].
    split; [done|]. by apply (inv_current _ _ HI).
  - apply HQ; [by apply fewer_table|done|by intros q|]. cbn. intros id' n Hn. rewrite lookup_insert_ne; [done|].
    intros Heq. congruence.
Qed.

Section queue.
Context (s : LockManager) (id0 : LockDataId) (q : qid) (v : LockRequestQueue).
Context (HI : Inv s W) (Hv : queues s !! q = Some v).

Lemma fewer_less s' v' :
  queues s' = <[q := v']> (queues s) → next_ s' = next_ s → txns s' = txns s →
  (lock_table_ s' = lock_table_ s ∨ request_queue_ v' = [] ∧ lock_table_ s' = delete q.1 (lock_table_ s) ∧
     lock_table_ s !! q.1 = Some (Some q.2)) →
  (∀ r, r ∈ request_queue_ v' → ∃ r0, r0 ∈ request_queue_ v ∧ rq_id r0 = rq_id r ∧ rq_txn r0 = rq_txn r ∧
     (granted_ r = false → granted_ r0 = false)) →
  latched v' = latched v → (∀ k, k ∈ insert_keys_ v' → k ∈ insert_keys_ v) →
  queue_fine (lk_type q.1) v' →
  (lk_type q.1 = TABLE → request_queue_ v' ≠ [] → has_granted v') →
  q.1 = id0 ∨ request_queue_ v' = request_queue_ v →
  fewer id0 s s'.
Proof using HI Hv.
  intros Hq Hn Htx Hlt Hl Hlatch Hkeys Hok Hpr Hsame. split; [|done| |].
  - eapply (inv_less W s s' q v v'); [done..|lia| | |intros t' T' HT'; exists T'; by rewrite Htx|done|done|done|done|done].
    + intros id o. destruct Hlt as [->|(_ & -> & _)]; [done|]. by intros [_ ?]%lookup_delete_Some.
    + intros id n Hid. destruct Hlt as [->|(Hnil & -> & Hc)]; [by left|].
      destruct (decide (id = q.1)) as [->|Hne]; [right|left; by rewrite lookup_delete_ne].
      split; [|done]. destruct q. cbn in *. congruence.
  - intros id (n & v0 & r & H0 & Hr & Hrt). rewrite Hq in H0.
    apply lookup_insert_Some in H0 as [(Heq & <-)|(Hne & H0)]; [|by exists n, v0, r].
    destruct (Hl r Hr) as (r0 & Hr0 & _ & Htx0 & _). exists n, v, r0. rewrite <-Heq. split_and!; [done..|congruence].
  - intros t' id Hid (n & v0 & r & H0 & Hr & Hrt). destruct (decide (q = (id, n))) as [Heq|Hne].
    + destruct Hsame as [Hq0|Hsame]; [by rewrite Heq in Hq0|]. rewrite <-Heq in H0. assert (v0 = v) as -> by congruence.
      exists n, v', r. rewrite <-Heq, Hq, lookup_insert_eq, Hsame. done.
    + exists n, v0, r. by rewrite Hq, lookup_insert_ne.
Qed.

Lemma fewer_keys f :
  (∀ v, request_queue_ (f v) = request_queue_ v ∧ group_mode_ (f v) = group_mode_ v ∧ latched (f v) = latched v ∧
     ∀ k, k ∈ insert_keys_ (f v) → k ∈ insert_keys_ v) →
  fewer id0 s (set_queues (<[q := f v]> (queues s)) s).
Proof using HI Hv.
  intros Hf. destruct (Hf v) as (E1 & E2 & E3 & E4). pose proof (inv_queues _ _ HI _ _ Hv) as Hqv.
  apply (fewer_less _ (f v)); try done; [by left| | | |by right].
  - rewrite E1. intros r Hr. eauto 10.
  - unfold queue_fine. rewrite E1, E2. apply Hqv.
  - unfold has_granted. rewrite E1. apply Hqv.
Qed.
End queue.

Lemma drop_txn_keys_same v :
  request_queue_ (drop_txn_keys t v) = request_queue_ v ∧ group_mode_ (drop_txn_keys t v) = group_mode_ v ∧
  latched (drop_txn_keys t v) = latched v ∧ ∀ k, k ∈ insert_keys_ (drop_txn_keys t v) → k ∈ insert_keys_ v.
Proof using Type. split_and!; [done..|]. by intros k [_ ?]%list_elem_of_filter. Qed.

(** The queue without the request of [t]. *)
Record without (q : qid) (it : LockRequest) (s s' : LockManager) : Prop := {
  wo_queue v : queues s !! q = Some v → ∃ v',
    s' = set_queues (<[q := v']> (queues s)) s ∧
    request_queue_ v' = request_queue_ (erase_request (rq_id it) v) ∧ latched v' = latched v ∧
    (∀ k, k ∈ insert_keys_ v' → k ∈ insert_keys_ v) ∧ queue_fine (lk_type q.1) v' ∧
    (lk_type q.1 = TABLE → group_mode_ v' = GroupMode.NO_LOCK ∨ has_granted v');
}.

Lemma requests_ok_erase type g id l : requests_ok type g l → requests_ok type g (filter (λ r, rq_id r ≠ id) l).
Proof using Type.
  intros [H1 H2 H3 H4 H5 H6 H7]. split; [done|by apply NoDup_fmap_filter|by apply NoDup_fmap_filter|..];
    intros *; rewrite ?list_elem_of_filter; naive_solver.
Qed.

Lemma wp_remove s q it G :
  Inv s W → is_Some (queues s !! q) → lwp (mod_queue q (λ v, regroup (lk_type q.1) G (erase_request (rq_id it) v)))
    (λ _ s', without q it s s') (λ _, False) s.
Proof using Type.
  intros HI Hq. apply wp_mod_queue; [done|]. intros v Hv. split. intros v0 Hv0. simplify_eq.
  pose proof (qo_requests _ _ _ (inv_queues _ _ HI _ _ Hv)) as Hok.
  destruct (regroup_fine (lk_type q.1) G (erase_request (rq_id it) v) (group_mode_ v)) as [H1 H2];
    [by apply requests_ok_erase|].
  eexists. split_and!; [reflexivity|done..].
Qed.

Lemma unlock_remove_ok s q it v :
  Inv s W → queues s !! q = Some v → lock_table_ s !! q.1 = Some (Some q.2) →
  lwp (unlock_remove t q it)
    (λ _ s', ∃ s0 v0, fewer q.1 s s0 ∧ queues s0 !! q = Some v0 ∧ request_queue_ v0 = request_queue_ v ∧
       lock_table_ s0 !! q.1 = Some (Some q.2) ∧ without q it s0 s') (λ _, False) s.
Proof using Type.
  intros HI Hv Hcur. unfold unlock_remove.
  apply wp_bind, wp_get_queue; [there|]. intros v0 Hv0. simplify_eq. apply wp_bind, wp_gets. cbv zeta.
  assert (∀ s0 v0, fewer q.1 s s0 → queues s0 !! q = Some v0 → request_queue_ v0 = request_queue_ v →
    lock_table_ s0 !! q.1 = Some (Some q.2) →
    lwp (mod_queue q (λ v, regroup (lk_type q.1) (gap_store s) (erase_request (rq_id it) v)))
      (λ _ s', ∃ s0 v0, fewer q.1 s s0 ∧ queues s0 !! q = Some v0 ∧ request_queue_ v0 = request_queue_ v ∧
         lock_table_ s0 !! q.1 = Some (Some q.2) ∧ without q it s0 s') (λ _, False) s0) as Hremove.
  { intros s0 v1 Hf H1 Hl Hc. eapply wp_mono; [apply wp_remove; [apply Hf|by eexists]|]. cbn. intros _ s' Hw. by exists s0, v1. }
  assert (lwp (mod_queue q (λ v, regroup (lk_type q.1) (gap_store s) (erase_request (rq_id it) v)))
      (λ _ s', ∃ s0 v0, fewer q.1 s s0 ∧ queues s0 !! q = Some v0 ∧ request_queue_ v0 = request_queue_ v ∧
         lock_table_ s0 !! q.1 = Some (Some q.2) ∧ without q it s0 s') (λ _, False) s) as Hsame
    by (eapply Hremove; [by apply fewer_refl|done..]).
  destruct (lk_type q.1) eqn:Et, (group_mode_ v) eqn:Eg; try exact Hsame.
  1,2: apply wp_bind, wp_mod_queue; [there|]; intros v1 H1; simplify_eq;
    (eapply Hremove; [by apply fewer_keys; [..|apply drop_txn_keys_same]|cbn; apply lookup_insert_eq|done|done]).
  eapply wp_bind, (wp_table_entry q.1); [done|]. intros o s1 Hf1 Hq1 Ho Hc1. rewrite <-Hq1 in Hv.
  destruct o as [qt|]; [|apply wp_bind, wp_ret; eapply Hremove; by eauto].
  destruct (Ho _ eq_refl) as [Ho1 Ho2]. apply wp_bind, wp_mod_queue; [done|]. intros vt Hvt.
  assert (q ≠ qt) as Hne by (intros <-; by rewrite Ho1 in Et).
  eapply Hremove; [|cbn; by rewrite lookup_insert_ne|done|by apply Hc1].
  eapply fewer_trans; [exact Hf1|]. apply fewer_keys; [apply Hf1|done|apply drop_txn_keys_same].
Qed.

Lemma wp_grant_lock s q v (Q : unit → _) E :
  queues s !! q = Some v → queue_fine (lk_type q.1) v →
  (lk_type q.1 = TABLE → group_mode_ v = GroupMode.NO_LOCK ∨ has_granted v) →
  (∀ v', granted_more v v' → queue_fine (lk_type q.1) v' →
     (lk_type q.1 = TABLE → request_queue_ v' ≠ [] → has_granted v') →
     Q tt (set_gaps (gap_store s) (set_queues (<[q := v']> (queues s)) s))) →
  lwp (grant_lock q (lk_type q.1)) Q E s.
Proof using Type.
  intros Hv Hok Hpr HQ. unfold wp, grant_lock, on_queue. rewrite Hv.
  unfold bind at 1, gets at 1. cbn [fst snd].
  assert (grants (lk_type q.1) (grant_loop (lk_type q.1) (rq_id <$> request_queue_ v)) v
    (λ _ v', lk_type q.1 = TABLE → request_queue_ v' ≠ [] → has_granted v')) as Hrun.
  { destruct (decide (request_queue_ v = [])) as [E0|E0].
    - rewrite E0. apply grants_ret; [done|]. by rewrite E0.
    - eapply grants_mono; [apply grant_loop_ok; [done..|]|by auto].
      intros HT. destruct (Hpr HT); [left|by right]. split; [done|]. by destruct (request_queue_ v). }
  destruct (Hrun (gap_store s)) as ([] & v' & Hrun' & Hmore & Hok' & Hg). rewrite Hrun'. by apply HQ.
Qed.

Lemma grant_keys_none fd q ks s : (∀ k, k ∈ ks → is_waited k = false) → grant_keys fd q ks s = (Ok tt, s).
Proof using Type.
  induction ks as [|k ks IH]; intros Hk; [done|]. cbn [grant_keys]. rewrite (Hk k) by left.
  unfold bind at 1, ret at 1. apply IH. intros k' Hk'. apply Hk. by right.
Qed.

(** What [unlock] does: the request of [t] is gone. *)
Definition released (s : LockManager) (id : LockDataId) (s' : LockManager) : Prop :=
  fewer id s s' ∧ ¬ has_request s' t id.

Lemma released_step s id s1 s2 : released s id s1 → fewer id s1 s2 → released s id s2.
Proof using Type. intros [H1 H2] H3. split; [by eapply fewer_trans|]. intros H. by apply H2, H3. Qed.

Lemma released_now s s' id n v :
  fewer id s s' → queues s' !! (id, n) = Some v → t ∉ rq_txn <$> request_queue_ v →
  (∀ n', n' ≠ n → lock_table_ s' !! id ≠ Some (Some n')) → released s id s'.
Proof using Type.
  intros Hf Hv Hnt Hcur. split; [done|]. intros (n' & v' & r & Hv' & Hr & Hrt).
  destruct (decide (n' = n)) as [->|Hne].
  - simplify_eq. apply Hnt. rewrite <-Hrt. by apply list_elem_of_fmap_2.
  - rewrite (inv_old _ _ (fw_inv _ _ _ Hf) _ _ Hv' (Hcur _ Hne)) in Hr. by apply not_elem_of_nil in Hr.
Qed.

(** The second half of the grants of a record. *)
Lemma unlock_grant_ok s q v :
  Inv s W → queues s !! q = Some v →
  lwp (match lk_type q.1 with
      | TABLE => let! v := get_queue q in grant_keys (lk_fd q.1) q (insert_keys_ v)
      | RECORD =>
          let! e := table_entry (table_id (lk_fd q.1)) in
          match e with
          | Some qt =>
              let! vt := get_queue qt in
              match group_mode_ vt with
              | GroupMode.GAP | GroupMode.TAB_X => ret tt
              | _ => mod_queue q (λ v, grant_records (rq_id <$> request_queue_ v) v)
              end
          | None => ret tt
          end
      end) (λ _ s', fewer q.1 s s') (λ _, False) s.
Proof using Type.
  intros HI Hv. destruct (lk_type q.1) eqn:Et.
  - apply wp_bind, wp_get_queue; [there|]. intros v0 Hv0. simplify_eq. unfold wp.
    rewrite grant_keys_none; [by apply fewer_refl|]. apply (qo_keys _ _ _ (inv_queues _ _ HI _ _ Hv)).
  - eapply wp_bind, (wp_table_entry q.1); [done|]. intros o s1 Hf1 Hq1 Ho Hc1. rewrite <-Hq1 in Hv.
    destruct o as [qt|]; [|by apply wp_ret]. apply wp_bind, wp_get_queue; [by apply Ho|]. intros vt Hvt.
    assert (lwp (mod_queue q (λ v, grant_records (rq_id <$> request_queue_ v) v)) (λ _ s', fewer q.1 s s') (λ _, False) s1) as H.
    { apply wp_mod_queue; [there|]. intros v0 Hv0. simplify_eq. eapply fewer_trans; [exact Hf1|].
      pose proof (qo_requests _ _ _ (inv_queues _ _ (fw_inv _ _ _ Hf1) _ _ Hv)) as Hok. rewrite Et in Hok.
      destruct (grant_records_ok (rq_id <$> request_queue_ v) v Hok) as [Hok' Hmore].
      eapply (fewer_less s1 q.1 q v (fw_inv _ _ _ Hf1) Hv _ _); try reflexivity; rewrite ?Et; try done; [by left|..].
      - intros r Hr. destruct (granted_more_in _ _ _ Hmore Hr) as (r0 & Hr0 & Heq). exists r0.
        destruct Heq as [-> | ->]; split_and!; done.
      - apply Hmore.
      - intros k. by rewrite (gm_keys _ _ Hmore).
      - by left. }
    destruct (group_mode_ vt); try exact H; by apply wp_ret.
Qed.

(** A null entry is for a table that nobody has a request for. *)
Lemma has_request_entry s id t' : Inv s W → has_request s t' id → ∃ n, lock_table_ s !! id = Some (Some n).
Proof using Type.
  intros HI (n & v & r & Hv & Hr & _). exists n.
  destruct (decide (lock_table_ s !! id = Some (Some n))) as [|Hn]; [done|].
  rewrite (inv_old _ _ HI _ _ Hv Hn) in Hr. by apply not_elem_of_nil in Hr.
Qed.

Lemma unlock_ok s id : Inv s W → lock_table_ s !! id ≠ Some None → lwp (unlock t id) (λ _ s', released s id s') (λ _, False) s.
Proof using Ht.
  intros HI Hnull. unfold unlock. apply wp_bind, wp_gets.
  destruct (lock_table_ s !! id) as [e|] eqn:Hid.
  2: { apply wp_ret. split; [by apply fewer_refl|]. intros (n & v & r & Hv & Hr & _).
       rewrite (inv_old _ _ HI _ _ Hv) in Hr; [by apply not_elem_of_nil in Hr|cbn; congruence]. }
  destruct e as [n|].
  2: { by destruct Hnull. }
  apply wp_bind, wp_of_option; [by eexists|]. intros n' [= <-]. cbv zeta.
  pose proof (inv_current _ _ HI _ _ Hid) as Hcv. apply wp_bind, wp_get_queue; [done|]. intros v Hv. clear Hcv.
  destruct (find_request t v) as [it|] eqn:Eit.
  2: { apply wp_ret, (released_now s s id n v); [by apply fewer_refl|done|by apply find_request_None|].
       intros n' Hn' Hid'. congruence. }
  apply find_request_Some in Eit as (Hit & rest & Hl).
  pose proof (qo_requests _ _ _ (inv_queues _ _ HI _ _ Hv)) as Hokv.
  rewrite Hl in Hokv. apply requests_ok_cons in Hokv as (_ & Hidn & Htxn & _).
  assert (∀ v0 v1, request_queue_ v0 = request_queue_ v → request_queue_ v1 = request_queue_ (erase_request (rq_id it) v0) →
    request_queue_ v1 ≡ₚ rest) as Hrest.
  { intros v0 v1 E0 ->. apply (erase_request_perm it rest); [by rewrite E0|done]. }
  apply wp_bind. eapply wp_mono; [by apply (unlock_remove_ok s (id, n) it v)|]. cbn.
  intros _ s1 (s0 & v0 & Hf0 & Hv0 & Hl0 & Hc0 & Hwo). destruct (wo_queue _ _ _ _ Hwo v0 Hv0) as (v1 & -> & Hl1 & Hlatch1 & Hk1 & Hok1 & Hpr1).
  specialize (Hrest _ _ Hl0 Hl1).
  assert (∀ r, r ∈ request_queue_ v1 → r ∈ request_queue_ v0) as Hsub
    by (intros r; rewrite Hl1; by intros [_ ?]%list_elem_of_filter).
  apply wp_bind, wp_mod_queue; [there|]. cbn. intros v1' Hv1. simplify_map_eq.
  assert (∃ u, end_upgrade t v1' = set_upgrading u v1') as [u ->].
  { unfold end_upgrade. case_match; [by eexists|]. exists (upgrading_ v1'). by destruct v1'. }
  apply wp_bind, wp_get_queue; [there|]. cbn. intros v2 Hv2. simplify_map_eq. cbn.
  assert (t ∉ rq_txn <$> request_queue_ v1') as Hnt by (rewrite Hrest, <-Hit; done).
  destruct (_ && _) eqn:Eempty.
  - apply andb_true_iff in Eempty as [Enil%bool_decide_eq_true _].
    apply wp_bind, wp_mod_queue; [there|]. cbn. intros v3 Hv3. simplify_map_eq.
    eapply (released_now _ _ _ n); [|cbn; apply lookup_insert_eq|done|].
    2: { cbn. intros n' Hn'. by rewrite lookup_delete_eq. }
    eapply fewer_trans; [exact Hf0|].
    eapply (fewer_less s0 id (id, n) v0 (fw_inv _ _ _ Hf0) Hv0 _ (set_group GroupMode.NO_LOCK (set_upgrading u v1')));
      cbn; try done.
    + by rewrite !insert_insert_eq.
    + right. done.
    + cbn. rewrite Enil. by intros r ?%not_elem_of_nil.
    + unfold queue_fine. cbn. rewrite Enil. apply requests_ok_nil. by destruct (lk_type id).
    + by left.
  - apply wp_bind. unfold unlock_grant. apply wp_bind.
    eapply (wp_grant_lock _ (id, n) (set_upgrading u v1')); [cbn; apply lookup_insert_eq|exact Hok1|exact Hpr1|].
    intros v' Hmore Hok' Hg'.
    match goal with |- wp _ _ _ ?s2 => assert (fewer id s0 s2) as Hf2 end.
    { eapply (fewer_less s0 id (id, n) v0 (fw_inv _ _ _ Hf0) Hv0 _ v'); cbn; try done.
      - by rewrite !insert_insert_eq.
      - by left.
      - intros r Hr. destruct (granted_more_in _ _ _ Hmore Hr) as (r0 & Hr0%Hsub & Heq). exists r0.
        destruct Heq as [-> | ->]; split_and!; done.
      - by rewrite (gm_latched _ _ Hmore).
      - intros k. rewrite (gm_keys _ _ Hmore). apply Hk1.
      - by left. }
    match goal with |- wp _ _ _ ?s2 => assert (released s id s2) as Hrel end.
    { eapply (released_now _ _ id n v'); [by eapply fewer_trans|cbn; apply lookup_insert_eq| |].
      - intros (r & Hrt & Hr)%list_elem_of_fmap. destruct (granted_more_in _ _ _ Hmore Hr) as (r0 & Hr0 & Heq).
        apply Hnt. rewrite Hrt. destruct Heq as [-> | ->]; by apply (list_elem_of_fmap_2 rq_txn _ r0).
      - intros n' Hn'. cbn. cbn in Hc0. congruence. }
    eapply wp_mono; [apply (unlock_grant_ok _ (id, n) v'); [apply Hf2|cbn; apply lookup_insert_eq]|].
    cbn. intros _ s3 Hf3. by eapply released_step.
Qed.
End unlocking.

(** *** The release of all locks *)

Section releasing.
Context (W : gmap Z wait_point) (t : Z) (Ht : W !! t = None).
Implicit Types (s : LockManager).

Lemma Inv_drop_set s T' :
  Inv s W → (∀ id, ¬ has_request s t id) → Inv (set_txns (<[t := T']> (txns s)) s) W.
Proof using Type.
  intros HI Hno. split; try apply HI; cbn.
  - intros [id n] v r Hv Hr. assert (rq_txn r ≠ t) as Hne by (intros Hrt; apply (Hno id); by exists n, v, r).
    destruct (inv_owned _ _ HI _ _ _ Hv Hr) as [(T0 & HT0 & Hid)|Ho]; [left|by right].
    exists T0. cbn. by rewrite lookup_insert_ne.
  - intros t' Ht'. apply lookup_insert_is_Some'. right. by apply (inv_txns _ _ HI).
Qed.

Lemma unlock_all_ok s ids T :
  txns s !! t = Some T → Inv s W → NoDup ids → (∀ id, has_request s t id → id ∈ ids) →
  (∀ id, id ∈ ids → lk_type id = TABLE → wanted s id) →
  lwp (unlock_all t ids)
    (λ _ s', Inv s' W ∧ txns s' = <[t := set_lock_set ∅ T]> (txns s) ∧ ∀ id, ¬ has_request s' t id) (λ _, False) s.
Proof using Ht.
  revert s. induction ids as [|id ids IH]; intros s Htx HI Hnd Hreq Htab; cbn [unlock_all].
  - assert (∀ id, ¬ has_request s t id) as Hno by (intros id H; by apply Hreq, not_elem_of_nil in H).
    apply wp_mod_txn; [by eexists|]. intros T' HT. simplify_eq. split; [by apply Inv_drop_set|done].
  - apply NoDup_cons in Hnd as [Hid Hnd]. apply wp_bind. eapply wp_mono.
    { apply (unlock_ok W t Ht s id HI). intros Hnull. pose proof (inv_null _ _ HI _ Hnull) as HT.
      destruct (Htab id) as [t' Hw]; [left|done|]. destruct (has_request_entry W s id t' HI Hw) as [n Hn]. congruence. }
    cbn. intros _ s1 [Hf Hno]. rewrite <-(fw_txns _ _ _ _ _ Hf).
    apply IH; [by rewrite (fw_txns _ _ _ _ _ Hf)|apply Hf|done| |].
    + intros id' Hid'. destruct (proj1 (elem_of_cons _ _ _) (Hreq id' (fw_requests _ _ _ _ _ Hf _ Hid')))
        as [->|?]; [done|done].
    + intros id' Hid' HT. destruct (Htab id') as [t' Hw]; [by right|done|]. exists t'. apply Hf; [by intros ->|done].
Qed.

(** ... if it does not meet a null entry, without the assumption on the tables. *)
Lemma unlock_all_run s ids s' :
  is_Some (txns s !! t) → Inv s W → (∀ id, has_request s t id → id ∈ ids) →
  unlock_all t ids s = (Ok tt, s') → Inv s' W ∧ is_Some (txns s' !! t) ∧ ∀ id, ¬ has_request s' t id.
Proof using Ht.
  revert s. induction ids as [|id ids IH]; intros s Htx HI Hreq; cbn [unlock_all]; intros Hrun.
  - destruct Htx as [T Htx]. pose proof (unlock_all_ok s [] T Htx HI (NoDup_nil_2) Hreq) as H.
    unfold wp in H. cbn [unlock_all] in H. rewrite Hrun in H.
    destruct H as (HI' & Htx' & Hno); [by intros id ?%not_elem_of_nil|].
    split_and!; [done| |done]. rewrite Htx', lookup_insert_eq. done.
  - apply bind_Ok in Hrun as (b & s1 & Hun & Hrun).
    assert (lock_table_ s !! id ≠ Some None) as Hnull.
    { intros Hnull. unfold unlock, bind, gets in Hun. by rewrite Hnull in Hun. }
    pose proof (unlock_ok W t Ht s id HI Hnull) as H. unfold wp in H. rewrite Hun in H. destruct H as [Hf Hno].
    eapply IH; [by rewrite (fw_txns _ _ _ _ _ Hf)|apply Hf| |exact Hrun].
    intros id' Hid'. destruct (proj1 (elem_of_cons _ _ _) (Hreq id' (fw_requests _ _ _ _ _ Hf _ Hid')))
      as [->|?]; [done|done].
Qed.

(** The requests of a transaction that does not wait are in its lock set. *)
Lemma own_requests s T id : Inv s W → txns s !! t = Some T → has_request s t id → id ∈ lock_set_ T.
Proof using Ht.
  intros HI HT (n & v & r & Hv & Hr & Hrt).
  destruct (inv_owned _ _ HI _ _ _ Hv Hr) as [(T0 & HT0 & Hid)|(w & Hw & _)]; rewrite Hrt in *.
  - by simplify_eq.
  - by rewrite Ht in Hw.
Qed.

Lemma release_ok s T ids st :
  Inv s W → txns s !! t = Some T → ids ≡ₚ elements (lock_set_ T) →
  (∀ id, id ∈ lock_set_ T → lk_type id = TABLE → wanted s id) →
  lwp (do! unlock_all t ids in mod_txn t (set_state st)) (λ _ s', Inv s' W ∧ ∀ id, ¬ has_request s' t id)
    (λ _, False) s.
Proof using Ht.
  intros HI HT Hids Htab. apply wp_bind. eapply wp_mono.
  - eapply unlock_all_ok; [done|done|rewrite Hids; apply NoDup_elements| |].
    + intros id Hid. rewrite Hids, elem_of_elements. by eapply own_requests.
    + intros id. rewrite Hids, elem_of_elements. apply Htab.
  - cbn. intros _ s' (HI' & Htx & Hno). apply wp_mod_txn; [by rewrite Htx, lookup_insert_eq|].
    intros T' HT'. split; [by apply Inv_drop_set|done].
Qed.
End releasing.

(** ** All configurations *)

Lemma settle_ok t W r c' :
  settle t W r = Some c' →
  (let '(o, s') := r in
   match o with Ok a => fin (delete t W) t a s' | Throw (TransactionAbortException _ _) => Inv s' (delete t W) | _ => True end) →
  Inv (locks c') (waiting c').
Proof.
  destruct r as [[[b|w]|[]|] s']; cbn; intros [= <-]; cbn; try done. by rewrite insert_delete_eq.
Qed.

Lemma Inv_step c c' : lstep no_gap_lock c c' → Inv (locks c) (waiting c) → Inv (locks c') (waiting c').
Proof.
  intros Hstep HI. destruct Hstep as [t op c c' Ht Hop Hs|t w c c' Hw Hr Hs|t T ids st c s' Ht HT Hids Hrun|t m ts c HT].
  - eapply settle_ok; [exact Hs|]. rewrite delete_id by done. destruct (txns (locks c) !! t) as [T|] eqn:HT.
    + pose proof (run_op_ok (waiting c) t Ht op (locks c) Hop (mk_is_Some _ _ HT) HI) as H. unfold wp in H.
      by destruct (run_op t op (locks c)) as [[[]|[]|] s'].
    + assert (run_op t op (locks c) = (Stuck, locks c)) as E; [|by rewrite E in Hs].
      destruct op; cbn; unfold lock_shared_on_record, lock_exclusive_on_record_gap, lock_GAP_on_table,
        lock_IS_on_table, lock_IX_on_table, lock_exclusive_on_table, guarded, get_txn, bind, gets, of_option;
        by rewrite HT.
  - eapply settle_ok; [exact Hs|]. pose proof (resume_ok (waiting c) t w (locks c) Hw Hr HI) as H. unfold wp in H.
    by destruct (resume t w (locks c)) as [[[]|[]|] s'].
  - cbn. apply bind_Ok in Hrun as ([] & s1 & Hrun & Hset).
    destruct (unlock_all_run (waiting c) t Ht (locks c) ids s1 (mk_is_Some _ _ HT) HI) as (HI1 & Htx & Hno); [|done|].
    { intros id Hid. rewrite Hids, elem_of_elements. by eapply own_requests. }
    assert (lwp (mod_txn t (set_state st)) (λ _ s', Inv s' (waiting c)) (λ _, False) s1) as H.
    { apply wp_mod_txn; [done|]. intros T' HT'. by apply Inv_drop_set. }
    unfold wp in H. by rewrite Hset in H.
  - cbn. split; try apply HI.
    + intros q v r Hv Hr. destruct (inv_owned _ _ HI _ _ _ Hv Hr) as [(T0 & HT0 & Hid)|Ho]; [left|by right].
      exists T0. cbn. rewrite lookup_insert_ne; [done|]. intros Heq. congruence.
    + intros t' Ht'. apply lookup_insert_is_Some'. right. by apply (inv_txns _ _ HI).
Qed.

Lemma Inv_reachable c : reachable no_gap_lock c → Inv (locks c) (waiting c).
Proof.
  intros H. refine (rtc_ind_r (λ c, Inv (locks c) (waiting c)) start Inv_start _ c H).
  intros c1 c2 _ Hs HI. by eapply Inv_step.
Qed.

(** ** What the lock manager promises *)

(** Granted requests of different transactions go together. *)
Definition exclusion (v : LockRequestQueue) : Prop :=
  ∀ r r', r ∈ request_queue_ v → r' ∈ request_queue_ v → granted_ r = true → granted_ r' = true →
    rq_txn r ≠ rq_txn r' → lock_mode_ r ≠ EXLUCSIVE ∧ lock_mode_ r' ≠ EXLUCSIVE.
(** The step of [t] with this result gets to a configuration. *)
Definition gets_on (t : Z) (c : config) (r : outcome lock_result * LockManager) : Prop :=
  ∃ c', settle t (waiting c) r = Some c'.

(** ** What the lock manager promises *)

(** C31: As long as nobody locks gaps, whatever calls, waits, wake-ups and releases came
    before, two transactions that both hold a lock hold it in modes that go together: an
    exclusive lock is held alone.  The mode of the queue is at least as strong as what is
    held, and every request that is not granted belongs to a thread that waits for it. *)
Theorem locks_exclude c id n v :
  reachable no_gap_lock c → queues (locks c) !! (id, n) = Some v →
  exclusion v ∧
  (∀ r, r ∈ request_queue_ v → granted_ r = true → covers (lk_type id) (group_mode_ v) (lock_mode_ r)) ∧
  (∀ r, r ∈ request_queue_ v → granted_ r = false →
     ∃ w, waiting c !! rq_txn r = Some w ∧ pending w = Some ((id, n), rq_id r)).
Proof.
  intros Hc Hv. pose proof (inv_queues _ _ (Inv_reachable c Hc) _ _ Hv) as Hq.
  pose proof (qo_requests _ _ _ Hq) as Hok. split_and!.
  - intros r r'. apply (ro_compatible _ _ _ Hok).
  - apply (ro_covers _ _ _ Hok).
  - apply (qo_granted _ _ _ Hq).
Qed.

(** As long as nobody locks gaps, the queue of a table that has requests has a granted
    one: nobody waits for a table that nobody holds. *)
Theorem table_waits_for_a_holder c id n v :
  reachable no_gap_lock c → queues (locks c) !! (id, n) = Some v → lk_type id = TABLE →
  request_queue_ v ≠ [] →
  group_mode_ v ≠ GroupMode.NO_LOCK ∧ has_granted v.
Proof.
  intros Hc Hv HT Hne. pose proof (inv_queues _ _ (Inv_reachable c Hc) _ _ Hv) as Hq.
  destruct (qo_progress _ _ _ Hq HT Hne) as (r & Hr & Hg). split; [|by exists r].
  intros Eg. pose proof (ro_covers _ _ _ (qo_requests _ _ _ Hq) r Hr Hg) as Hcov. cbn in Hcov.
  rewrite HT, Eg in Hcov. destruct (lock_mode_ r); cbn in Hcov; intuition congruence.
Qed.

(** C33: As long as nobody locks gaps, a lock call of a transaction that does not wait, and a
    waiting thread that is notified, always get to a return, a wait or an abort of the
    transaction: no null pointer is followed and no function ends without a value. *)
Theorem lock_calls_return c t :
  reachable no_gap_lock c →
  (∀ op, waiting c !! t = None → is_Some (txns (locks c) !! t) → no_gap_lock op →
     gets_on t c (run_op t op (locks c))) ∧
  (∀ w, waiting c !! t = Some w → ready w (locks c) = true →
     gets_on t c (resume t w (locks c))).
Proof.
  intros Hc. pose proof (Inv_reachable c Hc) as HI. unfold gets_on. split.
  - intros op Ht Htx Hop. pose proof (run_op_ok (waiting c) t Ht op (locks c) Hop Htx HI) as H. unfold wp in H.
    destruct (run_op t op (locks c)) as [[[]|[]|] s']; cbn; by eauto.
  - intros w Hw Hr. pose proof (resume_ok (waiting c) t w (locks c) Hw Hr HI) as H. unfold wp in H.
    destruct (resume t w (locks c)) as [[[]|[]|] s']; cbn; by eauto.
Qed.

(** C32: The release at the end of a transaction always returns, in whatever order it goes
    through the lock set, if every table in the set has a request, of this transaction or of
    another; it leaves no request of the transaction in any queue, and a configuration in
    which locks exclude each other. *)
Theorem release_leaves_nothing c t T ids st :
  reachable no_gap_lock c → waiting c !! t = None → txns (locks c) !! t = Some T →
  ids ≡ₚ elements (lock_set_ T) →
  (∀ id, id ∈ lock_set_ T → lk_type id = TABLE → wanted (locks c) id) →
  ∃ s', (do! unlock_all t ids in mod_txn t (set_state st)) (locks c) = (Ok tt, s') ∧
    (∀ q v r, queues s' !! q = Some v → r ∈ request_queue_ v → rq_txn r ≠ t) ∧
    reachable no_gap_lock (mkConfig s' (waiting c)).
Proof.
  intros Hc Ht HT Hids Htab.
  pose proof (release_ok (waiting c) t Ht (locks c) T ids st (Inv_reachable c Hc) HT Hids Htab) as H.
  unfold wp in H. destruct (bind _ _ _) as [[[]|[]|] s'] eqn:Hrun; try done. destruct H as [_ Hno].
  exists s'. split_and!; [done| |].
  - intros [id n] v r Hv Hr Hrt. by apply (Hno id); exists n, v, r.
  - eapply rtc_r; [exact Hc|]. by eapply step_release.
Qed.

(** ** Witnesses: a record that two transactions read and one wants to change *)

Definition demo_rid : Rid := mkRid 1 0.
Definition demo_key : bytes := [1; 0; 0; 0].
Definition demo_ix : IndexMeta := mkIndex [116] 4 1 [mkCol [116] [97] TYPE_INT 4 0 true].
Definition demo_ops : list event :=
  [EBegin 1; EBegin 2; ECall 2 (LIX 3); ECall 1 (LIX 3); ECall 2 (LShared demo_rid 3); ECall 1 (LShared demo_rid 3);
   ECall 1 (LExclusive demo_rid 3 demo_key demo_ix 5)].
Definition demo_waits : config := default start (do_events demo_ops start).
Definition demo_queue (id : LockDataId) (n : Z) : LockRequestQueue :=
  default new_queue (queues (locks demo_waits) !! (id, n)).
Definition demo_txn (t : Z) : Transaction := default (Transaction_new 0 false 0) (txns (locks demo_waits) !! t).

Lemma demo_reachable : reachable no_gap_lock demo_waits.
Proof.
  apply (do_events_steps _ demo_ops); [|vm_compute; reflexivity].
  by repeat constructor.
Defined.

Definition demo_rec : LockDataId := record_id 3 demo_rid.
Lemma demo_rec_there : queues (locks demo_waits) !! (demo_rec, 3) = Some (demo_queue demo_rec 3).
Proof. vm_compute. reflexivity. Defined.

Lemma locks_exclude_witness :
  length (request_queue_ (demo_queue demo_rec 3)) = 2%nat ∧
  (exclusion (demo_queue demo_rec 3) ∧
   (∀ r, r ∈ request_queue_ (demo_queue demo_rec 3) → granted_ r = true →
      covers RECORD (group_mode_ (demo_queue demo_rec 3)) (lock_mode_ r)) ∧
   (∀ r, r ∈ request_queue_ (demo_queue demo_rec 3) → granted_ r = false →
      ∃ w, waiting demo_waits !! rq_txn r = Some w ∧ pending w = Some ((demo_rec, 3), rq_id r))).
Proof.
  split; [vm_compute; reflexivity|]. exact (locks_exclude demo_waits demo_rec 3 _ demo_reachable demo_rec_there).
Defined.

Lemma table_waits_for_a_holder_witness :
  group_mode_ (demo_queue (table_id 3) 0) ≠ GroupMode.NO_LOCK ∧ has_granted (demo_queue (table_id 3) 0).
Proof.
  apply (table_waits_for_a_holder demo_waits (table_id 3) 0); [exact demo_reachable|vm_compute; reflexivity|reflexivity|].
  vm_compute. discriminate.
Defined.

Lemma lock_calls_return_witness :
  gets_on 2 demo_waits (run_op 2 (LTableX 3) (locks demo_waits)).
Proof.
  apply (proj1 (lock_calls_return demo_waits 2 demo_reachable)); [vm_compute; reflexivity| |exact I].
  exists (demo_txn 2). vm_compute. reflexivity.
Defined.

Definition demo_ids : list LockDataId := [demo_rec; table_id 3].
Lemma release_leaves_nothing_witness :
  ∃ s', (do! unlock_all 2 demo_ids in mod_txn 2 (set_state COMMITTED)) (locks demo_waits) = (Ok tt, s') ∧
    (∀ q v r, queues s' !! q = Some v → r ∈ request_queue_ v → rq_txn r ≠ 2) ∧
    reachable no_gap_lock (mkConfig s' (waiting demo_waits)).
Proof.
  apply (release_leaves_nothing demo_waits 2 (demo_txn 2) demo_ids COMMITTED demo_reachable);
    [vm_compute; reflexivity|vm_compute; reflexivity| |].
  - apply NoDup_Permutation; [apply (bool_decide_unpack _); vm_compute; exact I|apply NoDup_elements|].
    intros id. rewrite elem_of_elements. assert (lock_set_ (demo_txn 2) = list_to_set demo_ids) as -> by (vm_compute; reflexivity).
    by rewrite elem_of_list_to_set.
  - assert (lock_set_ (demo_txn 2) = list_to_set demo_ids) as -> by (vm_compute; reflexivity).
    intros id. rewrite elem_of_list_to_set. unfold demo_ids. rewrite !elem_of_cons.
    intros [->|[->|?%not_elem_of_nil]] HT; [discriminate HT| |contradiction].
    exists 2, 0, (demo_queue (table_id 3) 0). eexists. split_and!; [vm_compute; reflexivity|vm_compute; left|reflexivity].
Defined.
