(* ===== verification/LockWanted.v ===== *)
(** * No lock call takes the last request out of a queue

    A transaction that dies takes its own requests out of the queue it dies in, and it dies
    because an older one has a request there: so a queue that has requests keeps one.  For a
    transaction that every table of its lock set is requested by somebody, that stays so
    whatever way its lock calls end; and this is what the release at its end needs
    (LockRelease.v). *)
From S2P Require Import Prelude Bytes Disk Log Streams Meta Keys Txn Lock LockSafety LockRelease.

(** The lock calls of a table without an index. *)
Definition plain_lock (op : lock_op) : Prop := match op with LShared _ _ | LIS _ | LIX _ | LTableX _ => True | _ => False end.
Lemma plain_no_gap op : plain_lock op → no_gap_lock op.
Proof. by destruct op. Qed.

Definition busy (s : LockManager) (q : qid) : Prop := ∃ v, queues s !! q = Some v ∧ request_queue_ v ≠ [].
Definition gens_ok (s : LockManager) : Prop := ∀ q v, queues s !! q = Some v → q.2 < next_ s.
(** Every table the transaction will release is requested, by it or by another. *)
Definition backed (t : Z) (s : LockManager) : Prop :=
  ∀ T id, txns s !! t = Some T → id ∈ lock_set_ T → lk_type id = TABLE → wanted s id.

Lemma wanted_busy s id : wanted s id ↔ ∃ n, busy s (id, n).
Proof.
  split.
  - intros (t & n & v & r & Hv & Hr & _). exists n, v. split; [done|]. intros E. rewrite E in Hr. by apply not_elem_of_nil in Hr.
  - intros (n & v & Hv & Hne). destruct (request_queue_ v) as [|r l] eqn:E; [done|].
    exists (rq_txn r), n, v, r. split_and!; [done| |done]. rewrite E. left.
Qed.

(** No queue loses all its requests, and no lock but those of [new] comes into the set of [t]. *)
Record calm (t : Z) (new : LockDataId → Prop) (s s' : LockManager) : Prop := {
  ca_gens : gens_ok s → gens_ok s';
  ca_busy q : gens_ok s → busy s q → busy s' q;
  ca_sets T' : txns s' !! t = Some T' →
    ∃ T, txns s !! t = Some T ∧ ∀ id, id ∈ lock_set_ T' → id ∈ lock_set_ T ∨ new id;
}.
#[export] Instance calm_preorder t new : PreOrder (calm t new).
Proof.
  split; [intros s; split; [done|done|by eauto]|].
  intros s1 s2 s3 [G1 B1 S1] [G2 B2 S2]. split; [by auto|by auto|].
  intros T3 (T2 & H2 & I2)%S2. apply S1 in H2 as (T1 & H1 & I1). exists T1. split; [done|].
  intros id [Hid|?]%I2; [by apply I1|by right].
Qed.

Section calm.
Context (t : Z) (new : LockDataId → Prop).
Abbreviation calmly := (within (calm t new)).

(** What the transactions and the queues are not changed by. *)
Lemma calm_same s s' :
  queues s' = queues s → next_ s ≤ next_ s' → txns s' = txns s → calm t new s s'.
Proof using Type.
  intros Hq Hn Ht. split; unfold gens_ok, busy; rewrite ?Hq, ?Ht; [|done|by eauto].
  intros H q v Hv. specialize (H q v Hv). lia.
Qed.

Lemma calm_get_queue q : calmly (get_queue q).
Proof using Type. unfold get_queue. within_steps. Qed.
Lemma calm_of_outcome {A} (o : outcome A) : calmly (of_outcome o).
Proof using Type. destruct o; within_steps; intros s; reflexivity. Qed.
Lemma calm_fresh : calmly fresh.
Proof using Type. intros s. apply calm_same; cbn; [done|lia|done]. Qed.

Lemma calm_set_queue s q v f :
  queues s !! q = Some v → (request_queue_ v ≠ [] → request_queue_ (f v) ≠ []) →
  calm t new s (set_queues (<[q := f v]> (queues s)) s).
Proof using Type.
  intros Hv Hf. split; [| |by eauto].
  - intros Hg q0 v0. cbn. intros [(<- & _)|(_ & H0)]%lookup_insert_Some; [by eapply Hg|by apply Hg in H0].
  - intros q0 _ (v0 & H0 & Hne). destruct (decide (q = q0)) as [<-|Hq].
    + exists (f v). cbn. rewrite lookup_insert_eq. simplify_eq. auto.
    + exists v0. cbn. by rewrite lookup_insert_ne.
Qed.

Lemma calm_mod_queue_at s q v f :
  queues s !! q = Some v → (request_queue_ v ≠ [] → request_queue_ (f v) ≠ []) → calm t new s (mod_queue q f s).2.
Proof using Type. intros Hv Hf. unfold mod_queue, get_queue, bind, gets, of_option. rewrite Hv. by apply calm_set_queue. Qed.

Lemma calm_mod_queue q f :
  (∀ v, request_queue_ v ≠ [] → request_queue_ (f v) ≠ []) → calmly (mod_queue q f).
Proof using Type.
  intros Hf s. destruct (queues s !! q) as [v|] eqn:Hv; [eapply calm_mod_queue_at; [exact Hv|apply Hf]|].
  unfold mod_queue, get_queue, bind, gets, of_option. by rewrite Hv.
Qed.

Lemma calm_mod_txn t0 f :
  (∀ T id, id ∈ lock_set_ (f T) → id ∈ lock_set_ T ∨ new id) → calmly (mod_txn t0 f).
Proof using Type.
  intros Hf s. unfold mod_txn, get_txn, bind, gets, of_option. destruct (txns s !! t0) as [T0|] eqn:H0; [|reflexivity].
  cbn. split; [done|done|]. cbn. intros T' [(-> & <-)|(_ & HT)]%lookup_insert_Some; eauto.
Qed.

Lemma calm_wait_die q t0 : calmly (wait_die q t0).
Proof using Type.
  intros s. unfold wait_die, bind at 1, get_queue, bind at 1, gets, of_option.
  destruct (queues s !! q) as [v|] eqn:Hv; [|reflexivity]. cbn -[mod_txn mod_queue].
  destruct (existsb _ _) eqn:Hold; [|reflexivity].
  pose proof (calm_mod_txn t0 (set_state ABORTED) (λ T id H, or_introl H) s) as Hc. unfold bind at 1.
  destruct (mod_txn t0 (set_state ABORTED) s) as [[[]|e|] s1] eqn:Hm; cbn in Hc; [|exact Hc|exact Hc].
  etrans; [exact Hc|].
  assert (queues s1 !! q = Some v) as Hv1.
  { unfold mod_txn, get_txn, bind, gets, of_option in Hm. destruct (txns s !! t0); cbn in Hm; [by injection Hm as <-|discriminate]. }
  match goal with |- context [bind (mod_queue q ?f) ?k s1] =>
    assert (calm t new s1 (mod_queue q f s1).2) as Hq; [apply (calm_mod_queue_at _ _ v); [done|]; intros _|];
    [|unfold bind; destruct (mod_queue q f s1) as [[[]|e|] s2]; exact Hq] end.
  apply existsb_exists in Hold as (r & Hr%list_elem_of_In & Ho).
  assert (r ∈ filter (λ r, rq_txn r ≠ t0) (request_queue_ v)) as Hin by (apply list_elem_of_filter; split; [lia|done]).
  destruct (upgrading_ v =? t0); cbn; intros E; rewrite E in Hin; by apply not_elem_of_nil in Hin.
Qed.

Lemma calm_find_or_create id : calmly (find_or_create id).
Proof using Type.
  intros s. unfold find_or_create, bind, gets, fresh, modify, ret.
  assert (calm t new s (set_lock_table (<[id := Some (next_ s)]> (lock_table_ s))
    (set_queues (<[(id, next_ s) := new_queue]> (queues s)) (set_next (next_ s + 1) s)))) as Hnew.
  { split; cbn; [| |by eauto].
    - intros Hg q v. cbn. intros [(<- & _)|(_ & H0)]%lookup_insert_Some; cbn; [lia|]. specialize (Hg q v H0). lia.
    - intros q Hg (v & Hv & Hne). exists v. split; [|done]. cbn. rewrite lookup_insert_ne; [done|]. intros <-.
      specialize (Hg _ _ Hv). cbn in Hg. lia. }
  destruct (lock_table_ s !! id) as [[n|]|]; [reflexivity|exact Hnew|exact Hnew].
Qed.
End calm.

(** [calm_steps]: the calls and updates of the bodies. *)
Ltac calm_steps :=
  repeat (within_steps; try first
    [ apply calm_get_queue | apply calm_of_outcome | apply calm_fresh | apply calm_wait_die | apply calm_find_or_create
    | apply calm_mod_queue; let v := fresh "v" in let H := fresh "H" in intros v H ]).

Lemma not_nil_fmap {A B} (f : A → B) l : l ≠ [] → f <$> l ≠ [].
Proof. by destruct l. Qed.
Lemma not_nil_push {A} (l : list A) a : l ++ [a] ≠ [].
Proof. by destruct l. Qed.

Ltac keep_requests :=
  cbn; repeat case_match; cbn;
  first [done|by apply not_nil_fmap|apply not_nil_push|by apply not_nil_fmap, not_nil_push].

Section bodies.
Context (t : Z) (q : qid).
Abbreviation here := (λ id, id = q.1).
Abbreviation calmly := (within (calm t here)).

Lemma calm_emplace t0 : calmly (emplace t0 q.1).
Proof using Type. apply calm_mod_txn. intros T id. cbn. rewrite elem_of_union, elem_of_singleton. tauto. Qed.
Lemma calm_abort t0 : calmly (mod_txn t0 (set_state ABORTED)).
Proof using Type. apply calm_mod_txn. auto. Qed.

(** The places where the calls of tables without an index wait. *)
Definition plain_wait (w : wait_point) : Prop :=
  match w with
  | SharedAgain q' _ | SharedNew q' _ | ISAgain q' _ | ISNew q' _ | IXAgain q' _ | IXNew q' _
  | TableUpgrading q' _ | TableXNew q' _ => q' = q
  | _ => False
  end.
Lemma calm_park t0 w : plain_wait w → calmly (park t0 w).
Proof using Type.
  intros Hw s. unfold park. destruct (ready w s); [|reflexivity].
  assert (calmly (wake t0 w)) as Hk; [|apply Hk]. destruct w; try done; cbn in Hw; subst; unfold wake, returned, end_upgrade.
  all: repeat (calm_steps; try apply calm_emplace); keep_requests.
Qed.

Definition plain_call (c : call) : Prop := match c with CShared _ | CIS _ | CIX _ | CTableX _ => True | _ => False end.
Lemma calm_body t0 c : plain_call c → call_queue c = q → calmly (call_body t0 c).
Proof using Type.
  intros Hc Hq. destruct c; try done; cbn in Hq; subst; cbn [call_body];
    unfold shared_body, IS_body, IX_body, table_X_body, returned, end_upgrade; cbv zeta.
  all: repeat (calm_steps; try first [apply calm_emplace|apply calm_abort|by apply calm_park]).
  all: try keep_requests.
Qed.
End bodies.

(** A request that is made first leaves its queue with one. *)
Lemma busy_after {B} t new q f (k : unit → LM B) s v :
  queues s !! q = Some v → request_queue_ (f v) ≠ [] → gens_ok s → (∀ u, within (calm t new) (k u)) →
  busy (bind (mod_queue q f) k s).2 q.
Proof.
  intros Hv Hf Hg Hk. unfold mod_queue, get_queue, bind, gets, of_option. rewrite Hv. cbn.
  eapply (ca_busy _ _ _ _ (Hk tt _)).
  - intros q0 v0. cbn. intros [(<- & _)|(_ & H0)]%lookup_insert_Some; [by eapply Hg|by apply Hg in H0].
  - exists (f v). cbn. by rewrite lookup_insert_eq.
Qed.

Definition table_call (c : call) : Prop := match c with CIS _ | CIX _ | CTableX _ => True | _ => False end.
Lemma table_body_busy u c s v :
  table_call c → queues s !! call_queue c = Some v → gens_ok s → busy (call_body u c s).2 (call_queue c).
Proof.
  intros Hc Hv Hg. set (q := call_queue c) in *.
  destruct (decide (request_queue_ v = [])) as [Hnil|Hne].
  2: { eapply (ca_busy u (λ id, id = q.1) s); [|done|by exists v]. apply calm_body; [by destruct c|done]. }
  assert (find_request u v = None) as Hf by (unfold find_request; by rewrite Hnil).
  assert (gens_ok (set_next (next_ s + 1) s)) as Hg1 by (intros q0 v0 H0; specialize (Hg q0 v0 H0); cbn; lia).
  assert (∀ B (k : unit → LM B) f, request_queue_ (f v) ≠ [] → (∀ x, within (calm u (λ id, id = q.1)) (k x)) →
    busy (bind (mod_queue q f) k (set_next (next_ s + 1) s)).2 q) as Hafter by (intros; by eapply busy_after).
  assert (∀ B (k : LockRequestQueue → LM B), bind (get_queue q) k s = k v s) as Hget.
  { intros B k. apply bind_run. unfold get_queue, bind, gets, of_option. by rewrite Hv. }
  assert (∀ B (k : Z → LM B), bind fresh k s = k (next_ s) (set_next (next_ s + 1) s)) as Hfresh by done.
  destruct c as [| | |q0|q0|q0]; try done; cbn [call_queue] in q; cbn [call_body];
    unfold IS_body, IX_body, table_X_body; fold q; rewrite Hget; cbv zeta; try rewrite bind_gets; rewrite Hf, Hfresh.
  1,2: rewrite decide_True by done; apply Hafter; [apply not_nil_push|]; intros x.
  3: apply Hafter; [apply not_nil_push|]; intros x; rewrite (decide_True (P := request_queue_ v = [])) by done.
  all: unfold returned; repeat (calm_steps; try apply calm_emplace); keep_requests.
Qed.

(** ** The calls *)

(** What a lock call does to the queues and to the lock set of its transaction. *)
Record stays_wanted (t : Z) (s s' : LockManager) : Prop := {
  sw_gens : gens_ok s';
  sw_busy q : busy s q → busy s' q;
  sw_sets T' : txns s' !! t = Some T' → ∃ T, txns s !! t = Some T ∧
    ∀ id, id ∈ lock_set_ T' → lk_type id = TABLE → id ∈ lock_set_ T ∨ wanted s' id;
}.

Lemma stays_backed t s s' : stays_wanted t s s' → backed t s → backed t s'.
Proof.
  intros [_ Hb Hs] H T' id HT' Hid Htab. destruct (Hs T' HT') as (T & HT & Hsub).
  destruct (Hsub id Hid Htab) as [H0|?]; [|done]. apply wanted_busy. apply (H T id HT H0), wanted_busy in Htab as [n Hn].
  exists n. by apply Hb.
Qed.

Lemma calm_stays t new s s' :
  calm t new s s' → gens_ok s → (∀ id, new id → lk_type id = TABLE → wanted s' id) → stays_wanted t s s'.
Proof.
  intros [G B S] Hg Hn. split; [by apply G|intros q; by apply B|].
  intros T' (T & HT & Hsub)%S. exists T. split; [done|]. intros id [?|?]%Hsub Htab; [by left|right; auto].
Qed.

Lemma calm_weaken t (new new' : LockDataId → Prop) s s' :
  calm t new s s' → (∀ id, new id → new' id) → calm t new' s s'.
Proof.
  intros [G B S] Hn. split; [done..|]. intros T' (T & HT & Hsub)%S. exists T. split; [done|].
  intros id [?|?]%Hsub; auto.
Qed.

Lemma guarded_stays t u m s :
  (∀ s, gens_ok s → stays_wanted t s (m s).2) → gens_ok s → stays_wanted t s (guarded u m s).2.
Proof.
  intros Hm Hg. unfold guarded, get_txn, bind, gets, of_option, returned.
  assert (stays_wanted t s s) as Hr by (split; [done|done|by eauto]).
  destruct (txns s !! u) as [T|] eqn:HT; [|exact Hr]. cbn. destruct (state_ T); try exact Hr; try by apply Hm.
  pose proof (calm_mod_txn t (λ _, False) u (set_state ABORTED) (λ T id H, or_introl H) s) as Hc.
  destruct (mod_txn u (set_state ABORTED) s) as [[[]|e|] s1]; cbn in *; by eapply calm_stays.
Qed.

Lemma find_or_create_id id s q : (find_or_create id s).1 = Ok q → q.1 = id.
Proof.
  unfold find_or_create, bind, gets, fresh, modify, ret. by destruct (lock_table_ s !! id) as [[n|]|]; intros [= <-].
Qed.

Lemma call_stays t u id (mk : qid → call) s :
  (∀ q, call_queue (mk q) = q ∧ plain_call (mk q) ∧ (lk_type id = TABLE → table_call (mk q))) → gens_ok s →
  stays_wanted t s ((let! q := find_or_create id in enter u (mk q)) s).2.
Proof.
  intros Hmk Hg. pose proof (calm_find_or_create t (λ _, False) id s) as Hc.
  pose proof (find_or_create_id id s) as Hq. unfold bind at 1.
  destruct (find_or_create id s) as [[q|e|] s1]; cbn in Hc, Hq; [|by eapply calm_stays..].
  specialize (Hq q eq_refl). destruct (Hmk q) as (Eq & Hplain & Htable).
  pose proof (ca_gens _ _ _ _ Hc Hg) as Hg1. unfold enter. rewrite Eq.
  destruct (latch_free q s1) eqn:Hfree; [|by eapply calm_stays].
  apply (calm_stays t (λ id', id' = q.1)); [|done|].
  - etrans; [by eapply calm_weaken|]. by apply calm_body.
  - intros id' -> HT. rewrite Hq in HT. unfold latch_free in Hfree. destruct (queues s1 !! q) as [v|] eqn:Hv; [|done].
    apply wanted_busy. exists q.2. rewrite <-surjective_pairing. rewrite <-Eq at 2.
    apply table_body_busy with v; [auto|by rewrite Eq|done].
Qed.

(** However a lock call for a table without an index ends: no queue that had a request is
    without one, and a table that is new in a lock set has one. *)
Lemma run_op_stays t u op s : plain_lock op → gens_ok s → stays_wanted t s (run_op u op s).2.
Proof.
  intros Hop Hg. destruct op; try done; apply guarded_stays; try done; intros s0 Hs0.
  - by apply (call_stays t u _ CShared).
  - by apply (call_stays t u _ CIS).
  - by apply (call_stays t u _ CIX).
  - by apply (call_stays t u _ CTableX).
Qed.

Lemma ready_busy q w s : plain_wait q w → ready w s = true → busy s q.
Proof.
  intros Hw H. assert (∃ r, is_granted q r s = true) as [r Hr] by (destruct w; try done; cbn in Hw; subst; by eexists).
  unfold is_granted in Hr. destruct (queues s !! q) as [v|] eqn:Hv; [|done]. exists v. split; [done|].
  intros E. by rewrite E in Hr.
Qed.

Lemma resume_stays t u q w s :
  plain_wait q w → gens_ok s → ready w s = true → stays_wanted t s (resume u w s).2.
Proof.
  intros Hw Hg Hr. assert (calm t (λ id, id = q.1) s (resume u w s).2) as Hc.
  { pose proof (calm_park t q u w Hw s) as Hc. unfold park in Hc. unfold resume. rewrite Hr in *. by destruct w. }
  eapply calm_stays; [exact Hc|done|]. intros id -> _. apply wanted_busy. exists q.2. rewrite <-surjective_pairing.
  by eapply (ca_busy _ _ _ _ Hc), ready_busy.
Qed.

(** C30: A transaction [t] that has every table of its lock set requested, by itself or by
    another, keeps it so through all lock calls for tables without an index and all wake-ups
    of threads that wait in one, its own and those of all others, whatever way they end, the
    death of the transaction included: a table that comes into the set is requested, and no
    such call takes the last request out of a queue. *)
Theorem tables_stay_requested t u s W :
  Inv s W → backed t s →
  (∀ op, plain_lock op → backed t (run_op u op s).2) ∧
  (∀ q w, plain_wait q w → ready w s = true → backed t (resume u w s).2).
Proof.
  intros HI Hb. assert (gens_ok s) as Hg by (intros q v; apply (inv_gens _ _ HI)). split.
  - intros op Hop. by eapply stays_backed, Hb; apply run_op_stays.
  - intros q w Hw Hr. by eapply stays_backed, Hb; eapply resume_stays.
Qed.

(** ** A witness: the younger of two readers dies as it asks for the table *)

Definition demo_readers : config :=
  default start (do_events [EBegin 1; EBegin 2; ECall 1 (LIS 3); ECall 2 (LIS 3)] start).

Lemma tables_stay_requested_witness :
  (∀ op, plain_lock op → backed 2 (run_op 2 op (locks demo_readers)).2) ∧
  let r := run_op 2 (LTableX 3) (locks demo_readers) in
  r.1 = Throw (TransactionAbortException 2 DEADLOCK_PREVENTION) ∧
  bool_decide (table_id 3 ∈ default ∅ (lock_set_ <$> txns r.2 !! 2)) = true ∧
  (map rq_txn ∘ request_queue_ <$> queues r.2 !! (table_id 3, 0)) = Some [1].
Proof.
  split.
  - apply (tables_stay_requested 2 2 (locks demo_readers) (waiting demo_readers)).
    + apply Inv_reachable, (do_events_steps _ [EBegin 1; EBegin 2; ECall 1 (LIS 3); ECall 2 (LIS 3)]);
        [by repeat constructor|vm_compute; reflexivity].
    + intros T id HT Hid _.
      assert (lock_set_ <$> txns (locks demo_readers) !! 2 = Some {[ table_id 3 ]}) as E by (vm_compute; reflexivity).
      rewrite HT in E. injection E as E. rewrite E in Hid. apply elem_of_singleton in Hid as ->.
      eexists 1, 0, _, _. split; [vm_compute; reflexivity|]. split; [left|reflexivity].
  - cbv zeta. split_and!; vm_compute; reflexivity.
Defined.
