(* ===== verification/LockGaps.v ===== *)
(** * Runs of the lock manager that break its promises

    The theorems of LockRelease.v are for runs without gap locks, and say nothing of progress
    on records.  The runs here show why: interleavings of calls, computed step by step, after
    which threads wait for each other, wait for nobody, hold incompatible locks, or follow a
    null pointer. *)
From S2P Require Import Prelude Bytes Disk Log Streams Meta Keys Txn Lock LockSafety LockRelease.

Definition any_op (op : lock_op) : Prop := True.

(** ** Two transactions that wait for each other *)

(** Transaction 3 waits to write a record that 5 reads; 1 is let past it to read the record,
    5 ends, and 1 goes on to the record 3 has written: both are the oldest where they wait. *)
Definition other_rid : Rid := mkRid 1 1.
Definition deadlock_run : list event :=
  [EBegin 1; EBegin 3; EBegin 5; ECall 5 (LIX 3); ECall 3 (LIX 3); ECall 1 (LIX 3);
   ECall 3 (LExclusive other_rid 3 [2; 0; 0; 0] demo_ix 5); ECall 5 (LShared demo_rid 3);
   ECall 3 (LExclusive demo_rid 3 demo_key demo_ix 5); ECall 1 (LShared demo_rid 3);
   ERelease 5 [table_id 3; demo_rec] COMMITTED;
   ECall 1 (LExclusive other_rid 3 [2; 0; 0; 0] demo_ix 5)].

Definition deadlock : config := default start (do_events deadlock_run start).

(** [t] waits, in a queue in which [t'] has what it waits for: [t'] holds a lock that [t]'s
    request, which is not granted, does not go with; and the thread of [t] cannot go on. *)
Record blocked_by (c : config) (t t' : Z) : Prop := {
  bl_different : t ≠ t';
  bl_waits : ∃ w q v r r',
    waiting c !! t = Some w ∧ ready w (locks c) = false ∧
    queues (locks c) !! q = Some v ∧ r ∈ request_queue_ v ∧ pending w = Some (q, rq_id r) ∧
    rq_txn r = t ∧ granted_ r = false ∧
    r' ∈ request_queue_ v ∧ rq_txn r' = t' ∧ granted_ r' = true ∧ ¬ compatible (lock_mode_ r) (lock_mode_ r');
}.

(** A check that finds the requests. *)
Definition blocked_b (c : config) (t t' : Z) : bool :=
  match waiting c !! t with
  | Some w =>
      match pending w with
      | Some (q, id) =>
          negb (t =? t') && negb (ready w (locks c)) &&
          match queues (locks c) !! q with
          | Some v =>
              existsb (λ r, (rq_id r =? id) && (rq_txn r =? t) && negb (granted_ r) &&
                existsb (λ r', (rq_txn r' =? t') && granted_ r' &&
                  (bool_decide (lock_mode_ r = EXLUCSIVE) || bool_decide (lock_mode_ r' = EXLUCSIVE)))
                  (request_queue_ v)) (request_queue_ v)
          | None => false
          end
      | None => false
      end
  | None => false
  end.

Lemma blocked_b_true c t t' : blocked_b c t t' = true → blocked_by c t t'.
Proof.
  unfold blocked_b. destruct (waiting c !! t) as [w|] eqn:Hw; [|done].
  destruct (pending w) as [[q id]|] eqn:Hp; [|done]. intros H.
  apply andb_true_iff in H as [[Hne%negb_true_iff%Z.eqb_neq Hr%negb_true_iff]%andb_true_iff H].
  destruct (queues (locks c) !! q) as [v|] eqn:Hv; [|done]. split; [done|].
  apply existsb_exists in H as (r & Hin%list_elem_of_In & H).
  apply andb_true_iff in H as [[[Hid%Z.eqb_eq Ht%Z.eqb_eq]%andb_true_iff Hg%negb_true_iff]%andb_true_iff H].
  apply existsb_exists in H as (r' & Hin'%list_elem_of_In & H).
  apply andb_true_iff in H as [[Ht'%Z.eqb_eq Hg']%andb_true_iff H]. subst id.
  exists w, q, v, r, r'. split_and!; try done. intros [H1 H2].
  apply orb_true_iff in H as [H%bool_decide_eq_true|H%bool_decide_eq_true]; congruence.
Qed.

(** C34: Wait-die as it is done here does not prevent deadlock, even without gap locks: a reader is
    granted a record while an older request of another transaction waits to write it.  So
    lock calls lead to a configuration in which two transactions wait for each other: each
    waits for a lock on a record that the other holds in a mode that does not go with it. *)
Theorem wait_die_deadlock :
  ∃ c t1 t2, reachable no_gap_lock c ∧ blocked_by c t1 t2 ∧ blocked_by c t2 t1.
Proof.
  exists deadlock, 1, 3. split_and!; [|by apply blocked_b_true; vm_compute|by apply blocked_b_true; vm_compute].
  apply (do_events_steps _ deadlock_run); [by repeat constructor|vm_compute; reflexivity].
Qed.

(** ** A release that follows a null pointer *)

(** Transaction 5 writes a record and dies when it asks for the whole table, so that its
    request for the table is gone; 1 ends and the table's entry is erased; the abort of 5
    makes a null entry of it as it releases the record, and follows it. *)
Definition null_run : list event :=
  [EBegin 1; EBegin 5; ECall 1 (LIX 3); ECall 5 (LIX 3);
   ECall 5 (LExclusive demo_rid 3 demo_key demo_ix 5); ECall 5 (LTableX 3);
   ERelease 1 [table_id 3] COMMITTED].
Definition null_config : config := default start (do_events null_run start).

(** The release of an aborted transaction can follow a null pointer: after locks no gap
    is part of, in an order of its lock set that the code does not exclude. *)
Theorem release_follows_null :
  ∃ c T ids, reachable no_gap_lock c ∧ waiting c !! 5 = None ∧ txns (locks c) !! 5 = Some T ∧
    state_ T = ABORTED ∧ ids ≡ₚ elements (lock_set_ T) ∧ (unlock_all 5 ids (locks c)).1 = Stuck.
Proof.
  exists null_config, (default (Transaction_new 0 false 0) (txns (locks null_config) !! 5)), [demo_rec; table_id 3].
  split_and!; try (vm_compute; reflexivity).
  - apply (do_events_steps _ null_run); [by repeat constructor|vm_compute; reflexivity].
  - apply NoDup_Permutation; [apply (bool_decide_unpack _); vm_compute; exact I|apply NoDup_elements|].
    intros id. rewrite elem_of_elements.
    assert (lock_set_ (default (Transaction_new 0 false 0) (txns (locks null_config) !! 5)) =
      list_to_set [demo_rec; table_id 3]) as -> by (vm_compute; reflexivity).
    by rewrite elem_of_list_to_set.
Qed.

(** ** A thread that waits for a record nobody has *)

(** Transaction 1 waits to write a record that 5 reads; 5 has ended its part of the table.
    While 2 has the whole table, 5 releases the record: the waiting request is passed over,
    and nothing that happens later looks at it again. *)
Definition forgotten_run : list event :=
  [EBegin 1; EBegin 2; EBegin 5; ECall 5 (LShared demo_rid 3);
   ECall 1 (LExclusive demo_rid 3 demo_key demo_ix 5); ECall 2 (LTableX 3);
   ERelease 5 [demo_rec] COMMITTED; ERelease 2 [table_id 3] COMMITTED].
Definition forgotten : config := default start (do_events forgotten_run start).

(** Every transaction with a request waits, and none of them for something that is there. *)
Definition all_wait (c : config) : bool :=
  forallb (λ p, forallb (λ r, bool_decide (is_Some (waiting c !! rq_txn r))) (request_queue_ (snd p)))
    (map_to_list (queues (locks c))) &&
  forallb (λ p, negb (ready (snd p) (locks c))) (map_to_list (waiting c)).

Theorem record_waiter_forgotten :
  ∃ c, reachable no_gap_lock c ∧ waiting c ≠ ∅ ∧ all_wait c = true ∧
    forallb (λ p, forallb (λ r, negb (granted_ r)) (request_queue_ (snd p))) (map_to_list (queues (locks c))) = true.
Proof.
  exists forgotten. split_and!; [|vm_compute; discriminate|vm_compute; reflexivity|vm_compute; reflexivity].
  apply (do_events_steps _ forgotten_run); [by repeat constructor|vm_compute; reflexivity].
Qed.

(** ** An exclusive lock beside a shared one *)

(** Transaction 2 has locked a gap, 1 waits to add a key in it; 3 reads the record at the
    place 1 has chosen.  The release of 2 grants 1 its record without a look at who has it. *)
Definition beside_run : list event :=
  [EBegin 1; EBegin 2; EBegin 3;
   ECall 2 (LGap 3 (Some [0; 0; 0; 0]) (Some [9; 0; 0; 0]) demo_ix [] 5); ECall 1 (LIX 3);
   ECall 1 (LExclusive demo_rid 3 demo_key demo_ix 5); ECall 3 (LIS 3); ECall 3 (LShared demo_rid 3);
   ERelease 2 [table_id 3] COMMITTED; EWake 1].
Definition beside : config := default start (do_events beside_run start).

(** C35: With gap locks the exclusion is lost: a record can be locked exclusively by one
    transaction and shared by another at the same time, with no thread waiting. *)
Theorem gap_release_breaks_exclusion :
  ∃ c n v, reachable any_op c ∧ waiting c = ∅ ∧ queues (locks c) !! (demo_rec, n) = Some v ∧
    (λ r, (rq_txn r, lock_mode_ r, granted_ r)) <$> request_queue_ v = [(1, EXLUCSIVE, true); (3, SHARED, true)].
Proof.
  exists beside, 4, (default new_queue (queues (locks beside) !! (demo_rec, 4))).
  split_and!; [|vm_compute; reflexivity|vm_compute; reflexivity|vm_compute; reflexivity].
  apply (do_events_steps _ beside_run); [by repeat constructor|vm_compute; reflexivity].
Qed.
