(* ===== verification/System.v ===== *)
(** * The state of the engine

    The catalogue and the open files of the system manager (src/src/system/sm_manager.h), the
    pages, the transactions with their locks, and the transaction manager's fields
    (src/src/transaction/transaction_manager.h).  A call of a component runs on its part of
    the state.  The index files are an instance of what the lock manager asks of an index. *)
From S2P Require Import Prelude Bytes Disk Log Replacer BufferPool Record Recovery Streams Meta Keys IxNode Index Txn Lock.

Inductive ConcurrencyMode : Type := TWO_PHASE_LOCKING | BASIC_TO.

(** A [Transaction *] is a number; the objects are [txns] of the lock manager's state, and
    [txn_map] has the numbers of those that are in the global map. *)
Record TransactionManager := mkTM {
  txn_map : gset Z;
  next_txn_id_ : Z;
  next_timestamp_ : Z;
  concurrency_mode_ : ConcurrencyMode;
}.
Definition set_txn_map (m : gset Z) (t : TransactionManager) : TransactionManager :=
  mkTM m (next_txn_id_ t) (next_timestamp_ t) (concurrency_mode_ t).
Definition set_next_txn_id (n : Z) (t : TransactionManager) : TransactionManager :=
  mkTM (txn_map t) n (next_timestamp_ t) (concurrency_mode_ t).
Definition set_next_timestamp (n : Z) (t : TransactionManager) : TransactionManager :=
  mkTM (txn_map t) (next_txn_id_ t) n (concurrency_mode_ t).
Definition set_concurrency_mode (c : ConcurrencyMode) (t : TransactionManager) : TransactionManager :=
  mkTM (txn_map t) (next_txn_id_ t) (next_timestamp_ t) c.

Section sys.
Context {R : Type} `{Replacer R}.

(** ** State *)

(** [sm_db], [sm_fhs] and [sm_ihs] are [db_], [fhs_] and [ihs_] of the system manager.
    [sm_ihs] gives the descriptor of an open index file; a handle's file header and its
    [index_aborted_] are in [sm_ix].  A name that is in [fhs_] with a null handle is not in
    [sm_fhs]. *)
Record Sys := mkSys {
  sm_db : DbMeta;
  sm_fhs : gmap bytes (Z * RmFileHdr);
  sm_ihs : gmap bytes Z;
  sm_ix : gmap Z (IxFileHdr * bool);
  sm_storage : Storage R;
  sm_locks : LockManager;
  sm_txns : TransactionManager;
}.

Definition set_tables (d : Db R) (s : Sys) : Sys :=
  mkSys (sm_db s) (fhs_ d) (sm_ihs s) (sm_ix s) (db_storage d) (sm_locks s) (sm_txns s).
Definition set_locks (l : LockManager) (s : Sys) : Sys :=
  mkSys (sm_db s) (sm_fhs s) (sm_ihs s) (sm_ix s) (sm_storage s) l (sm_txns s).
Definition set_txn_manager (m : TransactionManager) (s : Sys) : Sys :=
  mkSys (sm_db s) (sm_fhs s) (sm_ihs s) (sm_ix s) (sm_storage s) (sm_locks s) m.
Definition set_indexes (i : gmap Z (IxFileHdr * bool) * Storage R) (s : Sys) : Sys :=
  mkSys (sm_db s) (sm_fhs s) (sm_ihs s) i.1 i.2 (sm_locks s) (sm_txns s).

Definition sys_tables (s : Sys) : Db R := mkDb (sm_fhs s) (sm_storage s).
Definition sys_indexes (s : Sys) : gmap Z (IxFileHdr * bool) * Storage R := (sm_ix s, sm_storage s).

Definition on_tables {A} (m : M (Db R) A) : M Sys A := zoom sys_tables set_tables m.
Definition on_locks {A} (m : M LockManager A) : M Sys A := zoom sm_locks set_locks m.
Definition on_txns {A} (m : M TransactionManager A) : M Sys A := zoom sm_txns set_txn_manager m.
Definition on_indexes {A} (m : M (gmap Z (IxFileHdr * bool) * Storage R) A) : M Sys A := zoom sys_indexes set_indexes m.
Definition on_locks_indexes {A} (m : M (LockManager * (gmap Z (IxFileHdr * bool) * Storage R)) A) : M Sys A :=
  zoom (λ s, (sm_locks s, sys_indexes s)) (λ t s, set_locks t.1 (set_indexes t.2 s)) m.
Definition on_pages {A} (m : M (Storage R) A) : M Sys A := on_tables (on_storage m).

(** ** Index files *)

(** Enough for the height of any tree. *)
Definition IX_FUEL : nat := 32.

(** A method of the handle of the index file [ih]. *)
Definition with_index {A} (ih : Z) (m : M (IxFileHdr * Storage R) A) : M (gmap Z (IxFileHdr * bool) * Storage R) A := λ i,
  match i.1 !! ih with
  | None => (Stuck, i)
  | Some (h, aborted) => let '(o, (h', s)) := m (h, i.2) in (o, (<[ih := (h', aborted)]> i.1, s))
  end.

#[export] Instance index_files_ops : IndexOps (gmap Z (IxFileHdr * bool) * Storage R) := {
  ix_leaf_begin ih := with_index ih IxIndexHandle.leaf_begin;
  ix_leaf_end ih := with_index ih (IxIndexHandle.leaf_end ih);
  ix_lower_bound ih key := with_index ih (IxIndexHandle.lower_bound ih IX_FUEL key);
  ix_upper_bound ih key := with_index ih (IxIndexHandle.upper_bound ih IX_FUEL key);
  ix_get_key ih iid key := with_index ih (IxIndexHandle.get_key ih iid key);
  ix_minus_one ih iid := with_index ih (IxIndexHandle.minus_one ih iid);
}.

(** [sm_manager_->ihs_.at(get_index_name(tab_name, index.cols))] *)
Definition ih_of (tab_name : bytes) (index : IndexMeta) : M Sys Z :=
  let! o := gets (λ s, sm_ihs s !! IxManager.get_index_name_cols tab_name (ix_cols index)) in
  match o with None => throw OutOfRange | Some ih => ret ih end.
Definition on_ih {A} (ih : Z) (m : M (IxFileHdr * Storage R) A) : M Sys A := on_indexes (with_index ih m).
Definition set_index_aborted (ih : Z) : M Sys unit :=
  on_indexes (modify (λ i, (alter (λ e, (e.1, true)) ih i.1, i.2))).

(** [for (i < index.col_num) memcpy(key + cols[i].offset, data + tab.get_col(cols[i].name)->offset, cols[i].len)] *)
Fixpoint fill_key (tab : TabMeta) (data : bytes) (n : nat) (cols : list ColMeta) (key : bytes) : outcome bytes :=
  match n, cols with
  | O, _ => Ok key
  | S _, [] => Stuck
  | S n, c :: cols =>
      match get_col (col_name c) tab with
      | Ok tc =>
          match (bs ← rd data (col_offset tc) (col_len c); wr key (col_offset c) bs) with
          | Some key => fill_key tab data n cols key
          | None => Stuck
          end
      | Throw e => Throw e
      | Stuck => Stuck
      end
  end.
(** The key of a record in an index, in a new buffer that holds [junk]. *)
Definition key_of (junk : bytes) (tab : TabMeta) (index : IndexMeta) (data : bytes) : outcome bytes :=
  let n := Z.to_nat (Meta.col_tot_len index) in
  fill_key tab data (Z.to_nat (Meta.col_num index)) (ix_cols index) (take n (junk ++ replicate n 0)).

End sys.
Arguments Sys R : clear implicits.
