(* ===== verification/TxnManager.v ===== *)
(** * The transaction manager (src/src/transaction/transaction_manager.h and .cpp)

    [begin_], [commit] and [abort]; [abort] undoes the changes in the write set of its
    transaction from the last one to the first, in the table and in its indexes. *)
From S2P Require Import Prelude Bytes Disk Log Replacer BufferPool Record Recovery Streams Meta Keys IxNode Index Txn Lock System.

Section txn_manager.
Context {R : Type} `{Replacer R}.

(** ** The log *)

Definition add_log (record : LogRecord) : M (Storage R) Z := λ s,
  match s_log s with
  | None => (Stuck, s)
  | Some lm =>
      let '(o, (lm', d)) := add_log_to_buffer record (lm, s_disk s) in
      (o, mkStorage d (Some lm') (s_bpm s))
  end.
Definition set_record_prev (l : Z) (r : LogRecord) : LogRecord :=
  let h := log_hdr r in mkLog (mkHdr (log_type_ h) (lsn_ h) (log_tot_len_ h) (log_tid_ h) l) (log_body r).

(** [record.prev_lsn_ = txn->get_prev_lsn(); txn->set_prev_lsn(add_log_to_buffer(&record))] *)
Definition log_for (txn : Z) (record : LogRecord) : M (Sys R) unit :=
  let! t := on_locks (get_txn txn) in
  let! lsn := on_pages (add_log (set_record_prev (prev_lsn t) record)) in
  on_locks (mod_txn txn (set_prev_lsn lsn)).

(** ** Begin *)

(** The fields the constructor of [Transaction] does not set hold [mode] and [ts]. *)
Definition begin_ (txn : option Z) (mode : bool) (ts : Z) : M (Sys R) Z :=
  let! txn_id :=
    match txn with
    | None =>
        let! id := on_txns (gets next_txn_id_) in
        do! on_txns (modify (set_next_txn_id (wrap32 (id + 1)))) in
        do! on_pages log_flush in
        let! now := on_txns (gets next_timestamp_) in
        do! on_txns (modify (set_next_timestamp (wrap32 (now + 1)))) in
        do! on_locks (modify (λ l, set_txns (<[id := set_start_ts now (Transaction_new id mode ts)]> (txns l)) l)) in
        do! on_txns (modify (λ m, set_txn_map ({[id]} ∪ txn_map m) m)) in
        ret id
    | Some t =>
        let! T := on_locks (get_txn t) in
        do! on_txns (modify (λ m, set_txn_map ({[txn_id_ T]} ∪ txn_map m) m)) in
        ret t
    end in
  do! on_locks (mod_txn txn_id (set_state GROWING)) in
  do! log_for txn_id (BeginLogRecord txn_id) in
  ret txn_id.

(** [get_transaction]: [None] is the null pointer. *)
Definition get_transaction (txn_id : Z) : M (Sys R) (option Z) :=
  if txn_id =? INVALID_TXN_ID then ret None else
  let! known := on_txns (gets (λ m, bool_decide (txn_id ∈ txn_map m))) in
  do! massert known in ret (Some txn_id).

(** ** Commit and abort *)

(** [order]: the order in which the iteration over a set of locks visits it. *)
Context (order : gset LockDataId → list LockDataId).

(** The locks are released, the last record is logged if there is a log manager, the state set. *)
Definition end_txn (txn : Z) (record : LogRecord) (state : TransactionState) : M (Sys R) unit :=
  let! T := on_locks (get_txn txn) in
  do! on_locks (unlock_all txn (order (lock_set_ T))) in
  let! log := gets (λ s, s_log (sm_storage s)) in
  do! match log with None => ret tt | Some _ => log_for txn record end in
  on_locks (mod_txn txn (set_state state)).

Definition commit (txn : Z) : M (Sys R) unit :=
  do! on_locks (mod_txn txn (set_write_set [])) in
  end_txn txn (CommitLogRecord txn) COMMITTED.

(** [catch (IndexEntryExistsError) {}] *)
Definition ignore_exists (m : M (Sys R) Z) : M (Sys R) unit := λ s,
  match m s with
  | (Ok _, s') => (Ok tt, s')
  | (Throw IndexEntryExistsError, s') => (Ok tt, s')
  | (Throw e, s') => (Throw e, s')
  | (Stuck, s') => (Stuck, s')
  end.

Definition for_each {A} (f : A → M (Sys R) unit) (l : list A) : M (Sys R) unit :=
  foldr (λ a k, do! f a in k) (ret tt) l.

(** What [abort] does with every index, and the recalculation of the gaps after it. *)
Definition undo_in_indexes (junk : bytes) (txn : Z) (tab_name : bytes) (indexes : list IndexMeta)
    (undo : IndexMeta → Z → M (Sys R) unit) : M (Sys R) unit :=
  match indexes with
  | [] => ret tt
  | _ =>
      do! for_each (λ index, let! ih := ih_of tab_name index in do! undo index ih in set_index_aborted ih) indexes in
      let! T := on_locks (get_txn txn) in
      for_each (λ id, on_locks_indexes (calculate_gaps_on_table junk id)) (order (lock_set_ T))
  end.

Definition undo_write (junk : bytes) (txn : Z) (w : WriteRecord) : M (Sys R) unit :=
  let! db := gets sm_db in
  let! tab := of_outcome (get_table (tab_name_ w) db) in
  let indexes := tab_indexes tab in
  let on_fh {A} (op : Z → M (RmFileHdr * Storage R) A) := on_tables (on_file (tab_name_ w) op) in
  match record_ w, record_old_ w with
  | None, None => ret tt
  | _, _ =>
      match wtype_ w with
      | INSERT_TUPLE =>
          do! on_fh (λ fd, delete_record fd (wr_rid_ w) false) in
          undo_in_indexes junk txn (tab_name_ w) indexes (λ index ih,
            let! data := of_option (record_ w) in
            let! key := of_outcome (key_of junk tab index data) in
            let! _ := on_ih ih (IxIndexHandle.delete_entry ih IX_FUEL key) in ret tt)
      | DELETE_TUPLE =>
          let! data := of_option (record_ w) in
          do! on_fh (λ fd, insert_record_at fd (wr_rid_ w) data) in
          undo_in_indexes junk txn (tab_name_ w) indexes (λ index ih,
            let! key := of_outcome (key_of junk tab index data) in
            ignore_exists (on_ih ih (IxIndexHandle.insert_entry ih IX_FUEL key (wr_rid_ w))))
      | UPDATE_TUPLE =>
          do! undo_in_indexes junk txn (tab_name_ w) indexes (λ index ih,
            let! old := of_option (record_old_ w) in
            let! old_key := of_outcome (key_of junk tab index old) in
            let! data := of_option (record_ w) in
            let! new_key := of_outcome (key_of junk tab index data) in
            let! _ := on_ih ih (IxIndexHandle.delete_entry ih IX_FUEL new_key) in
            let! _ := on_ih ih (IxIndexHandle.insert_entry ih IX_FUEL old_key (wr_rid_ w)) in ret tt) in
          let! old := of_option (record_old_ w) in
          on_fh (λ fd, update_record fd (wr_rid_ w) old false)
      end
  end.

(** The write set from its back: a change is taken off before it is undone. *)
Fixpoint undo_writes (junk : bytes) (txn : Z) (from_back : list WriteRecord) : M (Sys R) unit :=
  match from_back with
  | [] => ret tt
  | w :: ws =>
      do! on_locks (mod_txn txn (set_write_set (rev ws))) in
      do! undo_write junk txn w in
      undo_writes junk txn ws
  end.

Definition abort (junk : bytes) (txn : Z) : M (Sys R) unit :=
  let! T := on_locks (get_txn txn) in
  do! undo_writes junk txn (rev (write_set_ T)) in
  end_txn txn (AbortLogRecord txn) ABORTED.

End txn_manager.
