(* ===== verification/Rollback.v ===== *)
(** * Rollback restores the rows

    [performed T0 ws T]: the changes of the write set [ws], made one after the other, lead
    from the rows [T0] of all tables to [T].  The abort of a transaction with that write set
    leads back to [T0], releases the transaction's locks and ends it.  The tables of the
    write set have no index here: what the calls on an index do is in IxInsert.v. *)
From S2P Require Import Prelude Bytes Disk Log Replacer BufferPool Record PoolRun Recovery Streams Meta Txn Lock LockSafety LockRelease Rows System TxnManager.

(** ** Changes and what they lead to *)

Definition rows_t : Type := bytes → Rid → option bytes.

(** The row before and after the change. *)
Definition images (w : WriteRecord) : option (option bytes * option bytes) :=
  match wtype_ w, record_ w, record_old_ w with
  | INSERT_TUPLE, Some new, _ => Some (None, Some new)
  | DELETE_TUPLE, Some old, _ => Some (Some old, None)
  | UPDATE_TUPLE, Some new, Some old => Some (Some old, Some new)
  | _, _, _ => None
  end.

Definition changes (w : WriteRecord) (T T' : rows_t) : Prop :=
  ∃ old new, images w = Some (old, new) ∧ T (tab_name_ w) (wr_rid_ w) = old ∧
    ∀ tab rid, T' tab rid = if decide (tab = tab_name_ w ∧ rid = wr_rid_ w) then new else T tab rid.

Fixpoint performed (T0 : rows_t) (ws : list WriteRecord) (T : rows_t) : Prop :=
  match ws with
  | [] => ∀ tab rid, T tab rid = T0 tab rid
  | w :: ws => ∃ T1, changes w T0 T1 ∧ performed T1 ws T
  end.

Lemma performed_snoc T0 ws w T : performed T0 (ws ++ [w]) T → ∃ T1, performed T0 ws T1 ∧ changes w T1 T.
Proof.
  revert T0. induction ws as [|w' ws IH]; intros T0; simpl.
  - intros (T1 & (old & new & Hi & Ho & Hn) & HT). exists T0. split; [done|]. exists old, new. split_and!; [done..|].
    intros tab rid. by rewrite HT, Hn.
  - intros (T1 & Hc & (T2 & Hp & Hc2)%IH). exists T2. split; [|done]. by exists T1.
Qed.

Lemma performed_app T0 ws w T T' : performed T0 ws T → changes w T T' → performed T0 (ws ++ [w]) T'.
Proof.
  revert T0. induction ws as [|w' ws IH]; intros T0; simpl.
  - intros HT (old & new & Hi & Ho & Hn). exists T'. split; [|done]. exists old, new. split; [done|]. split; [by rewrite <-HT|].
    intros tab rid. by rewrite Hn, HT.
  - intros (T1 & Hc & Hp) Hw. exists T1. split; [done|]. by apply IH.
Qed.

Lemma performed_ext T0 ws T T' : performed T0 ws T → (∀ tab rid, T' tab rid = T tab rid) → performed T0 ws T'.
Proof.
  intros Hp He. revert T0 Hp. induction ws as [|w ws IH]; intros T0; simpl.
  - intros HT tab rid. by rewrite He.
  - intros (T1 & Hc & Hp). exists T1. split; [done|]. by apply IH.
Qed.

Section rollback.
Context {R : Type} `{!Replacer R, !ReplacerLaws R}.
Implicit Types (s : Sys R) (w : WriteRecord).

(** ** The rows of the engine *)

Definition sys_rows s : rows_t := λ tab rid,
  match sm_fhs s !! tab with
  | Some (fd, h) => rows_of fd h (sm_storage s) rid
  | None => None
  end.

Record sys_ok s : Prop := {
  sk_stored : stored (sm_storage s);
  sk_files tab fd h : sm_fhs s !! tab = Some (fd, h) → file_ok fd h (sm_storage s);
  sk_fds tab tab' fd h h' : sm_fhs s !! tab = Some (fd, h) → sm_fhs s !! tab' = Some (fd, h') → tab = tab';
}.

(** What rolling changes back leaves alone. *)
Record aside s s' : Prop := {
  as_db : sm_db s' = sm_db s;
  as_txns : sm_txns s' = sm_txns s;
  as_fhs tab fd h : sm_fhs s !! tab = Some (fd, h) → ∃ h', sm_fhs s' !! tab = Some (fd, h') ∧ same_layout h h';
  as_log : is_Some (s_log (sm_storage s)) → is_Some (s_log (sm_storage s'));
}.

#[export] Instance aside_preorder : PreOrder aside.
Proof.
  split.
  - intros s. split; [done..| |done]. intros tab fd h Hf. exists h. split; [done|]. apply same_layout_refl.
  - intros s1 s2 s3 [? ? H12 ?] [? ? H23 ?]. split; [congruence|congruence| |auto].
    intros tab fd h (h1 & H1 & ?)%H12. apply H23 in H1 as (h2 & ? & ?). exists h2. split; [done|].
    by eapply same_layout_trans.
Qed.

(** An operation on the file of a table. *)
Lemma wp_on_fh {A} tab (op : Z → M (RmFileHdr * Storage R) A) fd h s (Q : A → Sys R → Prop) :
  sm_fhs s !! tab = Some (fd, h) →
  wp (op fd) (λ a t, Q a (set_tables (mkDb (<[tab := (fd, t.1)]> (sm_fhs s)) t.2) s)) fails_io (h, sm_storage s) →
  wp (on_tables (on_file tab op)) Q fails_io s.
Proof.
  intros Hf H. apply wp_zoom. unfold wp, on_file, sys_tables in *. simpl. rewrite Hf.
  by destruct (op fd (h, sm_storage s)) as [[a|e|] [h' s']].
Qed.

(** A changed row of one table, in the rows of all. *)
Lemma row_changed_sys tab fd h h' rid v s st :
  sys_ok s → sm_fhs s !! tab = Some (fd, h) → 1 ≤ page_no rid → same_layout h h' →
  row_changed fd h rid v (sm_storage s) st →
  let s' := set_tables (mkDb (<[tab := (fd, h')]> (sm_fhs s)) st) s in
  sys_ok s' ∧ aside s s' ∧ sm_locks s' = sm_locks s ∧
  ∀ tab' rid', sys_rows s' tab' rid' = if decide (tab' = tab ∧ rid' = rid) then v else sys_rows s tab' rid'.
Proof.
  intros [Hst Hfiles Hfds] Hf Hp Hh Hrc s'. pose proof (rc_touched _ _ _ _ _ _ Hrc) as Ht.
  assert (∀ tab' g k, sm_fhs s !! tab' = Some (g, k) → file_ok g k st) as Hok.
  { intros tab' g k Hg. eapply touched_file; [|exact Ht|by eapply Hfiles]. done. }
  split_and!.
  - split; cbn.
    + apply Ht.
    + intros tab' g k. destruct (decide (tab' = tab)) as [->|Hne].
      * rewrite lookup_insert_eq. intros [= <- <-]. by eapply layout_file, Hok.
      * rewrite lookup_insert_ne by done. apply Hok.
    + intros t1 t2 g k1 k2. destruct (decide (t1 = tab)) as [->|Hne1], (decide (t2 = tab)) as [->|Hne2];
        rewrite ?lookup_insert_eq, ?lookup_insert_ne by done; [done|..].
      * intros [= <- <-] H2. by eapply Hfds.
      * intros H1 [= <- <-]. by eapply Hfds.
      * by eapply Hfds.
  - split; cbn; [done|done| |apply Ht]. intros tab' g k Hg. destruct (decide (tab' = tab)) as [->|Hne].
    + rewrite lookup_insert_eq. simplify_eq. by exists h'.
    + rewrite lookup_insert_ne by done. exists k. split; [done|]. apply same_layout_refl.
  - done.
  - intros tab' rid'. unfold sys_rows, s'. cbn. destruct (decide (tab' = tab)) as [->|Hne].
    + rewrite lookup_insert_eq, Hf, (same_layout_rows h h') by done. rewrite (rc_rows _ _ _ _ _ _ Hrc).
      destruct (decide (rid' = rid)) as [->|]; [by rewrite decide_True|by rewrite decide_False by tauto].
    + rewrite lookup_insert_ne, decide_False by tauto || done. destruct (sm_fhs s !! tab') as [[g k]|] eqn:Hg; [|done].
      eapply row_changed_other; [|exact Hrc|by eapply Hfiles]. intros ->. apply Hne. by eapply Hfds.
Qed.

(** ** Undoing a change *)

(** The place of the change is in the table, which has no index. *)
Definition can_undo s w : Prop :=
  ∃ fd h tm, sm_fhs s !! tab_name_ w = Some (fd, h) ∧ get_table (tab_name_ w) (sm_db s) = Ok tm ∧ tab_indexes tm = [] ∧
    1 ≤ page_no (wr_rid_ w) < num_pages h ∧ 0 ≤ slot_no (wr_rid_ w) < num_records_per_page h ∧
    ∀ old new, images w = Some (Some old, new) → len old = record_size h.

Lemma can_undo_aside s s' w : aside s s' → can_undo s w → can_undo s' w.
Proof.
  intros Ha (fd & h & tm & Hf & Hdb & Hrest). apply (as_fhs _ _ Ha) in Hf as (h' & Hf & [x ->]).
  exists fd, (set_first_free x h), tm. by rewrite (as_db _ _ Ha).
Qed.

Lemma rd_exact (b : bytes) k : len b = k → rd b 0 k = Some b.
Proof. intros <-. pose proof (rd_field [] b [] 0 (len b)) as H. simpl in H. rewrite app_nil_r in H. by apply H. Qed.

(** The rows before the change come back. *)
Lemma undone_rows w (T T' U : rows_t) old new :
  images w = Some (old, new) → T (tab_name_ w) (wr_rid_ w) = old →
  (∀ tab rid, T' tab rid = if decide (tab = tab_name_ w ∧ rid = wr_rid_ w) then new else T tab rid) →
  (∀ tab rid, U tab rid = if decide (tab = tab_name_ w ∧ rid = wr_rid_ w) then old else T' tab rid) →
  ∀ tab rid, U tab rid = T tab rid.
Proof.
  intros Hi Ho Hn HU tab rid. rewrite HU. case_decide as Hd.
  - by destruct Hd as [-> ->].
  - by rewrite Hn, decide_False.
Qed.

(** The operation that undoes a change, on the record file. *)
Definition undo_op w (fd : Z) : M (RmFileHdr * Storage R) unit :=
  match wtype_ w with
  | INSERT_TUPLE => delete_record fd (wr_rid_ w) false
  | DELETE_TUPLE => insert_record_at fd (wr_rid_ w) (default [] (record_ w))
  | UPDATE_TUPLE => update_record fd (wr_rid_ w) (default [] (record_old_ w)) false
  end.

Lemma wp_undo_op w fd h st old new (Q : unit → RmFileHdr * Storage R → Prop) :
  images w = Some (old, new) → stored st → file_ok fd h st → rows_of fd h st (wr_rid_ w) = new →
  1 ≤ page_no (wr_rid_ w) < num_pages h → 0 ≤ slot_no (wr_rid_ w) < num_records_per_page h →
  (∀ b, old = Some b → len b = record_size h) →
  (∀ h' st', same_layout h h' → row_changed fd h (wr_rid_ w) old st st' → Q tt (h', st')) →
  wp (undo_op w fd) Q fails_io (h, st).
Proof.
  unfold images, undo_op. intros Hi Hst Hok Hrow Hp Hs Hlen HQ.
  destruct (wtype_ w), (record_ w) as [b|], (record_old_ w) as [b'|]; try done; injection Hi as <- <-; cbn [default].
  1,2: by eapply (wp_delete_row _ _ _ _ _ false).
  all: match goal with |- wp (_ _ _ ?b) _ _ _ => pose proof (Hlen b eq_refl) as Hl | |- wp (_ _ _ ?b _) _ _ _ => pose proof (Hlen b eq_refl) as Hl end.
  1,2: apply wp_insert_row_at; [done|done|done|done|lia|].
  3: eapply wp_update_row; [done|done|exact Hrow|lia|done|].
  all: intros st'; rewrite (rd_exact _ _ Hl); apply HQ, same_layout_refl.
Qed.

Context (order : gset LockDataId → list LockDataId).

(** Without indexes, [undo_write] is that operation. *)
Lemma undo_write_run junk txn w s o :
  can_undo s w → images w = Some o →
  undo_write order junk txn w s = on_tables (on_file (tab_name_ w) (undo_op w)) s.
Proof.
  intros (fd & h & tm & Hf & Hdb & Hix & _) Hi. unfold undo_write. rewrite bind_gets.
  unfold of_outcome. rewrite Hdb. unfold bind at 1. unfold ret at 1. cbv zeta. rewrite Hix. unfold undo_op, images in *.
  destruct (wtype_ w), (record_ w) as [b|], (record_old_ w) as [b'|]; try done; cbn [undo_in_indexes of_option default].
  all: unfold bind, ret; cbn beta iota; try done.
  all: destruct (on_tables _ s) as [[[]|e|] s']; done.
Qed.

Lemma wp_undo_write junk txn w T1 s (Q : unit → Sys R → Prop) :
  sys_ok s → can_undo s w → changes w T1 (sys_rows s) →
  (∀ s', sys_ok s' → aside s s' → sm_locks s' = sm_locks s → (∀ tab rid, sys_rows s' tab rid = T1 tab rid) → Q tt s') →
  wp (undo_write order junk txn w) Q fails_io s.
Proof.
  intros Hs Hu (old & new & Hi & Hold & Hnew) HQ. unfold wp. rewrite (undo_write_run junk txn w s _ Hu Hi).
  destruct Hu as (fd & h & tm & Hf & Hdb & Hix & Hp & Hsl & Hlen).
  assert (wp (on_tables (on_file (tab_name_ w) (undo_op w))) Q fails_io s) as H; [|exact H].
  eapply wp_on_fh; [exact Hf|]. eapply wp_undo_op; [exact Hi|apply Hs|by eapply sk_files| |done|done| |].
  - pose proof (Hnew (tab_name_ w) (wr_rid_ w)) as Hr. unfold sys_rows in Hr at 1. rewrite Hf, decide_True in Hr; done.
  - intros b ->. by eapply Hlen.
  - intros h' st' Hh Hrc. cbn [fst snd].
    destruct (row_changed_sys (tab_name_ w) fd h h' (wr_rid_ w) old s st' Hs Hf) as (Hs' & Ha & Hl & Hr); [lia|done|exact Hrc|].
    apply HQ; [done..|]. by eapply undone_rows.
Qed.

(** ** The loop over the write set *)

Definition set_txn (txn : Z) (T : Transaction) s : Sys R := set_locks (set_txns (<[txn := T]> (txns (sm_locks s))) (sm_locks s)) s.

Lemma wp_on_mod_txn txn f T s (Q : unit → Sys R → Prop) :
  txns (sm_locks s) !! txn = Some T → Q tt (set_txn txn (f T) s) → wp (on_locks (mod_txn txn f)) Q fails_io s.
Proof.
  intros HT HQ. unfold wp, on_locks, zoom, mod_txn, get_txn, bind, gets, of_option, ret, modify. rewrite HT. exact HQ.
Qed.

Lemma wp_on_get_txn txn T s (Q : Transaction → Sys R → Prop) :
  txns (sm_locks s) !! txn = Some T → Q T s → wp (on_locks (get_txn txn)) Q fails_io s.
Proof.
  intros HT HQ. unfold wp, on_locks, zoom, get_txn, bind, gets, of_option, ret. rewrite HT. by destruct s.
Qed.

Lemma set_txn_ok txn T s : sys_ok s → sys_ok (set_txn txn T s).
Proof. by intros [? ? ?]. Qed.
Lemma set_txn_aside txn T s : aside s (set_txn txn T s).
Proof. split; [done..| |done]. intros tab fd h Hf. exists h. split; [done|]. apply same_layout_refl. Qed.

(** The locks after it: the transaction has an empty write set. *)
Definition emptied txn (T : Transaction) (l l' : LockManager) : Prop :=
  l' = set_txns (<[txn := set_write_set [] T]> (txns l)) l.

Lemma emptied_again txn T T1 l l' :
  set_write_set [] T1 = set_write_set [] T →
  emptied txn T1 (set_txns (<[txn := T1]> (txns l)) l) l' → emptied txn T l l'.
Proof. unfold emptied. intros HT ->. simpl. by rewrite insert_insert_eq, HT. Qed.

Lemma wp_undo_writes junk txn ws T0 T s (Q : unit → Sys R → Prop) :
  sys_ok s → Forall (can_undo s) ws → performed T0 (rev ws) (sys_rows s) →
  txns (sm_locks s) !! txn = Some T → write_set_ T = rev ws →
  (∀ s', sys_ok s' → aside s s' → emptied txn T (sm_locks s) (sm_locks s') →
    (∀ tab rid, sys_rows s' tab rid = T0 tab rid) → Q tt s') →
  wp (undo_writes order junk txn ws) Q fails_io s.
Proof.
  revert T s. induction ws as [|w ws IH]; intros T s Hs Hu Hp HT Hws HQ; cbn [undo_writes].
  { apply wp_ret, HQ; [done|done| |exact Hp]. unfold emptied. simpl in Hws.
    replace (set_write_set [] T) with T by (destruct T; simpl in *; by subst).
    destruct (sm_locks s). unfold set_txns. simpl in *. f_equal. by rewrite insert_id. }
  apply Forall_cons in Hu as [Hw Hu]. cbn [rev] in Hp.
  apply performed_snoc in Hp as (T1 & Hp & Hc).
  apply wp_bind. eapply wp_on_mod_txn; [exact HT|]. set (s1 := set_txn txn _ s).
  assert (aside s s1) as Ha1 by apply set_txn_aside.
  apply wp_bind. eapply (wp_undo_write junk txn w T1); [by apply set_txn_ok|by eapply can_undo_aside|exact Hc|].
  intros s2 Hs2 Ha2 Hl2 Hr2. eapply (IH (set_write_set (rev ws) T)).
  - exact Hs2.
  - eapply Forall_impl; [exact Hu|]. intros w' Hw'. eapply can_undo_aside; [|exact Hw']. by etrans.
  - eapply performed_ext; [exact Hp|exact Hr2].
  - rewrite Hl2. unfold s1, set_txn. simpl. by rewrite lookup_insert_eq.
  - done.
  - intros s3 Hs3 Ha3 Hl3 Hr3. rewrite Hl2 in Hl3. apply HQ; [done| | |done].
    + etrans; [exact Ha1|]. by etrans.
    + exact (emptied_again txn T (set_write_set (rev ws) T) (sm_locks s) _ eq_refl Hl3).
Qed.

(** ** The end of the transaction *)

(** The log manager wrote to the log; the pages are as before. *)
Record log_written (st st' : Storage R) : Prop := {
  lw_stored : stored st';
  lw_bpm : s_bpm st' = s_bpm st;
  lw_view : view_kept st st';
  lw_fds : fds_kept st st';
  lw_pageno : fd2pageno_ (s_disk st') = fd2pageno_ (s_disk st);
}.

Lemma log_written_disk (st : Storage R) dk log :
  stored st → dm_inv dk → log_fd_ok dk → data_kept (s_disk st) dk → fd2pageno_ dk = fd2pageno_ (s_disk st) →
  log_written st (mkStorage dk log (s_bpm st)).
Proof.
  intros [Hi Hsm Hroom] Hd Hl Hk Hpg. destruct (disk_step_pool st dk log Hi Hd Hl) as (Hi' & Hv & Hf); [by apply data_kept_pages|].
  split; [|done|done|done|done]. by split.
Qed.

(** A record is added behind what is in the log, after a flush if the buffer is full. *)
Lemma wp_add_log r (st : Storage R) lm (Q : Z → Storage R → Prop) :
  stored st → s_log st = Some lm → sized r → len (serialize r) ≤ LOG_BUFFER_SIZE →
  (∀ st' lm' b, log_written st st' → s_log st' = Some lm' →
    buffer_ lm' = b ++ serialize (set_lsn (global_lsn_ lm) r) → Q (global_lsn_ lm) st') →
  wp (add_log r) Q fails_io st.
Proof.
  intros Hst Hlm Hr Hlen HQ. pose proof (so_inv _ Hst) as Hi.
  assert (len (serialize (set_lsn (global_lsn_ lm) r)) = len (serialize r)) as Hsame by by rewrite !serialize_length.
  assert (wrap32 (log_tot_len_ (log_hdr r)) = len (serialize r)) as Hsize.
  { rewrite Hr. apply wrap32_id, i32_ok_range. unfold LOG_BUFFER_SIZE, PAGE_SIZE in Hlen. lia. }
  assert (wp (add_log_to_buffer r) (λ l t, l = global_lsn_ lm ∧ log_written st (mkStorage t.2 (Some t.1) (s_bpm st)) ∧
    ∃ b, buffer_ t.1 = b ++ serialize (set_lsn (global_lsn_ lm) r)) fails_io (lm, s_disk st)) as H.
  { unfold add_log_to_buffer. rewrite Hsize. apply wp_bind, wp_gets. cbn [fst]. apply wp_bind.
    assert (∀ lm1 d1, dm_inv d1 → log_fd_ok d1 → data_kept (s_disk st) d1 →
      fd2pageno_ d1 = fd2pageno_ (s_disk st) → global_lsn_ lm1 = global_lsn_ lm →
      offset_ lm1 + len (serialize r) ≤ LOG_BUFFER_SIZE → wp (let! lm0 := gets fst in
        do! massert (len (serialize (set_lsn (global_lsn_ lm0) r)) =? len (serialize r)) in
        do! massert (offset_ lm0 + len (serialize r) <=? LOG_BUFFER_SIZE + 1) in
        do! modify (λ t, (mkLM (wrap32 (global_lsn_ lm0 + 1)) (buffer_ lm0 ++ serialize (set_lsn (global_lsn_ lm0) r)) (persist_lsn_ lm0), t.2)) in
        ret (global_lsn_ lm0)) (λ l t, l = global_lsn_ lm ∧ log_written st (mkStorage t.2 (Some t.1) (s_bpm st)) ∧
        ∃ b, buffer_ t.1 = b ++ serialize (set_lsn (global_lsn_ lm) r)) fails_io (lm1, d1)) as Hadd.
    { intros lm1 d1 Hd Hl Hk Hpg Hg Ho. apply wp_bind, wp_gets. cbn [fst snd]. rewrite Hg.
      apply wp_bind, wp_massert; [lia|]. apply wp_bind, wp_massert; [lia|]. apply wp_bind, wp_modify, wp_ret. cbn [fst snd].
      split; [done|]. split; [by apply log_written_disk|by eexists]. }
    unfold is_full. destruct (offset_ lm + len (serialize r) >? LOG_BUFFER_SIZE) eqn:Hfull.
    - apply wp_Ok.
      { unfold flush_log_to_disk. apply wp_bind, wp_gets. destruct (_ =? 0); [by apply wp_ret|].
        apply wp_bind. apply wp_zoom. eapply wp_mono; [apply write_log_runs|]. intros [] d _. by apply wp_modify. }
      intros [] [lm1 d1] Hf. pose proof (flush_log_empties _ _ Hf) as Hb. cbn [fst snd] in Hb.
      assert (global_lsn_ lm1 = global_lsn_ lm) as Hg.
      { unfold flush_log_to_disk in Hf. rewrite bind_gets in Hf. destruct (_ =? 0).
        - by apply ret_Ok in Hf as [_ [= -> _]].
        - apply bind_Ok in Hf as (? & ? & _ & Hf). apply modify_Ok in Hf. by injection Hf as -> _. }
      apply flush_log_Ok in Hf as (Hd & Hl & Hk & Hpg); [|apply Hi|apply Hi].
      apply Hadd; [done..|]. unfold offset_. rewrite Hb. exact Hlen.
    - apply wp_ret, Hadd; [apply Hi|apply Hi|done|done|done|]. rewrite Z.gtb_ltb in Hfull. by apply Z.ltb_ge. }
  unfold wp, add_log in *. rewrite Hlm. destruct (add_log_to_buffer r (lm, s_disk st)) as [[l|e|] [lm' d']]; [|done|done].
  destruct H as (-> & Hw & b & Hb). by eapply HQ.
Qed.

Lemma wp_on_pages {A} (m : M (Storage R) A) s (Q : A → Sys R → Prop) :
  wp m (λ a st, Q a (set_tables (mkDb (sm_fhs s) st) s)) fails_io (sm_storage s) → wp (on_pages m) Q fails_io s.
Proof. intros H. apply wp_zoom, wp_zoom. exact H. Qed.

(** The rows do not change when the log does. *)
Lemma log_written_sys s st :
  sys_ok s → log_written (sm_storage s) st → let s' := set_tables (mkDb (sm_fhs s) st) s in
  sys_ok s' ∧ ∀ tab rid, sys_rows s' tab rid = sys_rows s tab rid.
Proof.
  intros [Hst Hfiles Hfds] [Hst' Hb Hv Hf _] s'. split; [split|].
  - done.
  - cbn. intros tab fd h Hh. destruct (Hfiles tab fd h Hh) as [Hd ? ? Hp Hu]. split; [by apply Hf|done|done| |by rewrite Hb].
    intros p Hpp. destruct (Hp p Hpp) as [b Hpb]. exists b. by apply Hv.
  - exact Hfds.
  - intros tab rid. unfold sys_rows, s'. cbn. destruct (sm_fhs s !! tab) as [[fd h]|] eqn:Hh; [|done].
    unfold rows_of. case_decide as Hp; [|done]. destruct (fo_page _ _ _ (Hfiles tab fd h Hh) _ Hp) as [b Hpb].
    rewrite Hpb. rewrite (Hv (fd, page_no rid) b); [done|by eapply Hfiles|done].
Qed.

(** A call of the lock manager that does not throw. *)
Lemma wp_on_locks {A} (m : M LockManager A) s (Q : A → Sys R → Prop) :
  wp m (λ a l, Q a (set_locks l s)) (aborted (λ _, False)) (sm_locks s) → wp (on_locks m) Q fails_io s.
Proof.
  intros H. apply wp_zoom. unfold wp in *. destruct (m (sm_locks s)) as [[a|e|] l]; [done| |done]. by destruct e.
Qed.

Lemma set_locks_ok l s : sys_ok s → sys_ok (set_locks l s).
Proof. by intros [? ? ?]. Qed.

Record ended txn (T : Transaction) (record : LogRecord) (st : TransactionState) W s s' : Prop := {
  en_ok : sys_ok s';
  en_rows tab rid : sys_rows s' tab rid = sys_rows s tab rid;
  en_locks : Inv (sm_locks s') W;
  en_released id : ¬ has_request (sm_locks s') txn id;
  en_txn : ∃ T' lm b, txns (sm_locks s') !! txn = Some T' ∧ state_ T' = st ∧ write_set_ T' = write_set_ T ∧
    lock_set_ T' = ∅ ∧ s_log (sm_storage s') = Some lm ∧
    buffer_ lm = b ++ serialize (set_lsn (prev_lsn T') (set_record_prev (prev_lsn T) record));
}.

(** What the end of a transaction needs of the locks. *)
Record may_end txn (T : Transaction) W s : Prop := {
  me_txn : txns (sm_locks s) !! txn = Some T;
  me_inv : Inv (sm_locks s) W;
  me_runs : W !! txn = None;
  me_order : order (lock_set_ T) ≡ₚ elements (lock_set_ T);
  me_tables id : id ∈ lock_set_ T → lk_type id = TABLE → wanted (sm_locks s) id;
  me_log : is_Some (s_log (sm_storage s));
}.

Lemma wp_end_txn txn T record st W s (Q : unit → Sys R → Prop) :
  sys_ok s → may_end txn T W s → sized record → len (serialize record) ≤ LOG_BUFFER_SIZE →
  (∀ s', ended txn T record st W s s' → Q tt s') → wp (end_txn order txn record st) Q fails_io s.
Proof.
  intros Hs [HT HI HW Hord Htab Hlog] Hsz Hln HQ. unfold end_txn. apply wp_bind. eapply wp_on_get_txn; [exact HT|].
  apply wp_bind, wp_on_locks. eapply wp_mono.
  { eapply (unlock_all_ok W txn HW); [exact HT|exact HI|rewrite Hord; apply NoDup_elements| |].
    - intros id Hid. rewrite Hord, elem_of_elements. by eapply own_requests.
    - intros id. rewrite Hord, elem_of_elements. apply Htab. }
  cbn. intros _ l (HI' & Htx & Hno). set (T1 := set_lock_set ∅ T) in *.
  assert (txns l !! txn = Some T1) as HT1 by (rewrite Htx; apply lookup_insert_eq).
  set (s1 := set_locks l s). assert (sys_ok s1) as Hs1 by by apply set_locks_ok.
  apply wp_bind, wp_gets. destruct Hlog as [lm Hlm]. change (s_log (sm_storage s1)) with (s_log (sm_storage s)). rewrite Hlm.
  apply wp_bind. unfold log_for. apply wp_bind. eapply (wp_on_get_txn txn T1); [exact HT1|].
  apply wp_bind, wp_on_pages. eapply wp_add_log; [apply Hs1|exact Hlm| | |].
  { unfold sized in *. rewrite serialize_length in *. exact Hsz. }
  { rewrite serialize_length in *. exact Hln. }
  intros st' lm' b Hw Hlm' Hb. destruct (log_written_sys s1 st' Hs1 Hw) as [Hs2 Hr2].
  set (s2 := set_tables _ s1) in *. eapply (wp_on_mod_txn txn _ T1); [exact HT1|].
  eapply wp_on_mod_txn; [apply lookup_insert_eq|]. apply HQ.
  set (T' := set_state st (set_prev_lsn (global_lsn_ lm) T1)).
  split.
  - by apply set_txn_ok, set_txn_ok.
  - exact Hr2.
  - apply (Inv_drop_set W txn), Hno. by apply (Inv_drop_set W txn).
  - intros id Hid. by apply (Hno id).
  - exists T', lm', b. unfold set_txn, s2. cbn. rewrite lookup_insert_eq. split_and!; [done..|exact Hb].
Qed.

Lemma may_end_emptied txn T W s s' :
  may_end txn T W s → aside s s' → emptied txn T (sm_locks s) (sm_locks s') → may_end txn (set_write_set [] T) W s'.
Proof.
  intros [HT HI HW Hord Htab Hlog] Ha He. unfold emptied in He. split; [..|by apply (as_log _ _ Ha)]; rewrite ?He; cbn.
  - apply lookup_insert_eq.
  - by eapply Inv_txn.
  - done.
  - done.
  - done.
Qed.

Lemma wp_rollback junk txn T T0 W s :
  sys_ok s → may_end txn T W s → Forall (can_undo s) (write_set_ T) → performed T0 (write_set_ T) (sys_rows s) →
  wp (abort order junk txn)
    (λ _ s', (∀ tab rid, sys_rows s' tab rid = T0 tab rid) ∧ ended txn (set_write_set [] T) (AbortLogRecord txn) ABORTED W s' s')
    fails_io s.
Proof.
  intros Hs Hm Hu Hp. unfold abort. apply wp_bind. eapply wp_on_get_txn; [apply Hm|]. apply wp_bind.
  eapply (wp_undo_writes junk txn _ T0 T); [exact Hs|by apply Forall_rev|by rewrite rev_involutive|apply Hm|by rewrite rev_involutive|].
  intros s1 Hs1 Ha He Hr. eapply wp_end_txn; [exact Hs1|by eapply may_end_emptied|done|by vm_compute|].
  intros s2 [Hs2 Hr2 HI2 Hno2 Ht]. split; [|by split]. intros tab rid. by rewrite Hr2, Hr.
Qed.

(** C11: The rollback of a transaction: if the changes in its write set, made one after the
    other, led from the rows [T0] to the rows the tables have now, and each of them can be
    undone in the files ([can_undo]), then [abort] returns, or meets an error of the file
    system; when it returns the rows are [T0] again, in all tables, the transaction has no
    lock request in any queue, its state is ABORTED, and the abort record is the last one in
    the log, linked to the transaction's one before it.  Of the locks it takes the invariant
    of the calls without gap locks, that the transaction waits for none, and that each table
    in its lock set is requested by some transaction ([may_end]): without this the release
    follows a null pointer ([release_follows_null] in LockGaps.v). *)
Theorem abort_restores_rows junk txn T T0 W s :
  sys_ok s → may_end txn T W s → Forall (can_undo s) (write_set_ T) → performed T0 (write_set_ T) (sys_rows s) →
  wp (abort order junk txn)
    (λ _ s', (∀ tab rid, sys_rows s' tab rid = T0 tab rid) ∧ sys_ok s' ∧ Inv (sm_locks s') W ∧
       (∀ id, ¬ has_request (sm_locks s') txn id) ∧
       ∃ T' lm b, txns (sm_locks s') !! txn = Some T' ∧ state_ T' = ABORTED ∧ write_set_ T' = [] ∧ lock_set_ T' = ∅ ∧
         s_log (sm_storage s') = Some lm ∧
         buffer_ lm = b ++ serialize (set_lsn (prev_lsn T') (set_record_prev (prev_lsn T) (AbortLogRecord txn))))
    fails_io s.
Proof.
  intros Hs Hm Hu Hp. eapply wp_mono; [by eapply wp_rollback|].
  intros u s2 [Hr [Hs2 _ HI2 Hno2 (T' & lm & b & ? & ? & ? & ? & ? & ?)]]. split_and!; [done..|]. by exists T', lm, b.
Qed.

End rollback.

(** ** A witness: a transaction that inserted a record and changed it *)

#[local] Existing Instance LRU.lru_replacer.
#[local] Existing Instance LRU.lru_laws.

Definition demo_before : bytes := replicate 100 9.
Definition demo_ws : list WriteRecord :=
  [mkWrite INSERT_TUPLE [116] (mkRid 1 0) (Some demo_before) None;
   mkWrite UPDATE_TUPLE [116] (mkRid 1 0) (Some demo_record) (Some demo_before)].
Definition demo_locked : config := default start (do_events [EBegin 1; ECall 1 (LTableX 3)] start).
Definition demo_T : Transaction :=
  set_write_set demo_ws (default (Transaction_new 1 false 0) (txns (locks demo_locked) !! 1)).
Definition demo_pages : Storage LRU.LRUReplacer :=
  with_log (Some (mkLM 5 [] 5)) demo_inserted.2.
Definition demo_sys : Sys LRU.LRUReplacer :=
  mkSys (mkDbMeta [100] [([116], mkTab [116] [] [])]) {[ [116] := (3, demo_inserted.1) ]} ∅ ∅ demo_pages
    (set_txns (<[1 := demo_T]> (txns (locks demo_locked))) (locks demo_locked)) (mkTM {[1]} 2 1 TWO_PHASE_LOCKING).

(** The rows after an insertion into a file without pages. *)
Lemma first_row h s h' (s' : Storage LRU.LRUReplacer) (b : bytes) r rid :
  rm_inv 3 h s → num_pages h = 1 → rd b 0 (record_size h) = Some b →
  rm_exec 3 (RInsert b false) (h, s) = (Ok (RetRid r), (h', s')) →
  rows_of 3 h' s' rid = if decide (rid = r) then Some b else None.
Proof.
  intros Hi Hn Hb H. unfold rm_exec in H. apply bind_Ok in H as (r' & [h1 s1] & Hrun & Hr). apply ret_Ok in Hr as [[= <-] [= -> ->]].
  apply insert_record_rm in Hrun as (_ & _ & _ & _ & Hrows); [|done|by rewrite Hn].
  rewrite Hrows, Hb. case_decide; [done|]. unfold rows_of. rewrite decide_False; [done|]. lia.
Qed.

Lemma demo_inserted_rows rid :
  rows_of 3 demo_inserted.1 demo_inserted.2 rid = if decide (rid = mkRid 1 0) then Some demo_record else None.
Proof.
  assert (rd demo_record 0 (record_size demo_hdr) = Some demo_record) as Hb by (vm_compute; reflexivity).
  exact (first_row demo_hdr (demo_rm_storage 2) demo_inserted.1 demo_inserted.2 demo_record (mkRid 1 0) rid
    (demo_rm_inv 2) eq_refl Hb demo_insert_run).
Qed.

Lemma one_table_ok tab fd h (s : Sys LRU.LRUReplacer) :
  stored (sm_storage s) → file_ok fd h (sm_storage s) → sm_fhs s = {[ tab := (fd, h) ]} → sys_ok s.
Proof.
  intros Hst Hf Hs. split; [exact Hst| |]; rewrite Hs.
  - by intros tab' fd' h' [<- [= <- <-]]%lookup_singleton_Some.
  - by intros t1 t2 fd' h1 h2 [<- _]%lookup_singleton_Some [<- _]%lookup_singleton_Some.
Qed.

Lemma demo_stored : stored demo_inserted.2.
Proof.
  split; [apply (ri_pool _ _ _ demo_inserted_inv)| |vm_compute; repeat constructor].
  assert (map_Forall (λ pid _, i32_ok (pid.2 * PAGE_SIZE) = true) (page_table_ (s_bpm demo_inserted.2))) as H.
  { apply (bool_decide_unpack _). vm_compute. exact I. }
  intros pid f Hf. exact (H pid f Hf).
Qed.

Lemma demo_sys_ok : sys_ok demo_sys.
Proof.
  apply (one_table_ok [116] 3 demo_inserted.1 demo_sys); [| |reflexivity].
  - apply (with_log_stored (Some (mkLM 5 [] 5))), demo_stored.
  - apply (with_log_file (Some (mkLM 5 [] 5))), rm_inv_file_ok; [exact demo_inserted_inv|vm_compute; discriminate].
Qed.

Lemma demo_performed : performed (λ _ _, None) demo_ws (sys_rows demo_sys).
Proof.
  set (T1 := λ (tab : bytes) (rid : Rid), if decide (tab = [116] ∧ rid = mkRid 1 0) then Some demo_before else None).
  exists T1. split; [by exists None, (Some demo_before)|]. exists (sys_rows demo_sys). split; [|done].
  exists (Some demo_before), (Some demo_record). split_and!; [done|done|]. intros tab rid.
  unfold sys_rows, T1. change (sm_fhs demo_sys) with ({[ [116] := (3, demo_inserted.1) ]} : gmap bytes (Z * RmFileHdr)).
  destruct (decide (tab = [116])) as [->|Hne].
  - rewrite lookup_singleton_eq. change (sm_storage demo_sys) with (with_log (Some (mkLM 5 [] 5)) demo_inserted.2).
    rewrite with_log_rows, demo_inserted_rows. repeat case_decide; naive_solver.
  - rewrite lookup_singleton_ne by done. repeat case_decide; naive_solver.
Qed.

Lemma demo_may_end : may_end elements 1 demo_T (waiting demo_locked) demo_sys.
Proof.
  assert (reachable no_gap_lock demo_locked) as Hr.
  { apply (do_events_steps _ [EBegin 1; ECall 1 (LTableX 3)]); [by repeat constructor|vm_compute; reflexivity]. }
  split.
  - apply lookup_insert_eq.
  - eapply Inv_txn; [by apply Inv_reachable|vm_compute; reflexivity|done].
  - reflexivity.
  - done.
  - intros id Hid _. assert (id = table_id 3) as ->.
    { assert (lock_set_ demo_T = {[ table_id 3 ]}) as E by (vm_compute; reflexivity). rewrite E in Hid. by apply elem_of_singleton in Hid. }
    eexists 1, 0, _, _. split; [vm_compute; reflexivity|]. split; [apply list_elem_of_singleton; reflexivity|reflexivity].
  - by eexists.
Qed.

Lemma abort_restores_rows_witness :
  wp (abort elements [] 1)
    (λ _ s', (∀ tab rid, sys_rows s' tab rid = None) ∧ sys_ok s' ∧ Inv (sm_locks s') (waiting demo_locked) ∧
       (∀ id, ¬ has_request (sm_locks s') 1 id) ∧
       ∃ T' lm b, txns (sm_locks s') !! 1 = Some T' ∧ state_ T' = ABORTED ∧ write_set_ T' = [] ∧ lock_set_ T' = ∅ ∧
         s_log (sm_storage s') = Some lm ∧
         buffer_ lm = b ++ serialize (set_lsn (prev_lsn T') (set_record_prev (prev_lsn demo_T) (AbortLogRecord 1))))
    fails_io demo_sys ∧
  sys_rows demo_sys [116] (mkRid 1 0) = Some demo_record ∧ (abort elements [] 1 demo_sys).1 = Ok tt.
Proof.
  split_and!.
  - apply (abort_restores_rows elements [] 1 demo_T (λ _ _, None) (waiting demo_locked) demo_sys).
    + apply demo_sys_ok.
    + apply demo_may_end.
    + assert (∀ w, w ∈ demo_ws → can_undo demo_sys w) as H; [|by apply Forall_forall].
      intros w Hw. exists 3, demo_inserted.1, (mkTab [116] [] []).
      assert (tab_name_ w = [116] ∧ wr_rid_ w = mkRid 1 0) as [-> ->].
      { apply elem_of_cons in Hw as [->|Hw]; [done|]. by apply list_elem_of_singleton in Hw as ->. }
      split; [reflexivity|]. split; [reflexivity|]. split; [reflexivity|]. split; [vm_compute; by split|]. split; [vm_compute; split; [discriminate|reflexivity]|].
      intros old new Hi. apply elem_of_cons in Hw as [->|Hw]; [done|]. apply list_elem_of_singleton in Hw as ->.
      injection Hi as <- _. reflexivity.
    + apply demo_performed.
  - vm_compute. reflexivity.
  - vm_compute. reflexivity.
Defined.
