(* ===== verification/Exec.v ===== *)
(** * The executors of queries (src/src/execution/)

    A query runs as a tree of executors.  Every executor offers the methods of
    [AbstractExecutor] (executor_abstract.h), here the class [Executor]; an executor over
    others is an instance given instances for its children, so that any tree can be built.
    This file has the operators that the planner makes of a SELECT without ORDER BY and
    GROUP BY: the sequential scan (executor_seq_scan.h), the projection
    (executor_projection.h), the nested loop join (executor_nestedloop_join.h) and the list
    of values (execution_values.h), and the loop of the client (execution_manager.cpp). *)
From S2P Require Import Prelude Bytes Disk Log Replacer BufferPool Record Scan Recovery Streams Meta Keys IxNode Index Txn Lock System.

(** ** The interface *)

(** A method takes the object and gives it back; [Next] answers a pointer that may be null. *)
Class Executor (S E : Type) := {
  tupleLen : E → Z;
  cols : E → list ColMeta;
  beginTuple : E → M S E;
  nextTuple : E → M S E;
  is_end : E → bool;
  Next : E → M S (option bytes * E);
  exec_rid : E → Rid;
}.

(** [AbstractExecutor::get_col]: the position and the column. *)
Definition get_col (rec_cols : list ColMeta) (target : TabCol) : outcome (nat * ColMeta) :=
  match list_find (λ c, col_tab c = tc_tab_name target ∧ col_name c = tc_col_name target) rec_cols with
  | None => Throw (ColumnNotFoundError (tc_tab_name target ++ [46] ++ tc_col_name target))
  | Some r => Ok r
  end.

(** ** Conditions on a tuple *)

(** [std::string(p, n)] cut at its first zero. *)
Fixpoint until_nul (b : bytes) : bytes :=
  match b with [] => [] | c :: b => if c =? 0 then [] else c :: until_nul b end.

(** The value of a column of type [type] from its bytes. *)
Definition value_of (type : ColType) (col_raw : bytes) : outcome Value :=
  match type with
  | TYPE_INT | TYPE_FLOAT => bits ← or_stuck (rd_u32 col_raw 0); Ok (mkValue type bits [] None)
  | TYPE_STRING => Ok (mkValue type 0 (until_nul col_raw) None)
  | TYPE_DATETIME => Ok (mkValue type 0 [] None)
  end.

Definition getValue (cols_ : list ColMeta) (col : TabCol) (tuple : bytes) : outcome Value :=
  '(_, col_meta) ← get_col cols_ col;
  col_raw ← or_stuck (rd tuple (col_offset col_meta) (col_len col_meta));
  value_of (col_type col_meta) col_raw.

Definition rhs_value (cols_ : list ColMeta) (cond : Condition) (tuple : bytes) : outcome Value :=
  if is_rhs_val cond then Ok (rhs_val cond) else getValue cols_ (rhs_col cond) tuple.

Fixpoint eval_condition (cols_ : list ColMeta) (conds : list Condition) (tuple : bytes) : outcome bool :=
  match conds with
  | [] => Ok true
  | cond :: conds =>
      left ← getValue cols_ (lhs_col cond) tuple;
      right ← rhs_value cols_ cond tuple;
      pred_cond ← ValueComp left right (cond_op cond);
      if pred_cond : bool then eval_condition cols_ conds tuple else Ok false
  end.

(** [cols_.back().offset + cols_.back().len] *)
Definition record_len (cols_ : list ColMeta) : outcome Z :=
  match last cols_ with Some c => Ok (col_offset c + col_len c) | None => Stuck end.

Section exec.
Context {R : Type} `{Replacer R}.
Abbreviation Sys := (Sys R).
(** The transaction of the context; what happens until a call that waits returns. *)
Context (txn : Z) (wait : Z → wait_point → M Sys bool).
(** What uninitialised places hold; the rounds the loops are given. *)
Context (junk : Rid) (junk_bytes : bytes) (fuel : nat).

(** ** Tables and locks, for an executor *)

Definition lock_call (m : M LockManager lock_result) : M Sys bool :=
  let! r := on_locks m in
  match r with Returned b => ret b | Waits w => wait txn w end.

(** [sm_manager_->db_.get_table(tab_name)] and [sm_manager_->fhs_.at(tab_name)] *)
Definition table_meta (tab_name : bytes) : M Sys TabMeta :=
  let! db := gets sm_db in of_outcome (get_table tab_name db).
Definition fh_at (tab_name : bytes) : M Sys Z :=
  let! o := gets (λ s, sm_fhs s !! tab_name) in
  match o with None => throw OutOfRange | Some (fd, _) => ret fd end.
(** A method of the handle of a table; handles do not move while the table is there. *)
Definition on_fh {A} (tab_name : bytes) (op : Z → M (RmFileHdr * Storage R) A) : M Sys A :=
  on_tables (on_file tab_name op).
Definition GetFd (tab_name : bytes) : M Sys Z := on_fh tab_name (λ fd, ret fd).

(** [fh_->get_record(rid, context)]: with a context the record is locked first. *)
Definition fh_get_record (context : bool) (tab_name : bytes) (rid : Rid) : M Sys bytes :=
  do! (if context then let! fd := GetFd tab_name in lock_call (lock_shared_on_record txn rid fd) else ret true) in
  on_fh tab_name (λ fd, get_record fd rid None).

(** [std::make_unique<RmScan>(fh_)] and its methods *)
Definition new_scan (tab_name : bytes) : M Sys RmScan :=
  on_fh tab_name (λ fd, let! h := gets fst in sto (RmScan_new fd h junk)).
Definition scan_next (sc : RmScan) : M Sys RmScan := on_pages (Scan.next sc).

(** ** Sequential scan *)

Record SeqScan := mkSeqScan {
  ss_tab_name : bytes;
  ss_conds : list Condition;
  ss_cols : list ColMeta;
  ss_len : Z;
  ss_rid : Rid;
  ss_scan : option RmScan;
  ss_is_end : bool;
  ss_last_rid : Rid;
}.

(** The check of the constructor; [rhs_val] is looked at even where the right side is a column. *)
Fixpoint check_types (tab : TabMeta) (conds : list Condition) : outcome () :=
  match conds with
  | [] => Ok tt
  | cond :: conds =>
      lhs ← Meta.get_col (tc_col_name (lhs_col cond)) tab;
      if TypeCompatible (col_type lhs) (val_type (rhs_val cond)) then check_types tab conds else Throw IncompatibleTypeError
  end.

Definition SeqScanExecutor (tab_name : bytes) (conds : list Condition) : M Sys SeqScan :=
  let! tab := table_meta tab_name in
  let! fd := fh_at tab_name in
  let! len := of_outcome (record_len (tab_cols tab)) in
  do! of_outcome (check_types tab conds) in
  do! lock_call (lock_IS_on_table txn fd) in
  ret (mkSeqScan tab_name conds (tab_cols tab) len junk None false junk).

(** The first loop of [beginTuple]: the last place whose tuple satisfies the conditions. *)
Fixpoint find_last (fuel : nat) (e : SeqScan) (sc : RmScan) (last : Rid) : M Sys Rid :=
  if Scan.is_end sc then ret last else
  match fuel with
  | O => stuck
  | S fuel =>
      let! tuple := fh_get_record true (ss_tab_name e) (Scan.rid sc) in
      let! b := of_outcome (eval_condition (ss_cols e) (ss_conds e) tuple) in
      let! sc' := scan_next sc in
      find_last fuel e sc' (if b then Scan.rid sc else last)
  end.

(** The second one, and that of [nextTuple]: [rid_] and the scan behind the next tuple that
    satisfies the conditions; without one, [rid_] is the place the scan ended at in
    [beginTuple] and the last place it looked at in [nextTuple]. *)
Fixpoint find_match (fuel : nat) (e : SeqScan) (sc : RmScan) (rid : Rid) : M Sys (Rid * RmScan * bool) :=
  if Scan.is_end sc then ret (rid, sc, false) else
  match fuel with
  | O => stuck
  | S fuel =>
      let rid := Scan.rid sc in
      let! tuple := fh_get_record true (ss_tab_name e) rid in
      let! sc' := scan_next sc in
      let! b := of_outcome (eval_condition (ss_cols e) (ss_conds e) tuple) in
      if b : bool then ret (rid, sc', true) else find_match fuel e sc' rid
  end.

Definition ss_beginTuple (e : SeqScan) : M Sys SeqScan :=
  let! sc := new_scan (ss_tab_name e) in
  let! last := find_last fuel e sc (ss_last_rid e) in
  let! sc := new_scan (ss_tab_name e) in
  let! r := find_match fuel e sc (Scan.rid sc) in
  let '(rid, sc', found) := r in
  ret (mkSeqScan (ss_tab_name e) (ss_conds e) (ss_cols e) (ss_len e)
         (if found : bool then rid else Scan.rid sc') (Some sc') (negb found) last).

Definition ss_nextTuple (e : SeqScan) : M Sys SeqScan :=
  if decide (ss_last_rid e = ss_rid e) then
    ret (mkSeqScan (ss_tab_name e) (ss_conds e) (ss_cols e) (ss_len e) (ss_rid e) (ss_scan e) true (ss_last_rid e))
  else
    let! sc := of_option (ss_scan e) in
    let! r := find_match fuel e sc (ss_rid e) in
    let '(rid, sc', _) := r in
    ret (mkSeqScan (ss_tab_name e) (ss_conds e) (ss_cols e) (ss_len e) rid (Some sc') (ss_is_end e) (ss_last_rid e)).

#[export] Instance SeqScan_executor : Executor Sys SeqScan := {
  tupleLen := ss_len;
  cols := ss_cols;
  beginTuple := ss_beginTuple;
  nextTuple := ss_nextTuple;
  is_end := ss_is_end;
  Next e := let! r := fh_get_record true (ss_tab_name e) (ss_rid e) in ret (Some r, e);
  exec_rid := ss_rid;
}.
End exec.

(** ** Projection *)

(** [prev_->cols()] has the columns of the child, [sel_idxs_] the positions of the chosen ones. *)
Record Projection (E : Type) := mkProjection {
  pr_prev : E;
  pr_cols : list ColMeta;
  pr_len : Z;
  sel_idxs : list nat;
  _abstract_rid : Rid;
}.
Arguments mkProjection {E}.
Arguments pr_prev {E}.
Arguments pr_cols {E}.
Arguments pr_len {E}.
Arguments sel_idxs {E}.
Arguments _abstract_rid {E}.

Definition set_offset (o : Z) (c : ColMeta) : ColMeta :=
  mkCol (col_tab c) (col_name c) (col_type c) (col_len c) o (col_index c).
Definition set_name (n : bytes) (c : ColMeta) : ColMeta :=
  mkCol (col_tab c) n (col_type c) (col_len c) (col_offset c) (col_index c).

(** The first loop of the constructor: positions and columns, packed from [curr_offset] on,
    and the offset behind them. *)
Fixpoint select_cols (prev_cols : list ColMeta) (sel_cols : list TabCol) (curr_offset : Z) :
    outcome (list nat * list ColMeta * Z) :=
  match sel_cols with
  | [] => Ok ([], [], curr_offset)
  | sel_col :: sel_cols =>
      '(pos, col) ← get_col prev_cols sel_col;
      '(idxs, cols, end_offset) ← select_cols prev_cols sel_cols (curr_offset + col_len col);
      Ok (pos :: idxs, set_offset curr_offset col :: cols, end_offset)
  end.
(** The second one. *)
Fixpoint rename_cols (cols : list ColMeta) (names : list TabCol) : outcome (list ColMeta) :=
  match cols, names with
  | [], _ => Ok []
  | _, [] => Stuck
  | c :: cols, n :: names => rest ← rename_cols cols names; Ok (set_name (tc_col_name n) c :: rest)
  end.

(** The loop of [Next]. *)
Fixpoint copy_cols (prev_cols cols : list ColMeta) (idxs : list nat) (prev_data rec : bytes) : outcome bytes :=
  match cols, idxs with
  | [], _ => Ok rec
  | _, [] => Stuck
  | c :: cols, i :: idxs =>
      from ← or_stuck (prev_cols !! i);
      bs ← or_stuck (rd prev_data (col_offset from) (col_len c));
      rec ← or_stuck (wr rec (col_offset c) bs);
      copy_cols prev_cols cols idxs prev_data rec
  end.

(** A new buffer of [n] bytes, which holds [junk]. *)
Definition new_buf (junk : bytes) (n : Z) : bytes := take (Z.to_nat n) (junk ++ replicate (Z.to_nat n) 0).

Section projection.
Context {St E : Type} `{Executor St E} (junk : Rid) (junk_bytes : bytes).

Definition ProjectionExecutor (prev : E) (sel_cols cols_ : list TabCol) : outcome (Projection E) :=
  '(idxs, cs, len) ← select_cols (cols prev) sel_cols 0;
  cs ← rename_cols cs cols_;
  Ok (mkProjection prev cs len idxs junk).

(** [tupleLen] is that of the base class. *)
Definition pr_with (e : Projection E) (prev : E) (rid : Rid) : Projection E :=
  mkProjection prev (pr_cols e) (pr_len e) (sel_idxs e) rid.
Definition pr_Next (e : Projection E) : M St (option bytes * Projection E) :=
  let! r := Next (pr_prev e) in
  let! data := of_option r.1 in
  let! prev_data := of_option (rd data 0 (tupleLen (pr_prev e))) in
  let! rec := of_outcome (copy_cols (cols (pr_prev e)) (pr_cols e) (sel_idxs e) prev_data (new_buf junk_bytes (pr_len e))) in
  ret (Some rec, pr_with e r.2 (_abstract_rid e)).

#[export] Instance Projection_executor : Executor St (Projection E) := {
  tupleLen _ := 0;
  cols := pr_cols;
  beginTuple e := let! prev := beginTuple (pr_prev e) in ret (pr_with e prev (exec_rid prev));
  nextTuple e := let! prev := nextTuple (pr_prev e) in ret (pr_with e prev (exec_rid prev));
  is_end e := is_end (pr_prev e);
  Next := pr_Next;
  exec_rid := _abstract_rid;
}.
End projection.

(** ** Nested loop join *)

(** [record_] is null after it was moved out.  [left_tuple_], [right_tuple_] and the copies
    of the children's columns are only written. *)
Record NestedLoopJoin (L R : Type) := mkNLJ {
  nl_left : L;
  nl_right : R;
  nl_len : Z;
  nl_cols : list ColMeta;
  fed_conds : list Condition;
  isend : bool;
  left_end : bool;
  right_end : bool;
  is_last_tuple : bool;
  record_ : option bytes;
}.
Arguments mkNLJ {L R}.
Arguments nl_left {L R}.
Arguments nl_right {L R}.
Arguments nl_len {L R}.
Arguments nl_cols {L R}.
Arguments fed_conds {L R}.
Arguments isend {L R}.
Arguments left_end {L R}.
Arguments right_end {L R}.
Arguments is_last_tuple {L R}.
Arguments record_ {L R}.

Section join.
Context {St L R : Type} `{Executor St L, Executor St R} (junk : Rid) (fuel : nat).
Implicit Types (e : NestedLoopJoin L R).

(** The constructor swaps the children. *)
Definition NestedLoopJoinExecutor (right : R) (left : L) (conds : list Condition) : NestedLoopJoin L R :=
  mkNLJ left right (tupleLen left + tupleLen right)
    (cols left ++ ((λ c, set_offset (col_offset c + tupleLen left) c) <$> cols right))
    conds false false false false None.

Definition with_children e (l : L) (r : R) : NestedLoopJoin L R :=
  mkNLJ l r (nl_len e) (nl_cols e) (fed_conds e) (isend e) (is_end l) (is_end r) (is_last_tuple e) (record_ e).
Definition with_end e (end_ last : bool) : NestedLoopJoin L R :=
  mkNLJ (nl_left e) (nl_right e) (nl_len e) (nl_cols e) (fed_conds e) end_ (left_end e) (right_end e) last (record_ e).
Definition with_record e (r : option bytes) : NestedLoopJoin L R :=
  mkNLJ (nl_left e) (nl_right e) (nl_len e) (nl_cols e) (fed_conds e) (isend e) (left_end e) (right_end e) (is_last_tuple e) r.

Definition make_record (tuple1 tuple2 : bytes) : bytes := tuple1 ++ tuple2.
(** The same loop as [eval_condition]. *)
Definition evaluate_join e (tuple : bytes) : outcome bool := eval_condition (nl_cols e) (fed_conds e) tuple.

(** To the next pair: [right_end_] is left as it was before the right child began anew. *)
Definition advance e : M St (NestedLoopJoin L R) :=
  let! r := nextTuple (nl_right e) in
  if is_end r then
    let! l := nextTuple (nl_left e) in
    let! r' := beginTuple r in
    let e' := mkNLJ l r' (nl_len e) (nl_cols e) (fed_conds e) (isend e) (is_end l) true (is_last_tuple e) (record_ e) in
    ret (if is_end l then with_end e' true true else e')
  else ret (with_children e (nl_left e) r).

(** The loop of [beginTuple] and [nextTuple]. *)
Fixpoint join_loop (fuel : nat) e : M St (NestedLoopJoin L R) :=
  if is_last_tuple e then ret e else
  match fuel with
  | O => stuck
  | S fuel =>
      let! a := Next (nl_left e) in
      let! b := Next (nl_right e) in
      let! left_tuple := of_option a.1 in
      let! right_tuple := of_option b.1 in
      let tuple := make_record left_tuple right_tuple in
      let! e1 := advance (with_children e a.2 b.2) in
      let! matches := of_outcome (evaluate_join e1 tuple) in
      if matches : bool then
        let e2 := with_record e1 (Some tuple) in
        ret (if is_last_tuple e2 then with_end e2 false true else e2)
      else join_loop fuel e1
  end.

Definition nl_beginTuple e : M St (NestedLoopJoin L R) :=
  let! l := beginTuple (nl_left e) in
  let! r := beginTuple (nl_right e) in
  let e1 := with_children e l r in
  if left_end e1 || right_end e1 then ret (with_end e1 true true) else join_loop fuel e1.

Definition nl_nextTuple e : M St (NestedLoopJoin L R) :=
  join_loop fuel (if is_last_tuple e && negb (isend e) then with_end e true (is_last_tuple e) else e).

#[export] Instance NestedLoopJoin_executor : Executor St (NestedLoopJoin L R) := {
  tupleLen := nl_len;
  cols := nl_cols;
  beginTuple := nl_beginTuple;
  nextTuple := nl_nextTuple;
  is_end := isend;
  Next e := ret (record_ e, with_record e None);
  exec_rid _ := junk;
}.
End join.

(** ** A list of values *)

(** [values_it_] as its position. *)
Record Values := mkValues {
  va_len : Z;
  va_values : list Value;
  va_cols : list ColMeta;
  values_it : nat;
}.

Section values.
Context {St : Type} (junk : Rid) (junk_it : nat).

Definition ValuesExecutor (values : list Value) (col : ColMeta) : Values :=
  mkValues (col_len col) values [set_offset 0 col] junk_it.
Definition va_at (e : Values) (i : nat) : Values := mkValues (va_len e) (va_values e) (va_cols e) i.

#[export] Instance Values_executor : Executor St Values := {
  tupleLen := va_len;
  cols := va_cols;
  beginTuple e := ret (va_at e 0);
  nextTuple e := if decide (values_it e < length (va_values e))%nat then ret (va_at e (S (values_it e))) else stuck;
  is_end e := bool_decide (values_it e = length (va_values e));
  Next e :=
    let! value := of_option (va_values e !! values_it e) in
    let! value := of_outcome (init_raw (va_len e) value) in
    let! data := of_option (raw value) in
    ret (Some data, e);
  exec_rid _ := junk;
}.
End values.

(** ** From a plan to its executors (portal.h, optimizer/plan.h) *)

Inductive Plan : Type :=
  | SeqScanPlan (tab_name : bytes) (conds : list Condition)
  | NestLoopPlan (left_ right_ : Plan) (conds : list Condition)
  | ProjectionPlan (subplan : Plan) (cols_ sel_cols_ : list TabCol)
  | ValuesPlan (values : list Value) (col : ColMeta).

(** The object a [std::unique_ptr<AbstractExecutor>] made from the plan points to. *)
Fixpoint exec_of (p : Plan) : Type :=
  match p with
  | SeqScanPlan _ _ => SeqScan
  | NestLoopPlan left_ right_ _ => NestedLoopJoin (exec_of right_) (exec_of left_)
  | ProjectionPlan subplan _ _ => Projection (exec_of subplan)
  | ValuesPlan _ _ => Values
  end.

Section plans.
Context {R : Type} `{Replacer R}.
Abbreviation Sys := (Sys R).
Context (txn : Z) (wait : Z → wait_point → M Sys bool) (junk : Rid) (junk_bytes : bytes) (fuel : nat).

#[export] Instance exec_ops : ∀ p : Plan, Executor Sys (exec_of p) :=
  fix ops p := match p return Executor Sys (exec_of p) with
  | SeqScanPlan _ _ => SeqScan_executor txn wait junk fuel
  | NestLoopPlan left_ right_ _ => @NestedLoopJoin_executor Sys _ _ (ops right_) (ops left_) junk fuel
  | ProjectionPlan subplan _ _ => @Projection_executor Sys _ (ops subplan) junk_bytes
  | ValuesPlan _ _ => Values_executor junk
  end.

Fixpoint convert_plan_executor (p : Plan) : M Sys (exec_of p) :=
  match p return M Sys (exec_of p) with
  | SeqScanPlan tab_name conds => SeqScanExecutor txn wait junk tab_name conds
  | NestLoopPlan left_ right_ conds =>
      let! l := convert_plan_executor left_ in
      let! r := convert_plan_executor right_ in
      ret (NestedLoopJoinExecutor l r conds)
  | ProjectionPlan subplan cols_ sel_cols_ =>
      let! prev := convert_plan_executor subplan in
      of_outcome (ProjectionExecutor junk prev cols_ sel_cols_)
  | ValuesPlan values col => ret (ValuesExecutor 0 values col)
  end.
End plans.

(** ** The loop of the client (execution_manager.cpp) *)

(** A column as [select_from] takes it from a tuple; the text of numbers is not modelled. *)
Definition printed (tuple : bytes) (col : ColMeta) : outcome Value :=
  match col_type col with
  | TYPE_INT | TYPE_FLOAT => rec_buf ← or_stuck (rd tuple (col_offset col) 4); value_of (col_type col) rec_buf
  | TYPE_STRING => rec_buf ← or_stuck (rd tuple (col_offset col) (col_len col)); value_of TYPE_STRING rec_buf
  | TYPE_DATETIME => Ok (mkValue TYPE_DATETIME 0 [] None)
  end.
Fixpoint printed_cols (tuple : bytes) (cols : list ColMeta) : outcome (list Value) :=
  match cols with
  | [] => Ok []
  | c :: cols => v ← printed tuple c; vs ← printed_cols tuple cols; Ok (v :: vs)
  end.

Section select.
Context {St E : Type} `{Executor St E}.

(** The rows it prints, and [output_off_] as it leaves it. *)
Fixpoint select_loop (fuel : nat) (output_off : bool) (e : E) : M St (list (list Value) * bool) :=
  if is_end e then ret ([], output_off) else
  match fuel with
  | O => stuck
  | S fuel =>
      let! r := Next e in
      let! columns :=
        (match cols r.2 with
         | [] => ret []
         | cs => let! tuple := of_option r.1 in of_outcome (printed_cols tuple cs)
         end) in
      if output_off : bool then ret ([], false)
      else
        let! e' := nextTuple r.2 in
        let! rest := select_loop fuel false e' in
        ret (columns :: rest.1, rest.2)
  end.
Definition select_from (fuel : nat) (output_off : bool) (root : E) : M St (list (list Value) * bool) :=
  let! e := beginTuple root in select_loop fuel output_off e.
End select.

(** ** Joins below joins *)

(** C36: A join cannot be the outer child of a join.  [Next] moves the tuple of a join out of
    it, and the join above asks for it once for every inner tuple: when the first pair does
    not satisfy the conditions and the inner child has another tuple, the loop reads through
    the null pointer, or an error of the inner child stops it first; it never returns. *)
Theorem join_over_join_crashes {St A B R} `{Executor St A, Executor St B, Executor St R} junk fuel
    (e : NestedLoopJoin (NestedLoopJoin A B) R) (t b : bytes) (r1 r2 : R) (s s1 s2 : St) k x s' :
  is_last_tuple e = false → record_ (nl_left e) = Some t →
  Next (nl_right e) s = (Ok (Some b, r1), s1) → nextTuple r1 s1 = (Ok r2, s2) → is_end r2 = false →
  eval_condition (nl_cols e) (fed_conds e) (t ++ b) = Ok false →
  join_loop (H := NestedLoopJoin_executor junk fuel) k e s ≠ (Ok x, s').
Proof.
  intros Hlast Hrec Hr Hn Hend Hev. destruct k as [|k]; cbn [join_loop]; rewrite Hlast; [done|].
  unfold bind at 1. cbn [Next NestedLoopJoin_executor ret]. rewrite Hrec. unfold bind at 1. rewrite Hr.
  cbn [fst snd of_option]. unfold bind at 1, ret at 1. unfold bind at 1, ret at 1. cbv zeta.
  unfold advance. cbn [with_children nl_right nl_left]. unfold bind at 1. unfold bind at 1. rewrite Hn, Hend. unfold ret at 1.
  unfold bind at 1, evaluate_join, make_record. cbn [with_children nl_cols fed_conds]. rewrite Hev. cbn [of_outcome ret].
  destruct k as [|k]; cbn [join_loop]; cbn [with_children is_last_tuple]; rewrite Hlast; [done|].
  unfold bind at 1. cbn [Next NestedLoopJoin_executor ret nl_left with_children with_record record_ nl_right].
  unfold bind at 1. destruct (Next r2 s2) as [[[o r3]|err|] s3]; done.
Qed.

(** Three lists of numbers: t(1), u(1) and v(2, 1), with the condition u.a = v.a. *)
Definition int_col (tab : Z) : ColMeta := mkCol [tab] [97] TYPE_INT 4 0 false.
Definition int_values (tab : Z) (ns : list Z) : Values := ValuesExecutor 0 ((λ n, mkValue TYPE_INT n [] None) <$> ns) (int_col tab).
Definition equal_cols (tab tab' : Z) : Condition :=
  mkCond (mkTabCol [tab] [97]) OP_EQ false (mkTabCol [tab'] [97]) (mkValue TYPE_INT 0 [] None).

Section demo.
#[local] Instance demo_values : Executor unit Values := Values_executor (mkRid 0 0).
#[local] Instance demo_join_below : Executor unit (NestedLoopJoin Values Values) := NestedLoopJoin_executor (mkRid 0 0) 10.
#[local] Instance demo_join_above : Executor unit (NestedLoopJoin (NestedLoopJoin Values Values) Values) :=
  NestedLoopJoin_executor (mkRid 0 0) 10.
Definition demo_below : NestedLoopJoin Values Values := NestedLoopJoinExecutor (int_values 117 [1]) (int_values 116 [1]) [].
Definition demo_above : NestedLoopJoin (NestedLoopJoin Values Values) Values :=
  NestedLoopJoinExecutor (int_values 118 [2; 1]) demo_below [equal_cols 117 118].
(** The pair of t and u is there; so is its match. *)
Definition demo_pair : NestedLoopJoin Values Values := with_record demo_below (Some (u32 1 ++ u32 1)).

Lemma join_over_join_crashes_witness :
  (∀ k x s', join_loop k (with_children demo_above demo_pair (int_values 118 [2; 1])) tt ≠ (Ok x, s')) ∧
  (select_from 10 false demo_below tt).1 =
    Ok ([[mkValue TYPE_INT 1 [] None; mkValue TYPE_INT 1 [] None]], false) ∧
  (select_from 10 false demo_above tt).1 = Stuck.
Proof.
  split_and!; [|vm_compute; reflexivity|vm_compute; reflexivity].
  intros k x s'. apply (join_over_join_crashes (H := demo_values) (H0 := demo_values) (H1 := demo_values) (mkRid 0 0) 10 (with_children demo_above demo_pair (int_values 118 [2; 1]))
    (u32 1 ++ u32 1) (u32 2) (int_values 118 [2; 1]) (va_at (int_values 118 [2; 1]) 1) tt tt tt); vm_compute; reflexivity.
Defined.
End demo.
