(* ===== verification/ExecLaws.v ===== *)
(** * What executors promise to each other

    [Enumerates]: an executor goes through a list of tuples, between [beginTuple] and the
    time it [is_end].  The joins and projections are proved against it, so the trees of
    executors are correct for any children that have it.  [Repeatable] children may be asked
    for the same tuple twice, [Restartable] ones may begin again after their end; a join needs
    the first of its outer child and the second of its inner one. *)
From S2P Require Import Prelude Bytes Disk Log Replacer BufferPool Record Scan Meta System Exec.

Lemma wp_of_outcome {S A} (E : exn → S → Prop) (o : outcome A) a (Q : A → S → Prop) s :
  o = Ok a → Q a s → wp (of_outcome o) Q E s.
Proof. by intros ->. Qed.

(** ** The laws *)

Section laws.
Context {S : Type} (P : S → Prop) (Er : exn → S → Prop).

Definition same_shape {E} `{Executor S E} (e e' : E) : Prop := cols e' = cols e ∧ tupleLen e' = tupleLen e.

(** [ready e rows]: before [beginTuple].  [at_ e rows rest]: on the first of the tuples [rest]
    of [rows]; [got e rows rest]: the same, after [Next]. *)
Class Enumerates (E : Type) `{Executor S E} := {
  ready : E → list bytes → Prop;
  at_ : E → list bytes → list bytes → Prop;
  got : E → list bytes → list bytes → Prop;
  begin_ok e rows s : ready e rows → P s →
    wp (beginTuple e) (λ e' s', P s' ∧ at_ e' rows rows ∧ same_shape e e') Er s;
  take_ok e rows t rest s : at_ e rows (t :: rest) → P s →
    wp (Next e) (λ r s', P s' ∧ r.1 = Some t ∧ got r.2 rows (t :: rest) ∧ same_shape e r.2) Er s;
  step_ok e rows t rest s : got e rows (t :: rest) → P s →
    wp (nextTuple e) (λ e' s', P s' ∧ at_ e' rows rest ∧ same_shape e e') Er s;
  end_ok e rows rest : at_ e rows rest → is_end e = bool_decide (rest = []);
}.
Class Repeatable (E : Type) `{Enumerates E} : Prop :=
  again e rows rest : got e rows rest → at_ e rows rest.
Class Restartable (E : Type) `{Enumerates E} : Prop :=
  restart e rows : at_ e rows [] → ready e rows.
End laws.

#[export] Instance same_shape_preorder {S E} `{Executor S E} : PreOrder (same_shape (S := S) (E := E)).
Proof. split; unfold same_shape; [by intros|]. intros e1 e2 e3 [-> ->] [-> ->]. done. Qed.

(** ** The client's loop *)

Section select.
Context {S E : Type} `{Executor S E} (P : S → Prop) (Er : exn → S → Prop) `{!Enumerates P Er E}.

(** What [select_from] prints, and the calls it makes. *)
Definition prints (cs : list ColMeta) (rows : list bytes) (out : list (list Value)) : Prop :=
  Forall2 (λ t vs, printed_cols t cs = Ok vs) rows out.

Lemma wp_select_loop fuel e rows rest out s :
  at_ P Er e rows rest → P s → prints (cols e) rest out → (length rest ≤ fuel)%nat →
  wp (select_loop fuel false e) (λ r s', P s' ∧ r = (out, false)) Er s.
Proof.
  revert e rest out s. induction fuel as [|fuel IH]; intros e rest out s Hat HP Hout Hlen.
  { destruct rest; [|simpl in Hlen; lia]. inversion_clear Hout. cbn [select_loop]. by rewrite (end_ok P Er _ _ _ Hat). }
  cbn [select_loop]. rewrite (end_ok P Er _ _ _ Hat).
  destruct Hout as [|t vs rest out Hvs Hout]; [by apply wp_ret|]. rewrite bool_decide_eq_false_2 by done.
  apply wp_bind. eapply wp_mono; [by eapply take_ok|]. intros [o e1] s1 (HP1 & Ho & Hgot & Hc & _). cbn in *. subst o.
  rewrite Hc. apply wp_bind.
  assert (∀ Q, Q vs s1 → wp match cols e with
     | [] => ret [] | cs => let! tuple := of_option (Some t) in of_outcome (printed_cols tuple cs) end Q Er s1) as Hcols.
  { intros Q HQ. destruct (cols e) as [|c cs]; [by injection Hvs as <-|].
    apply wp_bind, wp_of_option; [by eexists|]. intros t' [= <-]. by eapply wp_of_outcome. }
  apply Hcols. apply wp_bind. eapply wp_mono; [by eapply step_ok|]. intros e2 s2 (HP2 & Hat2 & Hc2 & _).
  apply wp_bind. eapply wp_mono; [eapply IH; [done|done|by rewrite Hc2, Hc|simpl in Hlen; lia]|].
  intros r s3 [HP3 ->]. by apply wp_ret.
Qed.

Lemma wp_select_from fuel e rows out s :
  ready P Er e rows → P s → prints (cols e) rows out → (length rows ≤ fuel)%nat →
  wp (select_from fuel false e) (λ r s', P s' ∧ r = (out, false)) Er s.
Proof.
  intros Hr HP Hout Hlen. apply wp_bind. eapply wp_mono; [by eapply begin_ok|].
  intros e1 s1 (HP1 & Hat & Hc & _). eapply wp_select_loop; [done|done|by rewrite Hc|done].
Qed.
End select.

(** ** Nested loop joins *)

(** The conditions have a value, and it is true. *)
Definition evaluates (cs : list ColMeta) (conds : list Condition) (t : bytes) : Prop :=
  ∃ b, eval_condition cs conds t = Ok b.
Definition holds (cs : list ColMeta) (conds : list Condition) (t : bytes) : bool :=
  match eval_condition cs conds t with Ok b => b | _ => false end.

Lemma evaluates_holds cs conds t : evaluates cs conds t → eval_condition cs conds t = Ok (holds cs conds t).
Proof. unfold holds. by intros [b ->]. Qed.

Definition pairs (ls rs : list bytes) : list bytes := ls ≫= λ a, app a <$> rs.
Definition join_rows (cs : list ColMeta) (conds : list Condition) (ls rs : list bytes) : list bytes :=
  filter (λ t, holds cs conds t) (pairs ls rs).

Lemma length_pairs ls rs : length (pairs ls rs) = (length ls * length rs)%nat.
Proof. induction ls as [|a ls IH]; [done|]. change (pairs (a :: ls) rs) with ((app a <$> rs) ++ pairs ls rs). by rewrite length_app, length_fmap, IH. Qed.
Lemma pairs_nil_r ls : pairs ls [] = [].
Proof. unfold pairs. by induction ls. Qed.
Lemma elem_of_pairs ls rs t : t ∈ pairs ls rs ↔ ∃ a b, a ∈ ls ∧ b ∈ rs ∧ t = a ++ b.
Proof. unfold pairs. rewrite list_elem_of_bind. setoid_rewrite list_elem_of_fmap. naive_solver. Qed.

Section join.
Context {S L R : Type} `{Executor S L, Executor S R} (P : S → Prop) (Er : exn → S → Prop).
Context `{!Enumerates P Er L, !Enumerates P Er R, !Repeatable P Er L, !Restartable P Er R}.
Context (junk : Rid) (fuel : nat).
Abbreviation Join := (NestedLoopJoin L R).
#[local] Instance join_executor : Executor S Join := NestedLoopJoin_executor junk fuel.
Implicit Types (e : Join).

(** The tuples of the children; the loop's fuel is enough for all pairs. *)
Record joins e (ls rs : list bytes) : Prop := {
  jo_evaluates t : t ∈ pairs ls rs → evaluates (nl_cols e) (fed_conds e) t;
  jo_fuel : (length ls * length rs ≤ fuel)%nat;
}.
Abbreviation matching e ps := (filter (λ t, Is_true (holds (nl_cols e) (fed_conds e) t)) ps).

Definition nl_ready e (rows : list bytes) : Prop :=
  ∃ ls rs, ready P Er (nl_left e) ls ∧ ready P Er (nl_right e) rs ∧ isend e = false ∧ is_last_tuple e = false ∧
    joins e ls rs ∧ rows = join_rows (nl_cols e) (fed_conds e) ls rs.

(** On the first of the pairs [ps]. *)
Definition cursor e (ls rs ps : list bytes) : Prop :=
  ∃ a la b rb, at_ P Er (nl_left e) ls (a :: la) ∧ at_ P Er (nl_right e) rs (b :: rb) ∧
    ps = (app a <$> b :: rb) ++ pairs la rs ∧ isend e = false ∧ is_last_tuple e = false ∧
    ps `suffix_of` pairs ls rs.

(** Behind a loop that looked at the pairs up to [ps]. *)
Definition looked e ls rs ps : Prop :=
  cursor e ls rs ps ∨ ps = [] ∧ isend e = true ∧ is_last_tuple e = true.

Inductive stands e (ls rs : list bytes) : list bytes → Prop :=
  | stands_before t ps : cursor e ls rs ps → stands e ls rs (t :: matching e ps)
  | stands_last t : isend e = false → is_last_tuple e = true → stands e ls rs [t]
  | stands_end : isend e = true → is_last_tuple e = true → stands e ls rs [].

Definition nl_got e (rows rest : list bytes) : Prop :=
  ∃ ls rs, joins e ls rs ∧ rows = join_rows (nl_cols e) (fed_conds e) ls rs ∧ stands e ls rs rest.
Definition nl_at e (rows rest : list bytes) : Prop :=
  nl_got e rows rest ∧ ∀ t rest', rest = t :: rest' → record_ e = Some t.

Lemma nl_end e rows rest : nl_at e rows rest → isend e = bool_decide (rest = []).
Proof using Type.
  intros [(ls & rs & _ & _ & Hs) _]. destruct Hs as [t ps Hc|t He _|He _]; [|done..].
  by destruct Hc as (? & ? & ? & ? & _ & _ & _ & -> & _).
Qed.

Lemma pairs_cons a ls rs : pairs (a :: ls) rs = (app a <$> rs) ++ pairs ls rs.
Proof using Type. done. Qed.

(** Both children stand on a tuple: the pairs that are left. *)
Lemma cursor_at e ls rs a la b rb :
  at_ P Er (nl_left e) ls (a :: la) → at_ P Er (nl_right e) rs (b :: rb) →
  isend e = false → is_last_tuple e = false →
  ((app a <$> b :: rb) ++ pairs la rs) `suffix_of` pairs ls rs → cursor e ls rs ((app a <$> b :: rb) ++ pairs la rs).
Proof using Type. intros. by exists a, la, b, rb. Qed.

(** The children move to the next pair. *)
Lemma wp_advance e ls rs a la b rb s (Q : Join → S → Prop) :
  got P Er (nl_left e) ls (a :: la) → got P Er (nl_right e) rs (b :: rb) → P s →
  isend e = false → is_last_tuple e = false → rs ≠ [] →
  ((app a <$> rb) ++ pairs la rs) `suffix_of` pairs ls rs →
  (∀ e' s', P s' → nl_cols e' = nl_cols e → fed_conds e' = fed_conds e → nl_len e' = nl_len e →
     looked e' ls rs ((app a <$> rb) ++ pairs la rs) → Q e' s') →
  wp (advance e) Q Er s.
Proof using All.
  intros Hl Hr HP He Hlast Hrs Hin HQ. unfold advance. apply wp_bind. eapply wp_mono; [by eapply step_ok|].
  intros r s1 (HP1 & Hr1 & _). rewrite (end_ok P Er _ _ _ Hr1). destruct rb as [|b' rb].
  2: { rewrite bool_decide_eq_false_2 by done. apply wp_ret, HQ; [done..|]. left. apply cursor_at; cbn; [by apply again|done..]. }
  rewrite bool_decide_eq_true_2 by done. apply wp_bind. eapply wp_mono; [by eapply step_ok|].
  intros l s2 (HP2 & Hl2 & _). apply wp_bind. eapply wp_mono; [by eapply begin_ok; [eapply restart|]|].
  intros r' s3 (HP3 & Hr3 & _). apply wp_ret. rewrite (end_ok P Er _ _ _ Hl2). destruct la as [|a' la].
  { rewrite bool_decide_eq_true_2 by done. apply HQ; [done..|]. by right. }
  rewrite bool_decide_eq_false_2 by done. apply HQ; [done..|]. left. destruct rs as [|b0 rb0]; [done|].
  cbn [fmap list_fmap app] in *. rewrite pairs_cons in *. by apply cursor_at.
Qed.

(** The loop stops behind the next pair that satisfies the conditions. *)
Lemma wp_join_loop k e ls rs ps s (Q : Join → S → Prop) :
  looked e ls rs ps → joins e ls rs → P s → (length ps ≤ k)%nat →
  (∀ e' s', P s' → nl_cols e' = nl_cols e → fed_conds e' = fed_conds e → nl_len e' = nl_len e →
     stands e' ls rs (matching e ps) → (∀ t rest, matching e ps = t :: rest → record_ e' = Some t) → Q e' s') →
  wp (join_loop k e) Q Er s.
Proof using All.
  revert e ps s. induction k as [|k IH]; intros e ps s [Hc|(-> & He & Hlast)] Hj HP Hk HQ; cbn [join_loop].
  - destruct Hc as (? & ? & ? & ? & _ & _ & -> & _). simpl in Hk. lia.
  - rewrite Hlast. apply wp_ret, HQ; [done..|by apply stands_end|done].
  - destruct Hc as (a & la & b & rb & Hl & Hr & Hps & He & Hlast & Hin). rewrite Hlast.
    apply wp_bind. eapply wp_mono; [by eapply take_ok|]. intros [o l1] s1 (HP1 & Ho & Hl1 & _). cbn in Ho, Hl1. subst o.
    apply wp_bind. eapply wp_mono; [by eapply take_ok|]. intros [o r1] s2 (HP2 & Ho & Hr1 & _). cbn in Ho, Hr1. subst o.
    cbn [fst snd]. apply wp_bind, wp_of_option; [by eexists|]. intros ? [= <-].
    apply wp_bind, wp_of_option; [by eexists|]. intros ? [= <-]. apply wp_bind.
    rewrite fmap_cons, <-app_comm_cons in Hps. set (ps' := (app a <$> rb) ++ pairs la rs) in *.
    assert (a ++ b ∈ pairs ls rs) as Hab.
    { destruct Hin as [k' ->]. rewrite Hps. apply elem_of_app. right. by left. }
    assert (ps' `suffix_of` pairs ls rs) as Hin' by (rewrite Hps in Hin; by eapply suffix_cons_l).
    assert (rs ≠ []) as Hrs.
    { intros ->. rewrite pairs_nil_r in Hab. by apply elem_of_nil in Hab. }
    eapply (wp_advance _ ls rs); [exact Hl1|exact Hr1|done|done|done|done|exact Hin'|].
    intros e1 s3 HP3 Hcols Hconds Hlen Hlook. cbn in Hcols, Hconds, Hlen. fold ps' in Hlook.
    assert (evaluates (nl_cols e) (fed_conds e) (a ++ b)) as Hev by by apply Hj.
    apply wp_bind. unfold evaluate_join, make_record. rewrite Hcols, Hconds, (evaluates_holds _ _ _ Hev).
    eapply wp_of_outcome; [done|]. rewrite Hps, filter_cons in HQ.
    destruct (holds (nl_cols e) (fed_conds e) (a ++ b)) eqn:Hb.
    + rewrite decide_True in HQ by done. apply wp_ret. cbn [with_record is_last_tuple].
      destruct Hlook as [Hc1|(Hps' & He1 & Hl1')].
      * pose proof Hc1 as (a1 & la1 & b1 & rb1 & ? & ? & ? & ? & Hl1' & ?). rewrite Hl1'.
        apply HQ; [done..| |by intros ? ? [= <- _]]. rewrite <-Hcols, <-Hconds.
        apply (stands_before (with_record e1 (Some (a ++ b))) ls rs (a ++ b) ps'). by exists a1, la1, b1, rb1.
      * rewrite Hl1'. rewrite Hps', filter_nil in HQ. apply HQ; [done..| |by intros ? ? [= <- _]]. by apply stands_last.
    + rewrite decide_False in HQ by (by intros []). rewrite <-Hcols, <-Hconds in HQ. eapply (IH e1 ps'); [done| |done| |].
      * destruct Hj. split; [by rewrite Hcols, Hconds|done].
      * rewrite Hps in Hk. simpl in Hk. lia.
      * intros e2 s4 HP4 Hcols2 Hconds2 Hlen2 Hst Hrec. apply HQ; [done..|congruence|done|done].
  - rewrite Hlast. apply wp_ret, HQ; [done..|by apply stands_end|done].
Qed.

Lemma nl_begin e rows s :
  nl_ready e rows → P s →
  wp (nl_beginTuple fuel e) (λ e' s', P s' ∧ nl_at e' rows rows ∧ same_shape (S := S) e e') Er s.
Proof using All.
  intros (ls & rs & Hl & Hr & He & Hlast & Hj & ->) HP. unfold nl_beginTuple.
  apply wp_bind. eapply wp_mono; [by eapply begin_ok|]. intros l s1 (HP1 & Hl1 & _).
  apply wp_bind. eapply wp_mono; [by eapply begin_ok|]. intros r s2 (HP2 & Hr2 & _).
  cbn [with_children left_end right_end]. rewrite (end_ok P Er _ _ _ Hl1), (end_ok P Er _ _ _ Hr2).
  destruct (bool_decide (ls = []) || bool_decide (rs = [])) eqn:Hempty.
  { apply wp_ret. split; [done|]. split; [|done].
    assert (join_rows (nl_cols e) (fed_conds e) ls rs = []) as Hnil.
    { unfold join_rows. apply orb_true_iff in Hempty as [->%bool_decide_eq_true| ->%bool_decide_eq_true]; [done|by rewrite pairs_nil_r]. }
    rewrite Hnil. split; [|done]. exists ls, rs. split; [by destruct Hj|]. split; [done|]. by apply stands_end. }
  apply orb_false_iff in Hempty as [Hls%bool_decide_eq_false Hrs%bool_decide_eq_false].
  assert (looked (with_children e l r) ls rs (pairs ls rs)) as Hc.
  { destruct ls as [|a la], rs as [|b rb]; [done..|]. left. by apply (cursor_at (with_children e l r)). }
  eapply wp_join_loop; [exact Hc|by destruct Hj|done|rewrite length_pairs; apply Hj|].
  intros e' s' HP' Hcols Hconds Hlen Hst Hrec. cbn in Hcols, Hconds, Hlen. split; [done|]. split; [|done].
  split; [|exact Hrec]. exists ls, rs. split; [|split; [by rewrite Hcols, Hconds|done]].
  destruct Hj. split; [by rewrite Hcols, Hconds|done].
Qed.

Lemma nl_step e rows t rest s :
  nl_got e rows (t :: rest) → P s →
  wp (nl_nextTuple fuel e) (λ e' s', P s' ∧ nl_at e' rows rest ∧ same_shape (S := S) e e') Er s.
Proof using All.
  intros (ls & rs & Hj & -> & Hs) HP. unfold nl_nextTuple.
  assert (∃ ps, looked (if is_last_tuple e && negb (isend e) then with_end e true (is_last_tuple e) else e) ls rs ps ∧
    rest = matching e ps ∧ (length ps ≤ fuel)%nat) as (ps & Hlook & -> & Hlen).
  { inversion Hs as [t' ps Hc|t' He Hlast|]; subst.
    - exists ps. pose proof Hc as (a & la & b & rb & ? & ? & Hps & He & Hlast & Hin). rewrite Hlast. split; [by left|]. split; [done|].
      apply suffix_length in Hin. rewrite length_pairs in Hin. pose proof (jo_fuel _ _ _ Hj). lia.
    - exists []. rewrite Hlast, He. cbn. split; [|split; [done|simpl; lia]]. by right. }
  eapply wp_join_loop; [exact Hlook| |done|done|].
  { destruct Hj. by destruct (_ && _). }
  intros e' s' HP' Hcols Hconds Hlen' Hst Hrec.
  replace (nl_cols (if is_last_tuple e && negb (isend e) then _ else e)) with (nl_cols e) in * by by destruct (_ && _).
  replace (fed_conds (if is_last_tuple e && negb (isend e) then _ else e)) with (fed_conds e) in * by by destruct (_ && _).
  replace (nl_len (if is_last_tuple e && negb (isend e) then _ else e)) with (nl_len e) in * by by destruct (_ && _).
  split; [done|]. split; [|done]. rewrite <-Hcols, <-Hconds. split; [|by rewrite Hcols, Hconds].
  exists ls, rs. split; [|split; [done|by rewrite Hcols, Hconds]]. destruct Hj. split; [by rewrite Hcols, Hconds|done].
Qed.

Lemma nl_take e rows t rest s :
  nl_at e rows (t :: rest) → P s →
  wp (Next e) (λ r s', P s' ∧ r.1 = Some t ∧ nl_got r.2 rows (t :: rest) ∧ same_shape (S := S) e r.2) Er s.
Proof using Type.
  intros [(ls & rs & Hj & -> & Hst) Hrec] HP. apply wp_ret. cbn. split; [done|]. split; [by eapply Hrec|]. split; [|done].
  exists ls, rs. split; [by destruct Hj|]. split; [done|]. inversion Hst as [t' ps Hc|t' He Hlast|]; subst.
  - apply (stands_before (with_record e None) ls rs t ps). exact Hc.
  - by apply stands_last.
Qed.

#[export] Instance join_enumerates : Enumerates P Er Join := {|
  ready := nl_ready; at_ := nl_at; got := nl_got;
  begin_ok := nl_begin; take_ok := nl_take; step_ok := nl_step; end_ok := nl_end;
|}.
End join.

(** ** Projections *)

(** The chosen columns of a tuple, one behind the other. *)
Definition slice (c : ColMeta) (t : bytes) : bytes := take (Z.to_nat (col_len c)) (drop (Z.to_nat (col_offset c)) t).
Definition project (chosen : list ColMeta) (t : bytes) : bytes := chosen ≫= λ c, slice c t.

(** A column inside of tuples of [n] bytes. *)
Definition col_fits (n : Z) (c : ColMeta) : bool :=
  (0 <=? col_offset c) && (0 <=? col_len c) && (col_offset c + col_len c <=? n) &&
  match col_type c with TYPE_INT | TYPE_FLOAT => col_len c =? 4 | _ => true end.

Lemma col_fits_range n c : col_fits n c = true → 0 ≤ col_offset c ∧ 0 ≤ col_len c ∧ col_offset c + col_len c ≤ n.
Proof. unfold col_fits. intros [[[? ?]%andb_true_iff ?]%andb_true_iff _]%andb_true_iff. lia. Qed.

Lemma rd_slice n c t : len t = n → col_fits n c = true → rd t (col_offset c) (col_len c) = Some (slice c t).
Proof.
  intros Hn H%col_fits_range. unfold rd. replace (_ && _) with true; [done|].
  symmetry. rewrite !andb_true_iff, !Z.leb_le. lia.
Qed.

Lemma slice_length n c t : len t = n → col_fits n c = true → len (slice c t) = col_len c.
Proof. intros Hn H. eapply rd_length. by eapply rd_slice. Qed.

Definition total (cs : list ColMeta) : Z := foldr (λ c n, col_len c + n) 0 cs.

(** [cs] are the columns [chosen], packed from [off] on. *)
Fixpoint packed (off : Z) (cs chosen : list ColMeta) : Prop :=
  match cs, chosen with
  | [], [] => True
  | c :: cs, d :: chosen => col_offset c = off ∧ col_len c = col_len d ∧ col_type c = col_type d ∧ packed (off + col_len d) cs chosen
  | _, _ => False
  end.

Lemma get_col_lookup C sel i c : get_col C sel = Ok (i, c) → C !! i = Some c.
Proof. unfold get_col. destruct (list_find _ _) as [[j d]|] eqn:Hf; [|done]. intros [= <- <-]. by apply list_find_Some in Hf as [? _]. Qed.

Lemma outcome_bind_Ok {A B} (o : outcome A) (k : A → outcome B) b : (o ≫= k) = Ok b → ∃ a, o = Ok a ∧ k a = Ok b.
Proof. destruct o as [a|e|]; [|done..]. by exists a. Qed.

Lemma rename_cols_packed cs names off cs' chosen :
  rename_cols cs names = Ok cs' → packed off cs chosen → packed off cs' chosen.
Proof.
  revert names off cs' chosen. induction cs as [|c cs IH]; intros [|x names] off cs' chosen; cbn [rename_cols]; try done.
  1,2: by intros [= <-].
  intros (rest & Hr & [= <-])%outcome_bind_Ok. destruct chosen as [|d chosen]; [done|].
  intros (Ho & Hl & Ht & Hp). split_and!; [done|done|done|]. by eapply IH.
Qed.

Lemma wr_behind (pre old post bs : bytes) : len old = len bs → wr (pre ++ old ++ post) (len pre) bs = Some (pre ++ bs ++ post).
Proof.
  intros Hl. unfold wr. replace (_ && _) with true.
  2: { symmetry. rewrite andb_true_iff, !Z.leb_le, !length_app. lia. }
  rewrite Nat2Z.id. do 2 f_equal; [apply take_app_length|]. f_equal. rewrite app_assoc. apply drop_app_exact.
  rewrite length_app. lia.
Qed.

Lemma copy_cols_packed C n cs idxs chosen t pre rest :
  Forall2 (λ i d, C !! i = Some d) idxs chosen → packed (len pre) cs chosen →
  Forall (λ d, col_fits n d = true) chosen → len t = n → len rest = total chosen →
  copy_cols C cs idxs t (pre ++ rest) = Ok (pre ++ project chosen t).
Proof.
  intros H. revert cs pre rest. induction H as [|i d idxs chosen Hd Hall IH]; intros [|c cs] pre rest; try done.
  - simpl. intros _ _ _ Hr. destruct rest; [done|simpl in Hr; lia].
  - intros (Ho & Hl & _ & Hp) [Hfit Hfits]%Forall_cons Hn Hr. cbn [copy_cols]. rewrite Hd. cbn [or_stuck mbind outcome_bind].
    rewrite Hl, (rd_slice n) by done. cbn [or_stuck mbind outcome_bind]. rewrite Ho.
    pose proof (slice_length _ _ _ Hn Hfit) as Hsl. pose proof (col_fits_range _ _ Hfit) as Hrange.
    change (total (d :: chosen)) with (col_len d + total chosen) in Hr.
    set (k := Z.to_nat (col_len d)). rewrite <-(take_drop k rest).
    assert (0 ≤ total chosen) as Htot.
    { clear -Hfits. induction Hfits as [|d' l Hd' _ IH]; [done|]. apply col_fits_range in Hd'. simpl. lia. }
    rewrite wr_behind by (rewrite length_take; lia). cbn [or_stuck mbind outcome_bind]. rewrite app_assoc.
    rewrite IH; [by rewrite <-app_assoc|by rewrite length_app, Nat2Z.inj_add, Hsl|done|done|].
    rewrite length_drop. lia.
Qed.

Section projection.
Context {S E : Type} `{Executor S E} (P : S → Prop) (Er : exn → S → Prop) `{!Enumerates P Er E}.
Context (junk_bytes : bytes).
#[local] Instance projection_executor : Executor S (Projection E) := Projection_executor junk_bytes.
Implicit Types (e : Projection E).

Record projects e (chosen : list ColMeta) : Prop := {
  pj_cols : Forall2 (λ i d, cols (pr_prev e) !! i = Some d) (sel_idxs e) chosen;
  pj_packed : packed 0 (pr_cols e) chosen;
  pj_len : pr_len e = total chosen;
  pj_fits : Forall (λ d, col_fits (tupleLen (pr_prev e)) d = true) chosen;
}.
Abbreviation sized e rs := (∀ t, t ∈ rs → len t = tupleLen (pr_prev e)).

Definition pr_ready e (rows : list bytes) : Prop :=
  ∃ rs chosen, ready P Er (pr_prev e) rs ∧ projects e chosen ∧ sized e rs ∧ rows = project chosen <$> rs.
Definition pr_stands (child : E → list bytes → list bytes → Prop) e (rows rest : list bytes) : Prop :=
  ∃ rs rest0 chosen, child (pr_prev e) rs rest0 ∧ projects e chosen ∧ sized e rest0 ∧
    rows = project chosen <$> rs ∧ rest = project chosen <$> rest0.

Lemma projects_prev e chosen prev rid : projects e chosen → same_shape (S := S) (pr_prev e) prev → projects (pr_with e prev rid) chosen.
Proof using Type. intros [? ? ? ?] [Hc Hn]. split; cbn; rewrite ?Hc, ?Hn; done. Qed.

Lemma pr_begin e rows s :
  pr_ready e rows → P s →
  wp (beginTuple e) (λ e' s', P s' ∧ pr_stands (at_ P Er) e' rows rows ∧ same_shape (S := S) e e') Er s.
Proof using Type.
  intros (rs & chosen & Hr & Hp & Hs & ->) HP. apply wp_bind. eapply wp_mono; [by eapply begin_ok|].
  intros prev s1 (HP1 & Hat & Hsh). apply wp_ret. split; [done|]. split; [|done]. exists rs, rs, chosen.
  split; [done|]. split; [by apply projects_prev|]. split; [|done]. intros t Ht. cbn. rewrite (proj2 Hsh). by apply Hs.
Qed.

Lemma pr_step e rows t rest s :
  pr_stands (got P Er) e rows (t :: rest) → P s →
  wp (nextTuple e) (λ e' s', P s' ∧ pr_stands (at_ P Er) e' rows rest ∧ same_shape (S := S) e e') Er s.
Proof using Type.
  intros (rs & rest0 & chosen & Hg & Hp & Hs & -> & Hrest) HP. destruct rest0 as [|t0 rest0]; [done|].
  injection Hrest as -> ->. apply wp_bind. eapply wp_mono; [by eapply step_ok|].
  intros prev s1 (HP1 & Hat & Hsh). apply wp_ret. split; [done|]. split; [|done]. exists rs, rest0, chosen.
  split; [done|]. split; [by apply projects_prev|]. split; [|done]. intros t Ht. cbn. rewrite (proj2 Hsh). apply Hs. by right.
Qed.

Lemma pr_take e rows t rest s :
  pr_stands (at_ P Er) e rows (t :: rest) → P s →
  wp (Next e) (λ r s', P s' ∧ r.1 = Some t ∧ pr_stands (got P Er) r.2 rows (t :: rest) ∧ same_shape (S := S) e r.2) Er s.
Proof using Type.
  intros (rs & rest0 & chosen & Hg & Hp & Hs & -> & Hrest) HP. destruct rest0 as [|t0 rest0]; [done|].
  injection Hrest as -> ->. cbn [Next projection_executor Projection_executor]. unfold pr_Next.
  apply wp_bind. eapply wp_mono; [by eapply take_ok|].
  intros [o prev] s1 (HP1 & Ho & Hat & Hsh). cbn in Ho, Hat. change (same_shape (S := S) (pr_prev e) prev) in Hsh. subst o. cbn [fst snd]. apply wp_bind, wp_of_option; [by eexists|].
  intros ? [= <-]. assert (len t0 = tupleLen (pr_prev e)) as Hn by (apply Hs; by left).
  assert (rd t0 0 (tupleLen (pr_prev e)) = Some t0) as Hrd.
  { pose proof (rd_field [] t0 [] 0 (len t0)) as Hf. simpl in Hf. rewrite app_nil_r in Hf. rewrite <-Hn. by apply Hf. }
  rewrite Hrd. apply wp_bind, wp_of_option; [by eexists|]. intros ? [= <-]. apply wp_bind. pose proof Hp as [H1 H2 H3 H4].
  eapply wp_of_outcome.
  { apply (copy_cols_packed (cols (pr_prev e)) (tupleLen (pr_prev e)) (pr_cols e) (sel_idxs e) chosen t0 [] (new_buf junk_bytes (pr_len e))); [done..|].
    assert (0 ≤ total chosen) as Htot.
    { clear -H4. induction H4 as [|d' l Hd' _ IH]; [done|]. apply col_fits_range in Hd'. simpl. lia. }
    unfold new_buf. rewrite length_take, length_app, length_replicate, H3. lia. }
  apply wp_ret. cbn. split; [done|]. split; [done|]. split; [|done]. exists rs, (t0 :: rest0), chosen.
  split; [done|]. split; [by apply projects_prev|]. split; [|done]. intros t Ht. cbn. rewrite (proj2 Hsh). by apply Hs.
Qed.

Lemma pr_end e rows rest : pr_stands (at_ P Er) e rows rest → is_end (pr_prev e) = bool_decide (rest = []).
Proof using Type. intros (rs & rest0 & chosen & Hg & _ & _ & _ & ->). rewrite (end_ok P Er _ _ _ Hg). by destruct rest0. Qed.

#[export] Instance projection_enumerates : Enumerates P Er (Projection E) := {|
  ready := pr_ready; at_ := pr_stands (at_ P Er); got := pr_stands (got P Er);
  begin_ok := pr_begin; take_ok := pr_take; step_ok := pr_step; end_ok := pr_end;
|}.
End projection.

(** ** Lists of values *)

(** The tuple that holds the value. *)
Definition value_tuple (n : Z) (v : Value) : option bytes :=
  match init_raw n v with Ok v' => raw v' | _ => None end.

Section values.
Context {S : Type} (P : S → Prop) (Er : exn → S → Prop) (junk : Rid).
#[local] Instance values_executor : Executor S Values := Values_executor junk.
Implicit Types (e : Values).

Definition va_rows e (rows : list bytes) : Prop := Forall2 (λ v t, value_tuple (va_len e) v = Some t) (va_values e) rows.
Definition va_stands e (rows rest : list bytes) : Prop :=
  va_rows e rows ∧ rest = drop (values_it e) rows ∧ (values_it e ≤ length rows)%nat.

Lemma va_begin e rows s :
  va_rows e rows → P s → wp (beginTuple e) (λ e' s', P s' ∧ va_stands e' rows rows ∧ same_shape (S := S) e e') Er s.
Proof using Type. intros Hr HP. apply wp_ret. split; [done|]. split; [|done]. split_and!; [done|done|simpl; lia]. Qed.

Lemma va_end e rows rest : va_stands e rows rest → bool_decide (values_it e = length (va_values e)) = bool_decide (rest = []).
Proof using Type.
  intros (Hr & -> & Hi). apply bool_decide_ext. rewrite (Forall2_length _ _ _ Hr). split.
  - intros ->. apply drop_all.
  - intros Hd%(f_equal length). rewrite length_drop in Hd. simpl in Hd. lia.
Qed.

Lemma va_now e rows t rest :
  va_stands e rows (t :: rest) → ∃ v v', va_values e !! values_it e = Some v ∧ init_raw (va_len e) v = Ok v' ∧ raw v' = Some t.
Proof using Type.
  intros (Hr & Hd & _). assert (rows !! values_it e = Some t) as Ht.
  { rewrite <-(Nat.add_0_r (values_it e)), <-lookup_drop, <-Hd. done. }
  destruct (Forall2_lookup_r _ _ _ _ _ Hr Ht) as (v & Hv & Hvt). exists v. unfold value_tuple in Hvt.
  destruct (init_raw _ v) as [v'|e'|] eqn:E; [|done..]. by exists v'.
Qed.

Lemma va_take e rows t rest s :
  va_stands e rows (t :: rest) → P s →
  wp (Next e) (λ r s', P s' ∧ r.1 = Some t ∧ va_stands r.2 rows (t :: rest) ∧ same_shape (S := S) e r.2) Er s.
Proof using Type.
  intros Hs HP. destruct (va_now _ _ _ _ Hs) as (v & v' & Hv & Hi & Hraw).
  apply wp_bind, wp_of_option; [by eexists|]. intros ? ?. simplify_eq. apply wp_bind. eapply wp_of_outcome; [done|].
  apply wp_bind, wp_of_option; [by eexists|]. intros ? ?. simplify_eq. by apply wp_ret.
Qed.

Lemma va_step e rows t rest s :
  va_stands e rows (t :: rest) → P s →
  wp (nextTuple e) (λ e' s', P s' ∧ va_stands e' rows rest ∧ same_shape (S := S) e e') Er s.
Proof using Type.
  intros (Hr & Hd & Hi) HP. cbn [nextTuple values_executor Values_executor].
  assert (length (drop (values_it e) rows) = Datatypes.S (length rest)) as Hlen by by rewrite <-Hd.
  rewrite length_drop in Hlen. rewrite decide_True by (rewrite (Forall2_length _ _ _ Hr); lia).
  apply wp_ret. split; [done|]. split; [|done]. split_and!; [done| |simpl; lia]. cbn.
  replace (Datatypes.S (values_it e)) with (values_it e + 1)%nat by lia. by rewrite <-drop_drop, <-Hd.
Qed.

#[export] Instance values_enumerates : Enumerates P Er Values := {|
  ready := va_rows; at_ := va_stands; got := va_stands;
  begin_ok := va_begin; take_ok := va_take; step_ok := va_step; end_ok := va_end;
|}.
#[export] Instance values_repeatable : Repeatable P Er Values.
Proof using Type. by intros e rows rest. Qed.
#[export] Instance values_restartable : Restartable P Er Values.
Proof using Type. by intros e rows [? _]. Qed.
End values.
