(* ===== verification/ExecTypes.v ===== *)
(** * Types of conditions and plans

    [eval_condition] throws on columns that are not there and on values it cannot compare.
    [cond_typed] is a check on the columns alone; a condition that passes it has a value on
    every tuple of the right length, and that value is the one its text means.  [schema] is
    the same for plans: the columns and the length of the tuples of a plan whose conditions
    are typed, and [plan_rows] the tuples the plan means, in terms of relations. *)
From Stdlib Require Import Floats.SpecFloat.
From S2P Require Import Prelude Bytes Disk Log Replacer BufferPool Record Scan Meta System Exec ExecLaws.

(** ** Conditions *)

Definition col_of (C : list ColMeta) (x : TabCol) : option ColMeta :=
  snd <$> list_find (λ c, col_tab c = tc_tab_name x ∧ col_name c = tc_col_name x) C.

Definition comparable (t u : ColType) : bool :=
  match t, u with
  | TYPE_STRING, TYPE_STRING => true
  | TYPE_INT, TYPE_INT | TYPE_INT, TYPE_FLOAT | TYPE_FLOAT, TYPE_INT | TYPE_FLOAT, TYPE_FLOAT => true
  | _, _ => false
  end.

Definition rhs_type (C : list ColMeta) (c : Condition) : option ColType :=
  if is_rhs_val c then Some (val_type (rhs_val c)) else col_type <$> col_of C (rhs_col c).
Definition cond_typed (C : list ColMeta) (c : Condition) : bool :=
  match col_of C (lhs_col c), rhs_type C c with
  | Some l, Some t => comparable (col_type l) t
  | _, _ => false
  end.

(** The value of a column in a tuple; the comparison of two values, none with a NaN. *)
Definition field_value (c : ColMeta) (t : bytes) : Value :=
  match col_type c with
  | TYPE_INT | TYPE_FLOAT => mkValue (col_type c) (le_uint (slice c t)) [] None
  | TYPE_STRING => mkValue TYPE_STRING 0 (until_nul (slice c t)) None
  | TYPE_DATETIME => mkValue TYPE_DATETIME 0 [] None
  end.
Definition number (v : Value) : spec_float :=
  match val_type v with TYPE_INT => float_of_int (int_val v) | _ => float_val v end.
Definition compare_val (v w : Value) : option comparison :=
  match val_type v, val_type w with
  | TYPE_STRING, _ => Some (str_compare (str_val v) (str_val w))
  | TYPE_INT, TYPE_INT => Some (int_val v ?= int_val w)
  | _, _ => SFcompare (number v) (number w)
  end.
Definition cond_holds (C : list ColMeta) (t : bytes) (c : Condition) : bool :=
  match col_of C (lhs_col c), (if is_rhs_val c then Some (rhs_val c) else (λ d, field_value d t) <$> col_of C (rhs_col c)) with
  | Some l, Some w => comp_holds (compare_val (field_value l t) w) (cond_op c)
  | _, _ => false
  end.

(** ** Conditions that are typed have a value *)

Section conditions.
Context (C : list ColMeta) (t : bytes) (Hfits : Forall (λ c, col_fits (len t) c = true) C).

Lemma get_col_of x : get_col C x = match list_find (λ c, col_tab c = tc_tab_name x ∧ col_name c = tc_col_name x) C with
  | Some r => Ok r | None => Throw (ColumnNotFoundError (tc_tab_name x ++ [46] ++ tc_col_name x)) end.
Proof using Type. unfold get_col. by destruct (list_find _ _). Qed.

Lemma col_of_fits x c : col_of C x = Some c → col_fits (len t) c = true.
Proof using Hfits.
  unfold col_of. intros ([i d] & Hf & [= ->])%fmap_Some. apply list_find_Some in Hf as (Hi & _ & _).
  by apply (Forall_lookup_1 _ _ _ _ Hfits Hi).
Qed.

Lemma value_of_slice c : col_fits (len t) c = true → value_of (col_type c) (slice c t) = Ok (field_value c t).
Proof using Type.
  intros Hc. pose proof (slice_length _ _ _ eq_refl Hc) as Hl. unfold value_of, field_value, col_fits in *.
  destruct (col_type c); [| |done..].
  all: apply andb_true_iff in Hc as [_ Hc%Z.eqb_eq]; rewrite Hc in Hl; unfold rd_u32.
  all: pose proof (rd_field [] (slice c t) [] 0 (len (slice c t))) as Hr; simpl in Hr; rewrite app_nil_r, Hl in Hr.
  all: rewrite Hr by done; done.
Qed.

Lemma getValue_typed x c : col_of C x = Some c → getValue C x t = Ok (field_value c t).
Proof using Hfits.
  intros Hc. pose proof (col_of_fits _ _ Hc) as Hfit. unfold getValue. rewrite get_col_of.
  unfold col_of in Hc. destruct (list_find _ _) as [[i d]|]; [|done]. injection Hc as ->.
  cbn. rewrite (rd_slice (len t)) by done. cbn. by apply value_of_slice.
Qed.

Lemma ValueComp_comparable v w op : comparable (val_type v) (val_type w) = true → ValueComp v w op = Ok (comp_holds (compare_val v w) op).
Proof using Type.
  unfold ValueComp, compare_val, number. by destruct (val_type v), (val_type w).
Qed.

Lemma field_value_type c : val_type (field_value c t) = col_type c.
Proof using Type. unfold field_value. by destruct (col_type c). Qed.

Lemma eval_typed conds :
  forallb (cond_typed C) conds = true → eval_condition C conds t = Ok (forallb (cond_holds C t) conds).
Proof using Hfits.
  induction conds as [|c conds IH]; [done|]. cbn [forallb eval_condition]. intros [Hc Hconds]%andb_true_iff.
  unfold cond_typed in Hc. destruct (col_of C (lhs_col c)) as [l|] eqn:Hl; [|done].
  rewrite (getValue_typed _ _ Hl). cbn [mbind outcome_bind].
  assert (∃ w, rhs_value C c t = Ok w ∧ comparable (col_type l) (val_type w) = true ∧
    cond_holds C t c = comp_holds (compare_val (field_value l t) w) (cond_op c)) as (w & Hw & Hcmp & Hh).
  { unfold rhs_type, rhs_value, cond_holds in *. rewrite Hl. destruct (is_rhs_val c); [by eexists|].
    destruct (col_of C (rhs_col c)) as [r|] eqn:Hr; [|done]. exists (field_value r t).
    split; [by apply getValue_typed|]. by rewrite field_value_type. }
  rewrite Hw. cbn [mbind outcome_bind]. rewrite ValueComp_comparable by by rewrite field_value_type.
  rewrite Hh. cbn [mbind outcome_bind]. destruct (comp_holds _ _); [by apply IH|done].
Qed.

Lemma getValue_untyped x : col_of C x = None → ∃ n, getValue C x t = Throw (ColumnNotFoundError n).
Proof using Type.
  intros Hc. unfold getValue. rewrite get_col_of. unfold col_of in Hc. destruct (list_find _ _) as [[i d]|]; [done|].
  by eexists.
Qed.

(** C5: The check of the types of conditions is exact, on columns [C] that lie inside of the
    tuple.  Conditions that pass it have a value: [eval_condition] neither throws nor runs
    into undefined behaviour, and answers whether all comparisons hold, of the values the
    columns have in the tuple.  A condition that does not pass it is never answered: the
    call throws because of a column that is not there or values that cannot be compared. *)
Theorem typed_conditions_evaluate conds c :
  (forallb (cond_typed C) conds = true → eval_condition C conds t = Ok (forallb (cond_holds C t) conds)) ∧
  (cond_typed C c = false →
     eval_condition C (c :: conds) t = Throw IncompatibleTypeError ∨
     ∃ n, eval_condition C (c :: conds) t = Throw (ColumnNotFoundError n)).
Proof using Hfits.
  split; [apply eval_typed|]. unfold cond_typed, rhs_type. cbn [eval_condition].
  destruct (col_of C (lhs_col c)) as [l|] eqn:Hl.
  2: { destruct (getValue_untyped _ Hl) as [n Hn]. rewrite Hn. right. by exists n. }
  rewrite (getValue_typed _ _ Hl). cbn [mbind outcome_bind]. unfold rhs_value.
  assert (∀ w, comparable (col_type l) (val_type w) = false →
    ValueComp (field_value l t) w (cond_op c) = Throw IncompatibleTypeError) as Hthrow.
  { intros w. unfold ValueComp. rewrite field_value_type. by destruct (col_type l), (val_type w). }
  destruct (is_rhs_val c).
  - intros Hc. left. cbn [mbind outcome_bind]. by rewrite Hthrow.
  - destruct (col_of C (rhs_col c)) as [r|] eqn:Hr; cbn [fmap option_fmap option_map].
    + intros Hc. left. rewrite (getValue_typed _ _ Hr). cbn [mbind outcome_bind]. rewrite Hthrow; [done|by rewrite field_value_type].
    + intros _. right. destruct (getValue_untyped _ Hr) as [n Hn]. exists n. by rewrite Hn.
Qed.
End conditions.

Definition typed_cols : list ColMeta := [mkCol [116] [97] TYPE_INT 4 0 false; mkCol [116] [98] TYPE_STRING 3 4 false].
Definition typed_tuple : bytes := u32 7 ++ [104; 105; 0].
(** a >= 2.0, as an integer against a float, and b = 'hi'; then a = b. *)
Definition typed_conds : list Condition :=
  [mkCond (mkTabCol [116] [97]) OP_GE true (mkTabCol [] []) (mkValue TYPE_FLOAT 1073741824 [] None);
   mkCond (mkTabCol [116] [98]) OP_EQ true (mkTabCol [] []) (mkValue TYPE_STRING 0 [104; 105] None)].
Definition untyped_cond : Condition :=
  mkCond (mkTabCol [116] [97]) OP_EQ false (mkTabCol [116] [98]) (mkValue TYPE_INT 0 [] None).

Lemma typed_conditions_evaluate_witness :
  (eval_condition typed_cols typed_conds typed_tuple = Ok (forallb (cond_holds typed_cols typed_tuple) typed_conds) ∧
   forallb (cond_holds typed_cols typed_tuple) typed_conds = true) ∧
  (eval_condition typed_cols (untyped_cond :: typed_conds) typed_tuple = Throw IncompatibleTypeError ∨
   ∃ n, eval_condition typed_cols (untyped_cond :: typed_conds) typed_tuple = Throw (ColumnNotFoundError n)).
Proof.
  assert (Forall (λ c, col_fits (len typed_tuple) c = true) typed_cols) as Hf by (repeat constructor).
  split; [split|].
  - apply (typed_conditions_evaluate typed_cols typed_tuple Hf typed_conds untyped_cond). vm_compute. reflexivity.
  - vm_compute. reflexivity.
  - apply (typed_conditions_evaluate typed_cols typed_tuple Hf typed_conds untyped_cond). vm_compute. reflexivity.
Defined.
