(* ===== verification/ExecScan.v ===== *)
(** * The sequential scan over open tables

    [reading]: a state in which a transaction runs a query.  The tables of the query keep
    their files, their rows and their entry in the catalogue, whatever happens while its lock
    calls wait.  Then the sequential scan enumerates the rows of its table that satisfy its
    conditions, in the order of their places. *)
From Stdlib Require Import Sorting.Sorted.
From S2P Require Import Prelude Bytes Bitmap Disk Log Replacer BufferPool Record PoolRun Rows Scan RowScan Recovery Streams Meta Txn Lock LockSafety LockRelease LockWanted System Rollback Exec ExecLaws ExecTypes.

(** Errors a query may end with, the conditions being typed. *)
Definition failed {S} (e : exn) (_ : S) : Prop :=
  io_error e = true ∨ ∃ t reason, e = TransactionAbortException t reason.

Lemma layout_back x h : same_layout (set_first_free x h) h.
Proof. exists (first_free_page_no h). by destruct h. Qed.

Section reading.
Context {R : Type} `{!Replacer R, !ReplacerLaws R} (txn : Z) (s0 : Sys R) (X : list bytes) (K : Sys R → Prop).
Implicit Types (s : Sys R).

(** [o] is where the transaction's thread waits; [K] is what else the caller wants kept. *)
Record reading_with (o : option wait_point) s : Prop := {
  rg_ok : sys_ok s;
  rg_db : sm_db s = sm_db s0;
  rg_files tab fd h : tab ∈ X → sm_fhs s0 !! tab = Some (fd, h) → ∃ h', sm_fhs s !! tab = Some (fd, h') ∧ same_layout h h';
  rg_rows tab rid : tab ∈ X → sys_rows s tab rid = sys_rows s0 tab rid;
  rg_locks : ∃ W, Inv (sm_locks s) W ∧ W !! txn = o;
  rg_txn : is_Some (txns (sm_locks s) !! txn);
  rg_kept : K s;
}.
Abbreviation reading := (reading_with None).

(** A read page, of an open file. *)
Definition page_read s s' : Prop :=
  ∃ tab fd h p st, sm_fhs s !! tab = Some (fd, h) ∧ 1 ≤ p < num_pages h ∧ looked_at (fd, p) (sm_storage s) st ∧
    s' = set_tables (mkDb (sm_fhs s) st) s.

(** What an executor relies on: the lock calls and the reads keep [K], and so does what
    happens while the thread waits; [E] holds of a file system error, and where a lock call
    ends the transaction. *)
Record relies (E : exn → Sys R → Prop) (wait : Z → wait_point → M (Sys R) bool) : Prop := {
  on_lock s l : K s → writes_kept (sm_locks s) l → stays_wanted txn (sm_locks s) l → K (set_locks l s);
  on_read s s' : sys_ok s → K s → page_read s s' → K s';
  on_io e s : io_error e = true → E e s;
  on_abort t reason s : reading s → E (TransactionAbortException t reason) s;
  on_wait w s : reading_with (Some w) s → wp (wait txn w) (λ _ s', reading s') E s;
}.
Context (E : exn → Sys R → Prop) (wait : Z → wait_point → M (Sys R) bool) (Hrely : relies E wait).

Lemma wp_lock_call op s :
  plain_lock op → reading s → wp (lock_call txn wait (run_op txn op)) (λ _ s', reading s') E s.
Proof using Hrely.
  intros Hop [Hok Hdb Hf Hr (W & HI & HW) Ht Hk]. unfold lock_call. apply wp_bind, wp_zoom.
  pose proof (run_op_ok W txn HW op (sm_locks s) (plain_no_gap op Hop) Ht HI) as Hrun.
  assert (gens_ok (sm_locks s)) as Hg by (intros q v; apply (inv_gens _ _ HI)).
  pose proof (wp_within_both (λ l l', writes_kept l l' ∧ (gens_ok l → stays_wanted txn l l')) _ _ _ _ Hrun
    (λ l, conj (kept_run_op txn op l) (run_op_stays txn txn op l Hop))) as Hrun2. clear Hrun.
  assert (∀ o l W', Inv l W' → W' !! txn = o →
    writes_kept (sm_locks s) l ∧ (gens_ok (sm_locks s) → stays_wanted txn (sm_locks s) l) → reading_with o (set_locks l s)) as Hnow.
  { intros o l W' HI' HW' [Hkept Hstays]. split; [by apply set_locks_ok|done..|by exists W'| |by apply (on_lock _ _ Hrely); auto].
    destruct Ht as [T HT]. destruct (Hkept txn T HT) as (T' & HT' & _). by eexists. }
  eapply wp_weaken; [eapply wp_mono; [exact Hrun2|]|].
  - intros r l [Hfin Hkept]. destruct r as [b|w]; cbn [fin] in Hfin.
    + apply wp_ret. by eapply Hnow.
    + apply (on_wait _ _ Hrely). eapply Hnow; [exact Hfin|apply lookup_insert_eq|done].
  - intros e l [He Hkept]. destruct e; try done. apply (on_abort _ _ Hrely). by eapply Hnow.
Qed.

(** *** Files of the tables *)

Lemma reading_file tab fd h s :
  reading s → tab ∈ X → sm_fhs s0 !! tab = Some (fd, h) → ∃ x, sm_fhs s !! tab = Some (fd, set_first_free x h).
Proof using Type. intros Hrd HX Hf. destruct (rg_files _ _ Hrd tab fd h HX Hf) as (h' & Hf' & [x ->]). by exists x. Qed.

(** Pages looked at. *)
Lemma looked_row_changed fd h p st st' :
  file_ok fd h st → 1 ≤ p < num_pages h → looked_at (fd, p) st st' →
  row_changed fd h (mkRid p 0) (rows_of fd h st (mkRid p 0)) st st'.
Proof using Type.
  intros Hf Hp [Ht Hv _]. split; [done|]. intros q. destruct (decide (q = mkRid p 0)) as [->|Hq].
  - unfold rows_of. cbn. by rewrite Hv.
  - destruct (decide (page_no q = p)) as [<-|Hne].
    + unfold rows_of. by rewrite Hv.
    + eapply touched_rows; [|done..]. congruence.
Qed.

Lemma reading_looked_at tab fd h p s st :
  reading s → sm_fhs s !! tab = Some (fd, h) → 1 ≤ p < num_pages h → looked_at (fd, p) (sm_storage s) st →
  reading (set_tables (mkDb (sm_fhs s) st) s).
Proof using Hrely.
  intros [Hok Hdb Hf Hr Hl Ht Hk] Hfh Hp Hla.
  pose proof (looked_row_changed fd h p _ _ (sk_files _ Hok _ _ _ Hfh) Hp Hla) as Hrc.
  destruct (row_changed_sys tab fd h h (mkRid p 0) (rows_of fd h (sm_storage s) (mkRid p 0)) s st Hok Hfh) as (Hok' & Ha & Hl' & Hr'); [simpl; lia|apply same_layout_refl|exact Hrc|].
  rewrite insert_id in * by done. split; [done|done|done| |done|done|].
  - intros tab' rid' HX. rewrite Hr'. case_decide as Hd; [|by apply Hr]. destruct Hd as [-> ->].
    rewrite <-Hr by done. unfold sys_rows. by rewrite Hfh.
  - apply (on_read _ _ Hrely s); [done..|]. by exists tab, fd, h, p, st.
Qed.

Lemma reading_looked tab fd h x s st :
  reading s → sm_fhs s !! tab = Some (fd, set_first_free x h) → scanned fd h (sm_storage s) st →
  reading (set_tables (mkDb (sm_fhs s) st) s).
Proof using Hrely.
  intros Hrd Hf Hl. remember (sm_storage s) as st0 eqn:Hst. revert s Hrd Hf Hst.
  induction Hl as [st1|p st1 st2 st3 Hp Hla _ IH]; intros s Hrd Hf ->; [by destruct s|].
  assert (reading (set_tables (mkDb (sm_fhs s) st2) s)) as Hrd2 by by eapply reading_looked_at.
  exact (IH _ Hrd2 Hf eq_refl).
Qed.

(** A method of a table's handle. *)
Lemma wp_on_table {A} tab (op : Z → M (RmFileHdr * Storage R) A) fd h s (Q : A → Sys R → Prop) :
  sm_fhs s !! tab = Some (fd, h) →
  wp (op fd) (λ a t, Q a (set_tables (mkDb (<[tab := (fd, t.1)]> (sm_fhs s)) t.2) s)) fails_io (h, sm_storage s) →
  wp (on_fh tab op) Q E s.
Proof using Hrely.
  intros Hf H. apply wp_zoom. unfold wp, on_file, sys_tables in *. simpl. rewrite Hf.
  destruct (op fd (h, sm_storage s)) as [[a|e|] [h' s']]; [done|by apply (on_io _ _ Hrely)|done].
Qed.

Lemma wp_GetFd tab fd h s (Q : Z → Sys R → Prop) : sm_fhs s !! tab = Some (fd, h) → Q fd s → wp (GetFd tab) Q E s.
Proof using Hrely.
  intros Hf HQ. eapply wp_on_table; [exact Hf|]. apply wp_ret. cbn. rewrite insert_id by done. by destruct s.
Qed.

Lemma wp_fh_get_record tab fd h rid t s :
  reading s → tab ∈ X → sm_fhs s0 !! tab = Some (fd, h) → sys_rows s0 tab rid = Some t →
  wp (fh_get_record txn wait true tab rid) (λ b s', b = t ∧ reading s') E s.
Proof using Hrely.
  intros Hrd HX Hf Ht. destruct (reading_file _ _ _ _ Hrd HX Hf) as (x & Hfx). unfold fh_get_record.
  apply wp_bind, wp_bind. eapply wp_GetFd; [done|]. eapply wp_mono; [by apply (wp_lock_call (LShared rid fd))|].
  intros b1 s1 Hrd1. destruct (reading_file _ _ _ _ Hrd1 HX Hf) as (x1 & Hfx1).
  eapply wp_on_table; [exact Hfx1|]. pose proof (rg_ok _ _ Hrd1) as Hok. pose proof (rg_rows _ _ Hrd1 tab rid HX) as Hr.
  unfold sys_rows in Hr at 1. rewrite Hfx1, Ht in Hr.
  eapply wp_get_row; [apply Hok|by eapply sk_files|exact Hr|]. intros st Hla. cbn [fst snd]. split; [done|].
  rewrite insert_id by done. eapply reading_looked_at; [done|exact Hfx1| |exact Hla]. by apply rows_of_Some in Hr.
Qed.

(** *** Scans of a table *)

Section table.
Context (tab : bytes) (fd : Z) (h : RmFileHdr) (Hs0 : sys_ok s0) (HX : tab ∈ X) (Hf : sm_fhs s0 !! tab = Some (fd, h)).
Abbreviation V := (λ p, view (sm_storage s0) (fd, p)).
Abbreviation all := (places fd h (sm_storage s0)).

Lemma first_file : file_ok fd h (sm_storage s0).
Proof using Hs0 Hf. by eapply sk_files. Qed.

Lemma first_rows rid : sys_rows s0 tab rid = rows_of fd h (sm_storage s0) rid.
Proof using Hf. unfold sys_rows. by rewrite Hf. Qed.

Lemma reading_scannable s : reading s → scannable fd h V (sm_storage s).
Proof using Hs0 HX Hf.
  intros Hrd. destruct (reading_file _ _ _ _ Hrd HX Hf) as (x & Hx). pose proof (rg_ok _ _ Hrd) as Hok.
  pose proof (sk_files _ Hok _ _ _ Hx) as Hfile.
  assert (file_ok fd h (sm_storage s)) as Hfile2.
  { apply (layout_file fd (set_first_free x h)); [|done]. apply layout_back. }
  split; [apply Hok|done| |].
  - intros p Hp. destruct (fo_page _ _ _ Hfile2 p Hp) as [d Hd], (fo_page _ _ _ first_file p Hp) as [d0 Hd0].
    exists d, d0. split; [done|]. split; [done|]. intros i.
    pose proof (rg_rows _ _ Hrd tab (mkRid p i) HX) as Hr. unfold sys_rows in Hr. rewrite Hx, Hf in Hr.
    rewrite (same_layout_rows h) in Hr by by eexists. unfold rows_of in Hr. cbn in Hr. rewrite decide_True in Hr by done.
    rewrite decide_True in Hr by done. by rewrite Hd, Hd0 in Hr.
  - intros p d0 Hd0. eapply view_length; [apply (sk_stored _ Hs0)|done].
Qed.

Lemma wp_new_scan junk s :
  reading s → wp (new_scan junk tab) (λ sc s', reading s' ∧ scan_at fd h V sc all) E s.
Proof using Hs0 HX Hf Hrely.
  intros Hrd. destruct (reading_file _ _ _ _ Hrd HX Hf) as (x & Hx). eapply wp_on_table; [exact Hx|].
  apply wp_bind, wp_gets. cbn [fst]. apply wp_sto. cbn [fst snd].
  apply (wp_scan_new fd h V); [by apply reading_scannable|]. intros sc st Hst Hsc Hat. split; [|exact Hat].
  rewrite insert_id by done. eapply reading_looked; [done|exact Hx|exact Hsc].
Qed.

Lemma wp_sys_scan_next sc r l s :
  reading s → scan_at fd h V sc (r :: l) → wp (scan_next sc) (λ sc' s', reading s' ∧ scan_at fd h V sc' l) E s.
Proof using Hs0 HX Hf Hrely.
  intros Hrd Hat. destruct (reading_file _ _ _ _ Hrd HX Hf) as (x & Hx). unfold scan_next.
  eapply wp_weaken; [apply wp_on_pages|by apply (on_io _ _ Hrely)].
  eapply (wp_scan_next fd h V); [by apply reading_scannable|done|]. intros sc' st Hst Hsc Hat'. split; [|done].
  eapply reading_looked; [done|exact Hx|exact Hsc].
Qed.

(** The rows at the places. *)
Lemma place_row r : r ∈ all → ∃ t, sys_rows s0 tab r = Some t ∧ len t = record_size h.
Proof using Hs0 Hf.
  intros Hin. unfold places in Hin. apply elem_of_rids_from in Hin as [Hp (d & Hd & Hocc)].
  assert (1 ≤ page_no r < num_pages h) as Hp2 by (pose proof (fo_num _ _ _ first_file); lia).
  pose proof (view_length _ _ _ (so_inv _ (sk_stored _ Hs0)) Hd) as Hl.
  apply (occ_row h d _ (fo_hdr _ _ _ first_file) Hl) in Hocc as [t Ht]. exists t. split.
  - rewrite first_rows. by rewrite (rows_of_page _ _ _ _ _ Hp2 Hd).
  - apply row_Some in Ht as [_ Ht]. by apply rd_length in Ht.
Qed.

Lemma places_NoDup : NoDup all.
Proof using Type.
  unfold places. pose proof (rids_from_sorted h V (Z.to_nat (num_pages h - 1)) 1) as Hs.
  induction Hs as [|r l Hl IH Hr]; [constructor|]. constructor; [|done]. intros Hin.
  rewrite Forall_forall in Hr. specialize (Hr r Hin). unfold rid_lt in Hr. lia.
Qed.

(** *** The loops of the sequential scan *)

Section loops.
Context (C : list ColMeta) (conds : list Condition) (junk : Rid) (fuel : nat).
Context (HC : Forall (λ c, col_fits (record_size h) c = true) C) (Hconds : forallb (cond_typed C) conds = true).

Definition passes (r : Rid) : bool :=
  match sys_rows s0 tab r with Some t => forallb (cond_holds C t) conds | None => false end.
Abbreviation chosen l := (filter (λ r, Is_true (passes r)) l).

Definition is_scan (e : SeqScan) : Prop := ss_tab_name e = tab ∧ ss_cols e = C ∧ ss_conds e = conds.

Lemma eval_row r t : r ∈ all → sys_rows s0 tab r = Some t → eval_condition C conds t = Ok (passes r).
Proof using Hs0 Hf HC Hconds.
  intros Hin Ht. destruct (place_row r Hin) as (t' & Ht' & Hl). simplify_eq. unfold passes. rewrite Ht.
  apply eval_typed; [by rewrite Hl|done].
Qed.

Lemma wp_find_last k e sc l lst s :
  is_scan e → reading s → scan_at fd h V sc l → (∀ r, r ∈ l → r ∈ all) → (length l ≤ k)%nat →
  wp (find_last txn wait k e sc lst) (λ r s', reading s' ∧ r = default lst (last (chosen l))) E s.
Proof using All.
  revert sc l lst s. induction k as [|k IH]; intros sc l lst s He Hrd Hat Hin Hk; cbn [find_last];
    rewrite (scan_at_end _ _ _ _ _ Hat).
  { destruct l; [|simpl in Hk; lia]. by apply wp_ret. }
  destruct l as [|r l]; [by apply wp_ret|]. rewrite bool_decide_eq_false_2 by done.
  pose proof (scan_at_rid _ _ _ _ _ _ Hat) as (Hrid & _). rewrite Hrid. pose proof He as (-> & -> & ->).
  destruct (place_row r) as (t & Ht & Hl); [apply Hin; by left|].
  apply wp_bind. eapply wp_mono; [by eapply wp_fh_get_record|]. intros b s1 [-> Hrd1].
  apply wp_bind. eapply wp_of_outcome; [eapply eval_row; [apply Hin; by left|done]|].
  apply wp_bind. eapply wp_mono; [by eapply wp_sys_scan_next|]. intros sc' s2 [Hrd2 Hat2].
  eapply wp_mono; [eapply IH; [done|done|done|intros; apply Hin; by right|simpl in Hk; lia]|].
  intros r' s3 [Hrd3 ->]. split; [done|]. rewrite filter_cons. destruct (passes r).
  - rewrite decide_True, last_cons by done. by destruct (last _).
  - by rewrite decide_False by (by intros []).
Qed.

(** What [find_match] leaves of the places [l]. *)
Definition found_in (l : list Rid) (x : Rid * RmScan * bool) : Prop :=
  match chosen l with
  | [] => x.2 = false
  | r :: rs => x.2 = true ∧ x.1.1 = r ∧ ∃ l', scan_at fd h V x.1.2 l' ∧ chosen l' = rs ∧ l' `suffix_of` l
  end.

Lemma wp_find_match k e sc l rid s :
  is_scan e → reading s → scan_at fd h V sc l → (∀ r, r ∈ l → r ∈ all) → (length l ≤ k)%nat →
  wp (find_match txn wait k e sc rid) (λ x s', reading s' ∧ found_in l x) E s.
Proof using All.
  revert sc l rid s. induction k as [|k IH]; intros sc l rid s He Hrd Hat Hin Hk; cbn [find_match];
    rewrite (scan_at_end _ _ _ _ _ Hat).
  { destruct l; [|simpl in Hk; lia]. by apply wp_ret. }
  destruct l as [|r l]; [by apply wp_ret|]. rewrite bool_decide_eq_false_2 by done.
  pose proof (scan_at_rid _ _ _ _ _ _ Hat) as (Hrid & _). rewrite Hrid. pose proof He as (-> & -> & ->).
  destruct (place_row r) as (t & Ht & Hl); [apply Hin; by left|].
  apply wp_bind. eapply wp_mono; [by eapply wp_fh_get_record|]. intros b s1 [-> Hrd1].
  apply wp_bind. eapply wp_mono; [by eapply wp_sys_scan_next|]. intros sc' s2 [Hrd2 Hat2].
  apply wp_bind. eapply wp_of_outcome; [eapply eval_row; [apply Hin; by left|done]|].
  unfold found_in. rewrite filter_cons. destruct (passes r) eqn:Hp; cbn.
  - split; [done|]. split; [done|]. split; [done|]. exists l. split_and!; [done|done|]. by apply suffix_cons_r.
  - eapply wp_mono; [eapply IH; [done|done|done|intros; apply Hin; by right|simpl in Hk; lia]|].
    intros x s3 [Hrd3 Hx]. split; [done|]. unfold found_in in Hx. destruct (chosen l); [done|].
    destruct Hx as (? & ? & l' & ? & ? & Hl'). split; [done|]. split; [done|]. exists l'. split_and!; [done|done|].
    by apply suffix_cons_r.
Qed.
End loops.
End table.

(** ** The sequential scan is an enumeration *)

Context (junk : Rid) (fuel : nat) (Hs0 : sys_ok s0).
#[local] Instance seq_executor : Executor (Sys R) SeqScan := SeqScan_executor txn wait junk fuel.
Implicit Types (e : SeqScan).

(** The tuples of an open table, in the order of their places. *)
Definition tuples (tab : bytes) : list bytes :=
  match sm_fhs s0 !! tab with
  | Some (fd, h) => omap (sys_rows s0 tab) (places fd h (sm_storage s0))
  | None => []
  end.

(** The table of the scan, its columns and conditions; the loops' fuel is enough for it. *)
Record seq_ok e (fd : Z) (h : RmFileHdr) : Prop := {
  sq_tab : ss_tab_name e ∈ X;
  sq_file : sm_fhs s0 !! ss_tab_name e = Some (fd, h);
  sq_cols : Forall (λ c, col_fits (record_size h) c = true) (ss_cols e);
  sq_conds : forallb (cond_typed (ss_cols e)) (ss_conds e) = true;
  sq_fuel : (length (places fd h (sm_storage s0)) ≤ fuel)%nat;
}.
Abbreviation chosen e l := (filter (λ r, Is_true (passes (ss_tab_name e) (ss_cols e) (ss_conds e) r)) l).
Abbreviation rows_at e l := (omap (sys_rows s0 (ss_tab_name e)) l).

(** The scan's own state, on the places [rs]. *)
Inductive seq_stands e fd h : list Rid → Prop :=
  | seq_end : ss_is_end e = true → seq_stands e fd h []
  | seq_on sc l :
      ss_is_end e = false → ss_scan e = Some sc → scan_at fd h (λ p, view (sm_storage s0) (fd, p)) sc l →
      l `suffix_of` places fd h (sm_storage s0) →
      last (chosen e (places fd h (sm_storage s0))) = Some (ss_last_rid e) →
      (ss_rid e :: chosen e l) `suffix_of` chosen e (places fd h (sm_storage s0)) →
      seq_stands e fd h (ss_rid e :: chosen e l).

Definition seq_ready e (rows : list bytes) : Prop :=
  ∃ fd h, seq_ok e fd h ∧ rows = rows_at e (chosen e (places fd h (sm_storage s0))).
Definition seq_at e (rows rest : list bytes) : Prop :=
  ∃ fd h rs, seq_ok e fd h ∧ rows = rows_at e (chosen e (places fd h (sm_storage s0))) ∧
    rest = rows_at e rs ∧ seq_stands e fd h rs.

Lemma suffix_elem {A} (l k : list A) x : l `suffix_of` k → x ∈ l → x ∈ k.
Proof using Type. intros [k' ->] Hx. apply elem_of_app. by right. Qed.

Lemma seq_row e fd h r : seq_ok e fd h → r ∈ chosen e (places fd h (sm_storage s0)) → ∃ t, sys_rows s0 (ss_tab_name e) r = Some t.
Proof using Hs0.
  intros Hok [_ Hin]%list_elem_of_filter. destruct (place_row _ _ _ Hs0 (sq_file _ _ _ Hok) r Hin) as (t & Ht & _). by exists t.
Qed.

Lemma rows_at_cons e r rs t : sys_rows s0 (ss_tab_name e) r = Some t → rows_at e (r :: rs) = t :: rows_at e rs.
Proof using Type. intros Ht. cbn. by rewrite Ht. Qed.

Lemma seq_end_ok e rows rest : seq_at e rows rest → ss_is_end e = bool_decide (rest = []).
Proof using Hs0.
  intros (fd & h & rs & Hok & _ & -> & Hst). destruct Hst as [He|sc l He _ _ _ _ Hsuf]; [done|].
  destruct (seq_row e fd h (ss_rid e) Hok) as [t Ht]; [eapply suffix_elem; [exact Hsuf|by left]|].
  by rewrite (rows_at_cons _ _ _ _ Ht), He.
Qed.

(** The state of the scan after a search through the places [l]. *)
Lemma seq_found e fd h l (x : Rid * RmScan * bool) e' :
  seq_ok e fd h → found_in (ss_tab_name e) fd h (ss_cols e) (ss_conds e) l x →
  l `suffix_of` places fd h (sm_storage s0) →
  chosen e l `suffix_of` chosen e (places fd h (sm_storage s0)) →
  ss_tab_name e' = ss_tab_name e → ss_cols e' = ss_cols e → ss_conds e' = ss_conds e →
  (chosen e l ≠ [] → last (chosen e (places fd h (sm_storage s0))) = Some (ss_last_rid e')) →
  ss_is_end e' = negb x.2 → (x.2 = true → ss_rid e' = x.1.1) → ss_scan e' = Some x.1.2 →
  seq_stands e' fd h (chosen e l).
Proof using Type.
  intros Hok Hx Hin Hsuf Ht Hc Hcs Hl He Hr Hsc. unfold found_in in Hx. destruct (chosen e l) as [|r rs] eqn:Hch.
  - apply seq_end. by rewrite He, Hx.
  - destruct Hx as (Hx2 & Hx1 & l' & Hat & Hl' & Hsub). rewrite <-(Hr Hx2) in Hx1. rewrite <-Hx1, <-Hl' in *. rewrite <-Ht, <-Hc, <-Hcs in *.
    eapply seq_on; [by rewrite He, Hx2|done|done|by etrans|by apply Hl|done].
Qed.

Lemma suffix_last {A} (l k : list A) : l ≠ [] → l `suffix_of` k → last k = last l.
Proof using Type. intros Hl [k' ->]. rewrite last_app. destruct (last l) eqn:El; [done|]. by apply last_None in El. Qed.

Lemma seq_ok_same e e' fd h :
  seq_ok e fd h → ss_tab_name e' = ss_tab_name e → ss_cols e' = ss_cols e → ss_conds e' = ss_conds e → seq_ok e' fd h.
Proof using Type. intros [? ? ? ? ?] Ht Hc Hcs. by split; rewrite ?Ht, ?Hc, ?Hcs. Qed.

(** The scan [e'] is of the same rows as [e]. *)
Definition same_scan e e' : Prop :=
  ss_tab_name e' = ss_tab_name e ∧ ss_cols e' = ss_cols e ∧ ss_conds e' = ss_conds e ∧ ss_len e' = ss_len e.

Lemma same_scan_ok e e' fd h : same_scan e e' → seq_ok e fd h → seq_ok e' fd h.
Proof using Type. intros (? & ? & ? & _) ?. by eapply seq_ok_same. Qed.

Lemma same_scan_shape e e' : same_scan e e' → same_shape (S := Sys R) e e'.
Proof using Type. by intros (_ & Hc & _ & Hl). Qed.

Lemma seq_begin_rids e fd h s :
  seq_ok e fd h → reading s →
  wp (beginTuple e) (λ e' s', reading s' ∧ same_scan e e' ∧ seq_stands e' fd h (chosen e (places fd h (sm_storage s0)))) E s.
Proof using All.
  intros Hok Hrd. pose proof Hok as [HX Hf HC Hcs Hfu]. cbn [beginTuple seq_executor SeqScan_executor].
  unfold ss_beginTuple.
  apply wp_bind. eapply wp_mono; [by eapply wp_new_scan|]. intros sc s1 [Hrd1 Hsc].
  apply wp_bind. eapply wp_mono; [by eapply (wp_find_last _ fd h)|]. intros lst s2 [Hrd2 ->].
  apply wp_bind. eapply wp_mono; [by eapply (wp_new_scan _ fd h)|]. intros sc2 s3 [Hrd3 Hsc2].
  apply wp_bind. eapply wp_mono; [by eapply (wp_find_match _ fd h)|]. intros [[rid sc3] found] s4 [Hrd4 Hx].
  apply wp_ret. split; [done|]. split; [done|].
  eapply seq_found; [done|exact Hx|done|done|done|done|done| |done|by cbn; intros ->|done].
  cbn [ss_last_rid]. intros Hne. destruct (last (chosen e (places fd h (sm_storage s0)))) eqn:El; [done|]. by apply last_None in El.
Qed.

Lemma seq_step_rids e fd h r rs s :
  seq_ok e fd h → seq_stands e fd h (r :: rs) → reading s →
  wp (nextTuple e) (λ e' s', reading s' ∧ same_scan e e' ∧ seq_stands e' fd h rs) E s.
Proof using All.
  intros Hok Hst Hrd. inversion Hst as [|sc l He Hsc Hat Hin Hl Hsuf Heq]. subst r rs.
  pose proof Hok as [HX Hf HC Hcs Hfu]. cbn [nextTuple seq_executor SeqScan_executor]. unfold ss_nextTuple.
  pose proof Hl as Hl0. rewrite (suffix_last (ss_rid e :: chosen e l)) in Hl by done. rewrite last_cons in Hl.
  assert (NoDup (ss_rid e :: chosen e l)) as Hnd.
  { destruct Hsuf as [k Hk]. pose proof (NoDup_filter (λ r, Is_true (passes (ss_tab_name e) (ss_cols e) (ss_conds e) r)) _ (places_NoDup fd h)) as Hall.
    rewrite Hk in Hall. by apply NoDup_app in Hall as (_ & _ & ?). }
  destruct (decide (ss_last_rid e = ss_rid e)) as [Heq|Hne].
  - apply wp_ret. split; [done|]. split; [done|].
    destruct (last (chosen e l)) as [x|] eqn:El; [|apply last_None in El as ->; by apply seq_end].
    injection Hl as ->. apply NoDup_cons in Hnd as [Hnd _]. destruct Hnd. rewrite <-Heq.
    by apply last_Some_elem_of.
  - apply wp_bind, wp_of_option; [by eexists|]. intros sc' Hsc'. rewrite Hsc in Hsc'. injection Hsc' as <-.
    apply wp_bind. eapply wp_mono.
    { eapply (wp_find_match _ fd h); [done..| |].
      - intros q. by eapply suffix_elem.
      - apply suffix_length in Hin. lia. }
    intros [[rid sc3] found] s4 [Hrd4 Hx].
    apply wp_ret. split; [done|]. split; [done|].
    assert (chosen e l ≠ []) as Hch by (intros Hz; rewrite Hz in Hl; by injection Hl).
    assert (found = true) as ->.
    { unfold found_in in Hx. destruct (chosen e l); [done|]. by destruct Hx as [? _]. }
    eapply seq_found; [done|exact Hx|exact Hin| |done|done|done| |by cbn; rewrite He|by cbn|done].
    + by eapply suffix_cons_l.
    + done.
Qed.

Lemma seq_begin e rows s :
  seq_ready e rows → reading s →
  wp (beginTuple e) (λ e' s', reading s' ∧ seq_at e' rows rows ∧ same_shape (S := Sys R) e e') E s.
Proof using All.
  intros (fd & h & Hok & ->) Hrd. eapply wp_mono; [by apply (seq_begin_rids e fd h)|]. intros e' s' (Hrd' & Hsame & Hst).
  split; [done|]. split; [|by apply same_scan_shape]. exists fd, h, (chosen e (places fd h (sm_storage s0))).
  split; [by eapply same_scan_ok|]. destruct Hsame as (-> & -> & -> & _). done.
Qed.

Lemma seq_step e rows t rest s :
  seq_at e rows (t :: rest) → reading s →
  wp (nextTuple e) (λ e' s', reading s' ∧ seq_at e' rows rest ∧ same_shape (S := Sys R) e e') E s.
Proof using All.
  intros (fd & h & rs & Hok & -> & Hrest & Hst) Hrd. destruct rs as [|r rs]; [done|].
  destruct (seq_row e fd h r Hok) as [t' Ht]; [inversion Hst; subst; eapply suffix_elem; [done|by left]|].
  rewrite (rows_at_cons _ _ _ _ Ht) in Hrest. injection Hrest as -> ->.
  eapply wp_mono; [by eapply seq_step_rids|]. intros e' s' (Hrd' & Hsame & Hst').
  split; [done|]. split; [|by apply same_scan_shape]. exists fd, h, rs.
  split; [by eapply same_scan_ok|]. destruct Hsame as (-> & -> & -> & _). done.
Qed.

Lemma seq_take e rows t rest s :
  seq_at e rows (t :: rest) → reading s →
  wp (Next e) (λ r s', reading s' ∧ r.1 = Some t ∧ seq_at r.2 rows (t :: rest) ∧ same_shape (S := Sys R) e r.2) E s.
Proof using All.
  intros Hat Hrd. pose proof Hat as (fd & h & rs & Hok & -> & Hrest & Hst). destruct Hst as [|sc l He Hsc Hsa Hin Hl Hsuf]; [done|].
  destruct (seq_row e fd h (ss_rid e) Hok) as [t' Ht]; [eapply suffix_elem; [exact Hsuf|by left]|].
  pose proof Hrest as Hr2. rewrite (rows_at_cons _ _ _ _ Ht) in Hr2. injection Hr2 as -> _.
  apply wp_bind. eapply wp_mono; [eapply wp_fh_get_record; [done|apply Hok|apply Hok|done]|].
  intros b s1 [-> Hrd1]. by apply wp_ret.
Qed.

#[export] Instance seq_enumerates : Enumerates reading E SeqScan := {|
  ready := seq_ready; at_ := seq_at; got := seq_at;
  begin_ok := seq_begin; take_ok := seq_take; step_ok := seq_step; end_ok := seq_end_ok;
|}.
#[export] Instance seq_repeatable : Repeatable reading E SeqScan.
Proof using Type. by intros e rows rest. Qed.
#[export] Instance seq_restartable : Restartable reading E SeqScan.
Proof using Type. intros e rows (fd & h & rs & Hok & -> & _). by exists fd, h. Qed.

(** The rows it goes through: those of the table that satisfy the conditions. *)
Lemma chosen_rows tab C conds (l : list Rid) :
  omap (sys_rows s0 tab) (filter (λ r, Is_true (passes tab C conds r)) l) =
  filter (λ t, Is_true (forallb (cond_holds C t) conds)) (omap (sys_rows s0 tab) l).
Proof using Type.
  induction l as [|r l IH]; [done|]. rewrite filter_cons.
  assert (passes tab C conds r = match sys_rows s0 tab r with Some t => forallb (cond_holds C t) conds | None => false end) as Hp by done.
  cbn [omap list_omap]. destruct (sys_rows s0 tab r) as [t|] eqn:Ht.
  - rewrite filter_cons, <-Hp. destruct (passes tab C conds r).
    + rewrite !decide_True by done. cbn [omap list_omap]. rewrite Ht. by f_equal.
    + by rewrite !decide_False by (by intros []).
  - rewrite Hp. by rewrite decide_False by (by intros []).
Qed.

(** The constructor. *)
Lemma wp_SeqScanExecutor tab tm fd h conds n s (Q : SeqScan → Sys R → Prop) :
  reading s → tab ∈ X → get_table tab (sm_db s0) = Ok tm → sm_fhs s0 !! tab = Some (fd, h) →
  record_len (tab_cols tm) = Ok n → check_types tm conds = Ok tt →
  (∀ e s', reading s' → ss_tab_name e = tab → ss_cols e = tab_cols tm → ss_conds e = conds → ss_len e = n → Q e s') →
  wp (SeqScanExecutor txn wait junk tab conds) Q E s.
Proof using Hrely.
  intros Hrd HX Htm Hf Hn Hct HQ. destruct (reading_file _ _ _ _ Hrd HX Hf) as (x & Hx). unfold SeqScanExecutor.
  apply wp_bind. unfold table_meta. apply wp_bind, wp_gets. rewrite (rg_db _ _ Hrd). eapply wp_of_outcome; [done|].
  apply wp_bind. unfold fh_at. apply wp_bind, wp_gets. rewrite Hx. apply wp_ret.
  apply wp_bind. eapply wp_of_outcome; [done|]. apply wp_bind. eapply wp_of_outcome; [done|].
  apply wp_bind. eapply wp_mono; [by apply (wp_lock_call (LIS fd))|]. intros b s1 Hrd1. apply wp_ret. by apply HQ.
Qed.
End reading.

(** With nothing else to keep. *)
Abbreviation reading_at txn s0 X := (reading_with txn s0 X (λ _, True)).

Lemma failed_abort {S} t reason (s : S) : failed (TransactionAbortException t reason) s.
Proof. right. by do 2 eexists. Qed.

Lemma failed_relies {R : Type} `{!Replacer R, !ReplacerLaws R} txn (s0 : Sys R) X (wait : Z → wait_point → M (Sys R) bool) :
  (∀ w (s : Sys R), reading_at txn s0 X (Some w) s → wp (wait txn w) (λ _ s', reading_at txn s0 X None s') failed s) →
  relies txn s0 X (λ _, True) failed wait.
Proof. intros Hwait. split; [done|done|by left|by intros; apply failed_abort|exact Hwait]. Qed.
