(* ===== verification/ExecPlan.v ===== *)
(** * Queries answer what their plans mean

    [schema] checks the types of a plan against the catalogue and gives the columns and the
    length of its tuples; [plan_rows] is the relation a plan stands for, in terms of the
    tuples of the tables.  For plans that pass the check the tree of executors that
    [convert_plan_executor] builds delivers that relation. *)
From Stdlib Require Import Floats.SpecFloat.
From S2P Require Import Prelude Bytes Disk Log Replacer BufferPool Record PoolRun Rows Scan RowScan Recovery Streams Meta Txn Lock LockSafety System Rollback Exec ExecLaws ExecTypes ExecScan.

(** ** The meaning of a plan *)

Definition leaf (p : Plan) : bool :=
  match p with SeqScanPlan _ _ | ValuesPlan _ _ => true | _ => false end.

(** The children of a join begin anew or are asked twice, which joins cannot; a projection
    has no [tupleLen]. *)
Fixpoint schema (db : DbMeta) (p : Plan) : option (list ColMeta * Z) :=
  match p with
  | SeqScanPlan tab conds =>
      match get_table tab db with
      | Ok tm =>
          match record_len (tab_cols tm), check_types tm conds with
          | Ok n, Ok _ =>
              if forallb (col_fits n) (tab_cols tm) && forallb (cond_typed (tab_cols tm)) conds
              then Some (tab_cols tm, n) else None
          | _, _ => None
          end
      | _ => None
      end
  | NestLoopPlan left_ right_ conds =>
      '(cr, nr) ← schema db left_;
      '(cl, nl) ← schema db right_;
      let C := cl ++ ((λ c, set_offset (col_offset c + nl) c) <$> cr) in
      if leaf left_ && leaf right_ && forallb (cond_typed C) conds then Some (C, nl + nr) else None
  | ProjectionPlan _ _ _ => None
  | ValuesPlan values col =>
      if col_fits (col_len col) (set_offset 0 col) && forallb (λ v, bool_decide (is_Some (value_tuple (col_len col) v))) values
      then Some ([set_offset 0 col], col_len col) else None
  end.
Definition columns (db : DbMeta) (p : Plan) : list ColMeta := default [] (fst <$> schema db p).

Section meaning.
Context (db : DbMeta) (T : bytes → list bytes).

(** The tuples of a plan without projection. *)
Fixpoint plan_rows (p : Plan) : list bytes :=
  match p with
  | SeqScanPlan tab conds => filter (λ t, Is_true (forallb (cond_holds (columns db p) t) conds)) (T tab)
  | NestLoopPlan left_ right_ conds =>
      filter (λ t, Is_true (forallb (cond_holds (columns db p) t) conds)) (pairs (plan_rows right_) (plan_rows left_))
  | ProjectionPlan subplan _ _ => plan_rows subplan
  | ValuesPlan values col => omap (value_tuple (col_len col)) values
  end.

(** The values of the chosen columns, of all columns without a projection. *)
Definition chosen_cols (p : Plan) : list ColMeta :=
  match p with
  | ProjectionPlan subplan sel_cols _ => omap (col_of (columns db subplan)) sel_cols
  | p => columns db p
  end.
Definition answer (p : Plan) : list (list Value) := (λ t, (λ c, field_value c t) <$> chosen_cols p) <$> plan_rows p.
End meaning.

(** A query that [select_from] can run: a projection has a column for every name it gives. *)
Definition query_typed (db : DbMeta) (p : Plan) : bool :=
  match p with
  | ProjectionPlan subplan sel_cols names =>
      match schema db subplan with
      | Some (C, _) => forallb (λ x, bool_decide (is_Some (col_of C x))) sel_cols && (length sel_cols <=? length names)%nat
      | None => false
      end
  | p => bool_decide (is_Some (schema db p))
  end.

Fixpoint plan_tables (p : Plan) : list bytes :=
  match p with
  | SeqScanPlan tab _ => [tab]
  | NestLoopPlan left_ right_ _ => plan_tables left_ ++ plan_tables right_
  | ProjectionPlan subplan _ _ => plan_tables subplan
  | ValuesPlan _ _ => []
  end.

(** ** Columns that fit *)

Lemma col_fits_more n m c : n ≤ m → col_fits n c = true → col_fits m c = true.
Proof. unfold col_fits. rewrite !andb_true_iff, !Z.leb_le. intuition lia. Qed.

Lemma col_fits_shift n k c : 0 ≤ k → col_fits n c = true → col_fits (k + n) (set_offset (col_offset c + k) c) = true.
Proof. unfold col_fits. cbn. rewrite !andb_true_iff, !Z.leb_le. intuition lia. Qed.

Lemma forallb_Forall_true {A} (f : A → bool) l : forallb f l = true ↔ Forall (λ x, f x = true) l.
Proof. rewrite forallb_forall, Forall_forall. by setoid_rewrite <-list_elem_of_In. Qed.

(** What the check of a plan says. *)
Lemma scan_schema db tab conds C n :
  schema db (SeqScanPlan tab conds) = Some (C, n) →
  ∃ tm, get_table tab db = Ok tm ∧ record_len (tab_cols tm) = Ok n ∧ check_types tm conds = Ok tt ∧ C = tab_cols tm ∧
    Forall (λ c, col_fits n c = true) C ∧ forallb (cond_typed C) conds = true.
Proof.
  cbn. destruct (get_table tab db) as [tm|?|] eqn:Htm; [|done..]. destruct (record_len _) as [k|?|] eqn:Hk; [|done..].
  destruct (check_types tm conds) as [[]|?|] eqn:Hc; [|done..]. destruct (forallb _ _) eqn:Hf; [|done].
  destruct (forallb (cond_typed _) _) eqn:Hf2; [|done]. intros [= <- <-]. exists tm. by rewrite <-forallb_Forall_true.
Qed.

Lemma join_schema db l r conds C n :
  schema db (NestLoopPlan l r conds) = Some (C, n) →
  ∃ cl nl cr nr, schema db r = Some (cl, nl) ∧ schema db l = Some (cr, nr) ∧ n = nl + nr ∧
    C = cl ++ ((λ c, set_offset (col_offset c + nl) c) <$> cr) ∧ leaf l = true ∧ leaf r = true ∧
    forallb (cond_typed C) conds = true.
Proof.
  cbn. destruct (schema db l) as [[cr nr]|]; [|done]. destruct (schema db r) as [[cl nl]|]; [|done]. cbn.
  destruct (leaf l); [|done]. destruct (leaf r); [|done]. destruct (forallb _ _) eqn:Hf; [|done]. intros [= <- <-].
  by exists cl, nl, cr, nr.
Qed.

Lemma schema_fits db p C n : schema db p = Some (C, n) → Forall (λ c, col_fits n c = true) C ∧ 0 ≤ n.
Proof.
  revert C n. induction p as [tab conds|l IHl r IHr conds|sub _ sel names|values col]; intros C n Hs; [..|done|].
  - apply scan_schema in Hs as (tm & _ & Hn & _ & -> & Hfit & _). split; [done|]. unfold record_len in Hn.
    destruct (last (tab_cols tm)) as [c|] eqn:Hl; [|done]. injection Hn as <-.
    apply last_Some_elem_of in Hl. rewrite Forall_forall in Hfit. apply Hfit, col_fits_range in Hl. lia.
  - apply join_schema in Hs as (cl & nl & cr & nr & Hr & Hl & -> & -> & _). apply IHl in Hl as [Hl ?]. apply IHr in Hr as [Hr ?].
    split; [|lia]. apply Forall_app. split.
    + eapply Forall_impl; [exact Hr|]. intros c. apply col_fits_more. lia.
    + apply Forall_fmap. eapply Forall_impl; [exact Hl|]. intros c. by apply col_fits_shift.
  - cbn in Hs. destruct (col_fits _ _) eqn:Hf; [|done]. destruct (forallb _ _); [|done]. injection Hs as <- <-.
    split; [by constructor|]. apply col_fits_range in Hf. cbn in Hf. lia.
Qed.

Lemma value_tuple_length n v t : value_tuple n v = Some t → len t = n.
Proof.
  unfold value_tuple, init_raw. destruct (raw v) as [?|]; [done|]. destruct (val_type v).
  1,2: destruct (Z.eqb_spec n 4); [|done]; by intros [= <-].
  - destruct (Z.ltb_spec n (len (str_val v))); [done|]. intros [= <-]. rewrite length_app, length_replicate. lia.
  - done.
Qed.

(** *** Projections *)

Lemma select_cols_of C sel off :
  forallb (λ x, bool_decide (is_Some (col_of C x))) sel = true →
  ∃ idxs cs, select_cols C sel off = Ok (idxs, cs, off + total (omap (col_of C) sel)) ∧
    Forall2 (λ i d, C !! i = Some d) idxs (omap (col_of C) sel) ∧ packed off cs (omap (col_of C) sel) ∧ length cs = length sel.
Proof.
  revert off. induction sel as [|x sel IH]; intros off; cbn [forallb].
  { intros _. exists [], []. cbn. rewrite Z.add_0_r. by split_and!. }
  intros [Hx%bool_decide_eq_true Hsel]%andb_true_iff. destruct Hx as [c Hc]. cbn [omap list_omap]. rewrite Hc.
  assert (∃ i, get_col C x = Ok (i, c)) as [i Hi].
  { rewrite get_col_of. unfold col_of in Hc. destruct (list_find _ _) as [[i d]|]; [|done]. injection Hc as ->. by exists i. }
  destruct (IH (off + col_len c) Hsel) as (idxs & cs & Hs & Hl & Hp & Hn). exists (i :: idxs), (set_offset off c :: cs).
  cbn [select_cols]. rewrite Hi. cbn [mbind outcome_bind]. rewrite Hs. cbn. split; [by rewrite Z.add_assoc|].
  split; [constructor; [by eapply get_col_lookup|done]|]. split; [by split_and!|by rewrite Hn].
Qed.

Lemma rename_cols_Ok cs names : (length cs ≤ length names)%nat → ∃ cs', rename_cols cs names = Ok cs'.
Proof.
  revert names. induction cs as [|c cs IH]; intros [|x names] Hl; cbn in *; [by eexists..|lia|].
  destruct (IH names) as [cs' ->]; [lia|]. by eexists.
Qed.

Lemma printed_field n t c : len t = n → col_fits n c = true → printed t c = Ok (field_value c t).
Proof.
  intros Hn Hc. assert (rd t (col_offset c) (col_len c) = Some (slice c t)) as Hrd by by apply (rd_slice n).
  assert (value_of (col_type c) (slice c t) = Ok (field_value c t)) as Hv by (apply value_of_slice; by rewrite Hn).
  unfold printed. unfold col_fits in Hc. destruct (col_type c) eqn:Ht.
  1,2: apply andb_true_iff in Hc as [_ Hc%Z.eqb_eq]; rewrite Hc in Hrd; rewrite Hrd; exact Hv.
  - rewrite Hrd. exact Hv.
  - unfold field_value. by rewrite Ht.
Qed.

Lemma printed_fields n t C : len t = n → Forall (λ c, col_fits n c = true) C → printed_cols t C = Ok ((λ c, field_value c t) <$> C).
Proof.
  intros Hn. induction 1 as [|c C Hc _ IH]; [done|]. cbn. rewrite (printed_field n) by done. cbn. by rewrite IH.
Qed.

Lemma project_length n t chosen : len t = n → Forall (λ c, col_fits n c = true) chosen → len (project chosen t) = total chosen.
Proof.
  intros Hn. induction 1 as [|c C Hc _ IH]; [done|]. unfold project in *. cbn [mbind list_bind].
  rewrite length_app, Nat2Z.inj_add, IH, (slice_length n) by done. done.
Qed.

(** The columns of a projected tuple have the values of the chosen ones. *)
Lemma printed_packed n t cs chosen pre :
  len t = n → Forall (λ c, col_fits n c = true) chosen → packed (len pre) cs chosen →
  printed_cols (pre ++ project chosen t) cs = Ok ((λ c, field_value c t) <$> chosen).
Proof.
  intros Hn H. revert cs pre. induction H as [|d chosen Hd Hall IH]; intros [|c cs] pre; try done.
  intros (Ho & Hl & Ht & Hp). cbn [printed_cols fmap list_fmap].
  assert (project (d :: chosen) t = slice d t ++ project chosen t) as -> by done.
  pose proof (slice_length n d t Hn Hd) as Hsl. pose proof (col_fits_range _ _ Hd) as Hrange.
  pose proof (project_length n t chosen Hn Hall) as Hpl.
  set (u := pre ++ slice d t ++ project chosen t).
  assert (0 ≤ total chosen) as Htot by (rewrite <-Hpl; lia).
  assert (len u = len pre + col_len d + total chosen) as Hu.
  { unfold u. rewrite !length_app. lia. }
  assert (col_fits (len u) c = true) as Hcu.
  { unfold col_fits in *. rewrite Ho, Hl, Ht, Hu. rewrite !andb_true_iff, !Z.leb_le in *. intuition lia. }
  assert (slice c u = slice d t) as Hsame.
  { pose proof (rd_slice (len u) c u eq_refl Hcu) as Hrd. rewrite Ho, Hl in Hrd. unfold u in Hrd at 1.
    rewrite rd_field in Hrd; [by injection Hrd|done|done]. }
  rewrite (printed_field (len u)) by done. cbn [mbind outcome_bind].
  assert (field_value c u = field_value d t) as -> by (unfold field_value; by rewrite Ht, Hsame).
  unfold u. rewrite app_assoc, (IH cs (pre ++ slice d t)); [done|]. by rewrite length_app, Nat2Z.inj_add, Hsl.
Qed.

Lemma length_omap {A B} (f : A → option B) (l : list A) : (length (omap f l) ≤ length l)%nat.
Proof. induction l as [|x l IH]; [done|]. cbn. destruct (f x); cbn; lia. Qed.

(** ** The executors of a plan *)

(** What the portal does with a query: it makes the executors and runs the client's loop. *)
Definition run_query {R} `{Replacer R} (txn : Z) (wait : Z → wait_point → M (Sys R) bool) (junk : Rid) (junk_bytes : bytes)
    (fuel : nat) (p : Plan) (k : nat) : M (Sys R) (list (list Value) * bool) :=
  let! e := convert_plan_executor txn wait junk junk_bytes fuel p in
  select_from (H := exec_ops txn wait junk junk_bytes fuel p) k false e.


Section plans.
Context {R : Type} `{!Replacer R, !ReplacerLaws R} (txn : Z) (s0 : Sys R) (X : list bytes).
Context (wait : Z → wait_point → M (Sys R) bool) (junk : Rid) (junk_bytes : bytes) (fuel : nat).
Abbreviation reading := (reading_at txn s0 X None).
Context (Hrely : relies txn s0 X (λ _, True) failed wait).
Context (Hs0 : sys_ok s0).
Implicit Types (s : Sys R) (p : Plan).
Abbreviation db := (sm_db s0).
Abbreviation rows := (plan_rows db (tuples s0)).
Abbreviation ops := (exec_ops txn wait junk junk_bytes fuel).
Abbreviation convert := (convert_plan_executor txn wait junk junk_bytes fuel).

(** A table is open, with records as long as its columns say. *)
Definition opened (tab : bytes) : Prop :=
  ∀ tm n, get_table tab db = Ok tm → record_len (tab_cols tm) = Ok n →
    ∃ fd h, sm_fhs s0 !! tab = Some (fd, h) ∧ record_size h = n.

(** The rounds the loops of a plan need. *)
Fixpoint plan_size p : nat :=
  match p with
  | SeqScanPlan tab _ => match sm_fhs s0 !! tab with Some (fd, h) => length (places fd h (sm_storage s0)) | None => 0 end
  | NestLoopPlan l r _ => plan_size l `max` plan_size r `max` (length (rows r) * length (rows l))
  | ProjectionPlan sub _ _ => plan_size sub
  | ValuesPlan values _ => length values
  end.

(** The tree of executors delivers the tuples of the plan. *)
Definition delivers p (C : list ColMeta) (n : Z) (I : @Enumerates (Sys R) reading failed (exec_of p) (ops p)) : Prop :=
  (∀ t, t ∈ rows p → len t = n) ∧
  ∀ s, reading s → wp (convert p)
    (λ e s', reading s' ∧ @ready _ _ _ _ _ I e (rows p) ∧ cols (Executor := ops p) e = C ∧ tupleLen (Executor := ops p) e = n) failed s.

Lemma rows_sized tab fd h t :
  sm_fhs s0 !! tab = Some (fd, h) → t ∈ tuples s0 tab → len t = record_size h.
Proof using Hs0.
  intros Hf. unfold tuples. rewrite Hf. intros (r & Hr & Ht)%list_elem_of_omap.
  destruct (place_row s0 tab fd h Hs0 Hf r Hr) as (t' & Ht' & Hl). by simplify_eq.
Qed.

Lemma scan_delivers tab conds C n :
  schema db (SeqScanPlan tab conds) = Some (C, n) → tab ∈ X → opened tab → (plan_size (SeqScanPlan tab conds) ≤ fuel)%nat →
  delivers (SeqScanPlan tab conds) C n (seq_enumerates txn s0 X _ failed wait Hrely junk fuel Hs0).
Proof using Type.
  intros Hs HX Hop Hfu. pose proof Hs as (tm & Htm & Hn & Hct & HC & Hfit & Hcs)%scan_schema.
  destruct (Hop tm n Htm Hn) as (fd & h & Hf & Hh). cbn [plan_size] in Hfu. rewrite Hf in Hfu. split.
  - cbn. intros t [_ Ht]%list_elem_of_filter. rewrite <-Hh. by eapply rows_sized.
  - intros s Hrd. cbn [convert_plan_executor]. eapply wp_SeqScanExecutor; [exact Hrely|exact Hrd|exact HX|exact Htm|exact Hf|exact Hn|exact Hct|].
    intros e s' Hrd' H1 H2 H3 H4. split; [done|]. split; [|by rewrite HC]. exists fd, h. split.
    + split; rewrite ?H1, ?H2, ?H3, <-?HC, ?Hh; done.
    + rewrite H1, H2, H3, chosen_rows. cbn [plan_rows]. unfold columns. rewrite Hs. unfold tuples. rewrite Hf. by rewrite HC.
Qed.

Lemma values_delivers values col C n :
  schema db (ValuesPlan values col) = Some (C, n) → delivers (ValuesPlan values col) C n (values_enumerates reading failed junk).
Proof using Type.
  cbn. destruct (col_fits _ _) eqn:Hf; [|done]. destruct (forallb _ _) eqn:Hv; [|done]. intros [= <- <-].
  apply forallb_Forall_true in Hv. split.
  - cbn. intros t (v & _ & Ht)%list_elem_of_omap. by eapply value_tuple_length.
  - intros s Hrd. apply wp_ret. split; [done|]. split; [|done]. cbn. unfold va_rows. cbn.
    induction Hv as [|v vs Hv _ IH]; [constructor|]. apply bool_decide_eq_true in Hv as [t Ht]. cbn. rewrite Ht.
    constructor; [done|]. apply IH.
Qed.

(** What a leaf needs to be the child of a join. *)
Definition leaf_delivers_at p C n : Prop :=
  ∃ I : @Enumerates (Sys R) reading failed (exec_of p) (ops p), @Repeatable _ _ _ _ _ I ∧ @Restartable _ _ _ _ _ I ∧ delivers p C n I.

Lemma leaf_delivers p C n :
  leaf p = true → schema db p = Some (C, n) → (∀ tab, tab ∈ plan_tables p → tab ∈ X ∧ opened tab) → (plan_size p ≤ fuel)%nat →
  leaf_delivers_at p C n.
Proof using Hrely Hs0.
  intros Hp Hs Hop Hfu. destruct p as [tab conds| | |values col]; [|done|done|].
  - exists (seq_enumerates txn s0 X _ failed wait Hrely junk fuel Hs0). split; [apply seq_repeatable|]. split; [apply seq_restartable|].
    destruct (Hop tab) as [HX Ho]; [by left|]. by apply scan_delivers.
  - exists (values_enumerates reading failed junk). split; [apply values_repeatable|]. split; [apply values_restartable|].
    by apply values_delivers.
Qed.

Lemma join_delivers l r conds C n :
  schema db (NestLoopPlan l r conds) = Some (C, n) → (∀ tab, tab ∈ plan_tables (NestLoopPlan l r conds) → tab ∈ X ∧ opened tab) →
  (plan_size (NestLoopPlan l r conds) ≤ fuel)%nat →
  ∃ I, delivers (NestLoopPlan l r conds) C n I.
Proof using Hrely Hs0.
  intros Hs Hop Hfu. pose proof Hs as (cl & nl & cr & nr & Hr & Hl & Hn & HC & Hll & Hlr & Hcs)%join_schema. cbn in Hfu.
  destruct (leaf_delivers l cr nr) as (Il & _ & Hl2 & Hls & Hl3); [done|done|intros; apply Hop; cbn; set_solver|lia|].
  destruct (leaf_delivers r cl nl) as (Ir & Hr1 & _ & Hrs & Hr3); [done|done|intros; apply Hop; cbn; set_solver|lia|].
  exists (@join_enumerates _ _ _ (ops r) (ops l) reading failed Ir Il Hr1 Hl2 junk fuel).
  assert (∀ t, t ∈ pairs (rows r) (rows l) → len t = n) as Hlen.
  { intros t (a & b & Ha & Hb & ->)%elem_of_pairs. rewrite length_app. specialize (Hls b Hb). specialize (Hrs a Ha). lia. }
  pose proof (schema_fits _ _ _ _ Hs) as [Hfit _].
  assert (∀ t, t ∈ pairs (rows r) (rows l) → eval_condition C conds t = Ok (forallb (cond_holds C t) conds)) as Heval.
  { intros t Ht. apply eval_typed; [by rewrite Hlen|done]. }
  assert (rows (NestLoopPlan l r conds) =
    filter (λ t, Is_true (forallb (cond_holds C t) conds)) (pairs (rows r) (rows l))) as Hrows.
  { cbn [plan_rows]. unfold columns. by rewrite Hs. }
  split.
  - rewrite Hrows. intros t [_ Ht]%list_elem_of_filter. by apply Hlen.
  - intros s Hrd. rewrite Hrows. cbn [convert_plan_executor]. apply wp_bind. eapply wp_mono; [by apply Hl3|]. intros el s1 (Hrd1 & Hrl & Hcl & Hnl).
    apply wp_bind. eapply wp_mono; [by apply Hr3|]. intros er s2 (Hrd2 & Hrr & Hcr & Hnr).
    apply wp_ret. split; [done|]. cbn. rewrite Hcl, Hcr, Hnl, Hnr. split; [|by rewrite HC, Hn].
    exists (rows r), (rows l). cbn. rewrite Hcr, Hcl, Hnr, <-HC. split_and!; [done|done|done|done| |].
    + split; cbn; rewrite ?Hcr, ?Hcl, ?Hnr, <-?HC; [|lia]. intros t Ht. eexists. by apply Heval.
    + unfold join_rows. apply filter_ext_elem. intros t Ht. unfold holds. by rewrite Heval.
Qed.

(** A plan without projection. *)
Lemma core_delivers p C n :
  schema db p = Some (C, n) → (∀ tab, tab ∈ plan_tables p → tab ∈ X ∧ opened tab) → (plan_size p ≤ fuel)%nat → ∃ I, delivers p C n I.
Proof using Hrely Hs0.
  intros Hs Hop Hfu. destruct p as [tab conds|l r conds|sub sel names|values col]; [| |done|].
  - destruct (leaf_delivers (SeqScanPlan tab conds) C n) as (I & _ & _ & HI); [done..|]. by exists I.
  - by apply join_delivers.
  - destruct (leaf_delivers (ValuesPlan values col) C n) as (I & _ & _ & HI); [done..|]. by exists I.
Qed.

Lemma rows_size p : (length (rows p) ≤ plan_size p)%nat.
Proof using Type.
  induction p as [tab conds|l IHl r IHr conds|sub IH sel names|values col]; cbn [plan_rows plan_size].
  - etrans; [apply length_filter|]. unfold tuples. destruct (sm_fhs s0 !! tab) as [[fd h]|]; [apply length_omap|done].
  - etrans; [apply length_filter|]. rewrite length_pairs. lia.
  - done.
  - apply length_omap.
Qed.

Abbreviation run p k := (run_query txn wait junk junk_bytes fuel p k).

(** The answer of a plan without projection, and of a projection of one. *)
Lemma wp_query_core p C n s :
  schema db p = Some (C, n) → (∀ tab, tab ∈ plan_tables p → tab ∈ X ∧ opened tab) → (plan_size p ≤ fuel)%nat → reading s →
  wp (run p fuel) (λ r s', reading s' ∧ r = ((λ t, (λ c, field_value c t) <$> C) <$> rows p, false)) failed s.
Proof using Hrely Hs0.
  intros Hs Hop Hfu Hrd. destruct (core_delivers p C n Hs Hop Hfu) as (I & Hlen & Hconv).
  pose proof (schema_fits _ _ _ _ Hs) as [Hfit _].
  apply wp_bind. eapply wp_mono; [by apply Hconv|]. intros e s1 (Hrd1 & Hr & HC & _).
  eapply (@wp_select_from _ _ (ops p) reading failed I); [exact Hr|done| |pose proof (rows_size p); lia].
  rewrite HC. unfold prints. apply Forall2_fmap_r, Forall_Forall2_diag, Forall_forall. intros t Ht.
  apply (printed_fields n); [by apply Hlen|done].
Qed.

Lemma wp_query_projection p C n sel names s :
  schema db p = Some (C, n) → forallb (λ x, bool_decide (is_Some (col_of C x))) sel = true → (length sel ≤ length names)%nat →
  (∀ tab, tab ∈ plan_tables p → tab ∈ X ∧ opened tab) → (plan_size p ≤ fuel)%nat → reading s →
  wp (run (ProjectionPlan p sel names) fuel)
    (λ r s', reading s' ∧ r = ((λ t, (λ c, field_value c t) <$> omap (col_of C) sel) <$> rows p, false)) failed s.
Proof using Hrely Hs0.
  intros Hs Hsel Hnames Hop Hfu Hrd. destruct (core_delivers p C n Hs Hop Hfu) as (I & Hlen & Hconv).
  pose proof (schema_fits _ _ _ _ Hs) as [Hfit _]. set (chosen := omap (col_of C) sel).
  destruct (select_cols_of C sel 0 Hsel) as (idxs & cs & Hsc & Hlook & Hpack & Hlcs). fold chosen in Hsc, Hlook, Hpack.
  destruct (rename_cols_Ok cs names) as [cs' Hren]; [lia|]. pose proof (rename_cols_packed _ _ _ _ _ Hren Hpack) as Hpack'.
  assert (Forall (λ c, col_fits n c = true) chosen) as Hcf.
  { apply Forall_forall. intros c (x & _ & Hx)%list_elem_of_omap. unfold col_of in Hx.
    apply fmap_Some in Hx as ([i d] & Hf & ->). apply list_find_Some in Hf as (Hi & _). by apply (Forall_lookup_1 _ _ _ _ Hfit Hi). }
  apply wp_bind. cbn [convert_plan_executor]. apply wp_bind. eapply wp_mono; [by apply Hconv|].
  intros e s1 (Hrd1 & Hr & HC & Hn). unfold ProjectionExecutor.
  eapply wp_of_outcome; [rewrite HC, Hsc; cbn [mbind outcome_bind]; by rewrite Hren|].
  assert (prints cs' (project chosen <$> rows p) ((λ t, (λ c, field_value c t) <$> chosen) <$> rows p)) as Hprints.
  { apply Forall2_fmap, Forall_Forall2_diag, Forall_forall. intros t Ht.
    apply (printed_packed n t cs' chosen []); [by apply Hlen|done|done]. }
  eapply wp_mono.
  { eapply (@wp_select_from _ _ (ops (ProjectionPlan p sel names)) reading failed (projection_enumerates (H := ops p) reading failed junk_bytes));
      [|exact Hrd1|exact Hprints|].
    - exists (rows p), chosen. cbn [pr_prev]. split; [exact Hr|]. split; [|split; [|done]].
      + split; cbn; [by rewrite HC|done|done|by rewrite Hn].
      + intros t Ht. cbn. rewrite Hn. by apply Hlen.
    - rewrite length_fmap. pose proof (rows_size p). lia. }
  done.
Qed.
End plans.

(** C4: Queries answer what they mean.  A plan over sequential scans, lists of values, joins
    of two of these and at most one projection on top, whose conditions are typed, run by a
    transaction in a state with open tables and consistent locks, while the tables of the
    plan keep their rows when a lock call waits: with fuel for the pairs of its tuples, the
    executors and the client's loop return, or meet an error of the file system or the abort
    of the transaction.  What they return is the answer of relational algebra: the chosen
    columns of the pairs of tuples that satisfy the conditions, in the order of the places of
    the rows.  The rows, the locks' invariant and the catalogue are as before. *)
Theorem query_answers {R} `{!Replacer R, !ReplacerLaws R} (txn : Z) (s0 : Sys R) wait junk junk_bytes fuel (p : Plan) :
  (∀ w s, reading_at txn s0 (plan_tables p) (Some w) s →
     wp (wait txn w) (λ _ s', reading_at txn s0 (plan_tables p) None s') failed s) →
  reading_at txn s0 (plan_tables p) None s0 → query_typed (sm_db s0) p = true →
  (∀ tab, tab ∈ plan_tables p → opened s0 tab) → (plan_size s0 p ≤ fuel)%nat →
  wp (run_query txn wait junk junk_bytes fuel p fuel)
    (λ r s', r = (answer (sm_db s0) (tuples s0) p, false) ∧ reading_at txn s0 (plan_tables p) None s') failed s0.
Proof.
  intros Hwait%failed_relies Hrd Hty Hop Hfu. pose proof (rg_ok _ _ _ _ _ _ Hrd) as Hs0.
  assert (∀ q, plan_tables q = plan_tables p → ∀ tab, tab ∈ plan_tables q → tab ∈ plan_tables p ∧ opened s0 tab) as Hops.
  { intros q -> tab Ht. split; [done|by apply Hop]. }
  assert (∀ C n, schema (sm_db s0) p = Some (C, n) → wp (run_query txn wait junk junk_bytes fuel p fuel)
    (λ r s', r = ((λ t, (λ c, field_value c t) <$> C) <$> plan_rows (sm_db s0) (tuples s0) p, false) ∧
      reading_at txn s0 (plan_tables p) None s') failed s0) as Hcore.
  { intros C n Hs. eapply wp_mono; [eapply (wp_query_core txn s0 (plan_tables p)); [done|done|done|by apply Hops|done|done]|].
    intros r s' [? ?]. done. }
  unfold query_typed in Hty. unfold answer. destruct p as [tab conds|l r conds|sub sel names|values col].
  1,2,4: apply bool_decide_eq_true in Hty as [[C n] Hs]; unfold chosen_cols, columns; rewrite Hs; by eapply Hcore.
  destruct (schema (sm_db s0) sub) as [[C n]|] eqn:Hs; [|done]. apply andb_true_iff in Hty as [Hsel Hn%Nat.leb_le].
  eapply wp_mono; [eapply (wp_query_projection txn s0 (plan_tables (ProjectionPlan sub sel names)));
    [done|done|exact Hs|exact Hsel|exact Hn|by apply (Hops sub)|done|done]|].
  intros r s' [? ->]. split; [|done]. cbn [chosen_cols plan_rows]. unfold columns. by rewrite Hs.
Qed.

(** ** A witness: a table joined with itself *)

#[local] Existing Instance LRU.lru_replacer.
#[local] Existing Instance LRU.lru_laws.

Definition demo_cols : list ColMeta :=
  [mkCol [116] [97] TYPE_INT 4 0 false; mkCol [116] [98] TYPE_STRING 96 4 false].
(** The database of Rollback.v, with columns. *)
Definition demo_query_sys : Sys LRU.LRUReplacer :=
  mkSys (mkDbMeta [100] [([116], mkTab [116] demo_cols [])]) (sm_fhs demo_sys) ∅ ∅ (sm_storage demo_sys) (sm_locks demo_sys) (sm_txns demo_sys).
Definition demo_wait (txn : Z) (w : wait_point) : M (Sys LRU.LRUReplacer) bool :=
  throw (TransactionAbortException txn DEADLOCK_PREVENTION).
(** SELECT a AS x FROM t, t WHERE a = a AND a > 5 *)
Definition demo_plan : Plan :=
  ProjectionPlan
    (NestLoopPlan (SeqScanPlan [116] [mkCond (mkTabCol [116] [97]) OP_GT true (mkTabCol [] []) (mkValue TYPE_INT 5 [] None)])
       (SeqScanPlan [116] [])
       [mkCond (mkTabCol [116] [97]) OP_EQ false (mkTabCol [116] [97]) (mkValue TYPE_INT 0 [] None)])
    [mkTabCol [116] [97]] [mkTabCol [] [120]].
Definition demo_answer : list (list Value) := Eval vm_compute in answer (sm_db demo_query_sys) (tuples demo_query_sys) demo_plan.

Lemma demo_reading : reading_at 1 demo_query_sys (plan_tables demo_plan) None demo_query_sys.
Proof.
  split.
  - destruct demo_sys_ok as [H1 H2 H3]. split; [exact H1|exact H2|exact H3].
  - reflexivity.
  - intros tab fd h _ Hf. exists h. split; [exact Hf|]. apply same_layout_refl.
  - reflexivity.
  - exists (waiting demo_locked). split; [apply demo_may_end|apply demo_may_end].
  - exists demo_T. apply demo_may_end.
  - exact I.
Qed.

Lemma query_answers_witness :
  wp (run_query 1 demo_wait (mkRid 0 0) [] 4 demo_plan 4)
    (λ r s', r = (answer (sm_db demo_query_sys) (tuples demo_query_sys) demo_plan, false) ∧
       reading_at 1 demo_query_sys (plan_tables demo_plan) None s') failed demo_query_sys ∧
  (run_query 1 demo_wait (mkRid 0 0) [] 4 demo_plan 4 demo_query_sys).1 = Ok (demo_answer, false) ∧ demo_answer ≠ [].
Proof.
  split_and!.
  - apply (query_answers 1 demo_query_sys demo_wait (mkRid 0 0) [] 4 demo_plan).
    + intros w s _. apply failed_abort.
    + exact demo_reading.
    + vm_compute. reflexivity.
    + intros tab Htab tm n Htm Hn. assert (tab = [116]) as ->.
      { unfold plan_tables, demo_plan in Htab. rewrite elem_of_app, !list_elem_of_singleton in Htab. by destruct Htab. }
      exists 3, demo_inserted.1. split; [reflexivity|]. injection Htm as <-. injection Hn as <-. vm_compute. reflexivity.
    + apply (bool_decide_unpack _). vm_compute. exact I.
  - vm_compute. reflexivity.
  - discriminate.
Defined.
