(* ===== verification/Dml.v ===== *)
(** * The executors that change data (src/src/execution/)

    INSERT, DELETE and UPDATE (executor_insert.h, executor_delete.h, executor_update.h),
    with what the portal (portal.h) and the server (rmdb.cpp) make of a statement: the rows
    that a DELETE or an UPDATE works on are collected by a scan first, and a statement that
    aborts its transaction has it rolled back. *)
From S2P Require Import Prelude Bytes Disk Log Replacer BufferPool Record Recovery Streams Meta Keys IxNode Index Txn Lock System TxnManager Exec.
From Stdlib Require Import Floats.SpecFloat.

(** ** Values to bytes *)

Record SetClause := mkSet { lhs : TabCol; rhs : Value }.

(** The bits of a [float]. *)
Definition bits_of_float (f : spec_float) : Z :=
  let sign (s : bool) := if s then 2 ^ 31 else 0 in
  match f with
  | S754_zero s => sign s
  | S754_infinity s => sign s + 255 * 2 ^ 23
  | S754_nan => 255 * 2 ^ 23 + 2 ^ 22
  | S754_finite s m e =>
      sign s + (if Z.pos m <? 2 ^ 23 then Z.pos m else (e + 150) * 2 ^ 23 + (Z.pos m - 2 ^ 23))
  end.

(** [val.type = TYPE_FLOAT; val.float_val = val.int_val] where an INT goes to a FLOAT column. *)
Definition coerce (type : ColType) (val : Value) : outcome Value :=
  if decide (type = val_type val) then Ok val else
  match type, val_type val with
  | TYPE_FLOAT, TYPE_INT => Ok (set_float (bits_of_float (float_of_int (int_val val))) val)
  | _, _ => Throw IncompatibleTypeError
  end.

(** [val.init_raw(col.len); memcpy(rec.data + col.offset, val.raw->data, col.len)] *)
Definition store_value (col : ColMeta) (val : Value) (rec : bytes) : outcome (Value * bytes) :=
  val ← init_raw (col_len col) val;
  data ← or_stuck (raw val);
  bs ← or_stuck (rd data 0 (col_len col));
  rec ← or_stuck (wr rec (col_offset col) bs);
  Ok (val, rec).

(** The loop of [InsertExecutor::Next] over the values, which it changes. *)
Fixpoint fill_record (cols : list ColMeta) (values : list Value) (rec : bytes) : outcome (list Value * bytes) :=
  match values, cols with
  | [], _ => Ok ([], rec)
  | _, [] => Stuck
  | val :: values, col :: cols =>
      val ← coerce (col_type col) val;
      '(val, rec) ← store_value col val rec;
      '(values, rec) ← fill_record cols values rec;
      Ok (val :: values, rec)
  end.

(** The loop of [UpdateExecutor::Next] over its clauses, with a copy of each value. *)
Fixpoint apply_clauses (cols : list ColMeta) (clauses : list SetClause) (rec : bytes) : outcome bytes :=
  match clauses with
  | [] => Ok rec
  | clause :: clauses =>
      '(_, col) ← or_stuck (list_find (λ c, col_name c = tc_col_name (lhs clause)) cols);
      '(_, rec) ← store_value col (rhs clause) rec;
      apply_clauses cols clauses rec
  end.

(** ** The executors *)

Record InsertRows := mkInsert {
  in_tab : TabMeta;
  in_values : list Value;
  in_tab_name : bytes;
  in_rid : Rid;
}.
Record DeleteRows := mkDelete {
  de_tab : TabMeta;
  de_conds : list Condition;
  de_rids : list Rid;
  de_tab_name : bytes;
}.
Record UpdateRows := mkUpdate {
  up_tab : TabMeta;
  up_conds : list Condition;
  up_rids : list Rid;
  up_tab_name : bytes;
  set_clauses : list SetClause;
}.

(** [try { m } catch (IndexEntryExistsError &) { handler }] *)
Definition on_exists {S A} (m handler : M S A) : M S A := λ s,
  match m s with
  | (Throw IndexEntryExistsError, s') => handler s'
  | r => r
  end.

Section dml.
Context {R : Type} `{Replacer R}.
Abbreviation Sys := (Sys R).
Context (txn : Z) (wait : Z → wait_point → M Sys bool) (junk : Rid) (junk_bytes : bytes).

Definition append_write (w : WriteRecord) : M Sys unit := on_locks (mod_txn txn (append_write_record w)).

(** The statement cannot keep a unique index: the transaction has to be rolled back. *)
Definition violated {A} : M Sys A :=
  do! on_locks (mod_txn txn (set_state ABORTED)) in
  let! T := on_locks (get_txn txn) in
  throw (TransactionAbortException (txn_id_ T) CONSTRAINT_VIOLATION).

(** The last step for a row: its log record, with the header of the file as it is now. *)
Definition log_row (tab_name : bytes) (value : bytes) (rid : Rid) (mk : Z → Z → RowLog → LogRecord) : M Sys unit :=
  let! T := on_locks (get_txn txn) in
  let! o := gets (λ s, s_log (sm_storage s)) in
  let! lm := of_option o in
  do! on_locks (mod_txn txn (set_prev_lsn (global_lsn_ lm))) in
  let! h := on_fh tab_name (λ _, gets fst) in
  let! _ := on_pages (add_log (mk (txn_id_ T) (prev_lsn T) (mkRow value rid tab_name (first_free_page_no h) (num_pages h)))) in
  ret tt.

(** A table without indexes is locked as a whole. *)
Definition lock_table (tab : TabMeta) (fd : Z) : M Sys bool :=
  lock_call txn wait (match tab_indexes tab with [] => lock_exclusive_on_table txn fd | _ => lock_IX_on_table txn fd end).

(** The exclusive lock on a row, for a change of the index [ih] at [key]. *)
Definition lock_key (tab_name : bytes) (rid : Rid) (key : bytes) (index : IndexMeta) (ih : Z) : M Sys bool :=
  let! fd := GetFd tab_name in
  lock_call txn wait (lock_exclusive_on_record_gap txn rid fd key index ih).

(** *** INSERT *)

Definition InsertExecutor (tab_name : bytes) (values : list Value) : M Sys InsertRows :=
  let! tab := table_meta tab_name in
  if decide (length values = length (tab_cols tab)) then
    let! _ := fh_at tab_name in
    ret (mkInsert tab values tab_name junk)
  else throw InvalidValueCountError.

Definition insert_in_index (tab : TabMeta) (tab_name_ : bytes) (rec : bytes) (rid : Rid) (index : IndexMeta) : M Sys unit :=
  let! ih := ih_of tab_name_ index in
  let! key := of_outcome (key_of junk_bytes tab index rec) in
  do! lock_key tab_name_ rid key index ih in
  on_exists
    (let! _ := on_ih ih (IxIndexHandle.insert_entry ih IX_FUEL key rid) in ret tt)
    (do! on_fh tab_name_ (λ fd, delete_record fd rid true) in
     do! on_locks (mod_txn txn (λ T, set_write_set (removelast (write_set_ T)) T)) in
     violated).

Definition in_Next (e : InsertRows) : M Sys (option bytes * InsertRows) :=
  let! fd := GetFd (in_tab_name e) in
  do! lock_table (in_tab e) fd in
  let! size := on_fh (in_tab_name e) (λ _, gets (λ t, record_size t.1)) in
  let! filled := of_outcome (fill_record (tab_cols (in_tab e)) (in_values e) (new_buf junk_bytes size)) in
  let '(values, rec) := filled in
  let! rid := on_fh (in_tab_name e) (λ fd, insert_record fd rec true) in
  do! append_write (mkWrite INSERT_TUPLE (tab_name (in_tab e)) rid (Some rec) None) in
  do! for_each (insert_in_index (in_tab e) (in_tab_name e) rec rid) (tab_indexes (in_tab e)) in
  do! log_row (in_tab_name e) rec rid InsertLogRecord in
  ret (None, mkInsert (in_tab e) values (in_tab_name e) rid).

(** *** DELETE *)

Definition DeleteExecutor (tab_name : bytes) (conds : list Condition) (rids : list Rid) : M Sys DeleteRows :=
  let! tab := table_meta tab_name in
  let! fd := fh_at tab_name in
  do! lock_table tab fd in
  ret (mkDelete tab conds rids tab_name).

Definition delete_from_index (tab : TabMeta) (tab_name_ : bytes) (rec : bytes) (rid : Rid) (index : IndexMeta) : M Sys unit :=
  let! ih := ih_of tab_name_ index in
  let! key := of_outcome (key_of junk_bytes tab index rec) in
  do! lock_key tab_name_ rid key index ih in
  let! _ := on_ih ih (IxIndexHandle.delete_entry ih IX_FUEL key) in ret tt.

Definition delete_one (e : DeleteRows) (rid : Rid) : M Sys unit :=
  let! tuple := fh_get_record txn wait true (de_tab_name e) rid in
  let! b := of_outcome (eval_condition (tab_cols (de_tab e)) (de_conds e) tuple) in
  do! (if b : bool then
         do! on_fh (de_tab_name e) (λ fd, delete_record fd rid true) in
         append_write (mkWrite DELETE_TUPLE (tab_name (de_tab e)) rid (Some tuple) None)
       else ret tt) in
  do! for_each (delete_from_index (de_tab e) (de_tab_name e) tuple rid) (tab_indexes (de_tab e)) in
  log_row (de_tab_name e) tuple rid DeleteLogRecord.

Definition de_Next (e : DeleteRows) : M Sys (option bytes * DeleteRows) :=
  do! for_each (delete_one e) (de_rids e) in ret (None, e).

(** *** UPDATE *)

Definition UpdateExecutor (tab_name : bytes) (clauses : list SetClause) (conds : list Condition) (rids : list Rid) :
    M Sys UpdateRows :=
  let! tab := table_meta tab_name in
  let! fd := fh_at tab_name in
  do! lock_call txn wait (lock_exclusive_on_table txn fd) in
  ret (mkUpdate tab conds rids tab_name clauses).

(** The entry of the old row goes, that of the new one comes; without room for it the old
    entries of the indexes up to this one ([before] and [index]) are put back. *)
Fixpoint update_indexes (tab : TabMeta) (tab_name_ : bytes) (old new : bytes) (rid : Rid) (before indexes : list IndexMeta) :
    M Sys unit :=
  match indexes with
  | [] => ret tt
  | index :: indexes =>
      let! ih := ih_of tab_name_ index in
      let! old_key := of_outcome (key_of junk_bytes tab index old) in
      let! new_key := of_outcome (key_of junk_bytes tab index new) in
      do! on_exists
        (let! _ := on_ih ih (IxIndexHandle.delete_entry ih IX_FUEL old_key) in
         let! _ := on_ih ih (IxIndexHandle.insert_entry ih IX_FUEL new_key rid) in ret tt)
        (do! for_each (λ index,
           let! ih := ih_of tab_name_ index in
           let! key := of_outcome (key_of junk_bytes tab index old) in
           let! _ := on_ih ih (IxIndexHandle.insert_entry ih IX_FUEL key rid) in ret tt) (before ++ [index]) in
         violated) in
      update_indexes tab tab_name_ old new rid (before ++ [index]) indexes
  end.

Definition update_one (e : UpdateRows) (rid : Rid) : M Sys unit :=
  let! tuple := fh_get_record txn wait true (up_tab_name e) rid in
  let! b := of_outcome (eval_condition (tab_cols (up_tab e)) (up_conds e) tuple) in
  if negb b then ret tt else
  let! new_rec := of_outcome (apply_clauses (tab_cols (up_tab e)) (set_clauses e) tuple) in
  do! update_indexes (up_tab e) (up_tab_name e) tuple new_rec rid [] (tab_indexes (up_tab e)) in
  do! on_fh (up_tab_name e) (λ fd, update_record fd rid new_rec true) in
  do! append_write (mkWrite UPDATE_TUPLE (up_tab_name e) rid (Some new_rec) (Some tuple)) in
  log_row (up_tab_name e) new_rec rid (λ id prev row, UpdateLogRecord id prev tuple row).

Definition up_Next (e : UpdateRows) : M Sys (option bytes * UpdateRows) :=
  do! for_each (update_one e) (up_rids e) in ret (None, e).
End dml.

(** ** Statements *)

(** The plans of statements that change data. *)
Inductive DMLPlan : Type :=
  | InsertPlan (tab_name_ : bytes) (values_ : list Value)
  | DeletePlan (subplan_ : Plan) (tab_name_ : bytes) (conds_ : list Condition)
  | UpdatePlan (subplan_ : Plan) (tab_name_ : bytes) (conds_ : list Condition) (set_clauses_ : list SetClause).

Inductive DMLExecutor : Type :=
  | InsertExec (e : InsertRows)
  | DeleteExec (e : DeleteRows)
  | UpdateExec (e : UpdateRows).

(** [for (scan->beginTuple(); !scan->is_end(); scan->nextTuple()) rids.push_back(scan->rid())] *)
Section rids.
Context {St E : Type} `{Executor St E}.
Fixpoint rids_loop (fuel : nat) (e : E) : M St (list Rid) :=
  if is_end e then ret [] else
  match fuel with
  | O => stuck
  | S fuel =>
      let rid := exec_rid e in
      let! e' := nextTuple e in
      let! rids := rids_loop fuel e' in
      ret (rid :: rids)
  end.
Definition collect_rids (fuel : nat) (scan : E) : M St (list Rid) :=
  let! e := beginTuple scan in rids_loop fuel e.
End rids.

(** What the client hears of a statement; [what] is the message of an [RMDBError]. *)
Inductive reply : Type := Done | Aborted | Failure (what : exn).

Definition is_RMDBError (e : exn) : bool :=
  match e with RuntimeError _ | OutOfRange | TransactionAbortException _ _ => false | _ => true end.

Section statements.
Context {R : Type} `{Replacer R}.
Abbreviation Sys := (Sys R).
Context (txn : Z) (wait : Z → wait_point → M Sys bool) (junk : Rid) (junk_bytes : bytes) (fuel : nat).
Context (order : gset LockDataId → list LockDataId).

(** The scan of a statement, run to its end. *)
Definition rids_of_plan (p : Plan) : M Sys (list Rid) :=
  let! scan := convert_plan_executor txn wait junk junk_bytes fuel p in
  collect_rids (H := exec_ops txn wait junk junk_bytes fuel p) fuel scan.

(** [Portal::start] *)
Definition portal_start (p : DMLPlan) : M Sys DMLExecutor :=
  match p with
  | UpdatePlan subplan_ tab_name_ conds_ set_clauses_ =>
      let! rids := rids_of_plan subplan_ in
      let! e := UpdateExecutor txn wait tab_name_ set_clauses_ conds_ rids in ret (UpdateExec e)
  | DeletePlan subplan_ tab_name_ conds_ =>
      let! rids := rids_of_plan subplan_ in
      let! e := DeleteExecutor txn wait tab_name_ conds_ rids in ret (DeleteExec e)
  | InsertPlan tab_name_ values_ =>
      let! e := InsertExecutor junk tab_name_ values_ in ret (InsertExec e)
  end.

(** [QlManager::run_dml] *)
Definition run_dml (e : DMLExecutor) : M Sys unit :=
  match e with
  | InsertExec e => let! _ := in_Next txn wait junk_bytes e in ret tt
  | DeleteExec e => let! _ := de_Next txn wait junk_bytes e in ret tt
  | UpdateExec e => let! _ := up_Next txn wait junk_bytes e in ret tt
  end.

(** The statement from its plan to the end of the executor. *)
Definition execute (p : DMLPlan) : M Sys unit := let! e := portal_start p in run_dml e.

(** The [try] of [client_handler]; an exception that is no [RMDBError] ends the server. *)
Definition handle (m : M Sys unit) : M Sys reply := λ s,
  match m s with
  | (Ok _, s') => (Ok Done, s')
  | (Throw (TransactionAbortException _ _), s') => (do! abort order junk_bytes txn in ret Aborted) s'
  | (Throw e, s') => if is_RMDBError e then (Ok (Failure e), s') else (Throw e, s')
  | (Stuck, s') => (Stuck, s')
  end.

(** A statement of the client, and the commit behind it where it is not in a transaction
    the client began. *)
Definition run_statement (p : DMLPlan) : M Sys reply :=
  let! r := handle (execute p) in
  let! T := on_locks (get_txn txn) in
  do! (if txn_mode_ T then ret tt else commit order txn) in
  ret r.
End statements.
