(* ===== verification/Tuples.v ===== *)
(** * The tuples that INSERT and UPDATE make

    Values go into records at the offsets of their columns: what a value needs for that, and
    what the columns of the new tuple hold. *)
From Stdlib Require Import Floats.SpecFloat.
From S2P Require Import Prelude Bytes Disk Log Replacer BufferPool Record Scan Meta System Rollback Exec ExecLaws ExecTypes Dml.

(** ** The float nearest to an INT *)

Lemma digits2_bounds m : 2 ^ (Zpos (digits2_pos m) - 1) ≤ Zpos m < 2 ^ Zpos (digits2_pos m).
Proof.
  induction m as [m IH|m IH|]; cbn [digits2_pos]; [..|by cbn].
  all: rewrite Pos2Z.inj_succ; replace (Z.succ (Zpos (digits2_pos m)) - 1) with (Zpos (digits2_pos m)) by lia.
  all: rewrite Z.pow_succ_r by lia; replace (Zpos (digits2_pos m)) with (Z.succ (Zpos (digits2_pos m) - 1)) at 1 by lia.
  all: rewrite Z.pow_succ_r by lia; lia.
Qed.

Lemma digits2_unique m d : 0 < d → 2 ^ (d - 1) ≤ Zpos m < 2 ^ d → Zpos (digits2_pos m) = d.
Proof.
  intros Hd H. pose proof (digits2_bounds m) as H'. set (k := Zpos (digits2_pos m)) in *.
  destruct (Z.lt_trichotomy k d) as [Hlt|[?|Hgt]]; [|done|].
  - pose proof (Z.pow_le_mono_r 2 k (d - 1)). lia.
  - pose proof (Z.pow_le_mono_r 2 d (k - 1)). lia.
Qed.

Lemma shr_1_half r : 0 ≤ shr_m r → shr_m (shr_1 r) = shr_m r / 2.
Proof.
  destruct r as [[|[p|p|]|p] r s]; cbn -[Z.div]; intros H; [done| | |done|lia].
  - apply (Z.div_unique _ 2 _ 1); lia.
  - apply (Z.div_unique _ 2 _ 0); lia.
Qed.

Lemma shr_iter p r : 0 ≤ shr_m r → shr_m (SpecFloat.iter_pos shr_1 p r) = shr_m r / 2 ^ Zpos p.
Proof.
  revert r. induction p as [p IH|p IH|]; intros r Hr; cbn [SpecFloat.iter_pos].
  - assert (0 ≤ shr_m (shr_1 r)) as H1 by (rewrite shr_1_half by done; apply Z.div_pos; lia).
    assert (0 ≤ shr_m (SpecFloat.iter_pos shr_1 p (shr_1 r))) as H2 by (rewrite IH by done; apply Z.div_pos; lia).
    rewrite IH, IH, shr_1_half by done. rewrite !Z.div_div by lia. f_equal.
    replace (Zpos p~1) with (Zpos p + Zpos p + 1) by lia. rewrite !Z.pow_add_r by lia. change (2 ^ 1) with 2. ring.
  - assert (0 ≤ shr_m (SpecFloat.iter_pos shr_1 p r)) as H2 by (rewrite IH by done; apply Z.div_pos; lia).
    rewrite IH, IH by done. rewrite Z.div_div by lia. f_equal.
    replace (Zpos p~0) with (Zpos p + Zpos p) by lia. rewrite Z.pow_add_r by lia. ring.
  - by apply shr_1_half.
Qed.

(** The finite floats that are not subnormal. *)
Definition normal (m : positive) (e : Z) : Prop := 2 ^ 23 ≤ Zpos m < 2 ^ 24 ∧ -149 ≤ e ≤ 104.

Lemma float_bits_roundtrip s m e : normal m e →
  0 ≤ bits_of_float (S754_finite s m e) < 2 ^ 32 ∧ float_of_bits (bits_of_float (S754_finite s m e)) = S754_finite s m e.
Proof.
  intros [Hm He]. cbn -[Z.pow Z.mul]. destruct (Z.ltb_spec (Zpos m) (2 ^ 23)); [lia|].
  set (g := (e + 150) * 2 ^ 23 + (Zpos m - 2 ^ 23)).
  assert (0 ≤ g < 2 ^ 31) as Hg by (unfold g; lia).
  assert ((if s then 2 ^ 31 else 0) + g = (if s then 1 else 0) * 2 ^ 31 + g) as -> by (destruct s; lia).
  set (b := if s then 1 else 0). assert (0 ≤ b ≤ 1) as Hb by (unfold b; destruct s; lia).
  split; [lia|]. unfold float_of_bits.
  assert (Z.testbit (b * 2 ^ 31 + g) 31 = s) as ->.
  { apply eq_true_iff_eq. rewrite Z.testbit_true by lia. rewrite Z.div_add_l, (Z.div_small g) by lia.
    unfold b. by destruct s. }
  assert (Z.shiftr (b * 2 ^ 31 + g) 23 mod 256 = e + 150) as ->.
  { rewrite Z.shiftr_div_pow2 by lia. replace (b * 2 ^ 31 + g) with ((b * 256 + (e + 150)) * 2 ^ 23 + (Zpos m - 2 ^ 23)) by lia.
    rewrite Z.div_add_l, (Z.div_small (Zpos m - 2 ^ 23)) by lia. rewrite Z.add_0_r, Z.add_comm, Z.mod_add by lia.
    apply Z.mod_small. lia. }
  assert ((b * 2 ^ 31 + g) mod 2 ^ 23 = Zpos m - 2 ^ 23) as ->.
  { replace (b * 2 ^ 31 + g) with (Zpos m - 2 ^ 23 + (b * 256 + (e + 150)) * 2 ^ 23) by lia.
    rewrite Z.mod_add by lia. apply Z.mod_small. lia. }
  destruct (Z.eqb_spec (e + 150) 255); [lia|]. destruct (Z.eqb_spec (e + 150) 0); [lia|].
  replace (Zpos m - 2 ^ 23 + 2 ^ 23) with (Zpos m) by lia. f_equal. lia.
Qed.

(** Rounding when the mantissa has too many bits, and when it has 24. *)
Lemma shr_fexp_fits m e : 2 ^ 23 ≤ Zpos m < 2 ^ 24 → -149 ≤ e →
  shr_fexp 24 128 (Zpos m) e loc_Exact = (Build_shr_record (Zpos m) false false, e).
Proof.
  intros Hm He. unfold shr_fexp, fexp, emin. cbn [Zdigits2 shr_record_of_loc].
  rewrite (digits2_unique m 24) by lia. by replace (Z.max (24 + e - 24) (3 - 128 - 24) - e) with 0 by lia.
Qed.

Lemma shr_fexp_long m d : 24 < d ≤ 64 → 2 ^ (d - 1) ≤ Zpos m < 2 ^ d →
  ∃ r, shr_fexp 24 128 (Zpos m) 0 loc_Exact = (r, d - 24) ∧ 2 ^ 23 ≤ shr_m r < 2 ^ 24.
Proof.
  intros Hd Hm. unfold shr_fexp, fexp, emin. cbn [Zdigits2 shr_record_of_loc].
  rewrite (digits2_unique m d) by lia. replace (Z.max (d + 0 - 24) (3 - 128 - 24) - 0) with (d - 24) by lia.
  destruct (d - 24) as [|p|p] eqn:Ep; [lia| |lia]. cbn [shr]. eexists. split; [f_equal; lia|].
  rewrite shr_iter by done. cbn [shr_m]. rewrite <-Ep.
  replace (2 ^ (d - 1)) with (2 ^ 23 * 2 ^ (d - 24)) in Hm by (rewrite <-Z.pow_add_r by lia; f_equal; lia).
  replace (2 ^ d) with (2 ^ 24 * 2 ^ (d - 24)) in Hm by (rewrite <-Z.pow_add_r by lia; f_equal; lia).
  split; [apply Z.div_le_lower_bound|apply Z.div_lt_upper_bound]; lia.
Qed.

(** The second rounding: a mantissa of 24 bits or 2 ^ 24. *)
Lemma round_again m e : 2 ^ 23 ≤ m ≤ 2 ^ 24 → 0 ≤ e ≤ 64 →
  ∃ p r e', shr_fexp 24 128 m e loc_Exact = (r, e') ∧ shr_m r = Zpos p ∧ normal p e' ∧ e' <= 104.
Proof.
  intros Hm He. destruct m as [|m|m]; [lia| |lia].
  destruct (Z.eq_dec (Zpos m) (2 ^ 24)) as [E|Hne].
  - assert (m = 16777216%positive) as -> by lia. unfold shr_fexp, fexp, emin. cbn [Zdigits2 shr_record_of_loc].
    change (Zpos (digits2_pos 16777216)) with 25.
    replace (Z.max (25 + e - 24) (3 - 128 - 24) - e) with 1 by lia. unfold shr.
    eexists 8388608%positive, _, _. split; [reflexivity|]. split; [reflexivity|]. unfold normal. lia.
  - rewrite shr_fexp_fits by lia. eexists m, _, _. split; [done|]. split; [done|]. unfold normal. lia.
Qed.

Lemma shift_left_pos m n : Zpos (Pos.iter xO m n) = Zpos m * 2 ^ Zpos n.
Proof.
  induction n as [|n IH] using Pos.peano_ind; [cbn; lia|].
  rewrite Pos.iter_succ, Pos2Z.inj_succ, Z.pow_succ_r by lia. lia.
Qed.

Lemma round_normal s m : Zpos m < 2 ^ 64 →
  ∃ p e, binary_round 24 128 s m 0 = S754_finite s p e ∧ normal p e.
Proof.
  intros Hm. pose proof (digits2_bounds m) as Hd. unfold binary_round, shl_align, fexp, emin.
  set (d := Zpos (digits2_pos m)) in *. assert (0 < d) by (unfold d; lia).
  assert (d ≤ 64) by (destruct (Z.le_gt_cases d 64); [done|]; pose proof (Z.pow_le_mono_r 2 64 (d - 1)); lia).
  replace (Z.max (d + 0 - 24) (3 - 128 - 24)) with (d - 24) by lia. rewrite Z.sub_0_r.
  assert (24 < d ∨ d ≤ 24) as [Hlong|Hfits] by lia.
  - replace (match d - 24 with Zneg n => _ | _ => _ end) with (m, 0) by (destruct (d - 24) eqn:E; [done|done|lia]).
    unfold binary_round_aux. destruct (shr_fexp_long m d) as (r & -> & Hr); [lia|done|].
    set (x := round_nearest_even _ _).
    assert (2 ^ 23 ≤ x ≤ 2 ^ 24) as Hx by (unfold x, round_nearest_even; repeat case_match; lia).
    destruct (round_again x (d - 24)) as (p & r' & e' & -> & -> & Hn & He); [done|lia|].
    exists p, e'. split; [|done]. by rewrite (proj2 (Z.leb_le e' (128 - 24))) by lia.
  - assert (∃ mz, match d - 24 with Zneg n => (Pos.iter xO m n, d - 24) | _ => (m, 0) end = (mz, d - 24) ∧
      2 ^ 23 ≤ Zpos mz < 2 ^ 24) as (mz & -> & Hmz).
    { destruct (d - 24) as [|n|n] eqn:E; [|lia|].
      - exists m. split; [done|]. replace d with 24 in Hd by lia. done.
      - eexists. split; [done|]. rewrite shift_left_pos.
        replace (2 ^ 23) with (2 ^ (d - 1) * 2 ^ Zpos n) by (rewrite <-Z.pow_add_r by lia; f_equal; lia).
        replace (2 ^ 24) with (2 ^ d * 2 ^ Zpos n) by (rewrite <-Z.pow_add_r by lia; f_equal; lia).
        assert (0 < 2 ^ Zpos n) by lia. split; [apply Z.mul_le_mono_nonneg_r; lia|apply Z.mul_lt_mono_pos_r; lia]. }
    unfold binary_round_aux. rewrite shr_fexp_fits by lia. cbn [shr_m loc_of_shr_record round_nearest_even].
    rewrite shr_fexp_fits by lia. cbn [shr_m]. exists mz, (d - 24). split; [|unfold normal; lia].
    by rewrite (proj2 (Z.leb_le (d - 24) (128 - 24))) by lia.
Qed.

(** The bits INSERT stores for an INT are those of the nearest float. *)
Lemma int_float_roundtrip n : - 2 ^ 63 ≤ n < 2 ^ 63 →
  float_of_bits (bits_of_float (float_of_int n) mod 2 ^ 32) = float_of_int n.
Proof.
  intros Hn. unfold float_of_int, binary_normalize. destruct n as [|m|m]; [done|..].
  1: destruct (round_normal false m) as (p & e & -> & Hnm); [lia|].
  2: destruct (round_normal true m) as (p & e & -> & Hnm); [lia|].
  all: edestruct (float_bits_roundtrip) as [Hr Hrt]; [exact Hnm|]; rewrite Z.mod_small by exact Hr; exact Hrt.
Qed.

(** ** Values that go into records *)

(** A value that can go into a column of its type; [F] are the exceptions allowed. *)
Definition value_ok (F : exn → Prop) (col : ColMeta) (val : Value) : Prop :=
  raw val = None ∧
  match val_type val with
  | TYPE_INT | TYPE_FLOAT => col_len col = 4
  | TYPE_STRING => len (str_val val) ≤ col_len col ∨ F StringOverflowError
  | TYPE_DATETIME => False
  end.

(** A function on tuples of [size] bytes. *)
Definition keeps_size (F : exn → Prop) (size : Z) (o : outcome bytes) : Prop :=
  match o with Ok t => len t = size | Throw e => F e | Stuck => False end.

Lemma store_value_keeps F size col val t :
  col_fits size col = true → value_ok F col val → len t = size →
  keeps_size F size ('(_, t') ← store_value col val t; Ok t').
Proof.
  intros Hfit [Hraw Hval] Ht. apply col_fits_range in Hfit as (Ho & Hl & Hr).
  assert (∀ v bs, init_raw (col_len col) val = Ok v → raw v = Some bs → len bs = col_len col →
    keeps_size F size ('(_, t') ← store_value col val t; Ok t')) as Hw.
  { intros v bs Hi Hv Hbs. unfold store_value. rewrite Hi. cbn. rewrite Hv. cbn. rewrite (rd_exact bs) by done. cbn.
    destruct (wr_is_Some t (col_offset col) bs) as [t' Ht']; [done|lia|]. rewrite Ht'. cbn. apply wr_length in Ht'. lia. }
  unfold init_raw in Hw. rewrite Hraw in Hw. destruct (val_type val) eqn:Hty; [..|done].
  1,2: rewrite Hval, Z.eqb_refl in Hw; by apply (Hw _ _ eq_refl eq_refl).
  destruct (Z.ltb_spec (col_len col) (len (str_val val))) as [Hlt|Hge].
  - unfold store_value, init_raw. rewrite Hraw, Hty, (proj2 (Z.ltb_lt _ _) Hlt). destruct Hval; [lia|done].
  - apply (Hw _ _ eq_refl eq_refl). rewrite length_app, length_replicate. lia.
Qed.

Lemma store_value_run F size col val t (o : Value * bytes → outcome bytes) :
  col_fits size col = true → value_ok F col val → len t = size →
  (∀ v t', len t' = size → keeps_size F size (o (v, t'))) → keeps_size F size (store_value col val t ≫= o).
Proof.
  intros Hf Hv Ht Ho. pose proof (store_value_keeps F size col val t Hf Hv Ht) as Hs.
  destruct (store_value col val t) as [[v t']|e|]; [|done..]. by apply Ho.
Qed.

(** *** SET *)

Definition clause_ok (F : exn → Prop) (cols : list ColMeta) (clause : SetClause) : Prop :=
  ∃ i col, list_find (λ c, col_name c = tc_col_name (lhs clause)) cols = Some (i, col) ∧ value_ok F col (rhs clause).

Lemma apply_clauses_keeps F size cols clauses t :
  Forall (λ c, col_fits size c = true) cols → Forall (clause_ok F cols) clauses → len t = size →
  keeps_size F size (apply_clauses cols clauses t).
Proof.
  intros Hcols Hcl. revert t. induction Hcl as [|clause clauses (i & col & Hfind & Hv) _ IH]; intros t Ht; [done|].
  cbn [apply_clauses]. rewrite Hfind. cbn [or_stuck mbind outcome_bind]. apply list_find_Some in Hfind as (Hi & _).
  apply store_value_run; [by apply (Forall_lookup_1 _ _ _ _ Hcols Hi)|done|done|]. intros _ t' Ht'. by apply IH.
Qed.

(** *** VALUES *)

Definition insertable (F : exn → Prop) (col : ColMeta) (val : Value) : Prop :=
  raw val = None ∧ col_type col ≠ TYPE_DATETIME ∧
  (col_type col = val_type val ∨ (col_type col = TYPE_FLOAT ∧ val_type val = TYPE_INT) ∨ F IncompatibleTypeError) ∧
  (val_type val = TYPE_STRING → len (str_val val) ≤ col_len col ∨ F StringOverflowError).

Lemma coerce_ok F size col val :
  col_fits size col = true → insertable F col val →
  match coerce (col_type col) val with Ok v => value_ok F col v | Throw e => F e | Stuck => False end.
Proof.
  unfold coerce, value_ok, col_fits. intros Hfit (Hraw & Hd & Hty & Hs). case_decide as Heq.
  - split; [done|]. rewrite <-Heq in *. destruct (col_type col); [| |by apply Hs|done].
    all: by apply andb_true_iff in Hfit as [_ ?%Z.eqb_eq].
  - destruct Hty as [?|[[Hc Hv]|HF]]; [done|..].
    + rewrite Hc, Hv in *. split; [done|]. by apply andb_true_iff in Hfit as [_ ?%Z.eqb_eq].
    + destruct (col_type col), (val_type val) eqn:Hv; try done. split; [done|].
      by apply andb_true_iff in Hfit as [_ ?%Z.eqb_eq].
Qed.

Lemma fill_record_keeps F size cols values t :
  Forall (λ c, col_fits size c = true) cols → Forall2 (insertable F) cols values → len t = size →
  keeps_size F size ('(_, t') ← fill_record cols values t; Ok t').
Proof.
  intros Hcols Hv. revert t Hcols. induction Hv as [|col val cols values Hcv _ IH]; intros t Hcols Ht; [done|].
  apply Forall_cons in Hcols as [Hc Hcols]. cbn [fill_record]. pose proof (coerce_ok F size col val Hc Hcv) as Hco.
  destruct (coerce _ _) as [v|e|]; [|done..]. cbn [mbind outcome_bind].
  pose proof (store_value_keeps F size col v t Hc Hco Ht) as Hst. destruct (store_value _ _ _) as [[v' t']|e|]; [|done..].
  cbn in Hst |- *. specialize (IH t' Hcols Hst). by destruct (fill_record cols values t') as [[vs t2]|e|].
Qed.

(** ** What the tuples hold *)

(** The bytes of a value in a column, and the value that is read from them. *)
Definition raw_bytes (col : ColMeta) (v : Value) : bytes :=
  match val_type v with
  | TYPE_INT | TYPE_FLOAT => u32 (val_bits v)
  | _ => str_val v ++ replicate (Z.to_nat (col_len col - len (str_val v))) 0
  end.
Definition cell (v : Value) : Value :=
  match val_type v with
  | TYPE_INT | TYPE_FLOAT => mkValue (val_type v) (val_bits v mod 2 ^ 32) [] None
  | TYPE_STRING => mkValue TYPE_STRING 0 (until_nul (str_val v)) None
  | TYPE_DATETIME => mkValue TYPE_DATETIME 0 [] None
  end.

Definition apart (c d : ColMeta) : Prop :=
  col_offset c + col_len c ≤ col_offset d ∨ col_offset d + col_len d ≤ col_offset c.

Lemma until_nul_zeroes b n : until_nul (b ++ replicate n 0) = until_nul b.
Proof. induction b as [|x b IH]; [by destruct n|]. cbn. by rewrite IH. Qed.

Lemma slice_wr size c bs t t' :
  col_fits size c = true → len t = size → len bs = col_len c → wr t (col_offset c) bs = Some t' →
  len t' = size ∧ slice c t' = bs ∧ ∀ d, col_fits size d = true → apart c d → slice d t' = slice d t.
Proof.
  intros Hc Ht Hbs Hw. assert (len t' = size) as Ht' by (apply wr_length in Hw; lia). split; [done|]. split.
  - pose proof (rd_slice size c t' Ht' Hc) as Hr. rewrite (rd_wr_same _ _ _ _ _ Hw) in Hr by done. by injection Hr.
  - intros d Hd Ha. pose proof (rd_slice size d t' Ht' Hd) as Hr. rewrite (rd_wr_disjoint _ _ _ _ _ _ Hw) in Hr.
    + rewrite (rd_slice size d t Ht Hd) in Hr. by injection Hr.
    + rewrite Hbs. destruct Ha; [by right|by left].
Qed.

Lemma store_value_slices size c v t :
  col_fits size c = true → value_ok (λ _, False) c v → len t = size →
  ∃ v' t', store_value c v t = Ok (v', t') ∧ len t' = size ∧ slice c t' = raw_bytes c v ∧
    ∀ d, col_fits size d = true → apart c d → slice d t' = slice d t.
Proof.
  intros Hc [Hraw Hv] Ht. pose proof (col_fits_range _ _ Hc) as (Ho & Hl & Hr).
  assert (len (raw_bytes c v) = col_len c ∧
    init_raw (col_len c) v = Ok (mkValue (val_type v) (val_bits v) (str_val v) (Some (raw_bytes c v)))) as [Hlen Hi].
  { unfold init_raw, raw_bytes. rewrite Hraw. destruct (val_type v); [..|done].
    1,2: by rewrite Hv, Z.eqb_refl.
    destruct Hv as [Hv|[]]. rewrite (proj2 (Z.ltb_ge _ _)) by lia. split; [|done].
    rewrite length_app, length_replicate. lia. }
  destruct (wr_is_Some t (col_offset c) (raw_bytes c v)) as [t' Ht']; [done|lia|].
  eexists _, t'. split; [|by apply (slice_wr size)].
  unfold store_value. rewrite Hi. cbn [mbind outcome_bind raw or_stuck]. rewrite (rd_exact (raw_bytes c v)) by done.
  cbn [or_stuck mbind outcome_bind]. by rewrite Ht'.
Qed.

(** A value of the column's type is read back. *)
Lemma field_value_cell c v t : val_type v = col_type c → slice c t = raw_bytes c v → field_value c t = cell v.
Proof.
  intros Hty Hs. unfold field_value, cell. rewrite Hs, Hty. unfold raw_bytes. rewrite Hty. destruct (col_type c).
  1,2: unfold u32; rewrite le_uint_bytes; done.
  - by rewrite until_nul_zeroes.
  - done.
Qed.

Lemma apart_sym c d : apart c d → apart d c.
Proof. unfold apart. tauto. Qed.

(** The columns lie inside of the tuple, no two on the same bytes, with names of their own. *)
Fixpoint separate (C : list ColMeta) : Prop :=
  match C with [] => True | c :: C => Forall (apart c) C ∧ separate C end.
Record laid_out (size : Z) (C : list ColMeta) : Prop := {
  lo_fits : Forall (λ c, col_fits size c = true) C;
  lo_separate : separate C;
  lo_names : NoDup (col_name <$> C);
}.

Lemma separate_apart C c d : separate C → c ∈ C → d ∈ C → col_name c ≠ col_name d → apart c d.
Proof.
  induction C as [|x C IH]; [by intros _ []%elem_of_nil|]. intros [Hx HC].
  rewrite Forall_forall in Hx. intros [->|Hc]%elem_of_cons [->|Hd]%elem_of_cons Hne; [done|by apply Hx|by apply apart_sym, Hx|by apply IH].
Qed.

(** A clause with a value of its column's type. *)
Definition clause_typed (C : list ColMeta) (cl : SetClause) : Prop :=
  ∃ i c, list_find (λ c, col_name c = tc_col_name (lhs cl)) C = Some (i, c) ∧
    value_ok (λ _, False) c (rhs cl) ∧ val_type (rhs cl) = col_type c.
(** The clause that has the last word on a column. *)
Definition clause_for (clauses : list SetClause) (c : ColMeta) : option SetClause :=
  last (filter (λ cl, tc_col_name (lhs cl) = col_name c) clauses).

Lemma clauses_hold size C clauses t :
  laid_out size C → Forall (clause_typed C) clauses → len t = size →
  ∃ t', apply_clauses C clauses t = Ok t' ∧ len t' = size ∧
    ∀ c, c ∈ C → field_value c t' = match clause_for clauses c with Some cl => cell (rhs cl) | None => field_value c t end.
Proof.
  intros [Hf Hs Hn] Hcl. revert t. induction Hcl as [|cl clauses (i & c0 & Hfind & Hv & Hty) _ IH]; intros t Ht; [by exists t|].
  pose proof Hfind as (Hi & Hname & _)%list_find_Some. pose proof (list_elem_of_lookup_2 _ _ _ Hi) as Hin0.
  pose proof (Forall_lookup_1 _ _ _ _ Hf Hi) as Hf0.
  destruct (store_value_slices size c0 (rhs cl) t Hf0 Hv Ht) as (v' & t1 & Hst & Ht1 & Hs0 & Hother).
  destruct (IH t1 Ht1) as (t' & Hap & Ht' & Hc). exists t'. cbn [apply_clauses]. rewrite Hfind. cbn [or_stuck mbind outcome_bind].
  rewrite Hst. cbn. split; [done|]. split; [done|]. intros c Hin. rewrite (Hc c Hin). unfold clause_for. rewrite filter_cons.
  case_decide as Hcn; [rewrite last_cons|]; destruct (last _) as [cl'|]; try done.
  - assert (c = c0) as ->; [|by apply field_value_cell].
    apply list_elem_of_lookup in Hin as [j Hj]. assert (j = i) as ->; [|congruence].
    apply (NoDup_lookup _ j i (col_name c) Hn); rewrite list_lookup_fmap; [by rewrite Hj|]. rewrite Hi. simpl. congruence.
  - unfold field_value. rewrite Hother; [done|..].
    + rewrite Forall_forall in Hf. by apply Hf.
    + apply (separate_apart C); [done|done|done|]. congruence.
Qed.

(** What a column is to read as when a row is inserted with [v] for it: an INT in a FLOAT
    column is the float that the number rounds to, any other value is itself. *)
Definition holds_value (c : ColMeta) (v w : Value) : Prop :=
  match col_type c, val_type v with
  | TYPE_FLOAT, TYPE_INT => val_type w = TYPE_FLOAT ∧ float_val w = float_of_int (int_val v)
  | _, _ => w = cell v
  end.

Lemma int_val_range v : - 2 ^ 63 ≤ int_val v < 2 ^ 63.
Proof. unfold int_val, wrap32. pose proof (Z.mod_pos_bound (val_bits v + 2 ^ 31) (2 ^ 32)). lia. Qed.

Lemma cell_float b v : float_val (cell (set_float b v)) = float_of_bits (b mod 2 ^ 32).
Proof. done. Qed.

#[local] Opaque float_of_int float_of_bits bits_of_float.
Lemma coerce_holds c v w : coerce (col_type c) v = Ok w → val_type w = col_type c ∧ holds_value c v (cell w).
Proof.
  unfold coerce, holds_value. case_decide as Heq.
  - intros [= <-]. rewrite <-Heq. split; [done|]. by destruct (col_type c).
  - destruct (col_type c), (val_type v); try done. intros [= <-]. split; [done|]. split; [done|].
    rewrite cell_float. apply int_float_roundtrip, int_val_range.
Qed.
#[local] Transparent float_of_int float_of_bits bits_of_float.

Lemma values_hold size C values t :
  Forall (λ c, col_fits size c = true) C → separate C → Forall2 (insertable (λ _, False)) C values → len t = size →
  ∃ values' t', fill_record C values t = Ok (values', t') ∧ len t' = size ∧
    Forall2 (λ c v, holds_value c v (field_value c t')) C values ∧
    ∀ d, col_fits size d = true → Forall (apart d) C → slice d t' = slice d t.
Proof.
  intros Hf Hs Hins. revert t Hf Hs. induction Hins as [|c v C values Hcv _ IH]; intros t Hf Hs Ht; [by exists [], t|].
  apply Forall_cons in Hf as [Hc Hf]. destruct Hs as [Hap Hs].
  pose proof (coerce_ok _ size c v Hc Hcv) as Hco. cbn [fill_record].
  destruct (coerce (col_type c) v) as [w|e|] eqn:Hw; [|done..]. destruct (coerce_holds c v w Hw) as [Hty Hholds].
  destruct (store_value_slices size c w t Hc Hco Ht) as (v' & t1 & Hst & Ht1 & Hs0 & Hother).
  destruct (IH t1 Hf Hs Ht1) as (vs & t' & Hfr & Ht' & Hcells & Hrest). exists (v' :: vs), t'.
  cbn [mbind outcome_bind]. rewrite Hst. cbn. rewrite Hfr. cbn. split; [done|]. split; [done|]. split.
  - constructor; [|done]. rewrite (field_value_cell c w); [done|done|]. by rewrite Hrest.
  - intros d Hd [Hdc HdC]%Forall_cons. rewrite Hrest by done. apply Hother; [done|]. by apply apart_sym.
Qed.

(** C8: The tuples of INSERT and UPDATE, on columns that lie apart inside of the tuple, have
    names of their own, and values that fit: the tuple of an INSERT holds in every column the
    value given for it, an INT in a FLOAT column as the float it rounds to, a string up to its
    first zero; the tuple of an UPDATE holds in every column the value of the last clause
    that names the column, and in the others what the old tuple does. *)
Theorem tuples_hold_the_values size C values clauses t :
  laid_out size C → Forall2 (insertable (λ _, False)) C values → Forall (clause_typed C) clauses → len t = size →
  (∃ values' t', fill_record C values t = Ok (values', t') ∧ len t' = size ∧
     Forall2 (λ c v, holds_value c v (field_value c t')) C values) ∧
  (∃ t', apply_clauses C clauses t = Ok t' ∧ len t' = size ∧
     ∀ c, c ∈ C → field_value c t' = match clause_for clauses c with Some cl => cell (rhs cl) | None => field_value c t end).
Proof.
  intros Hlo Hins Hcl Ht. split; [|by apply clauses_hold].
  destruct (values_hold size C values t) as (vs & t' & ? & ? & ? & _); [apply Hlo|apply Hlo|done|done|]. by exists vs, t'.
Qed.

(** VALUES (9, 'x', 5), the 5 for a FLOAT column, and SET b = 'yo', b = 'z'. *)
Definition demo_cols : list ColMeta := typed_cols ++ [mkCol [116] [102] TYPE_FLOAT 4 7 false].
Definition demo_values : list Value :=
  [mkValue TYPE_INT 9 [] None; mkValue TYPE_STRING 0 [120] None; mkValue TYPE_INT 5 [] None].
Definition demo_clauses : list SetClause :=
  [mkSet (mkTabCol [116] [98]) (mkValue TYPE_STRING 0 [121; 111] None); mkSet (mkTabCol [116] [98]) (mkValue TYPE_STRING 0 [122] None)].
Definition demo_tuple : bytes := typed_tuple ++ [0; 0; 0; 0].

Lemma tuples_hold_the_values_witness :
  ((∃ values' t', fill_record demo_cols demo_values demo_tuple = Ok (values', t') ∧ len t' = 11 ∧
      Forall2 (λ c v, holds_value c v (field_value c t')) demo_cols demo_values) ∧
   (∃ t', apply_clauses demo_cols demo_clauses demo_tuple = Ok t' ∧ len t' = 11 ∧
      ∀ c, c ∈ demo_cols → field_value c t' = match clause_for demo_clauses c with Some cl => cell (rhs cl) | None => field_value c demo_tuple end)) ∧
  apply_clauses demo_cols demo_clauses demo_tuple = Ok (u32 7 ++ [122; 0; 0] ++ [0; 0; 0; 0]).
Proof.
  split; [|vm_compute; reflexivity].
  apply (tuples_hold_the_values 11 demo_cols demo_values demo_clauses demo_tuple).
  - split.
    + repeat constructor.
    + split; [|split; [|split; [constructor|exact I]]].
      * constructor; [|constructor; [|constructor]]; left; vm_compute; discriminate.
      * constructor; [|constructor]. left. vm_compute. discriminate.
    + apply (bool_decide_unpack _). vm_compute. exact I.
  - constructor; [|constructor; [|constructor; [|constructor]]].
    + split; [reflexivity|]. split; [discriminate|]. split; [left; reflexivity|discriminate].
    + split; [reflexivity|]. split; [discriminate|]. split; [left; reflexivity|]. left. vm_compute. discriminate.
    + split; [reflexivity|]. split; [discriminate|]. split; [right; left; split; reflexivity|discriminate].
  - assert (∀ s, len s ≤ 3 → clause_typed demo_cols (mkSet (mkTabCol [116] [98]) (mkValue TYPE_STRING 0 s None))) as H.
    { intros s Hs. exists 1%nat, (mkCol [116] [98] TYPE_STRING 3 4 false). split; [reflexivity|]. split; [|reflexivity].
      split; [reflexivity|]. by left. }
    constructor; [|constructor; [|constructor]]; apply H; vm_compute; discriminate.
  - reflexivity.
Defined.

(** ** What an UPDATE stores in a FLOAT column *)

(** A number stored in a column is read back. *)
Lemma stored_number size c v t :
  col_type c = TYPE_FLOAT → col_fits size c = true → val_type v = TYPE_INT ∨ val_type v = TYPE_FLOAT → raw v = None → len t = size →
  ∃ v' t', store_value c v t = Ok (v', t') ∧ field_value c t' = mkValue TYPE_FLOAT (val_bits v mod 2 ^ 32) [] None.
Proof.
  intros Hc Hfit Hv Hraw Ht. destruct (store_value_slices size c v t) as (v' & t' & Hs & _ & Hsl & _); [done| |done|].
  { split; [done|]. unfold col_fits in Hfit. rewrite Hc in Hfit. apply andb_true_iff in Hfit as [_ ?%Z.eqb_eq].
    by destruct Hv as [-> | ->]. }
  exists v', t'. split; [done|]. unfold field_value. rewrite Hc, Hsl. unfold raw_bytes, u32.
  destruct Hv as [-> | ->]; by rewrite le_uint_bytes.
Qed.

(** C37: An INT literal for a FLOAT column.  INSERT converts it: the column of the new row has
    the float nearest to the number.  UPDATE does not look at the type of the column: it
    stores the bits of the int there, which the column reads as the float with these bits: 1
    becomes 2^-149. *)
Theorem update_stores_int_bits size C i c x v t :
  list_find (λ c, col_name c = tc_col_name x) C = Some (i, c) → col_type c = TYPE_FLOAT → col_fits size c = true →
  val_type v = TYPE_INT → raw v = None → len t = size →
  (∃ t', apply_clauses C [mkSet x v] t = Ok t' ∧ field_value c t' = mkValue TYPE_FLOAT (val_bits v mod 2 ^ 32) [] None) ∧
  (∃ v' t', fill_record [c] [v] t = Ok ([v'], t') ∧
     field_value c t' = mkValue TYPE_FLOAT (bits_of_float (float_of_int (int_val v)) mod 2 ^ 32) [] None).
Proof.
  intros Hf Hc Hfit Hv Hraw Ht. split.
  - destruct (stored_number size c v t) as (v' & t' & Hs & Hfv); [done|done|by left|done|done|]. exists t'. split; [|done].
    cbn [apply_clauses lhs rhs]. rewrite Hf. cbn [or_stuck mbind outcome_bind]. by rewrite Hs.
  - set (w := set_float (bits_of_float (float_of_int (int_val v))) v).
    destruct (stored_number size c w t) as (v' & t' & Hs & Hfv); [done|done|by right|done|done|]. exists v', t'. split; [|done].
    cbn [fill_record]. unfold coerce. rewrite Hc, Hv. rewrite decide_False by done. cbn [mbind outcome_bind]. fold w. by rewrite Hs.
Qed.

(** SET f = 1, and VALUES (1). *)
Definition demo_float_col : ColMeta := mkCol [116] [102] TYPE_FLOAT 4 0 false.
Definition demo_one : Value := mkValue TYPE_INT 1 [] None.

Lemma update_stores_int_bits_witness :
  ((∃ t', apply_clauses [demo_float_col] [mkSet (mkTabCol [116] [102]) demo_one] [0; 0; 0; 0] = Ok t' ∧
      field_value demo_float_col t' = mkValue TYPE_FLOAT (1 mod 2 ^ 32) [] None) ∧
   (∃ v' t', fill_record [demo_float_col] [demo_one] [0; 0; 0; 0] = Ok ([v'], t') ∧
      field_value demo_float_col t' = mkValue TYPE_FLOAT (bits_of_float (float_of_int (int_val demo_one)) mod 2 ^ 32) [] None)) ∧
  float_val (mkValue TYPE_FLOAT 1 [] None) = S754_finite false 1 (-149) ∧
  float_val (mkValue TYPE_FLOAT (bits_of_float (float_of_int 1)) [] None) = S754_finite false 8388608 (-23).
Proof.
  split.
  - apply (update_stores_int_bits 4 [demo_float_col] 0 demo_float_col (mkTabCol [116] [102]) demo_one [0; 0; 0; 0]); reflexivity.
  - split; vm_compute; reflexivity.
Defined.
