(* ===== verification/DmlRows.v ===== *)
(** * What statements leave to a rollback

    [undoable]: the state of a transaction between two statements: the record files of its
    tables satisfy their invariants, and the changes in its write set, made one after the
    other, lead from the rows [T0] its tables had at first to the rows they have now.  Here
    it is shown of the steps that the executors of Dml.v are made of that they keep it. *)
From S2P Require Import Prelude Bytes Bitmap Disk Log Replacer BufferPool Record PoolRun Rows RowWrite Scan RowScan Recovery Streams Meta Txn Lock LockSafety LockRelease LockWanted System TxnManager Rollback Exec ExecLaws ExecTypes ExecScan Dml.

(** What a table is in the catalogue: it has no index, and its columns lie inside of its
    records. *)
Record described (db : DbMeta) (tab : bytes) (tm : TabMeta) (size : Z) : Prop := {
  ds_table : get_table tab db = Ok tm;
  ds_name : tab_name tm = tab;
  ds_indexes : tab_indexes tm = [];
  ds_len : record_len (tab_cols tm) = Ok size;
  ds_cols : Forall (λ c, col_fits size c = true) (tab_cols tm);
  ds_short : len tab ≤ 2 ^ 20;
}.

(** What is known of the locks of a transaction, beside the invariant: lock calls keep it, and
    so does a change of the transaction that is not one of its lock set. *)
Class LockFact (txn : Z) (B : LockManager → Prop) : Prop := {
  lf_call l l' : B l → stays_wanted txn l l' → B l';
  lf_txn l T T' : B l → txns l !! txn = Some T → lock_set_ T' = lock_set_ T → B (set_txns (<[txn := T']> (txns l)) l);
}.
#[export] Instance nothing_known txn : LockFact txn (λ _, True).
Proof. by split. Qed.
#[export] Instance backed_fact txn : LockFact txn (backed txn).
Proof.
  split; [intros l l' Hb Hs; by eapply stays_backed|]. intros l T T' Hb HT Heq T1 id. cbn. rewrite lookup_insert_eq.
  intros [= <-] Hid Htab. rewrite Heq in Hid. exact (Hb T id HT Hid Htab).
Qed.

(** [cap] bounds the pages of a table, [fuel] the rows of a table with so many pages; [F] are
    the exceptions that the statements may end with, apart from an abort of the transaction. *)
Section undoable.
Context {R : Type} `{!Replacer R, !ReplacerLaws R} (txn : Z) (X : list bytes) (db : DbMeta) (T0 : rows_t).
Context (cap : Z) (Hcap : cap ≤ MAX_TABLE_PAGES) (fuel : nat).
Context (B : LockManager → Prop) `{!LockFact txn B} (F : exn → Prop).
Implicit Types (s : Sys R) (w : WriteRecord) (ws : list WriteRecord) (k : Z).

(** The rows of the tables [X]. *)
Definition only (T : rows_t) : rows_t := λ tab rid, if decide (tab ∈ X) then T tab rid else None.

(** The file of a table, with room for [k] more pages. *)
Record roomy k fd h (st : Storage R) : Prop := {
  ry_inv : rm_inv fd h st;
  ry_fd : 0 ≤ fd < MAX_FD;
  ry_pages : num_pages h + k ≤ cap;
  ry_rows : (Z.to_nat (cap * num_records_per_page h) ≤ fuel)%nat;
}.

(** The files of the tables and the write set [ws]. *)
Record work_kept ws k s : Prop := {
  wk_files tab fd h : tab ∈ X → sm_fhs s !! tab = Some (fd, h) → roomy k fd h (sm_storage s);
  wk_open tab : tab ∈ X → ∃ fd h tm, sm_fhs s !! tab = Some (fd, h) ∧ described db tab tm (record_size h);
  wk_writes : ∃ T, txns (sm_locks s) !! txn = Some T ∧ write_set_ T = ws;
  wk_log : is_Some (s_log (sm_storage s));
  wk_locks : B (sm_locks s);
}.

Record undoable k s : Prop := {
  un_ok : sys_ok s;
  un_db : sm_db s = db;
  un_locks : ∃ W, Inv (sm_locks s) W ∧ W !! txn = None;
  un_work : ∃ ws, work_kept ws k s ∧ Forall (λ w, tab_name_ w ∈ X ∧ can_undo s w) ws ∧ performed T0 ws (only (sys_rows s));
}.

(** ** Reads and locks *)

Lemma undoable_reading k s ws : undoable k s → work_kept ws k s → reading_with txn s X (work_kept ws k) None s.
Proof.
  intros [Hok Hdb Hl _] Hw. split; [done|done| |done|done| |done].
  - intros tab fd h _ Hf. exists h. split; [done|]. apply same_layout_refl.
  - destruct (wk_writes _ _ _ Hw) as (T & HT & _). by exists T.
Qed.

(** A change can be undone while the tables have the same places. *)
Lemma can_undo_grown s s' w fd h :
  sm_db s' = sm_db s → sm_fhs s !! tab_name_ w = Some (fd, h) →
  (∃ h', sm_fhs s' !! tab_name_ w = Some (fd, h') ∧ num_pages h ≤ num_pages h' ∧
     num_records_per_page h' = num_records_per_page h ∧ record_size h' = record_size h) →
  can_undo s w → can_undo s' w.
Proof.
  intros Hdb Hf (h' & Hf' & Hp & Hn & Hsz) (fd1 & h1 & tm & Hf1 & Htm & Hix & Hpg & Hsl & Hlen).
  rewrite Hf in Hf1. injection Hf1 as <- <-. exists fd, h', tm. rewrite Hdb, Hn, Hsz. split_and!; try done; lia.
Qed.

Lemma reading_undoable k s0 s ws :
  undoable k s0 → work_kept ws k s0 → reading_with txn s0 X (work_kept ws k) None s → undoable k s.
Proof.
  intros [Hok0 Hdb0 _ (ws0 & Hw0 & Hu & Hp)] Hw [Hok Hdb Hf Hr Hl Ht Hk].
  destruct (wk_writes _ _ _ Hw) as (T & HT & HTw), (wk_writes _ _ _ Hw0) as (T1 & HT1 & HTw1). simplify_eq.
  split; [done|congruence|done|]. eexists. split; [exact Hk|]. split.
  - eapply Forall_impl; [exact Hu|]. intros w [HX Hc]. split; [done|]. pose proof Hc as (fd & h & _ & Hfw & _).
    destruct (Hf _ fd h HX Hfw) as (h' & Hf' & [x ->]). eapply can_undo_grown; [done|exact Hfw| |done].
    by exists (set_first_free x h).
  - eapply performed_ext; [exact Hp|]. intros tab rid. unfold only. case_decide; [by apply Hr|done].
Qed.

(** What happens while the thread waits for a lock: the tables [X] keep their rows, and the
    invariants; or the wait ends in the death of the transaction. *)
Definition patient (wait : Z → wait_point → M (Sys R) bool) : Prop := ∀ k ws s0 p s,
  undoable k s0 → reading_with txn s0 X (work_kept ws k) (Some p) s →
  wp (wait txn p) (λ _ s', reading_with txn s0 X (work_kept ws k) None s')
    (λ e s', io_error e = true ∨
      (reading_with txn s0 X (work_kept ws k) None s' ∧ ∃ t reason, e = TransactionAbortException t reason)) s.

(** How a statement ends that throws. *)
Definition left_undoable k (e : exn) s : Prop :=
  io_error e = true ∨ (undoable k s ∧ ((∃ t reason, e = TransactionAbortException t reason) ∨ F e)).

Lemma work_kept_locks ws k s l :
  work_kept ws k s → writes_kept (sm_locks s) l → stays_wanted txn (sm_locks s) l → work_kept ws k (set_locks l s).
Proof.
  intros [Hf Ho (T & HT & Hw) Hl HB] Hkept Hst. split; [done|done| |done|by apply (lf_call _ _ HB)]. destruct (Hkept _ _ HT) as (T' & HT' & Hw'). exists T'.
  split; [done|congruence].
Qed.

Lemma work_kept_read ws k s s' : sys_ok s → work_kept ws k s → page_read s s' → work_kept ws k s'.
Proof.
  intros Hok [Hf Ho Hw Hl HB] (tab & fd & h & p & st & Hfh & Hp & Hla & ->). split; [|done|done| |done].
  - cbn. intros tab' fd' h' HX Hfh'. destruct (Hf tab' fd' h' HX Hfh') as [Hr ? ? ?]. split; [|done..].
    eapply looked_rm; [exact Hla| |done]. intros ->. rewrite (sk_fds _ Hok _ _ _ _ _ Hfh Hfh') in Hfh. by simplify_eq.
  - by apply (tc_log _ _ _ (la_touched _ _ _ Hla)).
Qed.

Lemma undoable_relies wait k s0 ws :
  patient wait → undoable k s0 → work_kept ws k s0 →
  relies txn s0 X (work_kept ws k) (left_undoable k) wait.
Proof.
  intros Hwait Hu Hw. split.
  - intros s l. apply work_kept_locks.
  - intros s s'. apply work_kept_read.
  - intros e s He. by left.
  - intros t reason s Hrd. right. split; [by eapply reading_undoable|]. left. by do 2 eexists.
  - intros p s Hrd. eapply wp_weaken; [by apply Hwait|]. intros e s' [He|[Hrd' Ha]]; [by left|]. right.
    split; [by eapply reading_undoable|]. by left.
Qed.

(** ** Writes *)

(** What writing a row does to all tables. *)
Lemma row_written_sys tab fd h h' rid v s st :
  sys_ok s → sm_fhs s !! tab = Some (fd, h) → num_pages h' ≤ MAX_TABLE_PAGES →
  row_written fd h h' rid v (sm_storage s) st →
  let s' := set_tables (mkDb (<[tab := (fd, h')]> (sm_fhs s)) st) s in
  sys_ok s' ∧ ∀ tab' rid', sys_rows s' tab' rid' = if decide (tab' = tab ∧ rid' = rid) then v else sys_rows s tab' rid'.
Proof.
  intros [Hst Hfiles Hfds] Hf Hmax Hw s'. pose proof (rw_touched _ _ _ _ _ _ _ Hw) as Ht.
  assert (∀ tab' g i, tab' ≠ tab → sm_fhs s !! tab' = Some (g, i) → g ≠ fd) as Hne.
  { intros tab' g i Hn Hg ->. by apply Hn, (Hfds _ _ _ _ _ Hg Hf). }
  split; [split|].
  - apply Ht.
  - cbn. intros tab' g i. destruct (decide (tab' = tab)) as [->|Hn].
    + rewrite lookup_insert_eq. intros [= <- <-]. apply rm_inv_file_ok; [apply Hw|done].
    + rewrite lookup_insert_ne by done. intros Hg. eapply touched_file; [|exact Ht|by eapply Hfiles]. apply Hw.
  - cbn. intros t1 t2 g i1 i2. destruct (decide (t1 = tab)) as [->|H1], (decide (t2 = tab)) as [->|H2];
      rewrite ?lookup_insert_eq, ?lookup_insert_ne by done; [done|..].
    + intros [= <- <-] Hg. by destruct (Hne t2 fd i2).
    + intros Hg [= <- <-]. by destruct (Hne t1 fd i1).
    + by eapply Hfds.
  - intros tab' rid'. unfold sys_rows, s'. cbn. destruct (decide (tab' = tab)) as [->|Hn].
    + rewrite lookup_insert_eq, Hf, (rw_rows _ _ _ _ _ _ _ Hw).
      destruct (decide (rid' = rid)) as [->|]; [by rewrite decide_True|by rewrite decide_False by tauto].
    + rewrite lookup_insert_ne, decide_False by tauto || done. destruct (sm_fhs s !! tab') as [[g i]|] eqn:Hg; [|done].
      eapply touched_rows; [|exact Ht|by eapply Hfiles]. intros [= ? _]. by eapply Hne.
Qed.

(** A row is written, and the change goes to the write set. *)
Definition appended w s : Sys R :=
  match txns (sm_locks s) !! txn with Some T => set_txn txn (append_write_record w T) s | None => s end.

Lemma undoable_write k n tab fd h h' rid v w s st :
  undoable k s → tab ∈ X → sm_fhs s !! tab = Some (fd, h) → row_written fd h h' rid v (sm_storage s) st →
  num_pages h' + n ≤ num_pages h + k → n ≤ k → 0 ≤ n →
  tab_name_ w = tab → wr_rid_ w = rid → images w = Some (sys_rows s tab rid, v) →
  (∀ b, sys_rows s tab rid = Some b → len b = record_size h) →
  let s' := appended w (set_tables (mkDb (<[tab := (fd, h')]> (sm_fhs s)) st) s) in
  undoable n s' ∧ sm_fhs s' !! tab = Some (fd, h') ∧
  ∀ tab' rid', sys_rows s' tab' rid' = if decide (tab' = tab ∧ rid' = rid) then v else sys_rows s tab' rid'.
Proof.
  intros [Hok Hdb (W & HI & HW) (ws & [Hf Ho (T & HT & HTw) Hlog HB] & Hu & Hp)] HX Hfh Hw Hn Hnk Hn0 Hwt Hwr Him Hlen s'.
  destruct (Hf tab fd h HX Hfh) as [Hr Hfd Hmax Hfu]. pose proof (ri_num _ _ _ Hr) as Hnum.
  destruct (Ho tab HX) as (fd0 & h0 & tm & Hfh0 & [Htm _ Hix _ _ _]). clear fd0 h0 Hfh0.
  assert (num_pages h' ≤ MAX_TABLE_PAGES) as Hmax' by (clear - Hn Hn0 Hmax Hcap; lia).
  destruct (row_written_sys tab fd h h' rid v s st Hok Hfh Hmax' Hw) as [Hok' Hrows].
  pose proof (row_written_n _ _ _ _ _ _ _ (ri_hdr _ _ _ Hr) Hw) as Hnn. pose proof (rw_touched _ _ _ _ _ _ _ Hw) as Ht.
  unfold s', appended. cbn [sm_locks set_tables]. rewrite HT. split; [split|split].
  - by apply set_txn_ok.
  - done.
  - exists W. split; [|done]. cbn. by eapply Inv_txn.
  - exists (ws ++ [w]). split; [split|split].
    + cbn. intros tab' g i HX'. destruct (decide (tab' = tab)) as [->|Hne].
      * rewrite lookup_insert_eq. intros [= <- <-]. split; [apply Hw|done|lia|by rewrite Hnn].
      * rewrite lookup_insert_ne by done. intros Hg. destruct (Hf tab' g i HX' Hg) as [Hr' ? ? ?]. split; [|done|lia|done].
        eapply touched_rm; [|exact Ht|done]. intros ->. apply Hne. by eapply (sk_fds _ Hok).
    + cbn. intros tab' HX'. destruct (Ho tab' HX') as (g & i & tm' & Hg & Hd). destruct (decide (tab' = tab)) as [->|Hne].
      * rewrite lookup_insert_eq. rewrite Hfh in Hg. injection Hg as -> ->. exists g, h', tm'. by rewrite (rw_size _ _ _ _ _ _ _ Hw).
      * rewrite lookup_insert_ne by done. by exists g, i, tm'.
    + eexists. cbn. rewrite lookup_insert_eq. split; [done|]. cbn. by rewrite HTw.
    + by apply (tc_log _ _ _ Ht).
    + by apply (lf_txn (sm_locks s) T).
    + apply Forall_app. split.
      * eapply Forall_impl; [exact Hu|]. intros w' [HX' Hc]. split; [done|]. pose proof Hc as (g & i & _ & Hg & _).
        eapply (can_undo_grown s); [done|exact Hg| |exact Hc]. cbn. destruct (decide (tab_name_ w' = tab)) as [Heq|Hne].
        -- rewrite Heq in *. rewrite lookup_insert_eq. assert (i = h ∧ g = fd) as [-> ->] by (split; congruence). exists h'. split; [done|]. split; [apply Hw|]. split; [done|]. apply Hw.
        -- rewrite lookup_insert_ne by done. by exists i.
      * apply Forall_singleton. subst tab rid. split; [done|]. exists fd, h', tm. cbn. rewrite lookup_insert_eq.
        split; [done|]. rewrite Hdb. split; [done|]. split; [done|]. split; [apply Hw|]. split; [apply Hw|].
        intros old new Him'. rewrite Him in Him'. injection Him' as Hold _. rewrite (rw_size _ _ _ _ _ _ _ Hw). by apply Hlen.
    + eapply performed_app; [exact Hp|]. exists (sys_rows s tab rid), v. subst tab rid. split; [done|]. unfold only.
      rewrite decide_True by done. split; [done|]. intros tab' rid'.
      change (sys_rows (set_txn _ _ _) tab' rid') with (sys_rows (set_tables (mkDb (<[tab_name_ w := (fd, h')]> (sm_fhs s)) st) s) tab' rid').
      rewrite Hrows. repeat case_decide; naive_solver.
  - cbn. apply lookup_insert_eq.
  - exact Hrows.
Qed.

(** ** The log, and the transaction's fields *)

Lemma undoable_mono k n s : n ≤ k → undoable k s → undoable n s.
Proof.
  intros Hn [Hok Hdb Hl (ws & [Hf Ho Hw Hlog HB] & Hu)]. split; [done..|]. exists ws. split; [|done]. split; [|done..].
  intros tab fd h HX Hfh. destruct (Hf tab fd h HX Hfh) as [? ? ? ?]. split; try done; lia.
Qed.

Lemma undoable_txn k s T T' :
  undoable k s → txns (sm_locks s) !! txn = Some T → write_set_ T' = write_set_ T → lock_set_ T' = lock_set_ T →
  undoable k (set_txn txn T' s).
Proof.
  intros [Hok Hdb (W & HI & HW) (ws & [Hf Ho (T1 & HT1 & HTw) Hlog HB] & Hu)] HT Hws Hls. simplify_eq. split.
  - by apply set_txn_ok.
  - done.
  - exists W. split; [|done]. cbn. eapply Inv_txn; [done|done|by rewrite Hls].
  - eexists. split; [|exact Hu]. split; [done|done| |done|by apply (lf_txn (sm_locks s) T1)]. exists T'. cbn. rewrite lookup_insert_eq. split; [done|congruence].
Qed.

Lemma undoable_logged k s st :
  undoable k s → log_written (sm_storage s) st → is_Some (s_log st) →
  let s' := set_tables (mkDb (sm_fhs s) st) s in
  undoable k s' ∧ ∀ tab rid, sys_rows s' tab rid = sys_rows s tab rid.
Proof.
  intros [Hok Hdb Hl (ws & [Hf Ho Hw Hlog HB] & Hu & Hp)] Hlw Hst s'. destruct (log_written_sys s st Hok Hlw) as [Hok' Hrows].
  split; [|done]. split; [done|done|done|]. exists ws. split; [split|split].
  - cbn. intros tab fd h HX Hfh. destruct (Hf tab fd h HX Hfh) as [Hr ? ? ?]. split; [|done..].
    destruct Hlw as [[Hi _ _] Hb Hv Hfd Hpg]. by eapply quiet_rm.
  - exact Ho.
  - done.
  - done.
  - exact HB.
  - exact Hu.
  - eapply performed_ext; [exact Hp|]. intros tab rid. unfold only. case_decide; [apply Hrows|done].
Qed.

(** ** A statement on one table

    [T] is what the tables hold: the rows of the statement's table [tab], whose file is
    [fd], come and go. *)

Section table.
Context (tab : bytes) (HX : tab ∈ X) (fd : Z) (size : Z).
Context (wait : Z → wait_point → M (Sys R) bool) (Hwait : patient wait).

Definition set_row (rid : Rid) (v : option bytes) (T : rows_t) : rows_t :=
  λ tab' rid', if decide (tab' = tab ∧ rid' = rid) then v else T tab' rid'.

Record stands k (T : rows_t) s : Prop := {
  st_undo : undoable k s;
  st_file : ∃ h, sm_fhs s !! tab = Some (fd, h) ∧ record_size h = size;
  st_rows tab' rid : tab' ∈ X → sys_rows s tab' rid = T tab' rid;
}.

Lemma stands_ext k T T' s : stands k T s → (∀ tab' rid, tab' ∈ X → T' tab' rid = T tab' rid) → stands k T' s.
Proof using Type. intros [Hu Hf Hr] HT. split; [done|done|]. intros tab' rid HX'. by rewrite HT, Hr. Qed.

Lemma stands_reading k T s ws s' :
  stands k T s → work_kept ws k s → reading_with txn s X (work_kept ws k) None s' → stands k T s'.
Proof using HX.
  intros [Hu (h & Hf & Hsz) Hr] Hw Hrd. split.
  - by eapply reading_undoable.
  - destruct (rg_files _ _ _ _ _ _ Hrd tab fd h HX Hf) as (h' & Hf' & [x ->]). by exists (set_first_free x h).
  - intros tab' rid HX'. rewrite (rg_rows _ _ _ _ _ _ Hrd) by done. by apply Hr.
Qed.

Lemma stands_left k T e s : F e → stands k T s → left_undoable k e s.
Proof using Type. intros He Hst. right. split; [apply Hst|by right]. Qed.

Lemma wp_stands_lock k T op s :
  plain_lock op → stands k T s → wp (lock_call txn wait (run_op txn op)) (λ _ s', stands k T s') (left_undoable k) s.
Proof using HX Hwait LockFact0.
  intros Hop Hst. pose proof (st_undo _ _ _ Hst) as Hu. destruct (un_work _ _ Hu) as (ws & Hw & _).
  eapply wp_mono; [eapply wp_lock_call; [by apply undoable_relies|exact Hop|by apply undoable_reading]|].
  intros b s' Hrd. by eapply stands_reading.
Qed.

Lemma wp_stands_fh {A} k T (op : Z → M (RmFileHdr * Storage R) A) s (Q : A → Sys R → Prop) h :
  stands k T s → sm_fhs s !! tab = Some (fd, h) →
  wp (op fd) (λ a t, Q a (set_tables (mkDb (<[tab := (fd, t.1)]> (sm_fhs s)) t.2) s)) fails_io (h, sm_storage s) →
  wp (on_fh tab op) Q (left_undoable k) s.
Proof using Type. intros Hst Hf H. eapply wp_weaken; [by eapply wp_on_fh|]. intros e s' He. by left. Qed.

Lemma wp_stands_GetFd k T s (Q : Z → Sys R → Prop) : stands k T s → Q fd s → wp (GetFd tab) Q (left_undoable k) s.
Proof using Type.
  intros Hst HQ. destruct (st_file _ _ _ Hst) as (h & Hf & _). eapply wp_stands_fh; [done|exact Hf|]. apply wp_ret. cbn.
  rewrite insert_id by done. by destruct s.
Qed.

Lemma wp_stands_get k T rid t s :
  stands k T s → T tab rid = Some t →
  wp (fh_get_record txn wait true tab rid) (λ b s', b = t ∧ stands k T s') (left_undoable k) s.
Proof using HX Hwait LockFact0.
  intros Hst Ht. pose proof (st_undo _ _ _ Hst) as Hu. destruct (un_work _ _ Hu) as (ws & Hw & _).
  destruct (st_file _ _ _ Hst) as (h & Hf & _).
  eapply wp_mono; [eapply wp_fh_get_record; [by apply undoable_relies|by apply undoable_reading|exact HX|exact Hf|]|].
  { rewrite (st_rows _ _ _ Hst) by done. exact Ht. }
  intros b s' [-> Hrd]. split; [done|]. by eapply stands_reading.
Qed.

Lemma wp_stands_log k T value rid (mk : Z → Z → RowLog → LogRecord) s :
  stands k T s →
  (∀ id prev ff np, let r := mk id prev (mkRow value rid tab ff np) in sized r ∧ len (serialize r) ≤ LOG_BUFFER_SIZE) →
  wp (log_row txn tab value rid mk) (λ _ s', stands k T s') (left_undoable k) s.
Proof using LockFact0.
  intros Hst Hmk. pose proof (st_undo _ _ _ Hst) as Hu. destruct (st_file _ _ _ Hst) as (h & Hf & Hsz).
  destruct (un_work _ _ Hu) as (ws & [_ _ (Tx & HTx & _) [lm Hlm] _] & _).
  eapply (wp_weaken _ _ fails_io); [|by left]. unfold log_row.
  apply wp_bind. eapply wp_on_get_txn; [exact HTx|]. apply wp_bind, wp_gets, wp_bind, wp_of_option; [by eexists|].
  intros lm' Hlm'. assert (lm' = lm) as -> by congruence. apply wp_bind. eapply wp_on_mod_txn; [exact HTx|].
  set (s1 := set_txn txn _ s). assert (undoable k s1) as Hu1 by by eapply undoable_txn.
  apply wp_bind. eapply wp_on_fh; [exact Hf|]. apply wp_gets. cbn [fst snd].
  replace (set_tables (mkDb (<[tab := (fd, h)]> (sm_fhs s1)) (sm_storage s1)) s1) with s1 by (by rewrite insert_id).
  apply wp_bind, wp_on_pages. destruct (Hmk (txn_id_ Tx) (prev_lsn Tx) (first_free_page_no h) (num_pages h)) as [Hs1 Hs2].
  eapply wp_add_log; [apply Hu1|exact Hlm|done|done|]. intros st lm' b Hlw Hlm2 _. apply wp_ret.
  destruct (undoable_logged k s1 st Hu1 Hlw) as [Hu2 Hr2]; [by eexists|]. split; [done|by exists h|].
  intros tab' rid' HX'. rewrite Hr2. by apply (st_rows _ _ _ Hst).
Qed.

(** *** A row is written *)

Lemma stands_row_length k T s rid b h : stands k T s → sm_fhs s !! tab = Some (fd, h) → sys_rows s tab rid = Some b → len b = record_size h.
Proof using Type.
  intros Hst Hf Hb. unfold sys_rows in Hb. rewrite Hf in Hb. apply row_at in Hb as (_ & d & _ & _ & Hrd). by apply rd_length in Hrd.
Qed.

(** The state behind the write and its entry in the write set. *)
Lemma stands_written k n T s h h' rid v w st :
  stands k T s → sm_fhs s !! tab = Some (fd, h) → row_written fd h h' rid v (sm_storage s) st →
  num_pages h' + n ≤ num_pages h + k → n ≤ k → 0 ≤ n →
  tab_name_ w = tab → wr_rid_ w = rid → images w = Some (sys_rows s tab rid, v) →
  stands n (set_row rid v T) (appended w (set_tables (mkDb (<[tab := (fd, h')]> (sm_fhs s)) st) s)).
Proof using HX Hcap LockFact0.
  intros Hst Hf Hw Hpg Hnk Hn Hwt Hwr Him. destruct (st_file _ _ _ Hst) as (h0 & Hf0 & Hsz). assert (h0 = h) as -> by congruence.
  destruct (undoable_write k n tab fd h h' rid v w s st) as (Hu & Hf' & Hrows); try done; [apply Hst| |].
  { intros b Hb. by eapply stands_row_length. }
  split; [done| |].
  - exists h'. split; [done|]. by rewrite (rw_size _ _ _ _ _ _ _ Hw).
  - intros tab' rid' HX'. rewrite Hrows. unfold set_row. case_decide; [done|]. by apply (st_rows _ _ _ Hst).
Qed.

Lemma wp_append_write w s (Q : unit → Sys R → Prop) :
  is_Some (txns (sm_locks s) !! txn) → Q tt (appended w s) → wp (append_write txn w) Q fails_io s.
Proof using Type.
  intros [T HT] HQ. unfold append_write. eapply wp_on_mod_txn; [exact HT|]. unfold appended in HQ. by rewrite HT in HQ.
Qed.

Lemma wp_stands_delete k T s rid old w :
  0 ≤ k → stands k T s → T tab rid = Some old → w = mkWrite DELETE_TUPLE tab rid (Some old) None →
  wp (do! on_fh tab (λ fd, delete_record fd rid true) in append_write txn w)
    (λ _ s', stands k (set_row rid None T) s') (left_undoable k) s.
Proof using HX Hcap LockFact0.
  intros Hk Hst HT ->. pose proof (st_undo _ _ _ Hst) as Hu. destruct (st_file _ _ _ Hst) as (h & Hf & Hsz).
  destruct (un_work _ _ Hu) as (ws & [Hfiles _ (Tx & HTx & _) Hlog _] & _). destruct (Hfiles tab fd h HX Hf) as [Hr Hfd Hmax _].
  eapply (wp_weaken _ _ fails_io); [|by left]. apply wp_bind. eapply wp_on_fh; [exact Hf|].
  eapply (wp_delete_written fd h (sm_storage s)); [apply Hu|done|lia|done| |].
  { rewrite <-HT, <-(st_rows _ _ _ Hst) by done. unfold sys_rows. by rewrite Hf. }
  intros h' st Hpg Hw. apply wp_append_write; [by exists Tx|]. cbn [fst snd].
  eapply (stands_written k k T s h h'); [done|done|exact Hw|lia|lia|lia|done|done|]. cbn.
  by rewrite (st_rows _ _ _ Hst), HT.
Qed.

Lemma wp_stands_update k T s rid old new w :
  0 ≤ k → stands k T s → T tab rid = Some old → len new = size → w = mkWrite UPDATE_TUPLE tab rid (Some new) (Some old) →
  wp (do! on_fh tab (λ fd, update_record fd rid new true) in append_write txn w)
    (λ _ s', stands k (set_row rid (Some new) T) s') (left_undoable k) s.
Proof using HX Hcap LockFact0.
  intros Hk Hst HT Hl ->. pose proof (st_undo _ _ _ Hst) as Hu. destruct (st_file _ _ _ Hst) as (h & Hf & Hsz).
  destruct (un_work _ _ Hu) as (ws & [Hfiles _ (Tx & HTx & _) Hlog _] & _). destruct (Hfiles tab fd h HX Hf) as [Hr Hfd Hmax _].
  eapply (wp_weaken _ _ fails_io); [|by left]. apply wp_bind. eapply wp_on_fh; [exact Hf|].
  eapply (wp_update_written fd h (sm_storage s)); [apply Hu|done|lia|done| |lia|].
  { rewrite <-HT, <-(st_rows _ _ _ Hst) by done. unfold sys_rows. by rewrite Hf. }
  intros st Hw. rewrite (rd_exact new) in Hw by lia. apply wp_append_write; [by exists Tx|]. cbn [fst snd].
  eapply (stands_written k k T s h h); [done|done|exact Hw|lia|lia|lia|done|done|]. cbn.
  by rewrite (st_rows _ _ _ Hst), HT.
Qed.

(** An insertion uses up the room of a page. *)
Lemma wp_stands_insert {A} k T s new (mk : Rid → WriteRecord) (m : Rid → M (Sys R) A) (Q : A → Sys R → Prop) :
  1 ≤ k → stands k T s → len new = size → (∀ rid, mk rid = mkWrite INSERT_TUPLE tab rid (Some new) None) →
  (∀ rid s', T tab rid = None → stands (k - 1) (set_row rid (Some new) T) s' → wp (m rid) Q (left_undoable (k - 1)) s') →
  wp (let! rid := on_fh tab (λ fd, insert_record fd new true) in do! append_write txn (mk rid) in m rid) Q (left_undoable (k - 1)) s.
Proof using HX Hcap LockFact0.
  intros Hk Hst Hl Hmk HQ. pose proof (st_undo _ _ _ Hst) as Hu. destruct (st_file _ _ _ Hst) as (h & Hf & Hsz).
  destruct (un_work _ _ Hu) as (ws & [Hfiles _ (Tx & HTx & _) Hlog _] & _). destruct (Hfiles tab fd h HX Hf) as [Hr Hfd Hmax _].
  apply wp_bind. eapply (wp_weaken _ _ fails_io).
  { eapply wp_on_fh; [exact Hf|].
    eapply (wp_insert_written fd h (sm_storage s)); [apply Hu|done|lia|done|done|lia|lia|].
    intros rid h' st Hnone Hw. cbn [fst snd]. apply wp_bind. eapply (wp_weaken _ _ fails_io); [|by left].
    apply wp_append_write; [by exists Tx|]. rewrite (rd_exact new) in Hw by lia. rewrite Hmk.
    assert (sys_rows s tab rid = None) as Hnone2 by (unfold sys_rows; by rewrite Hf).
    apply HQ; [by rewrite <-(st_rows _ _ _ Hst)|].
    pose proof (rw_pages _ _ _ _ _ _ _ Hw). eapply (stands_written k (k - 1) T s h h'); [done|done|exact Hw|lia|lia|lia|done|done|].
    cbn. by rewrite Hnone2. }
  intros e s' He. by left.
Qed.
End table.
End undoable.
