(* ===== verification/Statements.v ===== *)
(** * What statements do to the rows

    An INSERT, a DELETE or an UPDATE on a table without indexes changes the rows as its text
    says ([effect]), and leaves them so that the transaction can be rolled back; whatever it
    ends with, and however many statements the transaction has run. *)
From Stdlib Require Import Floats.SpecFloat.
From S2P Require Import Prelude Bytes Bitmap Disk Log Replacer BufferPool Record PoolRun Rows RowWrite Scan RowScan Recovery Streams Meta Txn Lock LockSafety System TxnManager Rollback Exec ExecLaws ExecTypes ExecScan ExecPlan Dml Tuples DmlRows.

(** ** Effects *)

Definition cols_of (db : DbMeta) (tab : bytes) : list ColMeta :=
  match get_table tab db with Ok tm => tab_cols tm | _ => [] end.

(** The rows of a table that satisfy the conditions, changed by [g]. *)
Definition rows_changed (db : DbMeta) (tab : bytes) (conds : list Condition) (g : bytes → option bytes) (T : rows_t) : rows_t :=
  λ tab' rid, if decide (tab' = tab) then
    t ← T tab rid; if forallb (cond_holds (cols_of db tab) t) conds then g t else Some t
  else T tab' rid.
Definition updated (C : list ColMeta) (clauses : list SetClause) (t : bytes) : option bytes :=
  match apply_clauses C clauses t with Ok t' => Some t' | _ => None end.

(** What a statement means, of the rows before it and after it. *)
Definition effect (junk_bytes : bytes) (db : DbMeta) (p : DMLPlan) (T T' : rows_t) : Prop :=
  match p with
  | InsertPlan tab values => ∃ n rid values' t,
      record_len (cols_of db tab) = Ok n ∧
      fill_record (cols_of db tab) values (new_buf junk_bytes n) = Ok (values', t) ∧
      T tab rid = None ∧ T' = set_row tab rid (Some t) T
  | DeletePlan _ tab conds => T' = rows_changed db tab conds (λ _, None) T
  | UpdatePlan _ tab conds clauses => T' = rows_changed db tab conds (updated (cols_of db tab) clauses) T
  end.

(** A statement whose values go into the columns; its rows are found by a scan. *)
Definition admissible (F : exn → Prop) (db : DbMeta) (p : DMLPlan) : Prop :=
  match p with
  | InsertPlan tab values =>
      Forall2 (insertable F) (cols_of db tab) values ∨ (length values ≠ length (cols_of db tab) ∧ F InvalidValueCountError)
  | DeletePlan sub tab conds => sub = SeqScanPlan tab conds ∧ is_Some (schema db sub)
  | UpdatePlan sub tab conds clauses =>
      sub = SeqScanPlan tab conds ∧ is_Some (schema db sub) ∧ Forall (clause_ok F (cols_of db tab)) clauses
  end.
Definition table_of (p : DMLPlan) : bytes :=
  match p with InsertPlan tab _ => tab | DeletePlan _ tab _ => tab | UpdatePlan _ tab _ _ => tab end.
(** The pages it may add to its table. *)
Definition growth (p : DMLPlan) : Z := match p with InsertPlan _ _ => 1 | _ => 0 end.

(** *** Log records of rows *)

Definition makes_small (mk : Z → Z → RowLog → LogRecord) : Prop := ∀ id prev row,
  len (value_ row) ≤ RM_MAX_RECORD_SIZE → len (table_name_ row) ≤ 2 ^ 20 →
  sized (mk id prev row) ∧ len (serialize (mk id prev row)) ≤ LOG_BUFFER_SIZE.

Lemma row_records_small old :
  len old ≤ RM_MAX_RECORD_SIZE →
  makes_small InsertLogRecord ∧ makes_small DeleteLogRecord ∧ makes_small (λ id prev row, UpdateLogRecord id prev old row).
Proof.
  intros Hold. unfold makes_small, RM_MAX_RECORD_SIZE in *.
  assert (∀ id prev row, len (value_ row) ≤ 512 → len (table_name_ row) ≤ 2 ^ 20 →
    Forall (λ r, sized r ∧ len (serialize r) ≤ LOG_BUFFER_SIZE)
      [InsertLogRecord id prev row; DeleteLogRecord id prev row; UpdateLogRecord id prev old row]) as H.
  { intros id prev row Hv Ht.
    assert (len old + len (value_ row) + len (table_name_ row) + 52 < 2 ^ 32) as Hlt by lia.
    pose proof (log_tot_len_is_length INSERT id prev 0 old row Hlt) as Hall.
    apply Forall_inv_tail, Forall_inv_tail, Forall_inv_tail, Forall_inv_tail in Hall.
    pose proof (serialize_row_length row) as Hr.
    assert (len (serialize_value old) = 4 + len old) as Hso by (unfold serialize_value; len).
    eapply Forall_impl; [apply Forall_and; split; [exact Hall|]|].
    - instantiate (1 := λ r, len (serialize r) ≤ LOG_BUFFER_SIZE).
      repeat constructor; rewrite serialize_length;
        cbn [InsertLogRecord DeleteLogRecord UpdateLogRecord row_record log_body serialize_body];
        rewrite ?length_app, ?Nat2Z.inj_add, ?Hso, ?Hr; unfold LOG_BUFFER_SIZE, PAGE_SIZE; lia.
    - intros r [Hx Hy]. split; [|exact Hy]. unfold sized. rewrite serialize_length in *. exact Hx. }
  split_and!; intros id prev row Hv Ht; pose proof (H id prev row Hv Ht) as Hall.
  - by apply Forall_inv in Hall.
  - by apply Forall_inv_tail, Forall_inv in Hall.
  - by apply Forall_inv_tail, Forall_inv_tail, Forall_inv in Hall.
Qed.

(** ** The rows a scan collects *)

Lemma length_slots_from h d i : (length (slots_from h d i) ≤ Z.to_nat (num_records_per_page h - i))%nat.
Proof. unfold slots_from. etrans; [apply length_filter|]. by rewrite length_seqZ. Qed.

Lemma length_rids_from h V k p : (length (rids_from h V k p 0) ≤ k * Z.to_nat (num_records_per_page h))%nat.
Proof.
  revert p. induction k as [|k IH]; intros p; [done|]. cbn [rids_from]. rewrite length_app. specialize (IH (p + 1)).
  assert (length (page_rids h V p 0) ≤ Z.to_nat (num_records_per_page h))%nat; [|lia].
  unfold page_rids. destruct (V p) as [d|]; [|simpl; lia]. rewrite length_fmap. etrans; [apply length_slots_from|]. lia.
Qed.

Section rids.
Context {R : Type} `{!Replacer R, !ReplacerLaws R} (txn : Z) (s0 : Sys R) (X : list bytes) (K : Sys R → Prop).
Context (E : exn → Sys R → Prop) (wait : Z → wait_point → M (Sys R) bool) (Hrely : relies txn s0 X K E wait).
Context (junk : Rid) (fuel : nat) (Hs0 : sys_ok s0).
#[local] Instance scan_executor : Executor (Sys R) SeqScan := SeqScan_executor txn wait junk fuel.
Abbreviation reading := (reading_with txn s0 X K None).
Abbreviation chosen e l := (filter (λ r, Is_true (passes s0 (ss_tab_name e) (ss_cols e) (ss_conds e) r)) l).

Lemma wp_rids_loop k e fd h rs s :
  seq_ok s0 X fuel e fd h → seq_stands s0 e fd h rs → reading s → (length rs ≤ k)%nat →
  wp (rids_loop k e) (λ r s', reading s' ∧ r = rs) E s.
Proof using Hrely Hs0.
  revert e rs s. induction k as [|k IH]; intros e rs s Hok Hst Hrd Hk; cbn [rids_loop is_end scan_executor SeqScan_executor].
  { destruct Hst as [->|]; [by apply wp_ret|simpl in Hk; lia]. }
  inversion Hst as [He|sc l He]; [rewrite He; by apply wp_ret|]. subst rs. rewrite He.
  apply wp_bind. eapply wp_mono; [by eapply (seq_step_rids txn s0 X K E wait Hrely junk fuel Hs0)|].
  intros e' s1 (Hrd1 & Hsame & Hst1). apply wp_bind.
  eapply wp_mono; [eapply IH; [by eapply same_scan_ok|exact Hst1|done|simpl in Hk; lia]|].
  intros r s2 [Hrd2 ->]. by apply wp_ret.
Qed.

Lemma wp_collect_rids e fd h s :
  seq_ok s0 X fuel e fd h → reading s →
  wp (collect_rids fuel e) (λ r s', reading s' ∧ r = chosen e (places fd h (sm_storage s0))) E s.
Proof using Hrely Hs0.
  intros Hok Hrd. apply wp_bind. eapply wp_mono; [by eapply (seq_begin_rids txn s0 X K E wait Hrely junk fuel Hs0)|].
  intros e' s1 (Hrd1 & Hsame & Hst). eapply wp_rids_loop; [by eapply same_scan_ok|exact Hst|done|].
  etrans; [apply length_filter|]. apply Hok.
Qed.
End rids.

(** ** The statements *)

Section statements.
Context {R : Type} `{!Replacer R, !ReplacerLaws R} (txn : Z) (X : list bytes) (db : DbMeta) (T0 : rows_t).
Context (cap : Z) (Hcap : cap ≤ MAX_TABLE_PAGES) (fuel : nat).
Context (B : LockManager → Prop) `{!LockFact txn B} (F : exn → Prop).
Context (wait : Z → wait_point → M (Sys R) bool) (Hwait : patient txn X db T0 cap fuel B wait) (junk : Rid) (junk_bytes : bytes).
Implicit Types (s : Sys R) (k : Z) (T : rows_t).
Abbreviation undoable := (undoable txn X db T0 cap fuel B).
Abbreviation left := (left_undoable txn X db T0 cap fuel B F).

Section table.
Context (tab : bytes) (HX : tab ∈ X) (fd size : Z).
Abbreviation stands := (stands txn X db T0 cap fuel B tab fd size).

Lemma left_mono k e s : left k e s → left (k - 1) e s.
Proof using Type. intros [?|[Hu He]]; [by left|]. right. split; [|done]. eapply undoable_mono; [|done]. lia. Qed.

Lemma stands_described k T s : stands k T s → ∃ tm, described db tab tm size ∧ 0 ≤ size ≤ RM_MAX_RECORD_SIZE.
Proof using HX LockFact0.
  intros [Hu (h & Hf & Hsz) _]. destruct (un_work _ _ _ _ _ _ _ _ _ Hu) as (ws & Hw & _).
  destruct (wk_open _ _ _ _ _ _ _ _ _ Hw tab HX) as (g & i & tm & Hf' & Hd). assert (i = h) as -> by congruence.
  exists tm. rewrite <-Hsz. split; [done|]. assert (hdr_ok h) as [? _ _]; [|lia].
  apply (ri_hdr fd h (sm_storage s)). by apply (wk_files _ _ _ _ _ _ _ _ _ Hw tab fd h HX Hf).
Qed.

Lemma wp_stands_table_meta k T tm s (Q : TabMeta → Sys R → Prop) :
  stands k T s → described db tab tm size → Q tm s → wp (table_meta tab) Q (left k) s.
Proof using Type.
  intros Hst Hd HQ. unfold table_meta. apply wp_bind, wp_gets. rewrite (un_db _ _ _ _ _ _ _ _ _ (st_undo _ _ _ _ _ _ _ _ _ _ _ _ _ Hst)).
  eapply wp_of_outcome; [apply Hd|done].
Qed.

Lemma wp_stands_fh_at k T s (Q : Z → Sys R → Prop) : stands k T s → Q fd s → wp (fh_at tab) Q (left k) s.
Proof using Type.
  intros Hst HQ. destruct (st_file _ _ _ _ _ _ _ _ _ _ _ _ _ Hst) as (h & Hf & _). unfold fh_at. apply wp_bind, wp_gets. rewrite Hf.
  by apply wp_ret.
Qed.

(** The conditions and the new bytes of a row. *)
Lemma wp_stands_outcome k T s (o : outcome bytes) (Q : bytes → Sys R → Prop) :
  stands k T s → keeps_size F size o → (∀ t, o = Ok t → len t = size → Q t s) → wp (of_outcome o) Q (left k) s.
Proof using Type.
  intros Hst Ho HQ. destruct o as [t|e|]; cbn in Ho; [|by eapply stands_left|done]. by apply HQ.
Qed.

Lemma wp_stands_log_row k T value rid mk s :
  stands k T s → len value = size → makes_small mk →
  wp (log_row txn tab value rid mk) (λ _ s', stands k T s') (left k) s.
Proof using HX LockFact0.
  intros Hst Hv Hmk. destruct (stands_described k T s Hst) as (tm & Hd & Hsz). eapply wp_stands_log; [done..|].
  intros id prev ff np. apply Hmk; cbn; [lia|apply Hd].
Qed.

(** *** A loop over rows *)

(** The rows at the places [rs], changed by [g]. *)
Definition places_changed (rs : list Rid) (g : bytes → option bytes) (T : rows_t) : rows_t :=
  λ tab' rid, if decide (tab' = tab ∧ rid ∈ rs) then T tab rid ≫= g else T tab' rid.

Lemma wp_for_each_row (f : Rid → M (Sys R) unit) (g : bytes → option bytes) (P : bytes → Prop) rs k T s :
  (∀ rid t T1 s1, stands k T1 s1 → T1 tab rid = Some t → P t →
    wp (f rid) (λ _ s', stands k (set_row tab rid (g t) T1) s') (left k) s1) →
  NoDup rs → (∀ rid, rid ∈ rs → ∃ t, T tab rid = Some t ∧ P t) → stands k T s →
  wp (for_each f rs) (λ _ s', stands k (places_changed rs g T) s') (left k) s.
Proof using LockFact0.
  clear Hcap Hwait wait HX. intros Hf. revert T s. induction rs as [|rid rs IH]; intros T s Hnd Hin Hst.
  - apply wp_ret. eapply stands_ext; [done|]. intros tab' r _. unfold places_changed. rewrite decide_False; [done|].
    intros [_ ?]. set_solver.
  - apply NoDup_cons in Hnd as [Hr Hnd]. destruct (Hin rid) as (t & Ht & HP); [by left|]. cbn [for_each foldr].
    apply wp_bind. eapply wp_mono; [by eapply Hf|]. intros [] s1 Hst1. cbn.
    eapply wp_mono; [apply (IH (set_row tab rid (g t) T) s1 Hnd); [|exact Hst1]|].
    { intros r Hr'. destruct (Hin r) as (t' & Ht' & HP'); [by right|]. exists t'. split; [|done]. unfold set_row.
      rewrite decide_False; [done|]. by intros [_ ->]. }
    intros [] s2 Hst2. eapply stands_ext; [exact Hst2|]. intros tab' r _. unfold places_changed, set_row.
    destruct (decide (tab' = tab)) as [->|Hne]; [|by rewrite !decide_False by tauto].
    destruct (decide (r = rid)) as [->|Hne].
    + rewrite decide_True by set_solver. rewrite decide_False by tauto. rewrite decide_True by done. by rewrite Ht.
    + destruct (decide (r ∈ rs)).
      * assert (r ∈ rid :: rs) by by right. rewrite !decide_True by done. rewrite decide_False by tauto. done.
      * assert (r ∉ rid :: rs) by by intros [?|?]%elem_of_cons. by rewrite !decide_False by (by intros [_ ?]).
Qed.
(** *** The rows of a statement *)

(** The places of the rows that satisfy the conditions. *)
Definition matching (tm : TabMeta) (conds : list Condition) (T : rows_t) (rs : list Rid) : Prop :=
  NoDup rs ∧ ∀ rid, rid ∈ rs ↔ ∃ t, T tab rid = Some t ∧ forallb (cond_holds (tab_cols tm) t) conds = true.

Lemma places_fit k T s h :
  0 ≤ k → stands k T s → sm_fhs s !! tab = Some (fd, h) →
  rm_inv fd h (sm_storage s) ∧ (length (places fd h (sm_storage s)) ≤ fuel)%nat.
Proof using HX LockFact0.
  intros Hk Hst Hf. destruct (un_work _ _ _ _ _ _ _ _ _ (st_undo _ _ _ _ _ _ _ _ _ _ _ _ _ Hst)) as (ws & Hw & _).
  destruct (wk_files _ _ _ _ _ _ _ _ _ Hw tab fd h HX Hf) as [Hr Hfd Hpg Hrows]. split; [done|].
  etrans; [apply length_rids_from|]. etrans; [|exact Hrows].
  pose proof (hdr_ok_bounds h (ri_hdr _ _ _ Hr)) as [Hn _]. pose proof (ri_num _ _ _ Hr).
  rewrite Z2Nat.inj_mul by lia. apply Nat.mul_le_mono_r, Z2Nat.inj_le; lia.
Qed.

Lemma wp_rids_of_plan k T s tm conds C n :
  0 ≤ k → stands k T s → described db tab tm size → schema db (SeqScanPlan tab conds) = Some (C, n) →
  wp (rids_of_plan txn wait junk junk_bytes fuel (SeqScanPlan tab conds))
    (λ rs s', stands k T s' ∧ matching tm conds T rs) (left k) s.
Proof using HX Hwait LockFact0.
  intros Hk Hst Hd Hs. pose proof (st_undo _ _ _ _ _ _ _ _ _ _ _ _ _ Hst) as Hu.
  destruct (un_work _ _ _ _ _ _ _ _ _ Hu) as (ws & Hw & _). pose proof (un_db _ _ _ _ _ _ _ _ _ Hu) as Hdb.
  pose proof (undoable_reading _ _ _ _ _ _ _ _ _ _ Hu Hw) as Hrd. pose proof (un_ok _ _ _ _ _ _ _ _ _ Hu) as Hok.
  pose proof (undoable_relies _ _ _ _ _ _ _ F _ _ _ _ Hwait Hu Hw) as Hrely.
  destruct (st_file _ _ _ _ _ _ _ _ _ _ _ _ _ Hst) as (h & Hf & Hsz).
  destruct (places_fit k T s h Hk Hst Hf) as [Hrm Hfuel].
  pose proof Hs as (tm' & Htm' & Hn & Hct & -> & Hfit & Hcs)%scan_schema. destruct Hd as [Htm Hname Hix Hlen Hcols Hshort].
  assert (tm' = tm) as -> by congruence. assert (n = size) as -> by congruence.
  unfold rids_of_plan. cbn [convert_plan_executor]. apply wp_bind.
  eapply (wp_SeqScanExecutor txn s X _ _ wait Hrely); [exact Hrd|exact HX|by rewrite Hdb|exact Hf|exact Hlen|exact Hct|].
  intros e s1 Hrd1 H1 H2 H3 H4.
  assert (seq_ok s X fuel e fd h) as Hseq by (split; rewrite ?H1, ?H2, ?H3, ?Hsz; done).
  eapply wp_mono; [exact (wp_collect_rids txn s X _ _ wait Hrely junk fuel Hok e fd h s1 Hseq Hrd1)|].
  intros rs s2 [Hrd2 ->]. split; [by eapply stands_reading|]. split; [apply NoDup_filter, places_NoDup|].
  intros rid. rewrite list_elem_of_filter, (elem_of_places fd h _ _ Hrm), H1, H2, H3.
  unfold passes. rewrite (st_rows _ _ _ _ _ _ _ _ _ _ _ _ _ Hst tab rid HX).
  assert (rows_of fd h (sm_storage s) rid = T tab rid) as ->.
  { rewrite <-(st_rows _ _ _ _ _ _ _ _ _ _ _ _ _ Hst) by done. unfold sys_rows. by rewrite Hf. }
  destruct (T tab rid) as [t|]; [|by split; [intros [[] _]|intros (? & ? & _)]].
  split.
  - intros [Hp _]. exists t. split; [done|]. by apply Is_true_true.
  - intros (t' & [= <-] & Hp). split; [by apply Is_true_true|by eexists].
Qed.
Lemma stands_length k T s rid t : stands k T s → T tab rid = Some t → len t = size.
Proof using HX LockFact0.
  intros Hst Ht. destruct (st_file _ _ _ _ _ _ _ _ _ _ _ _ _ Hst) as (h & Hf & <-).
  eapply stands_row_length; [exact Hst|exact Hf|]. by rewrite (st_rows _ _ _ _ _ _ _ _ _ _ _ _ _ Hst).
Qed.

Section rows.
Context (tm : TabMeta) (Hd : described db tab tm size) (conds : list Condition).
Context (Hconds : forallb (cond_typed (tab_cols tm)) conds = true).

(** A row that the statement is about. *)
Definition hit (t : bytes) : Prop := len t = size ∧ forallb (cond_holds (tab_cols tm) t) conds = true.

Lemma eval_hit t : hit t → eval_condition (tab_cols tm) conds t = Ok true.
Proof using Hd Hconds LockFact0.
  intros [Hl Ht]. rewrite <-Ht. apply eval_typed; [|done]. rewrite Hl. apply Hd.
Qed.

Lemma matching_hits k T s rs : stands k T s → matching tm conds T rs → NoDup rs ∧ ∀ rid, rid ∈ rs → ∃ t, T tab rid = Some t ∧ hit t.
Proof using HX LockFact0.
  intros Hst [Hnd Hin]. split; [done|]. intros rid (t & Ht & Hc)%Hin. exists t. split; [done|]. split; [|done].
  by eapply stands_length.
Qed.

Lemma wp_delete_one k T s rid t rs :
  0 ≤ k → stands k T s → T tab rid = Some t → hit t →
  wp (delete_one txn wait junk_bytes (mkDelete tm conds rs tab) rid)
    (λ _ s', stands k (set_row tab rid None T) s') (left k) s.
Proof using HX Hd Hconds Hwait Hcap LockFact0.
  intros Hk Hst Ht Hhit. unfold delete_one. cbn [de_tab_name de_tab de_conds].
  apply wp_bind. eapply wp_mono; [by eapply wp_stands_get|]. intros b s1 [-> Hst1].
  apply wp_bind. eapply wp_of_outcome; [by apply eval_hit|].
  apply wp_bind. eapply wp_mono; [eapply wp_stands_delete; [exact Hcap|done|exact HX|exact Hk|exact Hst1|exact Ht|by rewrite (ds_name _ _ _ _ Hd)]|].
  intros u s2 Hst2. rewrite (ds_indexes _ _ _ _ Hd). apply wp_bind, wp_ret.
  eapply wp_stands_log_row; [exact Hst2|by destruct Hhit|]. apply (row_records_small []). done.
Qed.

Lemma wp_update_one k T s rid t clauses rs :
  0 ≤ k → stands k T s → T tab rid = Some t → hit t → Forall (clause_ok F (tab_cols tm)) clauses →
  wp (update_one txn wait junk_bytes (mkUpdate tm conds rs tab clauses) rid)
    (λ _ s', stands k (set_row tab rid (updated (tab_cols tm) clauses t) T) s') (left k) s.
Proof using HX Hd Hconds Hwait Hcap LockFact0.
  intros Hk Hst Ht Hhit Hcl. unfold update_one. cbn [up_tab_name up_tab up_conds set_clauses].
  apply wp_bind. eapply wp_mono; [by eapply wp_stands_get|]. intros b s1 [-> Hst1].
  apply wp_bind. eapply wp_of_outcome; [by apply eval_hit|]. cbn [negb].
  apply wp_bind. eapply wp_stands_outcome; [done|by apply apply_clauses_keeps; [apply Hd|..|apply Hhit]|]. intros new Hnew Hl.
  rewrite (ds_indexes _ _ _ _ Hd). cbn [update_indexes]. apply wp_bind, wp_ret. unfold updated. rewrite Hnew.
  apply wp_assoc, wp_bind.
  eapply wp_mono; [eapply wp_stands_update; [exact Hcap|done|exact HX|exact Hk|exact Hst1|exact Ht|exact Hl|done]|].
  intros u s2 Hst2. eapply wp_stands_log_row; [exact Hst2|done|].
  apply (row_records_small t). destruct (stands_described _ _ _ Hst1) as (_ & _ & Hsz). destruct Hhit. lia.
Qed.

(** *** The executors *)

Lemma wp_stands_lock_table k T s :
  stands k T s → wp (lock_table txn wait tm fd) (λ _ s', stands k T s') (left k) s.
Proof using HX Hd Hwait LockFact0.
  intros Hst. unfold lock_table. rewrite (ds_indexes _ _ _ _ Hd). by apply (wp_stands_lock txn X db T0 cap fuel B F tab HX fd size wait Hwait k T (LTableX fd)).
Qed.

Lemma wp_delete_rows k T s rs :
  0 ≤ k → stands k T s → matching tm conds T rs →
  wp (let! e := DeleteExecutor txn wait tab conds rs in let! _ := de_Next txn wait junk_bytes e in ret tt)
    (λ _ s', stands k (places_changed rs (λ _, None) T) s') (left k) s.
Proof using HX Hd Hconds Hwait Hcap LockFact0.
  intros Hk Hst Hm. destruct (matching_hits k T s rs Hst Hm) as [Hnd Hin]. unfold DeleteExecutor.
  apply wp_bind, wp_bind. eapply wp_stands_table_meta; [done..|]. apply wp_bind. eapply wp_stands_fh_at; [done|].
  apply wp_bind. eapply wp_mono; [by apply wp_stands_lock_table|]. intros b s1 Hst1. apply wp_ret.
  unfold de_Next. cbn [de_rids]. apply wp_bind, wp_bind.
  eapply wp_mono; [eapply (wp_for_each_row _ (λ _, None) hit)|]; [|exact Hnd|exact Hin|exact Hst1|].
  - intros rid t T1 s2 Hst2 Ht Hhit. by eapply wp_delete_one.
  - intros u s2 Hst2. by apply wp_ret, wp_ret.
Qed.

Lemma wp_update_rows k T s rs clauses :
  0 ≤ k → stands k T s → matching tm conds T rs → Forall (clause_ok F (tab_cols tm)) clauses →
  wp (let! e := UpdateExecutor txn wait tab clauses conds rs in let! _ := up_Next txn wait junk_bytes e in ret tt)
    (λ _ s', stands k (places_changed rs (updated (tab_cols tm) clauses) T) s') (left k) s.
Proof using HX Hd Hconds Hwait Hcap LockFact0.
  intros Hk Hst Hm Hcl. destruct (matching_hits k T s rs Hst Hm) as [Hnd Hin]. unfold UpdateExecutor.
  apply wp_bind, wp_bind. eapply wp_stands_table_meta; [done..|]. apply wp_bind. eapply wp_stands_fh_at; [done|].
  apply wp_bind. eapply wp_mono; [by apply (wp_stands_lock txn X db T0 cap fuel B F tab HX fd size wait Hwait k T (LTableX fd))|]. intros b s1 Hst1. apply wp_ret.
  unfold up_Next. cbn [up_rids]. apply wp_bind, wp_bind.
  eapply wp_mono; [eapply (wp_for_each_row _ (updated (tab_cols tm) clauses) hit)|]; [|exact Hnd|exact Hin|exact Hst1|].
  - intros rid t T1 s2 Hst2 Ht Hhit. by eapply wp_update_one.
  - intros u s2 Hst2. by apply wp_ret, wp_ret.
Qed.

Lemma wp_insert_row k T s values :
  1 ≤ k → stands k T s →
  Forall2 (insertable F) (tab_cols tm) values ∨ (length values ≠ length (tab_cols tm) ∧ F InvalidValueCountError) →
  wp (let! e := InsertExecutor junk tab values in let! _ := in_Next txn wait junk_bytes e in ret tt)
    (λ _ s', ∃ rid values' t, fill_record (tab_cols tm) values (new_buf junk_bytes size) = Ok (values', t) ∧
       T tab rid = None ∧ stands (k - 1) (set_row tab rid (Some t) T) s') (left (k - 1)) s.
Proof using HX Hd Hwait Hcap LockFact0.
  intros Hk Hst Hval. assert (stands (k - 1) T s) as Hst0.
  { destruct Hst as [Hu Hf Hr]. split; [|done|done]. eapply undoable_mono; [|done]. lia. }
  destruct (stands_described k T s Hst) as (_ & _ & Hsize). unfold InsertExecutor.
  apply wp_bind, wp_bind. eapply wp_stands_table_meta; [done..|]. case_decide as Hlen.
  2: { eapply stands_left; [|done]. destruct Hval as [Hval%Forall2_length|[_ HF]]; [by destruct Hlen|done]. }
  destruct Hval as [Hval|[? _]]; [|done].
  apply wp_bind. eapply wp_stands_fh_at; [done|]. apply wp_ret.
  unfold in_Next. cbn [in_tab_name in_tab in_values]. apply wp_bind, wp_bind.
  eapply wp_weaken; [|intros e s'; apply left_mono]. eapply wp_stands_GetFd; [exact Hst|]. apply wp_bind.
  eapply wp_weaken; [|intros e s'; apply left_mono]. eapply wp_mono; [by apply wp_stands_lock_table|]. intros b s1 Hst1. apply wp_bind.
  destruct (st_file _ _ _ _ _ _ _ _ _ _ _ _ _ Hst1) as (h & Hf & Hsz).
  eapply wp_weaken; [|intros e s'; apply left_mono]. eapply wp_stands_fh; [exact Hst1|exact Hf|]. apply wp_gets. cbn [fst snd].
  rewrite insert_id by done. replace (set_tables _ s1) with s1 by by destruct s1. rewrite Hsz.
  pose proof (fill_record_keeps F size (tab_cols tm) values (new_buf junk_bytes size) (ds_cols _ _ _ _ Hd) Hval) as Hfill.
  assert (size = len (new_buf junk_bytes size)) as Hnew by (unfold new_buf; rewrite length_take, length_app, length_replicate; lia).
  specialize (Hfill (eq_sym Hnew)). apply wp_bind. destruct (fill_record _ _ _) as [[values' t]|e|] eqn:Hfr; cbn in Hfill.
  2: { apply left_mono. eapply stands_left; [exact Hfill|exact Hst1]. }
  2: done.
  apply wp_ret.
  eapply wp_stands_insert; [exact Hcap|done|exact HX|exact Hk|exact Hst1|exact Hfill|by intros; rewrite (ds_name _ _ _ _ Hd)|].
  intros rid s2 Hnone Hst2. rewrite (ds_indexes _ _ _ _ Hd). apply wp_bind, wp_ret, wp_bind.
  eapply wp_mono; [eapply wp_stands_log_row; [exact Hst2|done|]|].
  { by apply (row_records_small []). }
  intros u s3 Hst3. apply wp_ret, wp_ret. exists rid, values', t. done.
Qed.

End rows.
End table.

(** The two descriptions of the rows of a DELETE or an UPDATE. *)
Lemma matching_rows tab tm size conds g rs T tab' rid :
  described db tab tm size → matching tab tm conds T rs →
  rows_changed db tab conds g T tab' rid = places_changed tab rs g T tab' rid.
Proof using Type.
  intros [Htm _ _ _ _ _] [_ Hin]. unfold rows_changed, places_changed, cols_of. rewrite Htm.
  destruct (decide (tab' = tab)) as [->|Hne]; [|by rewrite decide_False by (by intros [])].
  destruct (T tab rid) as [t|] eqn:Ht; [|by case_decide]. cbn.
  destruct (decide (rid ∈ rs)) as [Hr|Hr].
  - rewrite decide_True by done. apply Hin in Hr as (t' & Ht' & Hc). rewrite Ht in Ht'. injection Ht' as <-. by rewrite Hc.
  - rewrite decide_False by (by intros []). destruct (forallb _ _) eqn:Hc; [|done]. destruct Hr. apply Hin. by exists t.
Qed.

(** A statement, from a state that can be rolled back to another one. *)
Lemma wp_execute k p s :
  undoable k s → admissible F db p → table_of p ∈ X → growth p ≤ k →
  wp (execute txn wait junk junk_bytes fuel p)
    (λ _ s', undoable (k - growth p) s' ∧
       ∃ T', effect junk_bytes db p (sys_rows s) T' ∧ ∀ tab rid, tab ∈ X → sys_rows s' tab rid = T' tab rid)
    (left (k - growth p)) s.
Proof using Hcap Hwait LockFact0.
  intros Hu Hadm HX Hk. destruct (un_work _ _ _ _ _ _ _ _ _ Hu) as (ws & Hw & _).
  destruct (wk_open _ _ _ _ _ _ _ _ _ Hw _ HX) as (fd & h & tm & Hf & Hd). set (size := record_size h) in *.
  assert (stands txn X db T0 cap fuel B (table_of p) fd size k (sys_rows s) s) as Hst by (split; [done|by exists h|done]).
  assert (0 ≤ k) as Hk0 by (destruct p; simpl in Hk; lia).
  assert (∀ sub tab conds, sub = SeqScanPlan tab conds → is_Some (schema db sub) → tab = table_of p →
    ∃ C n, schema db (SeqScanPlan tab conds) = Some (C, n) ∧ forallb (cond_typed (tab_cols tm)) conds = true) as Hscan.
  { intros sub tab conds -> [[C n] Hs] ->. exists C, n. split; [done|].
    apply scan_schema in Hs as (tm' & Htm & _ & _ & -> & _ & Hc). rewrite (ds_table _ _ _ _ Hd) in Htm. by injection Htm as <-. }
  assert (cols_of db (table_of p) = tab_cols tm) as HC by (unfold cols_of; by rewrite (ds_table _ _ _ _ Hd)).
  assert (record_len (cols_of db (table_of p)) = Ok size) as Hlen by (rewrite HC; apply Hd).
  unfold execute. apply wp_bind. destruct p as [tab values|sub tab conds|sub tab conds clauses]; cbn [portal_start table_of growth admissible] in *.
  - rewrite HC in Hadm. apply wp_bind.
    eapply wp_mono; [eapply wp_bind_inv; eapply wp_insert_row; [exact HX|exact Hd|exact Hk|exact Hst|exact Hadm]|].
    cbn beta. intros e s1 H. apply wp_ret. cbn [run_dml]. eapply wp_mono; [exact H|].
    intros u s2 (rid & values' & t & Hfr & Hnone & Hst2). split; [apply Hst2|]. exists (set_row tab rid (Some t) (sys_rows s)).
    split; [|apply Hst2]. exists size, rid, values', t. rewrite HC in *. done.
  - destruct Hadm as [-> Hs]. destruct (Hscan _ _ _ eq_refl Hs eq_refl) as (C & n & Hs' & Hc). rewrite Z.sub_0_r.
    apply wp_bind. eapply wp_mono; [eapply wp_rids_of_plan; [exact HX|exact Hk0|exact Hst|exact Hd|exact Hs']|].
    intros rs s1 [Hst1 Hm]. apply wp_bind.
    eapply wp_mono; [eapply wp_bind_inv; eapply wp_delete_rows; [exact HX|exact Hd|exact Hc|exact Hk0|exact Hst1|exact Hm]|].
    cbn beta. intros e s2 H. apply wp_ret. cbn [run_dml]. eapply wp_mono; [exact H|].
    intros u s3 Hst3. split; [apply Hst3|]. eexists. split; [done|]. intros tab' rid HX'.
    rewrite (matching_rows tab tm size conds _ rs) by done. by apply Hst3.
  - destruct Hadm as (-> & Hs & Hcl). destruct (Hscan _ _ _ eq_refl Hs eq_refl) as (C & n & Hs' & Hc). rewrite Z.sub_0_r.
    rewrite HC in Hcl. apply wp_bind. eapply wp_mono; [eapply wp_rids_of_plan; [exact HX|exact Hk0|exact Hst|exact Hd|exact Hs']|].
    intros rs s1 [Hst1 Hm]. apply wp_bind.
    eapply wp_mono; [eapply wp_bind_inv; eapply wp_update_rows; [exact HX|exact Hd|exact Hc|exact Hk0|exact Hst1|exact Hm|exact Hcl]|].
    cbn beta. intros e s2 H. apply wp_ret. cbn [run_dml]. eapply wp_mono; [exact H|].
    intros u s3 Hst3. split; [apply Hst3|]. eexists. split; [done|]. intros tab' rid HX'.
    rewrite (matching_rows tab tm size conds _ rs) by done. rewrite HC. by apply Hst3.
Qed.
End statements.
