(* ===== verification/Atomic.v ===== *)
(** * Statements, and transactions of several of them

    The theorems on the executors that change data: what a statement does to the rows; that
    a transaction can be rolled back after any statements of it, however they ended; and
    what becomes of a single statement that is aborted. *)
From S2P Require Import Prelude Bytes Bitmap Disk Log Replacer BufferPool Record PoolRun Rows RowWrite Scan RowScan Recovery Streams Meta Txn Lock LockSafety LockRelease LockWanted System TxnManager Rollback Exec ExecLaws ExecTypes ExecScan ExecPlan Dml DmlRows Statements.

Section transactions.
Context {R : Type} `{!Replacer R, !ReplacerLaws R} (txn : Z) (X : list bytes) (db : DbMeta) (T0 : rows_t).
Context (cap : Z) (fuel : nat) (wait : Z → wait_point → M (Sys R) bool) (junk : Rid) (junk_bytes : bytes).
Implicit Types (s : Sys R) (k : Z).
(** Nothing is asked of the locks for what a statement does; for an abort, that every table in
    the transaction's lock set is requested by somebody ([backed]). *)
Abbreviation undoable := (DmlRows.undoable txn X db T0 cap fuel (λ _, True)).
Abbreviation patient := (DmlRows.patient txn X db T0 cap fuel (λ _, True)).
Abbreviation revocable := (DmlRows.undoable txn X db T0 cap fuel (backed txn)).
Abbreviation patient_revocable := (DmlRows.patient txn X db T0 cap fuel (backed txn)).
Abbreviation execute p := (execute txn wait junk junk_bytes fuel p).

(** ** Statements one after the other *)

Definition run_statements (ps : list DMLPlan) : M (Sys R) unit := for_each (λ p, execute p) ps.
Definition growths (ps : list DMLPlan) : Z := foldr (λ p n, growth p + n) 0 ps.

Lemma growth_pos p : 0 ≤ growth p.
Proof using Type. by destruct p. Qed.
Lemma growths_pos ps : 0 ≤ growths ps.
Proof using Type. induction ps as [|p ps IH]; [done|]. cbn. pose proof (growth_pos p). unfold growths in IH. lia. Qed.

Lemma wp_run_statements F k ps s :
  cap ≤ MAX_TABLE_PAGES → patient_revocable wait → revocable k s → growths ps ≤ k →
  Forall (λ p, admissible F db p ∧ table_of p ∈ X) ps →
  wp (run_statements ps) (λ _ s', revocable (k - growths ps) s')
    (λ e s', io_error e = true ∨ revocable (k - growths ps) s') s.
Proof using Type.
  intros Hcap Hwait Hu Hk Hps. revert k s Hu Hk. induction Hps as [|p ps [Hp HX] Hps IH]; intros k s Hu Hk.
  { apply wp_ret. cbn. by rewrite Z.sub_0_r. }
  pose proof (growth_pos p). pose proof (growths_pos ps). change (growths (p :: ps)) with (growth p + growths ps) in *.
  cbn [run_statements for_each foldr]. apply wp_bind. replace (k - (growth p + growths ps)) with (k - growth p - growths ps) by lia.
  eapply (wp_weaken _ _ (left_undoable txn X db T0 cap fuel (backed txn) F (k - growth p)));
    [|intros e s1 [He|[Hu1 _]]; [by left|right; eapply undoable_mono; [|exact Hu1]; lia]].
  eapply wp_mono; [eapply (wp_execute txn X db T0 cap Hcap fuel (backed txn) F wait Hwait); [exact Hu|done|done|lia]|].
  intros u s1 [Hu1 _]. eapply wp_weaken; [eapply IH; [done|lia]|]. intros e s2 He. exact He.
Qed.

(** ** The rollback *)

Lemma performed_all T ws T1 :
  Forall (λ w, tab_name_ w ∈ X) ws → performed T1 ws (only X T) →
  performed (λ tab rid, if decide (tab ∈ X) then T1 tab rid else T tab rid) ws T.
Proof using Type.
  intros HX. revert T1. induction HX as [|w ws Hw HX IH]; intros T1; simpl.
  - intros HT tab rid. case_decide as Hd; [|done]. rewrite <-HT. unfold only. by rewrite decide_True.
  - intros (T2 & (old & new & Hi & Ho & Hn) & Hp). eexists. split; [|by apply IH]. exists old, new.
    split; [done|]. split; [by rewrite decide_True|]. intros tab rid. rewrite Hn.
    destruct (decide (tab = tab_name_ w ∧ rid = wr_rid_ w)) as [[-> _]|]; [by rewrite decide_True|done].
Qed.

(** An abort at this point gives the tables the rows [T0] again, and releases the locks. *)
Definition restorable s : Prop := ∀ order,
  (∀ S, order S ≡ₚ elements S) →
  wp (abort order junk_bytes txn)
    (λ _ s', (∀ tab rid, tab ∈ X → sys_rows s' tab rid = T0 tab rid) ∧ sys_ok s' ∧
       (∀ id, ¬ has_request (sm_locks s') txn id) ∧
       ∃ T', txns (sm_locks s') !! txn = Some T' ∧ state_ T' = ABORTED ∧ write_set_ T' = [] ∧ lock_set_ T' = ∅)
    fails_io s.

Lemma undoable_restorable k s : revocable k s → restorable s.
Proof using Type.
  intros [Hok Hdb (W & HI & HW) (ws & [_ _ (T & HT & Hws) Hlog HB] & Hu & Hp)] order Hord. subst ws.
  eapply wp_mono.
  - eapply (wp_rollback order junk_bytes txn T _ W); [exact Hok| | |eapply performed_all; [|exact Hp]].
    + split; [done..|apply Hord| |done]. intros id. by apply HB.
    + eapply Forall_impl; [exact Hu|]. by intros w [_ ?].
    + eapply Forall_impl; [exact Hu|]. by intros w [? _].
  - intros u s1 [Hr [Hs1 _ _ Hno (T' & lm & b & ? & ? & ? & ? & _)]]. split; [|split_and!; [done..|by exists T']].
    intros tab rid Hin. rewrite Hr. by rewrite decide_True.
Qed.

(** C7: What a statement does.  An INSERT, DELETE or UPDATE of a transaction on a table
    without indexes, its values going into its columns and its conditions typed, in a state
    where the transaction's changes can be undone and the table has room for a page, returns,
    or meets an error of the file system, the abort of the transaction, or an exception of
    [F], which are those its values may raise; with values that fit, none.  When it returns,
    the rows of the transaction's tables are the old ones with the effect of the statement:
    one new row at a free place; or the rows that satisfy the conditions removed, or changed
    by the SET clauses, and all others as they were.  The changes can be undone again. *)
Theorem statement_effect F k p s :
  cap ≤ MAX_TABLE_PAGES → patient wait → undoable k s →
  admissible F db p → table_of p ∈ X → growth p ≤ k →
  wp (execute p)
    (λ _ s', undoable (k - growth p) s' ∧
       ∃ T', effect junk_bytes db p (sys_rows s) T' ∧ ∀ tab rid, tab ∈ X → sys_rows s' tab rid = T' tab rid)
    (λ e s', io_error e = true ∨ (undoable (k - growth p) s' ∧ ((∃ t reason, e = TransactionAbortException t reason) ∨ F e)))
    s.
Proof using Type. intros Hcap Hwait Hu Hp HX Hk. by apply (wp_execute txn X db T0 cap Hcap fuel (λ _, True)). Qed.

(** C6: A transaction is undone as a whole.  After any sequence of INSERT, DELETE and UPDATE
    statements on tables without indexes, whose rows were [T0] when the transaction began,
    whether all statements returned or one of them ended with an exception that is no error
    of the file system, half way through its rows, by the death of the transaction in a lock
    call, or otherwise: an abort at this point returns, or meets an error of the file system,
    and gives the tables the rows [T0] again, with the transaction's locks released and its
    write set empty.  At the start every table in the transaction's lock set is requested by
    some transaction (there is none in it when it has just begun); while a lock call waits
    the other threads leave that so, and the rows of these tables; and they take no step
    between the end of the last statement and the end of the abort, which LockGaps.v shows
    to be needed ([release_follows_null]). *)
Theorem statements_can_be_rolled_back F k ps s :
  cap ≤ MAX_TABLE_PAGES → patient_revocable wait → revocable k s → growths ps ≤ k →
  Forall (λ p, admissible F db p ∧ table_of p ∈ X) ps →
  wp (run_statements ps) (λ _ s', restorable s') (λ e s', io_error e = true ∨ restorable s') s.
Proof using Type.
  intros Hcap Hwait Hu Hk Hps. eapply wp_weaken; [eapply wp_mono; [by eapply wp_run_statements|]|].
  - intros u s'. apply undoable_restorable.
  - intros e s' [He|Hu']; [by left|]. right. by eapply undoable_restorable.
Qed.
End transactions.

(** A transaction that has not written yet. *)
Lemma undoable_begin {R : Type} `{!Replacer R, !ReplacerLaws R} txn X db cap fuel B k (s : Sys R) T :
  B (sm_locks s) → sys_ok s → sm_db s = db → (∃ W, Inv (sm_locks s) W ∧ W !! txn = None) → txns (sm_locks s) !! txn = Some T →
  write_set_ T = [] → is_Some (s_log (sm_storage s)) →
  (∀ tab, tab ∈ X → ∃ fd h tm, sm_fhs s !! tab = Some (fd, h) ∧ described db tab tm (record_size h) ∧ roomy cap fuel k fd h (sm_storage s)) →
  undoable txn X db (only X (sys_rows s)) cap fuel B k s.
Proof.
  intros HB Hok Hdb Hl HT Hws Hlog Hf. split; [done..|]. exists []. split; [|done]. split.
  - intros tab fd h HX Hfh. destruct (Hf tab HX) as (fd' & h' & tm & Hfh' & _ & Hr). by simplify_eq.
  - intros tab HX. destruct (Hf tab HX) as (fd & h & tm & Hfh & Hd & _). by exists fd, h, tm.
  - by exists T.
  - done.
  - exact HB.
Qed.

(** ** Witnesses: a transaction on a table with one row *)

#[local] Existing Instance LRU.lru_replacer.
#[local] Existing Instance LRU.lru_laws.

Definition demo_at (c : config) : Sys LRU.LRUReplacer :=
  mkSys (sm_db demo_query_sys) (sm_fhs demo_sys) ∅ ∅ (sm_storage demo_sys) (locks c) (sm_txns demo_sys).
Definition demo_dml_sys : Sys LRU.LRUReplacer := demo_at demo_locked.
(** Transaction 1 has read the table when transaction 2, younger, comes to it. *)
Definition demo_read : config := default start (do_events [EBegin 1; EBegin 2; ECall 1 (LIS 3)] start).
(** The lock calls of the demonstration do not wait. *)
Definition demo_no_wait (txn : Z) (w : wait_point) : M (Sys LRU.LRUReplacer) bool := throw UnixError.
(** INSERT INTO t VALUES (7, 'x'); UPDATE t SET b = 'hi' WHERE a > 5; DELETE FROM t WHERE a = 7 *)
Definition demo_scan (op : CompOp) (n : Z) : list Condition :=
  [mkCond (mkTabCol [116] [97]) op true (mkTabCol [] []) (mkValue TYPE_INT n [] None)].
Definition demo_insert : DMLPlan := InsertPlan [116] [mkValue TYPE_INT 7 [] None; mkValue TYPE_STRING 0 [120] None].
Definition demo_update : DMLPlan :=
  UpdatePlan (SeqScanPlan [116] (demo_scan OP_GT 5)) [116] (demo_scan OP_GT 5)
    [mkSet (mkTabCol [116] [98]) (mkValue TYPE_STRING 0 [104; 105] None)].
Definition demo_delete : DMLPlan := DeletePlan (SeqScanPlan [116] (demo_scan OP_EQ 7)) [116] (demo_scan OP_EQ 7).

Lemma demo_at_ok c : sys_ok (demo_at c).
Proof. destruct demo_sys_ok as [H1 H2 H3]. split; [exact H1|exact H2|exact H3]. Qed.

Lemma demo_described : described (sm_db demo_dml_sys) [116] (mkTab [116] demo_cols []) (record_size demo_inserted.1).
Proof.
  split; [reflexivity..|vm_compute; reflexivity| |vm_compute; discriminate].
  change (record_size demo_inserted.1) with 100. repeat constructor.
Qed.

Lemma demo_backed : backed 1 (sm_locks demo_dml_sys).
Proof.
  intros T id HT Hid _. assert (lock_set_ <$> txns (locks demo_locked) !! 1 = Some {[ table_id 3 ]}) as E by (vm_compute; reflexivity).
  change (txns (locks demo_locked) !! 1 = Some T) in HT. rewrite HT in E. injection E as E. rewrite E in Hid. apply elem_of_singleton in Hid as ->.
  eexists 1, 0, _, _. split; [vm_compute; reflexivity|]. split; [apply list_elem_of_singleton; reflexivity|reflexivity].
Qed.

Lemma demo_undoable_at txn c T (B : LockManager → Prop) :
  B (locks c) → reachable no_gap_lock c → waiting c !! txn = None → txns (locks c) !! txn = Some T → write_set_ T = [] →
  undoable txn [[116]] (sm_db demo_dml_sys) (only [[116]] (sys_rows demo_dml_sys)) 3 120 B 1 (demo_at c).
Proof.
  intros HB Hc HW HT Hws.
  apply (undoable_begin txn [[116]] (sm_db demo_dml_sys) 3 120 B 1 (demo_at c) T HB).
  - apply demo_at_ok.
  - reflexivity.
  - exists (waiting c). split; [by apply Inv_reachable|done].
  - exact HT.
  - exact Hws.
  - by eexists.
  - intros tab ->%list_elem_of_singleton. exists 3, demo_inserted.1, (mkTab [116] demo_cols []).
    split; [reflexivity|]. split; [exact demo_described|]. split.
    + exact (with_log_rm (Some (mkLM 5 [] 5)) 3 demo_inserted.1 demo_inserted.2 demo_stored demo_inserted_inv).
    + done.
    + vm_compute. discriminate.
    + apply Nat.leb_le. vm_compute. reflexivity.
Qed.

Lemma demo_undoable (B : LockManager → Prop) :
  B (locks demo_locked) →
  undoable 1 [[116]] (sm_db demo_dml_sys) (only [[116]] (sys_rows demo_dml_sys)) 3 120 B 1 demo_dml_sys.
Proof.
  intros HB. eapply demo_undoable_at; [exact HB| |vm_compute; reflexivity..].
  apply (do_events_steps _ [EBegin 1; ECall 1 (LTableX 3)]); [by repeat constructor|vm_compute; reflexivity].
Qed.

Lemma demo_read_undoable :
  undoable 2 [[116]] (sm_db demo_dml_sys) (only [[116]] (sys_rows demo_dml_sys)) 3 120 (backed 2) 1 (demo_at demo_read).
Proof.
  eapply demo_undoable_at; [| |vm_compute; reflexivity..].
  - intros T id HT Hid _. assert (lock_set_ <$> txns (locks demo_read) !! 2 = Some ∅) as E by (vm_compute; reflexivity).
    rewrite HT in E. injection E as E. rewrite E in Hid. by apply elem_of_empty in Hid.
  - apply (do_events_steps _ [EBegin 1; EBegin 2; ECall 1 (LIS 3)]); [by repeat constructor|vm_compute; reflexivity].
Qed.

Lemma demo_patient txn X db T0 cap fuel B : patient txn X db T0 cap fuel B demo_no_wait.
Proof. intros k ws s0 p s _ _. by left. Qed.

Lemma demo_scan_typed op n : is_Some (schema (sm_db demo_dml_sys) (SeqScanPlan [116] (demo_scan op n))).
Proof. eexists. vm_compute. reflexivity. Qed.

Lemma demo_admissible p : p ∈ [demo_insert; demo_update; demo_delete] → admissible (λ _, False) (sm_db demo_dml_sys) p.
Proof.
  intros [->|[->|[->|[]%elem_of_nil]%elem_of_cons]%elem_of_cons]%elem_of_cons.
  - left. change (cols_of (sm_db demo_dml_sys) [116]) with demo_cols. constructor; [|constructor; [|constructor]].
    + split; [reflexivity|]. split; [discriminate|]. split; [left; reflexivity|discriminate].
    + split; [reflexivity|]. split; [discriminate|]. split; [left; reflexivity|]. left. vm_compute. discriminate.
  - split; [done|]. split; [apply demo_scan_typed|]. constructor; [|done]. exists 1%nat, (mkCol [116] [98] TYPE_STRING 96 4 false).
    split; [reflexivity|]. split; [reflexivity|]. left. vm_compute. discriminate.
  - split; [done|]. apply demo_scan_typed.
Qed.

Lemma demo_all_admissible ps :
  ps ⊆ [demo_insert; demo_update; demo_delete] →
  Forall (λ p, admissible (λ _, False) (sm_db demo_dml_sys) p ∧ table_of p ∈ [[116]]) ps.
Proof.
  intros Hps. apply Forall_forall. intros p Hp%Hps. split; [by apply demo_admissible|]. apply list_elem_of_singleton.
  by repeat (apply elem_of_cons in Hp as [->|Hp]; [reflexivity|]); apply elem_of_nil in Hp.
Qed.

Definition demo_T0 : rows_t := only [[116]] (sys_rows demo_dml_sys).
(** The row of the table after the UPDATE. *)
Definition demo_set_row : bytes := [7; 7; 7; 7; 104; 105] ++ replicate 94 0.

Lemma statement_effect_witness :
  wp (execute 1 demo_no_wait (mkRid 0 0) [] 120 demo_update)
    (λ _ s', undoable 1 [[116]] (sm_db demo_dml_sys) demo_T0 3 120 (λ _, True) (1 - growth demo_update) s' ∧
       ∃ T', effect [] (sm_db demo_dml_sys) demo_update (sys_rows demo_dml_sys) T' ∧
         ∀ tab rid, tab ∈ [[116]] → sys_rows s' tab rid = T' tab rid)
    (λ e s', io_error e = true ∨ (undoable 1 [[116]] (sm_db demo_dml_sys) demo_T0 3 120 (λ _, True) (1 - growth demo_update) s' ∧
       ((∃ t reason, e = TransactionAbortException t reason) ∨ False)))
    demo_dml_sys ∧
  let r := execute 1 demo_no_wait (mkRid 0 0) [] 120 demo_update demo_dml_sys in
  r.1 = Ok tt ∧ sys_rows r.2 [116] (mkRid 1 0) = Some demo_set_row.
Proof.
  split.
  - apply (statement_effect 1 [[116]] (sm_db demo_dml_sys) demo_T0 3 120 demo_no_wait (mkRid 0 0) [] (λ _, False) 1 demo_update demo_dml_sys).
    + vm_compute. discriminate.
    + apply demo_patient.
    + by apply demo_undoable.
    + apply demo_admissible. right. left.
    + left.
    + vm_compute. discriminate.
  - split; vm_compute; reflexivity.
Defined.

(** The second run ends in the death of the transaction: the UPDATE, whose scan has locked the
    table, asks for it exclusively, and transaction 1, older, reads it.  The table is left in
    the lock set, but not requested any more by transaction 2; the abort returns. *)
Lemma statements_can_be_rolled_back_witness :
  wp (run_statements 1 120 demo_no_wait (mkRid 0 0) [] [demo_insert; demo_update; demo_delete])
    (λ _ s', restorable 1 [[116]] demo_T0 [] s') (λ e s', io_error e = true ∨ restorable 1 [[116]] demo_T0 [] s') demo_dml_sys ∧
  (let r := run_statements 1 120 demo_no_wait (mkRid 0 0) [] [demo_insert; demo_update; demo_delete] demo_dml_sys in
  r.1 = Ok tt ∧ sys_rows r.2 [116] (mkRid 1 0) = Some demo_set_row ∧
  let r' := abort elements [] 1 r.2 in
  r'.1 = Ok tt ∧ sys_rows r'.2 [116] (mkRid 1 0) = Some demo_record ∧ sys_rows r'.2 [116] (mkRid 1 1) = None) ∧
  wp (run_statements 2 120 demo_no_wait (mkRid 0 0) [] [demo_update])
    (λ _ s', restorable 2 [[116]] demo_T0 [] s') (λ e s', io_error e = true ∨ restorable 2 [[116]] demo_T0 [] s') (demo_at demo_read) ∧
  let r := run_statements 2 120 demo_no_wait (mkRid 0 0) [] [demo_update] (demo_at demo_read) in
  r.1 = Throw (TransactionAbortException 2 DEADLOCK_PREVENTION) ∧
  bool_decide (table_id 3 ∈ default ∅ (lock_set_ <$> txns (sm_locks r.2) !! 2)) = true ∧
  (map rq_txn ∘ request_queue_ <$> queues (sm_locks r.2) !! (table_id 3, 0)) = Some [1] ∧
  let r' := abort elements [] 2 r.2 in r'.1 = Ok tt ∧ sys_rows r'.2 [116] (mkRid 1 0) = Some demo_record.
Proof.
  split_and!.
  - apply (statements_can_be_rolled_back 1 [[116]] (sm_db demo_dml_sys) demo_T0 3 120 demo_no_wait (mkRid 0 0) [] (λ _, False) 1
      [demo_insert; demo_update; demo_delete] demo_dml_sys).
    + vm_compute. discriminate.
    + apply demo_patient.
    + apply demo_undoable, demo_backed.
    + vm_compute. discriminate.
    + by apply demo_all_admissible.
  - cbv zeta. split_and!; vm_compute; reflexivity.
  - apply (statements_can_be_rolled_back 2 [[116]] (sm_db demo_dml_sys) demo_T0 3 120 demo_no_wait (mkRid 0 0) [] (λ _, False) 1
      [demo_update] (demo_at demo_read)).
    + vm_compute. discriminate.
    + apply demo_patient.
    + apply demo_read_undoable.
    + vm_compute. discriminate.
    + apply demo_all_admissible. intros p ->%list_elem_of_singleton. right. left.
  - cbv zeta. split_and!; vm_compute; reflexivity.
Defined.

(** ** A statement that is a transaction of its own *)

(** Transaction 1 has the table when the client of transaction 2 sends an INSERT. *)
Definition demo_two : config := default start (do_events [EBegin 1; EBegin 2; ECall 1 (LTableX 3)] start).
Definition demo_two_sys : Sys LRU.LRUReplacer :=
  mkSys (sm_db demo_query_sys) (sm_fhs demo_sys) ∅ ∅ (sm_storage demo_sys) (locks demo_two) (sm_txns demo_sys).
Definition demo_reply : outcome reply * Sys LRU.LRUReplacer :=
  run_statement 2 demo_no_wait (mkRid 0 0) [] 120 elements demo_insert demo_two_sys.

(** A single statement that is aborted is committed as well: wait-die kills transaction 2
    in its INSERT, the server rolls it back and answers that it was aborted, and then calls
    [commit] all the same: the transaction ends as COMMITTED, and a commit record follows its
    abort record in the log. *)
Theorem aborted_statement_commits :
  demo_reply.1 = Ok Aborted ∧ state_ <$> txns (sm_locks demo_reply.2) !! 2 = Some COMMITTED ∧
  buffer_ <$> s_log (sm_storage demo_reply.2) =
    Some (serialize (set_lsn 5 (AbortLogRecord 2)) ++ serialize (set_lsn 6 (set_record_prev 5 (CommitLogRecord 2)))).
Proof. split_and!; vm_compute; reflexivity. Qed.
